(* ===== verification/_CoqProject ===== *)
-Q . S2P
Prelude.v
Errors.v
GoStrings.v
Strconv.v
GoIO.v
Message.v
Handshake.v
FakeAdb.v
Stream.v
Schedule.v
Address.v
Sync.v
Link.v
Text.v
Services.v
Auth.v
Usb.v
ServerProtocol.v
Json.v
Codec.v
Forwards.v
Sessions.v
Tunnel.v
Remote.v
Cancel.v
Reverses.v
Server.v
Handlers.v
Closing.v
Usage.v
Cli.v
Facade.v
Custom.v
Wire.v
Wired.v
Output.v
Commands.v
Compat.v
AdbGos.v
