(* ===== verification/Prelude.v ===== *)
(** * adb-go: a verification development

    adb-go is a client of the Android Debug Bridge protocol in Go: a library
    ([protocol], [client], [auth], [internal/usb]), a server that keeps port
    forwards alive ([internal/server], run by [cmd/adb-gos]) and two command
    lines in one binary ([cmd/adb-go]: its own, [custom], and an adb-compatible
    one, [compat]).  This development models these packages and proves what
    makes them correct.  It is a shallow embedding: a Go function is a Rocq
    function on explicit state, an error is a value, and goroutines that share
    state are step relations.

    ** The parts and how they interact

    - Prelude, Errors, GoStrings, Strconv, GoIO: tactics and lemmas; Go's error
      values with [errors.Is]; the functions of strings, strconv and net that
      the packages use; readers that deliver bytes in any chunks and the
      contract of [io.Writer] as the class [WriterOk].  Everything below is
      proved against these.
    - Message (protocol/message.go): packets.  Handshake (protocol/connection.go):
      CNXN and AUTH, against the abstract plan of the credentials.  FakeAdb
      (internal/fakeadb): the device's end, put against the client's.
    - Stream (protocol/stream.go): the connection as a heap of streams, one
      function for each function of the file, run to completion; Schedule cuts
      the reader goroutine into its critical sections and lets the users'
      goroutines in between.  Link joins it to the clients: a stream, with the
      reader goroutine at work beside it, refines the reader of GoIO, and its
      [Write] is an instance of [WriterOk].
    - Address (client.go, forward.go, reverse.go, transport.go, tcp_scan.go of
      client/): addresses, endpoints, connecting, scanning.  Sync (sync.go):
      push and pull, over any reader and writer, and in Link over a stream of a
      connection.  Text and Services: the services of a device: shell,
      logcat, reboot, getprop, screencap, install.  Auth (auth/auth.go): keys.
      Usb (internal/usb, client/usb.go): descriptors, discovery, selection and
      the bulk transport.
      Remote joins Services to Link: a shell command on a stream of a connection.
      Cancel (closeOnCancel of client.go and connection.go): the goroutine that
      ends an operation whose context is done.
    - Sessions (client/forward.go, client/reverse.go): the modules [Forward] and
      [Reverse], the foreground forwarding sessions with their goroutines.
      Tunnel: the bytes of one bridge, whose copies run beside the reader
      goroutine, over Stream, Link and the [io.Copy] of Services.
    - ServerProtocol, Forwards, Reverses, Server (internal/server): the
      parameters with their validation and the device registry; the two
      registries, one function for each critical section and a step relation
      for all of them; the socket, the life of the server and the handler of
      requests, which calls the registries and is shown to refine their steps.
      Handlers: the goroutines of the connections, a handler cut at the critical
      sections of the registries; Closing: shutting down among them.
      AdbGos (cmd/adb-gos): the process around it.
    - Json, Codec: encoding/json as the packages use it: texts as runes, string
      literals, numbers, the printer and the parser; [float64], [map[string]any]
      and the decoding of structs.  Wire, Wired: the structs of internal/server
      as JSON, with a class [Codec] whose laws ([CodecOk]) every one of them
      has, and a request from cliserver.Send to the reply, text by text.
    - Usage: the help texts.  Cli, Custom, Commands (cmd/adb-go/internal/custom, cliserver, router.go):
      a command is a computation on a console (the world outside and what was
      printed); the class [Host] has the operations commands use outside, the
      class [Settings] what they only read.  Compat (cmd/adb-go/internal/compat)
      uses the same classes; its class [RunsServer] states that a host's
      requests are handled by the handler of Server and their responses brought
      back as JSON brings them, and is discharged by a host that is its server
      behind the connection of Wired.  Output: what [--json] prints.  Facade: the root package adb.go, entry points,
      property names, the stubs of unsupported platforms and the main function.

    ** What the theorems show

    - Packets and handshake: [packets_roundtrip]: the codec over any fragmentation
      and short writes; [handshake_follows_plan]: which credentials are tried, in
      which order, and that the handshake ends; [handshake_agreement]: it ends well against the
      fake device exactly when that one is content.
    - Streams: [connection_invariant], [streams_are_fifo], [reader_step],
      [reader_failure_closes_everything]: well-formed
      connections, bytes in order, exact packets, failures;
      [close_can_panic_the_reader]: the race there is.  [streams_are_readers]: what a
      program reads from a stream does not depend on the reader goroutine's
      pace; [pull_over_a_connection], [push_over_a_connection]: the transfers of
      Sync, from [OpenContext] to the last packet; [shell_over_a_connection]: the
      output of a command.  [cancellation_releases]: what a done context ends, and
      when.
    - Client: [push_sends_the_file], [pull_stores_what_the_device_sent],
      [pull_is_contained], [shellQuote_is_one_word], [android_key_decodes],
      [descriptors_parsed].
    - Sessions: [forward_session], [reverse_session]: under every interleaving
      Close returns, Wait has its answer and nothing stays open.
      [tunnel_carries_bytes], [tunnel_comes_down]: a bridge carries what each
      side says, in order, and ends with either.
    - Server: [forward_registry_invariant], [reverse_registry_invariant]: the
      registries under every interleaving; [requests_refine_registries],
      [shutdown_releases], [socket_takeover], [loopback_only]: the server on top,
      request by request.  [handlers_interleave], [every_request_is_answered],
      [sections_compose]: its requests at the same time, each of them answered,
      and as before when nothing comes between.  [settled_shutdown_releases],
      [shutdown_is_overtaken]: when a shutdown releases everything, and the runs
      in which it does not.
    - The protocol's texts: [requests_over_the_wire]: a request and its response
      come through JSON, up to invalid UTF-8 and the structure of an error;
      [every_text_is_answered]: whatever the server is sent;
      [layout_is_irrelevant]: however a document is written.
      [status_numbers_below_a_million]: what is printed of a status, and when it
      is not what the server said.
    - Command lines: [usage_errors_do_nothing] of all commands of adb-go;
      [remove_all_removes] of compat, through the command, the JSON of the
      request, the handler, the registry and back.

    Theorems beside these are kept where they show a defect or a detail, such
    as [ReadMessage_accepts_only_packets], [handshake_transcript], [open_session],
    [reader_safe_without_close_races], [stream_end], [success_can_be_closed],
    [install_cleans_up], [endpoints_roundtrip], [connect_outcome], [connect_usb],
    [scan_result], [transport_life], [getprop_roundtrip], [forward_removal],
    [forward_lifecycle], [removal_races_with_notification],
    [late_connection_stays_open], [adb_gos_ends], [verbosity_changes_nothing],
    [options_roundtrip], [help_lists_the_commands], [json_output_reads_back],
    [parse_total], [full_data_packet_exceeds_MaxPayload],
    [packets_exceed_the_limit], [stalled_write_is_not_released] or
    [normalizeTCPAddr_forms].

    ** Conventions, bounds and fuel

    - A machine integer is a [Z] with its wrap-around written out ([uint32] and
      the counters of the registries modulo 2^64); theorems about IDs ask for
      fewer steps than would wrap them around.  Bytes are [byte], texts are
      [string]s of bytes, maps are [gmap]s.
    - A pointer, a connection, a listener or a session is a number into a heap
      or a set; what was closed is a set, so that leaks and double use show.
    - [None] of an [option] is a panic of the program, or, where a loop takes
      fuel, that the fuel ran out; where it can run out a lemma or a theorem says that the
      fuel a function is given is enough ([writeFull] needs a round for each
      byte, the handshake one for each credential and two more, pull, push
      and the reading of an answer one for each byte and chunk).  Loops over a
      text take its length, and consume a character in each round; numbers are
      formatted with a round for each digit of 64 bits.  The parser of JSON has
      two rounds for each rune and one more ([parse_total]: it never runs out),
      and Go's bound on nesting, 10000.  [serve_opens] of
      FakeAdb alone has no such bound: the handler of a test may read for ever.
    - An outcome that the program does not control (a system call, the order of
      a map, a signature) is a parameter or a record of
      outcomes, and the theorems hold of all of them.
    - A context is what [ctx.Err()] gives at the places a function looks.
    - A format is kept with its arguments, so that texts are compared before
      they are formatted, and an error with its structure; where it becomes a
      text, in a response, [fmt]'s text of it is a parameter.
    - Server takes the decoders of parameters from the outcomes of a request;
      Wired puts the decoders of JSON there ([with_json]).  Commands is given
      responses whose results are typed; Wired shows them to be what the text
      of a reply decodes to.  A count in a result is exact below 10^15 (every
      number of a response passes through a [float64]), which the theorems ask
      for ([fits]).  The parser reads what a connection delivers up to its end;
      that a number at the end waits for more is not modelled.

    ** Not modelled

    - PEM and X.509, SHA-1 and RSA signatures: parameters, where the code uses
      what they give.  The text of an error, and of a value of a result where
      Commands prints one ([result_text]; Wired has it, as [value_text]).
    - Time: deadlines and timeouts are outcomes ([startup_probes] is the number
      of pings before the deadline of a starting server).

    ** What is left

    The sessions of Sessions and the bridges of Tunnel are two views of the same
    goroutines, of what they hold and of what they carry, and are not joined.
    Link and what is built on it take packets that open no stream and carry data
    for the one that is read, and handle a packet in one step, where Schedule
    has finer ones.  The device registry's races, which Go leaves undefined, are
    not given a meaning: Handlers runs its requests one at a time. *)

From Stdlib Require Export ZArith Lia String List Strings.Byte Ascii.
From coqutil Require Export Byte LittleEndianList.
From stdpp Require Export base gmap strings list fin_maps sorting.

#[export] Set Default Goal Selector "!".

Declare Scope go_scope.
Delimit Scope go_scope with go.
#[global] Open Scope Z_scope.

(** ** Decidable equality and finite-map keys *)

#[global] Instance byte_eq_dec : EqDecision Init.Byte.byte := Byte.byte_eq_dec.

(** ** Tactics shared by the components *)

(** Split every conjunction and existential of the context. *)
Ltac split_hyps :=
  repeat match goal with
  | H : _ ∧ _ |- _ => destruct H
  | H : ∃ _, _ |- _ => destruct H
  end.

(** Case analysis on the scrutinee of some [match] or [if] of the goal. *)
Ltac case_goal :=
  match goal with
  | |- context [match ?x with _ => _ end] => destruct x eqn:?
  end.

(** The same for a hypothesis. *)
Ltac case_hyp H :=
  match type of H with
  | context [match ?x with _ => _ end] => destruct x eqn:?
  end.

(** Exhaust the branches of a computation that is known to have returned [H]. *)
Ltac branches H := repeat (case_hyp H; simplify_eq/=; try done).

(** Turn boolean comparisons of the context into arithmetic facts. *)
Ltac bool_to_prop :=
  repeat match goal with
  | H : (_ && _)%bool = true |- _ => apply andb_true_iff in H; destruct H
  | H : (_ || _)%bool = false |- _ => apply orb_false_iff in H; destruct H
  | H : negb _ = true |- _ => apply negb_true_iff in H
  | H : negb _ = false |- _ => apply negb_false_iff in H
  | H : (_ <? _) = true |- _ => apply Z.ltb_lt in H
  | H : (_ <? _) = false |- _ => apply Z.ltb_ge in H
  | H : (_ <=? _) = true |- _ => apply Z.leb_le in H
  | H : (_ <=? _) = false |- _ => apply Z.leb_gt in H
  | H : (_ =? _) = true |- _ => apply Z.eqb_eq in H
  | H : (_ =? _) = false |- _ => apply Z.eqb_neq in H
  | H : (_ =? _)%string = true |- _ => apply String.eqb_eq in H
  | H : (_ =? _)%string = false |- _ => apply String.eqb_neq in H
  end.

(** ** Rewriting and resolution databases *)

Create HintDb golib.
Create Rewrite HintDb golib.

(** ** Lists *)

Section lists.
Context {A : Type}.
Implicit Types (l k : list A).

Lemma length_lt_drop l n : (0 < n)%nat → l ≠ [] → (length (drop n l) < length l)%nat.
Proof. intros ? ?. rewrite length_drop. destruct l; [done | simpl; lia]. Qed.
End lists.

(** ** Machine integers

    Go's [uint32], [uint16] and [uint8] values are integers in range; a
    conversion to one of these types keeps the low bits. *)

Definition uint32 (z : Z) : Z := z mod 2 ^ 32.
Definition uint16 (z : Z) : Z := z mod 2 ^ 16.
Definition is_uint32 (z : Z) : Prop := 0 <= z < 2 ^ 32.

Lemma uint32_small z : is_uint32 z → uint32 z = z.
Proof. apply Z.mod_small. Qed.

Lemma uint32_range z : is_uint32 (uint32 z).
Proof. apply Z.mod_pos_bound. lia. Qed.

#[export] Hint Resolve uint32_range : golib.
#[export] Hint Rewrite @length_app @length_take @length_drop @length_nil : golib.
