(* ===== verification/Errors.v ===== *)
(** * Error values

    Go's [error] values as the packages build them: the sentinels of the
    standard library and of the [protocol], [client], [usb] and [server]
    packages, [*AuthRequiredError], and the values of [fmt.Errorf], kept as a
    format string with its arguments and, for a [%w] verb, the wrapped error.
    [errors_Is] follows the unwrap chain as [errors.Is] does.  The raw ADB
    message type lives here because [*AuthRequiredError] carries one.

    [res] is the type of a Go call that returns a value and an error. *)

From S2P Require Import Prelude.

(** ** protocol.Message *)

(** A [Command] is an alias of [uint32]; a [Message] is a packet without the
    header fields that the encoding derives (length, checksum, magic). *)
Record Message := mkMessage {
  msg_Command : Z;
  msg_Arg0 : Z;
  msg_Arg1 : Z;
  msg_Payload : list byte;
}.

#[global] Instance Message_eq_dec : EqDecision Message.
Proof. solve_decision. Defined.

(** ** error *)

Inductive sentinel :=
  | io_EOF | io_ErrUnexpectedEOF | io_ErrShortWrite | io_ErrClosedPipe
  | net_ErrClosed | os_ErrNotExist | os_ErrExist
  | context_Canceled | context_DeadlineExceeded
  | strconv_ErrSyntax | strconv_ErrRange
  | protocol_ErrAuthRequired | protocol_ErrDeviceClosed
  | client_ErrAuthRequired | client_ErrUnsupported | client_ErrDestinationExists
  | usb_ErrUnsupported | server_ErrAlreadyRunning.

#[global] Instance sentinel_eq_dec : EqDecision sentinel.
Proof. solve_decision. Defined.

(** The printed arguments of a format string. *)
Inductive arg :=
  | AStr (s : string)
  | AInt (z : Z)
  | AStrs (l : list string).

#[global] Instance arg_eq_dec : EqDecision arg.
Proof. solve_decision. Defined.

Inductive error :=
  | Sentinel (s : sentinel)
  | AuthRequiredError (m : Message)
  | Errorf (format : string) (args : list arg)             (* no %w verb *)
  | ErrorfW (format : string) (args : list arg) (e : error) (* last verb %w *)
  | ErrorfV (format : string) (args : list arg) (e : error) (* last verb %v *)
  | External (n : nat).                (* any other error of the environment *)

Coercion Sentinel : sentinel >-> error.

#[global] Instance error_eq_dec : EqDecision error.
Proof. solve_decision. Defined.

(** [errors.Is(err, target)] for a sentinel target.  [*AuthRequiredError] has
    an [Is] method that matches [protocol.ErrAuthRequired]. *)
Fixpoint errors_Is (e : error) (t : sentinel) : bool :=
  match e with
  | Sentinel s => bool_decide (s = t)
  | AuthRequiredError _ => bool_decide (t = protocol_ErrAuthRequired)
  | Errorf _ _ | ErrorfV _ _ _ | External _ => false
  | ErrorfW _ _ e => errors_Is e t
  end.

(** ** Results of fallible calls *)

Inductive res (A : Type) :=
  | Ok (a : A)
  | Err (e : error).
Arguments Ok {_} a.
Arguments Err {_} e.

#[global] Instance res_ret : MRet res := @Ok.
#[global] Instance res_bind : MBind res := λ A B f m,
  match m with Ok a => f a | Err e => Err e end.

Lemma res_bind_ok {A B} (m : res A) (f : A → res B) b :
  m ≫= f = Ok b ↔ ∃ a, m = Ok a ∧ f a = Ok b.
Proof.
  split.
  - destruct m as [a|e]; simpl; [eauto | done].
  - by intros (a & -> & ?).
Qed.

Lemma res_bind_err {A B} (m : res A) (f : A → res B) e :
  m ≫= f = Err e ↔ m = Err e ∨ ∃ a, m = Ok a ∧ f a = Err e.
Proof.
  split.
  - destruct m as [a|e']; simpl; intros H; [right; eauto | left; congruence].
  - by intros [-> | (a & -> & ?)].
Qed.

Definition is_ok {A} (r : res A) : bool := match r with Ok _ => true | Err _ => false end.
