(* ===== verification/GoStrings.v ===== *)
(** * strings, strconv and net address functions

    The functions of Go's standard library that the packages apply to strings.
    A Go string is a sequence of bytes, here a [String.string].  Functions that
    decode UTF-8 ([TrimSpace], [EqualFold]) work on the encodings of the code
    points they test. *)

From Stdlib Require Import DecimalString DecimalN DecimalZ.
From S2P Require Import Prelude Errors.

#[local] Open Scope string_scope.

(** Concatenation is [String.append]; its laws. *)
Infix "+++" := String.append (at level 60, right associativity) : go_scope.
#[global] Open Scope go_scope.

#[global] Arguments String.append : simpl nomatch.

Lemma append_assoc s1 s2 s3 : s1 +++ s2 +++ s3 = (s1 +++ s2) +++ s3.
Proof. induction s1 as [|a s1 IH]; simpl; congruence. Qed.

Lemma append_nil_r s : s +++ "" = s.
Proof. induction s as [|a s IH]; simpl; congruence. Qed.

Lemma length_append s1 s2 : String.length (s1 +++ s2) = (String.length s1 + String.length s2)%nat.
Proof. induction s1 as [|a s1 IH]; simpl; congruence. Qed.

#[export] Hint Rewrite length_append append_nil_r : golib.

(** [s[:n]] and [s[n:]] *)
Fixpoint str_take (n : nat) (s : string) : string :=
  match n, s with
  | S n, String a s => String a (str_take n s)
  | _, _ => ""
  end.
Fixpoint str_drop (n : nat) (s : string) : string :=
  match n, s with
  | S n, String _ s => str_drop n s
  | _, _ => s
  end.

Lemma str_take_drop n s : str_take n s +++ str_drop n s = s.
Proof. revert s; induction n as [|n IH]; intros [|a s]; simpl; congruence. Qed.

Lemma str_take_append s1 s2 : str_take (String.length s1) (s1 +++ s2) = s1.
Proof. induction s1 as [|a s1 IH]; simpl; [by destruct s2 | congruence]. Qed.

Lemma str_drop_append s1 s2 : str_drop (String.length s1) (s1 +++ s2) = s2.
Proof. induction s1 as [|a s1 IH]; simpl; [by destruct s2 | congruence]. Qed.

Lemma length_str_take n s :
  (n ≤ String.length s)%nat → String.length (str_take n s) = n.
Proof. revert s; induction n as [|n IH]; intros [|a s] ?; simpl in *; try lia. rewrite IH; lia. Qed.

Lemma length_str_drop n s : String.length (str_drop n s) = (String.length s - n)%nat.
Proof. revert s; induction n as [|n IH]; intros [|a s]; simpl; auto. Qed.

Lemma append_inj_l s s1 s2 : s +++ s1 = s +++ s2 → s1 = s2.
Proof. induction s as [|a s IH]; simpl; [done | intros; simplify_eq; auto]. Qed.

Lemma append_inj_len s1 s2 t1 t2 :
  s1 +++ t1 = s2 +++ t2 → String.length s1 = String.length s2 → s1 = s2 ∧ t1 = t2.
Proof.
  revert s2; induction s1 as [|a s1 IH]; intros [|b s2] H Hl; simpl in *; try done.
  injection H as -> H. injection Hl as Hl. destruct (IH s2 H Hl) as [-> ->]. done.
Qed.

Lemma append_inj_r s1 s2 t : s1 +++ t = s2 +++ t → s1 = s2.
Proof.
  intros H. apply (append_inj_len s1 s2 t t); [done|].
  apply (f_equal String.length) in H. rewrite !length_append in H. lia.
Qed.

(** ** Prefixes and suffixes *)

Definition HasPrefix (s p : string) : bool := String.prefix p s.

Definition HasSuffix (s suffix : string) : bool :=
  let n := (String.length s - String.length suffix)%nat in
  (String.length suffix <=? String.length s)%nat && (str_drop n s =? suffix)%string.

Definition TrimPrefix (s p : string) : string :=
  if HasPrefix s p then str_drop (String.length p) s else s.

Definition TrimSuffix (s suffix : string) : string :=
  if HasSuffix s suffix then str_take (String.length s - String.length suffix) s else s.

Definition CutPrefix (s p : string) : string * bool :=
  if HasPrefix s p then (str_drop (String.length p) s, true) else (s, false).

Lemma HasPrefix_spec s p : HasPrefix s p = true ↔ ∃ t, s = p +++ t.
Proof.
  unfold HasPrefix. revert s; induction p as [|a p IH]; intros s; simpl; [split; [by exists s | by destruct s]|].
  destruct s as [|b s]; simpl; [by split; [|intros [? ?]]|].
  destruct (ascii_dec a b) as [->|Hne].
  - rewrite IH. split; intros [t H]; exists t; simpl in *; congruence.
  - split; [done|]. intros [t H]. simpl in H. congruence.
Qed.

Lemma HasPrefix_append p t : HasPrefix (p +++ t) p = true.
Proof. apply HasPrefix_spec. eauto. Qed.

Lemma HasSuffix_spec s suffix : HasSuffix s suffix = true ↔ ∃ t, s = t +++ suffix.
Proof.
  unfold HasSuffix. rewrite andb_true_iff, Nat.leb_le, String.eqb_eq. split.
  - intros [_ H]. exists (str_take (String.length s - String.length suffix) s).
    transitivity (str_take (String.length s - String.length suffix) s +++
                  str_drop (String.length s - String.length suffix) s);
      [by rewrite str_take_drop | by rewrite H].
  - intros [t ->]. rewrite length_append. split; [lia|].
    replace (String.length t + String.length suffix - String.length suffix)%nat
      with (String.length t) by lia. apply str_drop_append.
Qed.

Lemma TrimPrefix_append p t : TrimPrefix (p +++ t) p = t.
Proof. unfold TrimPrefix. rewrite HasPrefix_append. apply str_drop_append. Qed.

Lemma TrimSuffix_append t suffix : TrimSuffix (t +++ suffix) suffix = t.
Proof.
  unfold TrimSuffix. rewrite (proj2 (HasSuffix_spec _ _)) by eauto.
  rewrite length_append.
  replace (String.length t + String.length suffix - String.length suffix)%nat
    with (String.length t) by lia. apply str_take_append.
Qed.

Lemma TrimSuffix_spec s suffix :
  (∃ t, s = t +++ suffix ∧ TrimSuffix s suffix = t) ∨
  (HasSuffix s suffix = false ∧ TrimSuffix s suffix = s).
Proof.
  destruct (HasSuffix s suffix) eqn:E.
  - left. apply HasSuffix_spec in E as [t ->]. exists t. by rewrite TrimSuffix_append.
  - right. unfold TrimSuffix. by rewrite E.
Qed.

#[export] Hint Rewrite HasPrefix_append TrimPrefix_append TrimSuffix_append
  str_take_append str_drop_append : golib.

(** ** Searching *)

(** [strings.IndexByte] *)
Fixpoint IndexByte (s : string) (c : ascii) : option nat :=
  match s with
  | "" => None
  | String a s => if Ascii.eqb a c then Some 0%nat else S <$> IndexByte s c
  end.

(** [strings.LastIndexByte] *)
Fixpoint LastIndexByte (s : string) (c : ascii) : option nat :=
  match s with
  | "" => None
  | String a s =>
      match LastIndexByte s c with
      | Some i => Some (S i)
      | None => if Ascii.eqb a c then Some 0%nat else None
      end
  end.

(** [strings.Count(s, c)] for a one-byte [c]. *)
Fixpoint CountByte (s : string) (c : ascii) : nat :=
  match s with
  | "" => 0
  | String a s => (if Ascii.eqb a c then 1 else 0) + CountByte s c
  end.

(** [strings.ContainsAny(s, chars)] for ASCII [chars]. *)
Fixpoint ContainsAny (s : string) (chars : list ascii) : bool :=
  match s with
  | "" => false
  | String a s => existsb (Ascii.eqb a) chars || ContainsAny s chars
  end.

(** [strings.Cut] *)
Fixpoint Cut (s sep : string) : option (string * string) :=
  if HasPrefix s sep then Some ("", str_drop (String.length sep) s)
  else match s with
       | "" => None
       | String a s => (λ '(before, after), (String a before, after)) <$> Cut s sep
       end.

(** [strings.ReplaceAll(s, old, new)] for a one-byte [old]. *)
Fixpoint ReplaceByte (s : string) (old : ascii) (new : string) : string :=
  match s with
  | "" => ""
  | String a s => (if Ascii.eqb a old then new else String a "") +++ ReplaceByte s old new
  end.

(** [strings.Join] *)
Fixpoint Join (elems : list string) (sep : string) : string :=
  match elems with
  | [] => ""
  | [e] => e
  | e :: elems => e +++ sep +++ Join elems sep
  end.

Lemma IndexByte_None s c : IndexByte s c = None ↔ ∀ s1 s2, s ≠ s1 +++ String c s2.
Proof.
  induction s as [|a s IH]; simpl.
  - split; [|done]. intros _ [|? ?] ?; done.
  - destruct (Ascii.eqb_spec a c) as [->|Hne].
    + split; [done|]. intros H. by destruct (H "" s).
    + rewrite fmap_None, IH. split.
      * intros H [|b s1] s2; simpl; intros ?; simplify_eq. by eapply H.
      * intros H s1 s2 ->. by apply (H (String a s1) s2).
Qed.

Lemma IndexByte_Some s c i :
  IndexByte s c = Some i ↔
  IndexByte (str_take i s) c = None ∧ s = str_take i s +++ String c (str_drop (S i) s).
Proof.
  revert i; induction s as [|a s IH]; intros i; simpl; [by destruct i; (split; [|intros []])|].
  destruct (Ascii.eqb_spec a c) as [->|Hne].
  - split; [intros [= <-]; by destruct s|].
    destruct i as [|i]; [done|]. simpl. rewrite (proj2 (Ascii.eqb_eq c c)) by done.
    by intros [? _].
  - rewrite fmap_Some. split.
    + intros (j & Hj & ->). simpl. apply IH in Hj as [Hn Hs].
      rewrite (proj2 (Ascii.eqb_neq _ _)) by done. rewrite Hn. split; [done|]. f_equal. exact Hs.
    + destruct i as [|i]; simpl; [intros [_ ?]; simplify_eq|].
      rewrite (proj2 (Ascii.eqb_neq a c)) by done. rewrite fmap_None. intros [Hn Hs].
      exists i. split; [|done]. apply IH. split; [done|]. by injection Hs.
Qed.

Lemma IndexByte_append_None s t c :
  IndexByte (s +++ t) c = None ↔ IndexByte s c = None ∧ IndexByte t c = None.
Proof.
  induction s as [|a s IH]; simpl; [naive_solver|].
  destruct (Ascii.eqb a c); [naive_solver|]. rewrite !fmap_None. naive_solver.
Qed.

(** ** Conversions between [string] and [[]byte] *)

Definition bytes_of (s : string) : list byte := list_byte_of_string s.
Definition string_of (bs : list byte) : string := string_of_list_byte bs.

Lemma string_of_bytes_of s : string_of (bytes_of s) = s.
Proof. apply string_of_list_byte_of_string. Qed.

Lemma bytes_of_string_of bs : bytes_of (string_of bs) = bs.
Proof. apply list_byte_of_string_of_list_byte. Qed.

Lemma length_bytes_of s : length (bytes_of s) = String.length s.
Proof.
  unfold bytes_of, list_byte_of_string. rewrite length_map.
  induction s as [|a s IH]; simpl; congruence.
Qed.

Lemma bytes_of_append s t : bytes_of (s +++ t) = (bytes_of s ++ bytes_of t)%list.
Proof. unfold bytes_of, list_byte_of_string. induction s as [|a s IH]; simpl; congruence. Qed.

#[export] Hint Rewrite string_of_bytes_of bytes_of_string_of length_bytes_of bytes_of_append : golib.
