(* ===== verification/Strconv.v ===== *)
(** * TrimSpace, strconv and host:port addresses

    More functions of Go's standard library, each following its Go source:
    [strings.TrimSpace] on UTF-8, [strconv.Itoa], [Atoi] and [FormatUint] in
    base 36, [net.SplitHostPort] and [net.JoinHostPort]. *)

From Stdlib Require Import DecimalString DecimalN DecimalZ DecimalPos DecimalFacts.
From S2P Require Import Prelude Errors GoStrings.

#[local] Open Scope string_scope.
#[local] Open Scope Z_scope.

(** ** strings.TrimSpace *)

Definition code (a : ascii) : Z := Z.of_N (N_of_ascii a).

(** The length of the white-space code point at the front of [s]: the ASCII
    ones, then the UTF-8 encodings of the others ([unicode.IsSpace]). *)
Definition space_prefix (s : string) : option nat :=
  match s with
  | "" => None
  | String a s =>
      if (9 <=? code a) && (code a <=? 13) || (code a =? 32) then Some 1%nat else
      match s with
      | "" => None
      | String b s =>
          if (code a =? 0xC2) && ((code b =? 0x85) || (code b =? 0xA0)) then Some 2%nat else
          match s with
          | "" => None
          | String c _ =>
              if (code a =? 0xE1) && (code b =? 0x9A) && (code c =? 0x80)
              || (code a =? 0xE2) && (code b =? 0x80) &&
                 ((0x80 <=? code c) && (code c <=? 0x8A) || (code c =? 0xA8) || (code c =? 0xA9) || (code c =? 0xAF))
              || (code a =? 0xE2) && (code b =? 0x81) && (code c =? 0x9F)
              || (code a =? 0xE3) && (code b =? 0x80) && (code c =? 0x80)
              then Some 3%nat else None
          end
      end
  end.

(** The same for the code point at the end of [s]. *)
Definition space_suffix (s : string) : option nat :=
  let ends n := match space_prefix (str_drop (String.length s - n) s) with
                | Some m => (m =? n)%nat && (n <=? String.length s)%nat
                | None => false
                end in
  if ends 1%nat then Some 1%nat
  else if ends 2%nat then Some 2%nat
  else if ends 3%nat then Some 3%nat else None.

Fixpoint TrimLeftSpace (fuel : nat) (s : string) : string :=
  match fuel, space_prefix s with
  | S fuel, Some n => TrimLeftSpace fuel (str_drop n s)
  | _, _ => s
  end.

Fixpoint TrimRightSpace (fuel : nat) (s : string) : string :=
  match fuel, space_suffix s with
  | S fuel, Some n => TrimRightSpace fuel (str_take (String.length s - n) s)
  | _, _ => s
  end.

(** Each round removes at least one byte. *)
Definition TrimSpace (s : string) : string :=
  let s := TrimLeftSpace (String.length s) s in
  TrimRightSpace (String.length s) s.

(** No white space at either end. *)
Definition trimmed (s : string) : Prop := space_prefix s = None ∧ space_suffix s = None.

Lemma TrimSpace_trimmed s : trimmed s → TrimSpace s = s.
Proof.
  intros [H1 H2]. unfold TrimSpace.
  assert (∀ n, TrimLeftSpace n s = s) as -> by (intros []; simpl; by rewrite ?H1).
  by destruct (String.length s); simpl; rewrite ?H2.
Qed.

Lemma space_prefix_length s n : space_prefix s = Some n → (0 < n ≤ String.length s)%nat.
Proof.
  destruct s as [|a [|b [|c s]]]; unfold space_prefix; intros H;
    simplify_eq; repeat (case_match; simplify_eq); cbn [String.length]; lia.
Qed.

Lemma space_prefix_max s n : space_prefix s = Some n → (n ≤ 3)%nat.
Proof. unfold space_prefix. intros H. simplify_eq; repeat (case_match; simplify_eq); lia. Qed.

Lemma space_suffix_length s n : space_suffix s = Some n → (0 < n ≤ String.length s)%nat.
Proof.
  unfold space_suffix. intros H.
  repeat (case_match; simplify_eq); bool_to_prop;
    repeat match goal with H : (_ && _)%bool = true |- _ => apply andb_true_iff in H as [? ?] end;
    repeat match goal with H : (_ <=? _)%nat = true |- _ => apply Nat.leb_le in H end; lia.
Qed.

Lemma TrimRightSpace_suffix fuel s :
  (String.length s ≤ fuel)%nat → space_suffix (TrimRightSpace fuel s) = None.
Proof.
  revert s. induction fuel as [|fuel IH]; intros s Hl; simpl.
  - destruct (space_suffix s) as [n|] eqn:E; [|done]. apply space_suffix_length in E. lia.
  - destruct (space_suffix s) as [n|] eqn:E; [|done]. apply IH.
    apply space_suffix_length in E. rewrite length_str_take; lia.
Qed.

Lemma TrimSpace_suffix s : space_suffix (TrimSpace s) = None.
Proof. by apply TrimRightSpace_suffix. Qed.

(** Printable ASCII at both ends is enough to be trimmed. *)
Definition printable (a : ascii) : bool := (33 <=? code a) && (code a <=? 126).

Lemma space_prefix_printable a s : printable a = true → space_prefix (String a s) = None.
Proof.
  unfold printable. intros [H1%Z.leb_le H2%Z.leb_le]%andb_true_iff. unfold space_prefix.
  assert ((code a <=? 13) = false) as -> by lia. rewrite andb_false_r.
  assert ((code a =? 32) = false) as -> by lia. cbn [orb].
  destruct s as [|b s]; [done|]. assert ((code a =? 0xC2) = false) as -> by lia. cbn [andb].
  destruct s as [|c s]; [done|].
  assert ((code a =? 0xE1) = false) as -> by lia. assert ((code a =? 0xE2) = false) as -> by lia.
  assert ((code a =? 0xE3) = false) as -> by lia. done.
Qed.

Lemma str_drop_snoc s a k :
  (k ≤ String.length s)%nat → str_drop k (s +++ String a "") = str_drop k s +++ String a "".
Proof. revert s. induction k as [|k IH]; intros [|b s] Hk; simpl in *; try done; [lia|]. apply IH. lia. Qed.

Lemma space_prefix_last s a n :
  printable a = true → space_prefix (s +++ String a "") = Some n → (n ≤ String.length s)%nat.
Proof.
  unfold printable. intros [H1%Z.leb_le H2%Z.leb_le]%andb_true_iff.
  assert ((code a <=? 13) = false) as E1 by lia. assert ((code a =? 32) = false) as E2 by lia.
  assert ((code a =? 0x85) = false) as E3 by lia. assert ((code a =? 0xA0) = false) as E4 by lia.
  destruct s as [|x [|y [|z s]]]; cbn [String.append].
  - unfold space_prefix. by rewrite E1, E2, andb_false_r.
  - unfold space_prefix. rewrite E3, E4, andb_false_r. intros H. by simplify_eq; repeat (case_match; simplify_eq); simpl.
  - unfold space_prefix.
    assert ((code a =? 0x80) = false) as -> by lia. assert ((0x80 <=? code a) = false) as -> by lia.
    assert ((code a =? 0xA8) = false) as -> by lia. assert ((code a =? 0xA9) = false) as -> by lia.
    assert ((code a =? 0xAF) = false) as -> by lia. assert ((code a =? 0x9F) = false) as -> by lia.
    rewrite !andb_false_r. intros H. simplify_eq; repeat (case_match; simplify_eq); simpl; lia.
  - intros H%space_prefix_max. simpl. lia.
Qed.

Lemma space_suffix_printable s a : printable a = true → space_suffix (s +++ String a "") = None.
Proof.
  intros Ha. unfold space_suffix.
  assert (∀ k, (0 < k)%nat → match space_prefix (str_drop (String.length (s +++ String a "") - k) (s +++ String a "")) with
     | Some m => (m =? k)%nat && (k <=? String.length (s +++ String a ""))%nat | None => false end = false) as H.
  { intros k Hk. rewrite length_append. simpl.
    destruct (Nat.leb_spec k (String.length s + 1)).
    - rewrite str_drop_snoc by lia. destruct (space_prefix _) as [m|] eqn:E; [|done].
      apply space_prefix_last in E; [|done]. rewrite length_str_drop in E.
      destruct (Nat.eqb_spec m k); [lia|done].
    - destruct (space_prefix _); [by rewrite andb_false_r|done]. }
  by rewrite !H by lia.
Qed.

Lemma trimmed_printable a s b s' :
  String a s = s' +++ String b "" → printable a = true → printable b = true → trimmed (String a s).
Proof.
  intros E Ha Hb. split; [by apply space_prefix_printable|]. rewrite E. by apply space_suffix_printable.
Qed.

(** ** strconv *)

Definition Itoa (z : Z) : string := NilZero.string_of_int (Z.to_int z).

Definition in_int64 (z : Z) : bool := (- 2 ^ 63 <=? z) && (z <? 2 ^ 63).

(** [strconv.Atoi]: an optional sign and decimal digits, in the range of [int].
    The error is a [*strconv.NumError]. *)
Definition Atoi (s : string) : res Z :=
  let syntax := Err (ErrorfW "strconv.Atoi: parsing %q: %w" [AStr s] (Sentinel strconv_ErrSyntax)) in
  let '(neg, digits) :=
    match s with
    | String "+" d => (false, d)
    | String "-" d => (true, d)
    | _ => (false, s)
    end%char in
  match NilZero.uint_of_string digits with
  | Some u =>
      let z := Z.of_uint u in
      let z := if neg : bool then - z else z in
      if in_int64 z then Ok z
      else Err (ErrorfW "strconv.Atoi: parsing %q: %w" [AStr s] (Sentinel strconv_ErrRange))
  | None => syntax
  end.

Lemma uint_of_string_first_digit u a d :
  u ≠ Decimal.Nil → NilZero.string_of_uint u = String a d →
  (48 <=? code a) && (code a <=? 57) = true.
Proof. intros Hu. destruct u; simpl; [done|..]; intros [= <- _]; reflexivity. Qed.

Lemma to_uint_not_nil p : Pos.to_uint p ≠ Decimal.Nil.
Proof. apply Unsigned.to_uint_nonnil. Qed.

Lemma Itoa_pos p : Itoa (Z.pos p) = NilZero.string_of_uint (Pos.to_uint p).
Proof. done. Qed.

(** Decimal digits are printable, and none is a sign, colon or bracket. *)
Lemma Itoa_nonneg z :
  0 <= z → ∃ u, u ≠ Decimal.Nil ∧ Itoa z = NilZero.string_of_uint u ∧ Z.of_uint u = z.
Proof.
  intros Hz. destruct z as [|p|p]; [|exists (Pos.to_uint p)|lia].
  - by exists (Decimal.D0 Decimal.Nil).
  - split_and!; [apply to_uint_not_nil | done |].
    change (Z.of_uint (Pos.to_uint p)) with (Z.of_N (Pos.of_uint (Pos.to_uint p))).
    by rewrite DecimalPos.Unsigned.of_to.
Qed.

Lemma Atoi_Itoa z : 0 <= z < 2 ^ 63 → Atoi (Itoa z) = Ok z.
Proof.
  intros Hz. destruct (Itoa_nonneg z) as (u & Hu & E & Hof); [lia|].
  unfold Atoi. rewrite E.
  assert (∃ a d, NilZero.string_of_uint u = String a d) as (a & d & Es)
    by (destruct u; simpl; eauto).
  pose proof (uint_of_string_first_digit _ _ _ Hu Es) as Ha.
  assert (NilZero.uint_of_string (String a d) = Some u) as Hs
    by (rewrite <-Es; by apply NilZero.usu).
  rewrite Es.
  assert (match String a d with
    | String "+" d => (false, d)
    | String "-" d => (true, d)
    | _ => (false, String a d)
    end%char = (false, String a d)) as ->.
  { destruct a as [[] [] [] [] [] [] [] []]; try done. }
  rewrite Hs, Hof. unfold in_int64.
  by rewrite (proj2 (Z.leb_le _ _)), (proj2 (Z.ltb_lt _ _)) by lia.
Qed.

(** ** strconv.FormatUint in base 36 *)

Definition digits36 : string := "0123456789abcdefghijklmnopqrstuvwxyz".
Definition digit36 (d : Z) : ascii := default "0"%char (String.get (Z.to_nat d) digits36).

Fixpoint FormatUint36_loop (fuel : nat) (z : Z) (acc : string) : string :=
  match fuel with
  | O => acc
  | S fuel =>
      let acc := String (digit36 (z mod 36)) acc in
      if z / 36 =? 0 then acc else FormatUint36_loop fuel (z / 36) acc
  end.

(** A [uint64] has at most 13 digits in base 36. *)
Definition FormatUint36 (z : Z) : string := FormatUint36_loop 13 z "".

(** ** net.SplitHostPort and net.JoinHostPort *)

Definition LBRACK : ascii := "["%char.
Definition RBRACK : ascii := "]"%char.
Definition COLON : ascii := ":"%char.

Definition addrErr (addr why : string) : res (string * string) :=
  Err (Errorf "address %s: %s" [AStr addr; AStr why]).

Definition contains (s : string) (c : ascii) : bool :=
  match IndexByte s c with Some _ => true | None => false end.

(** [hostport[i]], where [i] is in range. *)
Definition char_at (s : string) (i : nat) (c : ascii) : bool :=
  match String.get i s with Some a => Ascii.eqb a c | None => false end.

Definition SplitHostPort (hostport : string) : res (string * string) :=
  match LastIndexByte hostport COLON with
  | None => addrErr hostport "missing port in address"
  | Some i =>
      let finish host j k :=
        if contains (str_drop j hostport) LBRACK then addrErr hostport "unexpected '[' in address"
        else if contains (str_drop k hostport) RBRACK then addrErr hostport "unexpected ']' in address"
        else Ok (host, str_drop (S i) hostport) in
      if char_at hostport 0 LBRACK then
        match IndexByte hostport RBRACK with
        | None => addrErr hostport "missing ']' in address"
        | Some e =>
            if (e + 1 =? String.length hostport)%nat then addrErr hostport "missing port in address"
            else if (e + 1 =? i)%nat then finish (str_drop 1 (str_take e hostport)) 1%nat (e + 1)%nat
            else if char_at hostport (e + 1) COLON then addrErr hostport "too many colons in address"
            else addrErr hostport "missing port in address"
        end
      else
        let host := str_take i hostport in
        if contains host COLON then addrErr hostport "too many colons in address"
        else finish host 0%nat 0%nat
  end.

Definition JoinHostPort (host port : string) : string :=
  if contains host COLON then "[" +++ host +++ "]:" +++ port else host +++ ":" +++ port.

Lemma contains_append s t c : contains (s +++ t) c = contains s c || contains t c.
Proof.
  unfold contains. induction s as [|a s IH]; simpl; [done|].
  destruct (Ascii.eqb a c); [done|].
  destruct (IndexByte (s +++ t) c), (IndexByte s c); simpl in *; done.
Qed.

Lemma contains_cons a s c : contains (String a s) c = Ascii.eqb a c || contains s c.
Proof. unfold contains. simpl. destruct (Ascii.eqb a c); [done|]. by destruct (IndexByte s c). Qed.

Lemma LastIndexByte_none s c : contains s c = false → LastIndexByte s c = None.
Proof.
  induction s as [|a s IH]; simpl; [done|]. rewrite contains_cons.
  intros [-> H]%orb_false_iff. by rewrite IH.
Qed.

Lemma LastIndexByte_last s t c :
  contains t c = false → LastIndexByte (s +++ String c t) c = Some (String.length s).
Proof.
  intros Ht. induction s as [|a s IH]; simpl.
  - by rewrite LastIndexByte_none, Ascii.eqb_refl.
  - by rewrite IH.
Qed.

Lemma IndexByte_first s t c :
  contains s c = false → IndexByte (s +++ String c t) c = Some (String.length s).
Proof.
  induction s as [|a s IH]; simpl; [by rewrite Ascii.eqb_refl|]. rewrite contains_cons.
  intros [-> H]%orb_false_iff. by rewrite IH.
Qed.

Lemma str_drop_S_append s c t : str_drop (S (String.length s)) (s +++ String c t) = t.
Proof. induction s as [|a s IH]; simpl; [by destruct t | done]. Qed.

Lemma char_at_append s a t c : char_at (s +++ String a t) (String.length s) c = Ascii.eqb a c.
Proof. unfold char_at. induction s as [|b s IH]; simpl; done. Qed.

(** A host and a port without brackets, the port without a colon. *)
Definition clean_host (h : string) : Prop := contains h LBRACK = false ∧ contains h RBRACK = false.
Definition clean_port (p : string) : Prop :=
  contains p LBRACK = false ∧ contains p RBRACK = false ∧ contains p COLON = false.

Lemma SplitHostPort_JoinHostPort h p :
  clean_host h → clean_port p → SplitHostPort (JoinHostPort h p) = Ok (h, p).
Proof.
  intros [Hl Hr] (Pl & Pr & Pc). unfold JoinHostPort. destruct (contains h COLON) eqn:Hc.
  - (* [h]:p *)
    assert ("[" +++ h +++ "]:" +++ p = ("[" +++ h +++ "]") +++ String COLON p) as E
      by (by rewrite <-!append_assoc).
    unfold SplitHostPort. rewrite E, LastIndexByte_last by done.
    rewrite <-!append_assoc. cbn [String.append].
    change (char_at (String "[" ?x) 0 LBRACK) with true. cbn iota.
    assert (IndexByte (String "[" (h +++ String "]" (String COLON p))) RBRACK = Some (S (String.length h))) as ->.
    { cbn [IndexByte]. change (Ascii.eqb "[" RBRACK) with false. cbn iota. rewrite (IndexByte_first h _ RBRACK) by done. done. }
    autorewrite with golib. cbn [String.length].
    rewrite !length_append. cbn [String.length].
    destruct (Nat.eqb_spec (S (String.length h) + 1) (S (String.length h + S (S (String.length p))))); [lia|].
    destruct (Nat.eqb_spec (S (String.length h) + 1) (S (String.length h + 1))); [|lia].
    assert (str_drop (S (String.length h) + 1) (String "[" (h +++ String "]" (String COLON p))) = String COLON p) as ->.
    { replace (S (String.length h) + 1)%nat with (S (S (String.length h))) by lia. cbn [str_drop].
      apply (str_drop_S_append h "]"). }
    assert (str_drop (S (S (String.length h + 1))) (String "[" (h +++ String "]" (String COLON p))) = p) as ->.
    { change (str_drop (S (String.length h + 1)) (h +++ "]" +++ String COLON p) = p).
      replace (String.length h + 1)%nat with (String.length (h +++ "]")) by (rewrite length_append; simpl; lia).
      rewrite append_assoc. apply str_drop_S_append. }
    cbn [str_drop str_take]. rewrite str_take_append.
    rewrite contains_append, !contains_cons, Hl, Pl, Pr. done.
  - change (":" +++ p) with (String COLON p).
    unfold SplitHostPort. rewrite (LastIndexByte_last h p COLON) by done.
    assert (char_at (h +++ String COLON p) 0 LBRACK = false) as ->.
    { destruct h as [|a h]; [done|]. rewrite contains_cons in Hl. apply orb_false_iff in Hl as [Hl _]. exact Hl. }
    rewrite str_take_append, Hc, (str_drop_S_append h COLON p). cbn [str_drop].
    rewrite !contains_append, Hl, Hr.
    cbn [orb]. rewrite !contains_cons, Pl, Pr. done.
Qed.

Lemma SplitHostPort_too_many h1 h2 p :
  contains (h1 +++ h2) LBRACK = false → contains p COLON = false →
  contains h1 COLON = true →
  SplitHostPort (h1 +++ String COLON p) =
    addrErr (h1 +++ String COLON p) "too many colons in address".
Proof.
  rewrite contains_append. intros [Hl _]%orb_false_iff Hp Hc. unfold SplitHostPort.
  rewrite LastIndexByte_last by done.
  assert (char_at (h1 +++ String COLON p) 0 LBRACK = false) as ->.
  { destruct h1 as [|a h1]; [done|]. rewrite contains_cons in Hl. apply orb_false_iff in Hl as [Hl _]. exact Hl. }
  by rewrite str_take_append, Hc.
Qed.

Lemma SplitHostPort_no_colon h : contains h COLON = false →
  SplitHostPort h = addrErr h "missing port in address".
Proof. intros H. unfold SplitHostPort. by rewrite LastIndexByte_none. Qed.

Lemma CountByte_zero s c : contains s c = false → CountByte s c = 0%nat.
Proof.
  induction s as [|a s IH]; simpl; [done|]. rewrite contains_cons. intros [-> H]%orb_false_iff.
  by rewrite IH.
Qed.

Lemma CountByte_append s t c : CountByte (s +++ t) c = (CountByte s c + CountByte t c)%nat.
Proof. induction s as [|a s IH]; simpl; [done|]. rewrite IH. lia. Qed.

Lemma CountByte_pos s c : contains s c = true → (0 < CountByte s c)%nat.
Proof.
  induction s as [|a s IH]; simpl; [done|]. rewrite contains_cons.
  destruct (Ascii.eqb a c); simpl; [lia|auto].
Qed.

(** Decimal numbers are clean ports. *)
Lemma Itoa_clean z : 0 <= z → clean_port (Itoa z).
Proof.
  intros Hz. destruct (Itoa_nonneg z Hz) as (u & Hu & -> & _).
  assert (∀ u, clean_port (NilEmpty.string_of_uint u)) as H.
  { clear. induction u as [|u IH|u IH|u IH|u IH|u IH|u IH|u IH|u IH|u IH|u IH];
      unfold clean_port in *; simpl; rewrite ?contains_cons; [done|exact IH..]. }
  destruct u; [done|apply H..].
Qed.

Lemma Itoa_not_empty z : 0 <= z → Itoa z ≠ "".
Proof. intros Hz. destruct (Itoa_nonneg z Hz) as (u & Hu & -> & _). by destruct u. Qed.

(** A decimal number ends in a digit. *)
Lemma Itoa_last z : 0 <= z → ∃ t a, Itoa z = t +++ String a "" ∧ printable a = true.
Proof.
  intros Hz. destruct (Itoa_nonneg z Hz) as (u & Hu & -> & _).
  assert (∀ u, u = Decimal.Nil ∨ ∃ t a, NilEmpty.string_of_uint u = t +++ String a "" ∧ printable a = true) as H.
  { clear. induction u as [|u IH|u IH|u IH|u IH|u IH|u IH|u IH|u IH|u IH|u IH]; [by left|..];
      right; (destruct IH as [->|(t & a & E & Ha)];
        [exists ""; by eexists | simpl; rewrite E; eexists (String _ t), a; by split]). }
  destruct (H u) as [->|H']; [done|]. destruct u; [done|exact H'..].
Qed.

Lemma Itoa_inj n m : 0 <= n → 0 <= m → Itoa n = Itoa m → n = m.
Proof.
  intros Hn Hm E. destruct (Itoa_nonneg n Hn) as (u & Hu & En & <-), (Itoa_nonneg m Hm) as (v & Hv & Em & <-).
  rewrite En, Em in E. pose proof (f_equal NilZero.uint_of_string E) as E'.
  rewrite !NilZero.usu in E' by done. congruence.
Qed.
