(* ===== verification/GoIO.v ===== *)
(** * io.Reader, io.Writer and encoding/binary

    A reader is the sequence of chunks that successive [Read] calls can see
    (a TCP connection delivers bytes in arbitrary pieces) and the error it
    returns afterwards.  A writer is anything with a [Write] operation (class
    [io_Writer]); [WriterOk] is the contract of [io.Writer] that the protocol
    code relies on, so that the client's theorems hold of every transport.
    [writeFull] is the function of protocol/message.go and client/sync.go. *)

From S2P Require Import Prelude Errors.

(** ** Readers *)

Record Reader := mkReader {
  rd_chunks : list (list byte);
  rd_end : error;
}.

(** The bytes that remain to be read, whatever their division in chunks. *)
Definition rd_bytes (r : Reader) : list byte := concat (rd_chunks r).

(** Two readers that only differ in how the bytes are cut up. *)
Definition same_stream (r1 r2 : Reader) : Prop :=
  rd_bytes r1 = rd_bytes r2 ∧ rd_end r1 = rd_end r2.

#[global] Instance same_stream_equiv : Equivalence same_stream.
Proof.
  split.
  - by intros r.
  - by intros r1 r2 [? ?].
  - intros r1 r2 r3 [? ?] [? ?]. by split; etrans.
Qed.

Definition of_bytes (bs : list byte) : Reader := mkReader [bs] io_EOF.

(** [r.Read(p)] with [len(p) = k]. *)
Definition Read (r : Reader) (k : nat) : Reader * (list byte * option error) :=
  match rd_chunks r with
  | [] => (r, ([], Some (rd_end r)))
  | c :: cs =>
      if (length c <=? k)%nat then (mkReader cs (rd_end r), (c, None))
      else (mkReader (drop k c :: cs) (rd_end r), (take k c, None))
  end.

(** [io.ReadFull(r, buf)] with [len(buf) = need]: reads until the buffer is
    full; an end of input after at least one byte is [io.ErrUnexpectedEOF]. *)
Fixpoint ReadFull_loop (fin : error) (cs : list (list byte)) (need : Z)
    (got : list byte) : Reader * res (list byte) :=
  if need <=? 0 then (mkReader cs fin, Ok got) else
  match cs with
  | [] => (mkReader [] fin,
           Err (if bool_decide (got ≠ []) && bool_decide (fin = Sentinel io_EOF)
                then Sentinel io_ErrUnexpectedEOF else fin))
  | c :: cs' =>
      let n := Z.of_nat (length c) in
      if n <=? need then ReadFull_loop fin cs' (need - n) (got ++ c)
      else (mkReader (drop (Z.to_nat need) c :: cs') fin,
            Ok (got ++ take (Z.to_nat need) c))
  end.

Definition ReadFull (r : Reader) (need : Z) : Reader * res (list byte) :=
  ReadFull_loop (rd_end r) (rd_chunks r) need [].

(** What [ReadFull] computes, on the bytes of the stream. *)
Lemma ReadFull_loop_enough fin cs need got :
  need <= Z.of_nat (length (concat cs)) →
  ∃ cs', ReadFull_loop fin cs need got =
           (mkReader cs' fin, Ok (got ++ take (Z.to_nat need) (concat cs))) ∧
         concat cs' = drop (Z.to_nat need) (concat cs).
Proof.
  revert need got; induction cs as [|c cs IH]; intros need got Hlen; simpl in *.
  - destruct (Z.leb_spec need 0); [|simpl in *; lia].
    exists []. rewrite take_nil, drop_nil, app_nil_r. done.
  - destruct (Z.leb_spec need 0).
    { exists (c :: cs). replace (Z.to_nat need) with 0%nat by lia.
      by rewrite take_0, drop_0, app_nil_r. }
    rewrite length_app in Hlen.
    destruct (Z.leb_spec (Z.of_nat (length c)) need).
    + destruct (IH (need - Z.of_nat (length c)) (got ++ c)) as (cs' & -> & Heq); [lia|].
      replace (Z.to_nat (need - Z.of_nat (length c)))
        with (Z.to_nat need - length c)%nat in * by lia.
      exists cs'. rewrite Heq, take_app_ge, drop_app_ge by lia.
      by rewrite app_assoc.
    + eexists. rewrite take_app_le, drop_app_le by lia. done.
Qed.

Lemma ReadFull_loop_short fin cs need got :
  Z.of_nat (length (concat cs)) < need →
  ReadFull_loop fin cs need got =
    (mkReader [] fin,
     Err (if bool_decide (got ++ concat cs ≠ []) && bool_decide (fin = Sentinel io_EOF)
          then Sentinel io_ErrUnexpectedEOF else fin)).
Proof.
  revert need got; induction cs as [|c cs IH]; intros need got Hlen; simpl in *.
  - rewrite app_nil_r. by destruct (Z.leb_spec need 0); [lia|].
  - rewrite length_app in Hlen. destruct (Z.leb_spec need 0); [lia|].
    destruct (Z.leb_spec (Z.of_nat (length c)) need); [|lia].
    rewrite IH by lia. by rewrite <-app_assoc.
Qed.

Lemma ReadFull_enough r need :
  need <= Z.of_nat (length (rd_bytes r)) →
  ∃ r', ReadFull r need = (r', Ok (take (Z.to_nat need) (rd_bytes r))) ∧
        rd_bytes r' = drop (Z.to_nat need) (rd_bytes r) ∧ rd_end r' = rd_end r.
Proof.
  intros H. destruct (ReadFull_loop_enough (rd_end r) (rd_chunks r) need [] H)
    as (cs' & ? & ?). eauto.
Qed.

Lemma ReadFull_short r need :
  Z.of_nat (length (rd_bytes r)) < need →
  ReadFull r need =
    (mkReader [] (rd_end r),
     Err (if bool_decide (rd_bytes r ≠ []) && bool_decide (rd_end r = Sentinel io_EOF)
          then Sentinel io_ErrUnexpectedEOF else rd_end r)).
Proof. intros H. by apply ReadFull_loop_short. Qed.

(** A successful [ReadFull] consumed exactly the bytes it returns. *)
Lemma ReadFull_ok r need r' bs :
  ReadFull r need = (r', Ok bs) →
  rd_bytes r = bs ++ rd_bytes r' ∧ Z.of_nat (length bs) = Z.max 0 need ∧
  rd_end r' = rd_end r.
Proof.
  intros H. destruct (Z.le_gt_cases need (Z.of_nat (length (rd_bytes r)))) as [Hle|Hgt].
  - destruct (ReadFull_enough r need Hle) as (r'' & E & Hd & He).
    rewrite E in H; simplify_eq. rewrite Hd, He, take_drop. split_and!; [done| |done].
    rewrite length_take. lia.
  - by rewrite ReadFull_short in H by lia.
Qed.

(** The way the bytes are cut up is invisible to [ReadFull]. *)
Lemma ReadFull_same_stream r1 r2 need :
  same_stream r1 r2 →
  same_stream (ReadFull r1 need).1 (ReadFull r2 need).1 ∧
  (ReadFull r1 need).2 = (ReadFull r2 need).2.
Proof.
  intros [Hb He]. destruct (Z.le_gt_cases need (Z.of_nat (length (rd_bytes r1)))) as [Hle|Hgt].
  - destruct (ReadFull_enough r1 need Hle) as (r1' & -> & Hd1 & He1).
    rewrite Hb in Hle. destruct (ReadFull_enough r2 need Hle) as (r2' & -> & Hd2 & He2).
    simpl. unfold same_stream. rewrite Hd1, Hd2, He1, He2, Hb. done.
  - rewrite (ReadFull_short r1) by lia. rewrite Hb in Hgt. rewrite (ReadFull_short r2) by lia.
    simpl. unfold same_stream; simpl. by rewrite Hb, He.
Qed.

(** ** Writers *)

Class io_Writer (W : Type) := Write : W → list byte → W * (nat * option error).

(** The documented contract: [n] of the bytes were accepted, [0 <= n <= len(p)]. *)
Class WriterOk (W : Type) `{io_Writer W} := {
  written : W → list byte;
  Write_spec w p w' n e :
    Write w p = (w', (n, e)) →
    (n ≤ length p)%nat ∧ written w' = written w ++ take n p;
}.

(** [writeFull]: the loop runs at most [len(p)] times, since every round that
    continues consumed at least one byte. *)
Fixpoint writeFull_fuel `{io_Writer W} (fuel : nat) (w : W) (p : list byte)
    : W * option error :=
  match p, fuel with
  | [], _ | _, O => (w, None)
  | _, S fuel =>
      let '(w, (n, err)) := Write w p in
      match err with
      | Some e => (w, Some e)
      | None =>
          if (n =? 0)%nat then (w, Some (Sentinel io_ErrShortWrite))
          else writeFull_fuel fuel w (drop n p)
      end
  end.

Definition writeFull `{io_Writer W} (w : W) (p : list byte) : W * option error :=
  writeFull_fuel (length p) w p.

Section writer.
Context `{WriterOk W}.

(** With enough fuel, either everything was written or an error is
    returned and a prefix was written. *)
Lemma writeFull_fuel_spec fuel w p w' err :
  (length p ≤ fuel)%nat →
  writeFull_fuel fuel w p = (w', err) →
  ∃ n, written w' = written w ++ take n p ∧
       (err = None → take n p = p).
Proof.
  revert w p; induction fuel as [|fuel IH]; intros w p Hlen E.
  - destruct p; [|simpl in Hlen; lia]. simplify_eq/=. exists 0%nat.
    by rewrite take_nil, app_nil_r.
  - destruct p as [|b p]; [simplify_eq/=; exists 0%nat; by rewrite take_nil, app_nil_r|].
    simpl in E. destruct (Write w (b :: p)) as [w1 [n1 e1]] eqn:Ew.
    apply Write_spec in Ew as [Hn1 Hw1].
    destruct e1 as [e1|]; [simplify_eq; by exists n1|].
    destruct (Nat.eqb_spec n1 0).
    { simplify_eq. exists 0%nat. by rewrite take_0, app_nil_r in *. }
    apply IH in E as (m & Hw & Herr); [|rewrite length_drop; simpl in *; lia].
    exists (n1 + m)%nat. rewrite Hw, Hw1, <-app_assoc, (take_take_drop (b :: p) n1 m).
    split; [done|]. intros ->.
    rewrite <-(take_take_drop (b :: p) n1 m), Herr by done. apply take_drop.
Qed.

Lemma writeFull_ok w p w' :
  writeFull w p = (w', None) → written w' = written w ++ p.
Proof.
  intros E. apply writeFull_fuel_spec in E as (n & -> & Hn); [|done].
  by rewrite Hn.
Qed.

Lemma writeFull_prefix w p w' err :
  writeFull w p = (w', err) → ∃ n, written w' = written w ++ take n p.
Proof.
  intros E. apply writeFull_fuel_spec in E as (n & ? & ?); [|done]. eauto.
Qed.
End writer.

(** A transport that accepts at most [S k] bytes per call for each [k] of a
    list, then everything: a socket with a nearly full send buffer. *)
Record SlowWriter := mkSlowWriter { sw_out : list byte; sw_limits : list nat }.

#[global] Instance slow_write : io_Writer SlowWriter := λ w p,
  match sw_limits w with
  | [] => (mkSlowWriter (sw_out w ++ p) [], (length p, None))
  | k :: ks =>
      let n := Nat.min (S k) (length p) in
      (mkSlowWriter (sw_out w ++ take n p) ks, (n, None))
  end.

#[global] Program Instance slow_write_ok : WriterOk SlowWriter := {| written := sw_out |}.
Next Obligation.
  intros [out lim] p w' n e; unfold Write, slow_write; simpl.
  destruct lim as [|k lim]; intros [= <- <- <-]; [by rewrite firstn_all|].
  split; [|done]. destruct (length p); [done | apply le_n_S, Nat.le_min_r].
Qed.

(** A transport in good health, as an invariant [I] of it: every packet is
    accepted in the end, and it stays in good health. *)
Definition keeps_accepting `{io_Writer W} (I : W → Prop) : Prop :=
  ∀ w p, I w → (writeFull w p).2 = None ∧ I (writeFull w p).1.

(** ** binary.LittleEndian *)

Definition PutUint32 (v : Z) : list byte := le_split 4 v.
#[global] Arguments PutUint32 : simpl never.
Definition Uint32 (b : list byte) : Z := le_combine (take 4 b).
Definition Uint16 (b : list byte) : Z := le_combine (take 2 b).

Lemma length_PutUint32 v : length (PutUint32 v) = 4%nat.
Proof. apply length_le_split. Qed.

Lemma Uint32_PutUint32 v rest : Uint32 (PutUint32 v ++ rest) = uint32 v.
Proof.
  unfold Uint32. rewrite take_app_length'; [|by rewrite length_PutUint32].
  apply (le_combine_split 4).
Qed.

Lemma PutUint32_Uint32 b : length b = 4%nat → PutUint32 (Uint32 b) = b.
Proof.
  intros Hb. unfold PutUint32, Uint32. rewrite take_ge by lia.
  by apply split_le_combine'.
Qed.

Lemma Uint32_range b : is_uint32 (Uint32 b).
Proof.
  unfold Uint32, is_uint32. pose proof (le_combine_bound (take 4 b)) as [? Hlt].
  split; [done|]. eapply Z.lt_le_trans; [exact Hlt|].
  apply Z.pow_le_mono_r; [lia|]. rewrite length_take. lia.
Qed.

Lemma Uint16_range b : 0 <= Uint16 b < 2 ^ 16.
Proof.
  unfold Uint16. pose proof (le_combine_bound (take 2 b)) as [? Hlt].
  split; [done|]. eapply Z.lt_le_trans; [exact Hlt|].
  apply Z.pow_le_mono_r; [lia|]. rewrite length_take. lia.
Qed.

#[export] Hint Resolve Uint32_range Uint16_range : golib.
#[export] Hint Rewrite length_PutUint32 : golib.

(** Such a transport accepts every packet in the end. *)
Lemma slow_writeFull_ok (w : SlowWriter) p : (writeFull w p).2 = None.
Proof.
  unfold writeFull. generalize (Nat.le_refl (length p)).
  generalize (length p) at 2 3 as fuel. intros fuel.
  revert w p; induction fuel as [|fuel IH]; intros [out lim] p Hlen; [by destruct p|].
  destruct p as [|b p]; [done|]. unfold writeFull_fuel, Write, slow_write; simpl.
  destruct lim as [|k lim]; simpl.
  - rewrite drop_ge by done. by destruct fuel.
  - apply IH. rewrite length_drop. simpl in Hlen. lia.
Qed.

Lemma slow_keeps_accepting : keeps_accepting (λ _ : SlowWriter, True).
Proof. intros w p _. split; [apply slow_writeFull_ok | done]. Qed.
