(* ===== verification/Message.v ===== *)
(** * protocol/message.go: the ADB packet codec

    [ReadMessage] and [WriteMessage] over the readers and writers of
    [GoIO]; [encode_message] is the packet format they implement. *)

From S2P Require Import Prelude Errors GoIO.

Definition messageHeaderLen : Z := 24.

Definition AuthToken : Z := 1.
Definition AuthSignature : Z := 2.
Definition AuthRSAPublicKey : Z := 3.

(** ['S' | 'Y'<<8 | 'N'<<16 | 'C'<<24] *)
Definition command_of (a b c d : byte) : Z :=
  Z.lor (byte.unsigned a)
    (Z.lor (Z.shiftl (byte.unsigned b) 8)
      (Z.lor (Z.shiftl (byte.unsigned c) 16) (Z.shiftl (byte.unsigned d) 24))).

Definition CommandSYNC : Z := command_of "S" "Y" "N" "C".
Definition CommandCNXN : Z := command_of "C" "N" "X" "N".
Definition CommandAUTH : Z := command_of "A" "U" "T" "H".
Definition CommandOPEN : Z := command_of "O" "P" "E" "N".
Definition CommandOKAY : Z := command_of "O" "K" "A" "Y".
Definition CommandCLSE : Z := command_of "C" "L" "S" "E".
Definition CommandWRTE : Z := command_of "W" "R" "T" "E".

(** [Checksum]: the loop accumulates in a [uint32]. *)
Definition Checksum (payload : list byte) : Z :=
  foldl (λ sum b, uint32 (sum + byte.unsigned b)) 0 payload.

(** [Command.Magic] *)
Definition Magic (c : Z) : Z := Z.lxor c 0xffffffff.

(** [header[lo:hi]] *)
Definition slice (lo hi : nat) (bs : list byte) : list byte := take (hi - lo) (drop lo bs).

(** ** ReadMessage *)

Definition ReadMessage (r : Reader) : Reader * res Message :=
  let '(r, header) := ReadFull r messageHeaderLen in
  match header with
  | Err e => (r, Err e)
  | Ok header =>
      let command := Uint32 (slice 0 4 header) in
      let arg0 := Uint32 (slice 4 8 header) in
      let arg1 := Uint32 (slice 8 12 header) in
      let payloadLen := Uint32 (slice 12 16 header) in
      let checksum := Uint32 (slice 16 20 header) in
      let magic := Uint32 (slice 20 24 header) in
      if negb (magic =? Magic command) then
        (r, Err (Errorf "adb message invalid command magic: command=%#x magic=%#x"
                   [AInt command; AInt magic]))
      else
        let '(r, payload) := ReadFull r payloadLen in
        match payload with
        | Err e => (r, Err e)
        | Ok payload =>
            let got := Checksum payload in
            if negb (got =? checksum) then
              (r, Err (Errorf "adb message invalid checksum: got %#x want %#x"
                         [AInt got; AInt checksum]))
            else (r, Ok (mkMessage command arg0 arg1 payload))
        end
  end.

(** ** WriteMessage *)

Definition message_header (m : Message) : list byte :=
  PutUint32 (msg_Command m) ++ PutUint32 (msg_Arg0 m) ++ PutUint32 (msg_Arg1 m) ++
  PutUint32 (uint32 (Z.of_nat (length (msg_Payload m)))) ++
  PutUint32 (Checksum (msg_Payload m)) ++ PutUint32 (Magic (msg_Command m)).

#[global] Arguments message_header : simpl never.

Definition WriteMessage `{io_Writer W} (w : W) (m : Message) : W * option error :=
  let '(w, err) := writeFull w (message_header m) in
  match err with
  | Some e => (w, Some e)
  | None => writeFull w (msg_Payload m)
  end.

(** ** The packet format *)

Definition encode_message (m : Message) : list byte := message_header m ++ msg_Payload m.

(** A message whose fields fit their 32-bit header words. *)
Record wf_message (m : Message) : Prop := {
  wf_Command : is_uint32 (msg_Command m);
  wf_Arg0 : is_uint32 (msg_Arg0 m);
  wf_Arg1 : is_uint32 (msg_Arg1 m);
  wf_Payload : Z.of_nat (length (msg_Payload m)) < 2 ^ 32;
}.

(** Reading a given number of packets one after the other. *)
Fixpoint read_messages (n : nat) (r : Reader) : Reader * res (list Message) :=
  match n with
  | O => (r, Ok [])
  | S n =>
      let '(r, m) := ReadMessage r in
      match m with
      | Err e => (r, Err e)
      | Ok m =>
          let '(r, ms) := read_messages n r in
          (r, ms ≫= λ ms, Ok (m :: ms))
      end
  end.

(** ** Checksum and magic *)

Lemma Checksum_foldl bs acc :
  foldl (λ sum b, uint32 (sum + byte.unsigned b)) (uint32 acc) bs =
  uint32 (acc + foldr (λ b s, byte.unsigned b + s) 0 bs).
Proof.
  revert acc; induction bs as [|b bs IH]; intros acc; simpl; [by rewrite Z.add_0_r|].
  assert (uint32 (uint32 acc + byte.unsigned b) = uint32 (acc + byte.unsigned b)) as ->
    by apply Zplus_mod_idemp_l.
  by rewrite IH, Z.add_assoc.
Qed.

(** The checksum is the sum of the bytes modulo 2^32. *)
Lemma Checksum_sum bs : Checksum bs = uint32 (foldr (λ b s, byte.unsigned b + s) 0 bs).
Proof. apply (Checksum_foldl bs 0). Qed.

Lemma Checksum_range bs : is_uint32 (Checksum bs).
Proof. rewrite Checksum_sum. auto with golib. Qed.

Lemma Checksum_app bs1 bs2 : Checksum (bs1 ++ bs2) = uint32 (Checksum bs1 + Checksum bs2).
Proof.
  rewrite !Checksum_sum, foldr_app. unfold uint32.
  rewrite <-Zplus_mod. f_equal.
  induction bs1 as [|b bs1 IH]; simpl; [done | rewrite IH; lia].
Qed.

Lemma Magic_range c : is_uint32 c → is_uint32 (Magic c).
Proof.
  unfold is_uint32, Magic. intros [H0 H1]. split; [apply Z.lxor_nonneg; lia|].
  destruct (Z.eq_dec (Z.lxor c 0xffffffff) 0) as [->|Hne]; [lia|].
  apply Z.log2_lt_pow2; [pose proof (Z.lxor_nonneg c 0xffffffff); lia|].
  eapply Z.le_lt_trans; [apply Z.log2_lxor; lia|].
  destruct (Z.eq_dec c 0) as [->|]; [by vm_compute|].
  apply Z.max_lub_lt; [apply Z.log2_lt_pow2; lia | by vm_compute].
Qed.

Lemma Magic_involutive c : Magic (Magic c) = c.
Proof. unfold Magic. by rewrite Z.lxor_assoc, Z.lxor_nilpotent, Z.lxor_0_r. Qed.

#[export] Hint Resolve Checksum_range Magic_range : golib.

(** ** Shape of a packet header *)

Lemma length_message_header m : length (message_header m) = 24%nat.
Proof. done. Qed.

Lemma slice_rejoin bs :
  length bs = 24%nat →
  bs = slice 0 4 bs ++ slice 4 8 bs ++ slice 8 12 bs ++ slice 12 16 bs ++
       slice 16 20 bs ++ slice 20 24 bs.
Proof. intros H. do 24 (destruct bs as [|? bs]; [done|]). by destruct bs. Qed.

Lemma length_slice lo hi bs :
  (lo ≤ hi)%nat → (hi ≤ length bs)%nat → length (slice lo hi bs) = (hi - lo)%nat.
Proof. intros. unfold slice. rewrite length_take, length_drop. lia. Qed.

Lemma Uint32_PutUint32_id v : is_uint32 v → Uint32 (PutUint32 v) = v.
Proof.
  intros H. pose proof (Uint32_PutUint32 v []) as E. rewrite app_nil_r in E.
  by rewrite E, uint32_small.
Qed.

(** The parsed header words of an encoded message. *)
Lemma header_words m :
  wf_message m →
  let h := message_header m in
  Uint32 (slice 0 4 h) = msg_Command m ∧ Uint32 (slice 4 8 h) = msg_Arg0 m ∧
  Uint32 (slice 8 12 h) = msg_Arg1 m ∧
  Uint32 (slice 12 16 h) = Z.of_nat (length (msg_Payload m)) ∧
  Uint32 (slice 16 20 h) = Checksum (msg_Payload m) ∧
  Uint32 (slice 20 24 h) = Magic (msg_Command m).
Proof.
  intros [Hc Ha0 Ha1 Hp] h.
  assert (uint32 (Z.of_nat (length (msg_Payload m))) = Z.of_nat (length (msg_Payload m))) as Hl
    by (apply uint32_small; unfold is_uint32; lia).
  unfold h. repeat split; rewrite <-1?Hl;
    match goal with |- Uint32 ?l = ?v => change l with (PutUint32 v) end;
    apply Uint32_PutUint32_id; auto with golib.
Qed.

(** A 24-byte header whose magic word matches is the header of a message
    whose length and checksum words it carries. *)
Lemma header_of_words h payload :
  length h = 24%nat →
  Uint32 (slice 20 24 h) = Magic (Uint32 (slice 0 4 h)) →
  Z.of_nat (length payload) = Uint32 (slice 12 16 h) →
  Checksum payload = Uint32 (slice 16 20 h) →
  h = message_header (mkMessage (Uint32 (slice 0 4 h)) (Uint32 (slice 4 8 h))
                        (Uint32 (slice 8 12 h)) payload).
Proof.
  intros Hlen Hmagic Hp Hsum. unfold message_header.
  cbn [msg_Command msg_Arg0 msg_Arg1 msg_Payload].
  rewrite Hp, Hsum, <-Hmagic, (uint32_small (Uint32 _)) by apply Uint32_range.
  rewrite !PutUint32_Uint32 by (rewrite length_slice; lia).
  by apply slice_rejoin.
Qed.

(** ** Reading *)

(** A stream that starts with the header of [m]: the outcome depends on the
    checksum of the bytes that follow. *)
Lemma ReadMessage_header r m p rest :
  wf_message m → length p = length (msg_Payload m) →
  rd_bytes r = message_header m ++ p ++ rest →
  ∃ r', ReadMessage r =
          (r', if Checksum p =? Checksum (msg_Payload m)
               then Ok (mkMessage (msg_Command m) (msg_Arg0 m) (msg_Arg1 m) p)
               else Err (Errorf "adb message invalid checksum: got %#x want %#x"
                           [AInt (Checksum p); AInt (Checksum (msg_Payload m))])) ∧
        rd_bytes r' = rest ∧ rd_end r' = rd_end r.
Proof.
  intros Hwf Hlen Hr. pose proof (header_words m Hwf) as (E0 & E1 & E2 & E3 & E4 & E5).
  destruct (ReadFull_enough r messageHeaderLen) as (r1 & Er1 & Hd1 & He1).
  { rewrite Hr, length_app, length_message_header. unfold messageHeaderLen. lia. }
  rewrite Hr in Er1, Hd1.
  rewrite take_app_length' in Er1 by done. rewrite drop_app_length' in Hd1 by done.
  destruct (ReadFull_enough r1 (Z.of_nat (length (msg_Payload m)))) as (r2 & Er2 & Hd2 & He2).
  { rewrite Hd1, length_app. lia. }
  rewrite Hd1, Nat2Z.id, <-Hlen in Er2, Hd2.
  rewrite take_app_length in Er2. rewrite drop_app_length in Hd2.
  exists r2. unfold ReadMessage. rewrite Er1, E0, E1, E2, E3, E4, E5, Z.eqb_refl.
  cbn [negb]. rewrite <-Hlen, Er2.
  split_and!; [by destruct (Checksum p =? _) | done | congruence].
Qed.

Lemma ReadMessage_encode r m rest :
  wf_message m → rd_bytes r = encode_message m ++ rest →
  ∃ r', ReadMessage r = (r', Ok m) ∧ rd_bytes r' = rest ∧ rd_end r' = rd_end r.
Proof.
  intros Hwf Hr. unfold encode_message in Hr. rewrite <-app_assoc in Hr.
  destruct (ReadMessage_header r m (msg_Payload m) rest Hwf eq_refl Hr) as (r' & -> & ?).
  rewrite Z.eqb_refl. exists r'. by destruct m.
Qed.

Lemma ReadMessage_ok r r' m :
  ReadMessage r = (r', Ok m) →
  wf_message m ∧ rd_bytes r = encode_message m ++ rd_bytes r' ∧ rd_end r' = rd_end r.
Proof.
  unfold ReadMessage. intros H.
  destruct (ReadFull r messageHeaderLen) as [r1 [h|e]] eqn:E1; [|done].
  destruct (negb _) eqn:Em in H; [done|]. apply negb_false_iff, Z.eqb_eq in Em.
  destruct (ReadFull r1 _) as [r2 [payload|e]] eqn:E2 in H; [|done].
  destruct (negb _) eqn:Es in H; [done|]. apply negb_false_iff, Z.eqb_eq in Es.
  apply ReadFull_ok in E1 as (Hb1 & Hl1 & He1).
  apply ReadFull_ok in E2 as (Hb2 & Hl2 & He2).
  pose proof (Uint32_range (slice 12 16 h)) as Hr. unfold is_uint32 in Hr.
  rewrite Z.max_r in Hl2 by lia. unfold messageHeaderLen in Hl1.
  simplify_eq. split_and!; [| |congruence].
  - split; simpl; auto with golib. lia.
  - rewrite Hb1, Hb2. unfold encode_message. rewrite <-(app_assoc (message_header _)).
    cbn [msg_Payload].
    f_equal. apply header_of_words; [lia | done | done | done].
Qed.

(** ** Writing *)

Section write.
Context `{WriterOk W}.

Lemma WriteMessage_encode w m w' :
  WriteMessage w m = (w', None) → written w' = written w ++ encode_message m.
Proof.
  unfold WriteMessage, encode_message. intros E.
  destruct (writeFull w (message_header m)) as [w1 [e|]] eqn:E1; [done|].
  apply writeFull_ok in E1, E. by rewrite E, E1, app_assoc.
Qed.

Fixpoint write_messages (w : W) (ms : list Message) : W * option error :=
  match ms with
  | [] => (w, None)
  | m :: ms =>
      let '(w, err) := WriteMessage w m in
      match err with
      | Some e => (w, Some e)
      | None => write_messages w ms
      end
  end.

Lemma write_messages_encode w ms w' :
  write_messages w ms = (w', None) →
  written w' = written w ++ concat (encode_message <$> ms).
Proof.
  revert w; induction ms as [|m ms IH]; intros w E; cbn [write_messages] in E.
  - simplify_eq. by rewrite app_nil_r.
  - destruct (WriteMessage w m) as [w1 [e|]] eqn:E1; [done|].
    apply WriteMessage_encode in E1. by rewrite (IH w1 E), E1, fmap_cons, concat_cons, app_assoc.
Qed.
End write.

Lemma read_messages_encode ms r rest :
  Forall wf_message ms →
  rd_bytes r = concat (encode_message <$> ms) ++ rest →
  ∃ r', read_messages (length ms) r = (r', Ok ms) ∧ rd_bytes r' = rest.
Proof.
  intros Hwf. revert r. induction Hwf as [|m ms Hm Hms IH]; intros r Hr.
  - by exists r.
  - rewrite fmap_cons, concat_cons, <-app_assoc in Hr. cbn [read_messages length].
    destruct (ReadMessage_encode _ _ _ Hm Hr) as (r1 & -> & Hr1 & _).
    destruct (IH r1 Hr1) as (r2 & -> & Hr2). by exists r2.
Qed.

Lemma ReadMessage_same_stream r1 r2 :
  same_stream r1 r2 →
  same_stream (ReadMessage r1).1 (ReadMessage r2).1 ∧ (ReadMessage r1).2 = (ReadMessage r2).2.
Proof.
  intros Hs. unfold ReadMessage.
  destruct (ReadFull_same_stream r1 r2 messageHeaderLen Hs) as [Hs1 Hh].
  destruct (ReadFull r1 _) as [s1 h1], (ReadFull r2 _) as [s2 h2]; simpl in *; subst h2.
  destruct h1 as [h|e]; [|done]. destruct (negb _); [done|].
  destruct (ReadFull_same_stream s1 s2 (Uint32 (slice 12 16 h)) Hs1) as [Hs2 Hp].
  destruct (ReadFull s1 _) as [t1 p1], (ReadFull s2 _) as [t2 p2]; simpl in *; subst p2.
  destruct p1 as [p|e]; [|done]. by destruct (negb _).
Qed.

(** Two byte strings that differ in one byte have different checksums. *)
Lemma Checksum_one_byte l1 b b' l2 :
  b ≠ b' → Checksum (l1 ++ b :: l2) ≠ Checksum (l1 ++ b' :: l2).
Proof.
  intros Hne. rewrite !Checksum_sum, !foldr_app. simpl.
  set (t := foldr _ _ l2). intros E.
  assert (∀ z, foldr (λ b s, byte.unsigned b + s) z l1 =
               foldr (λ b s, byte.unsigned b + s) 0 l1 + z) as Hf.
  { clear E. intros z. induction l1 as [|c l1 IH]; simpl; lia. }
  rewrite (Hf (byte.unsigned b + t)), (Hf (byte.unsigned b' + t)) in E.
  pose proof (byte.unsigned_range b). pose proof (byte.unsigned_range b').
  apply Hne, byte.unsigned_inj. unfold uint32 in E.
  rewrite Z.mod_eq, (Z.mod_eq (_ + (byte.unsigned b' + t))) in E by lia. nia.
Qed.

(** ** Properties of the codec *)

(** C4: packets written to any transport that obeys the [io.Writer] contract
    (short writes included) are read back, one by one and in order, from any
    fragmentation of those bytes, and the reader stops exactly behind them. *)
Theorem packets_roundtrip `{WriterOk W} (w w' : W) ms r sent rest :
  Forall wf_message ms →
  write_messages w ms = (w', None) →
  written w' = written w ++ sent →
  rd_bytes r = sent ++ rest →
  ∃ r', read_messages (length ms) r = (r', Ok ms) ∧ rd_bytes r' = rest.
Proof.
  intros Hwf Hw Hsent Hr. apply write_messages_encode in Hw.
  rewrite Hw in Hsent. apply app_inj_1 in Hsent as [_ <-]; [|done].
  by apply read_messages_encode.
Qed.

(** [ReadMessage] accepts nothing but the encoding of the message it
    returns: command, arguments and length fit 32 bits, and the bytes consumed
    are that message's packet. *)
Theorem ReadMessage_accepts_only_packets r r' m :
  ReadMessage r = (r', Ok m) →
  wf_message m ∧ rd_bytes r = encode_message m ++ rd_bytes r'.
Proof. intros H. apply ReadMessage_ok in H. naive_solver. Qed.

(** Changing one byte of a packet's payload is detected as a checksum
    error, and the damaged packet is consumed whole. *)
Theorem ReadMessage_detects_payload_damage r m l1 b b' l2 rest :
  wf_message m → msg_Payload m = l1 ++ b :: l2 → b ≠ b' →
  rd_bytes r = message_header m ++ (l1 ++ b' :: l2) ++ rest →
  ∃ r' got want, ReadMessage r =
    (r', Err (Errorf "adb message invalid checksum: got %#x want %#x" [AInt got; AInt want])) ∧
    got ≠ want ∧ rd_bytes r' = rest.
Proof.
  intros Hwf Hp Hne Hr.
  assert (Checksum (l1 ++ b' :: l2) ≠ Checksum (msg_Payload m)) as Hc
    by (rewrite Hp; apply Checksum_one_byte; congruence).
  destruct (ReadMessage_header r m (l1 ++ b' :: l2) rest Hwf) as (r' & E & Hrest & _);
    [by rewrite Hp, !length_app | done|].
  rewrite (proj2 (Z.eqb_neq _ _) Hc) in E. eauto 10.
Qed.

(** A packet cut short by the end of the connection is an error, never a
    message.  The error is [io.EOF] when the cut falls on the packet's start or
    right behind a header that announces a payload, [io.ErrUnexpectedEOF]
    anywhere else. *)
Theorem ReadMessage_truncated r m n :
  wf_message m → (n < length (encode_message m))%nat →
  rd_bytes r = take n (encode_message m) → rd_end r = io_EOF →
  (ReadMessage r).2 = Err (if bool_decide (n = 0%nat ∨ n = 24%nat)
                           then io_EOF else io_ErrUnexpectedEOF).
Proof.
  intros Hwf Hn Hr He. unfold encode_message in Hn, Hr.
  rewrite length_app, length_message_header in Hn.
  destruct (decide (n < 24)%nat) as [Hlt|Hge].
  - unfold ReadMessage. rewrite take_app_le in Hr by (rewrite length_message_header; lia).
    rewrite ReadFull_short by
      (rewrite Hr, length_take, length_message_header; unfold messageHeaderLen; lia).
    simpl. rewrite He, Hr, (bool_decide_true (Sentinel _ = _)), andb_true_r by done.
    destruct n as [|n]; [done|]. rewrite bool_decide_true, bool_decide_false; [done|lia|].
    intros Hnil%(f_equal length). rewrite length_take, length_message_header in Hnil.
    simpl in Hnil. lia.
  - pose proof (header_words m Hwf) as (E0 & _ & _ & E3 & _ & E5).
    rewrite take_app_ge in Hr by (rewrite length_message_header; lia).
    rewrite length_message_header in Hr. unfold ReadMessage.
    destruct (ReadFull_enough r messageHeaderLen) as (r1 & Er1 & Hd1 & He1).
    { rewrite Hr, length_app, length_message_header. unfold messageHeaderLen. lia. }
    rewrite Hr in Er1, Hd1.
    rewrite take_app_length' in Er1 by done. rewrite drop_app_length' in Hd1 by done.
    rewrite Er1, E0, E3, E5, Z.eqb_refl. cbn [negb].
    rewrite ReadFull_short by (rewrite Hd1, length_take; lia). simpl.
    rewrite He1, He, Hd1, (bool_decide_true (Sentinel _ = _)), andb_true_r by done.
    destruct (decide (n = 24%nat)) as [->|].
    { by rewrite bool_decide_false by naive_solver. }
    rewrite bool_decide_true, bool_decide_false; [done|lia|].
    intros Hnil%(f_equal length). rewrite length_take in Hnil. simpl in Hnil. lia.
Qed.

(** How the transport cuts the byte stream into reads is invisible: two
    readers over the same bytes give the same message or the same error, and
    leave the same bytes. *)
Theorem ReadMessage_fragmentation r1 r2 :
  same_stream r1 r2 →
  (ReadMessage r1).2 = (ReadMessage r2).2 ∧
  rd_bytes (ReadMessage r1).1 = rd_bytes (ReadMessage r2).1.
Proof. intros [[? ?] ?]%ReadMessage_same_stream. done. Qed.

(** ** The properties at concrete inputs *)

Definition sample_okay : Message := mkMessage CommandOKAY 1 7 [].
Definition sample_wrte : Message := mkMessage CommandWRTE 1 7 (list_byte_of_string "hi").

Ltac solve_wf_message := split; vm_compute; intuition congruence.

Lemma wf_samples : Forall wf_message [sample_okay; sample_wrte].
Proof. repeat constructor; vm_compute; intuition congruence. Qed.

Lemma packets_roundtrip_witness :
  ∃ r', read_messages 2 (mkReader [take 7 (encode_message sample_okay);
            drop 7 (encode_message sample_okay) ++ take 1 (encode_message sample_wrte);
            drop 1 (encode_message sample_wrte); ["!"%byte]] io_EOF)
        = (r', Ok [sample_okay; sample_wrte]) ∧ rd_bytes r' = ["!"%byte].
Proof.
  apply (packets_roundtrip (mkSlowWriter [] [3; 0; 30]%nat)
           (mkSlowWriter (encode_message sample_okay ++ encode_message sample_wrte) [])
           [sample_okay; sample_wrte] _
           (encode_message sample_okay ++ encode_message sample_wrte)).
  - apply wf_samples.
  - vm_compute. reflexivity.
  - reflexivity.
  - vm_compute. reflexivity.
Defined.

Lemma ReadMessage_accepts_only_packets_witness :
  wf_message sample_wrte ∧
  rd_bytes (of_bytes (encode_message sample_wrte ++ ["!"%byte])) =
  encode_message sample_wrte ++ ["!"%byte].
Proof.
  apply (ReadMessage_accepts_only_packets _ (mkReader [["!"%byte]] io_EOF) sample_wrte).
  vm_compute. reflexivity.
Defined.

Lemma ReadMessage_detects_payload_damage_witness :
  ∃ r' got want, ReadMessage (of_bytes (message_header sample_wrte ++ list_byte_of_string "ho!")) =
    (r', Err (Errorf "adb message invalid checksum: got %#x want %#x" [AInt got; AInt want])) ∧
    got ≠ want ∧ rd_bytes r' = ["!"%byte].
Proof.
  apply (ReadMessage_detects_payload_damage _ sample_wrte ["h"%byte] "i"%byte "o"%byte []).
  - solve_wf_message.
  - reflexivity.
  - discriminate.
  - reflexivity.
Defined.

Lemma ReadMessage_truncated_witness :
  (ReadMessage (of_bytes (take 24 (encode_message sample_wrte)))).2 = Err io_EOF.
Proof.
  apply (ReadMessage_truncated _ sample_wrte 24).
  - solve_wf_message.
  - vm_compute. lia.
  - reflexivity.
  - reflexivity.
Defined.

Lemma ReadMessage_fragmentation_witness :
  (ReadMessage (of_bytes (encode_message sample_wrte))).2 =
  (ReadMessage (mkReader ((λ b, [b]) <$> encode_message sample_wrte) io_EOF)).2 ∧
  rd_bytes (ReadMessage (of_bytes (encode_message sample_wrte))).1 =
  rd_bytes (ReadMessage (mkReader ((λ b, [b]) <$> encode_message sample_wrte) io_EOF)).1.
Proof. apply ReadMessage_fragmentation. split; vm_compute; reflexivity. Defined.

Lemma slow_WriteMessage_ok (w : SlowWriter) m : (WriteMessage w m).2 = None.
Proof.
  unfold WriteMessage. pose proof (slow_writeFull_ok w (message_header m)) as H.
  destruct (writeFull w _) as [w1 e1]; simpl in *; subst. apply slow_writeFull_ok.
Qed.
