(* ===== verification/Handshake.v ===== *)
(** * protocol/connection.go: the CNXN / AUTH handshake

    [HandshakeWithOptions] over any transport (a [Reader] for the peer's bytes,
    an [io_Writer] for ours).  Signing is the caller's [crypto.Signer]: a
    credential carries it as a function.  [auth_plan] and [follow_plan] are the
    abstract specification: the list of replies a set of credentials allows,
    consumed one per challenge; the code's index and flag implement it. *)

From S2P Require Import Prelude Errors GoIO Message.

Definition Version : Z := 0x01000000.
Definition MaxPayload : Z := 4096.
Definition SystemIdentityString : string := "host::adb-go".

(** A NUL byte ends the CNXN payload. *)
Definition NUL : string := String Ascii.zero EmptyString.

(** [crypto.Signer.Sign(rand, digest, crypto.SHA1)] *)
Definition signer : Type := list byte → res (list byte).

(** The [AuthCredential] interface. *)
Record AuthCredential := mkAuthCredential {
  Signer : option signer;                       (* None: [Signer()] is nil *)
  PublicKeyPayload : list byte;
}.

(** [context.Context] as a call sees it: what [ctx.Err()] gives on entry, and
    what it gives when the call later fails. *)
Record Context_ := mkContext {
  ctx_entry : option error;
  ctx_failing : option error;
}.
Definition Background : Context_ := mkContext None None.

Section handshake.
(** [sha1.Sum] *)
Context (sha1_Sum : list byte → list byte).

(** The slice may hold nil interface values. *)
Abbreviation credentials := (list (option AuthCredential)).

(** The first loop of [nextAuthReply]: try signers from [credentialIndex] on.
    Returns the new index and the reply, if a signer was found. *)
Fixpoint next_signature (token : list byte) (rest : credentials) (idx : nat)
    : nat * res (option Message) :=
  match rest with
  | [] => (idx, Ok None)
  | credential :: rest =>
      match credential ≫= Signer with
      | None => next_signature token rest (S idx)
      | Some sign =>
          (S idx, signature ← sign (sha1_Sum token);
                  Ok (Some (mkMessage CommandAUTH AuthSignature 0 signature)))
      end
  end.

(** The second loop: the first credential with a public-key payload. *)
Fixpoint first_public_key (creds : credentials) : option (list byte) :=
  match creds with
  | [] => None
  | Some credential :: creds =>
      match PublicKeyPayload credential with
      | [] => first_public_key creds
      | payload => Some payload
      end
  | None :: creds => first_public_key creds
  end.

(** [nextAuthReply], with [*credentialIndex] and [*publicKeyOffered] as state. *)
Definition nextAuthReply (token : list byte) (creds : credentials)
    (credentialIndex : nat) (publicKeyOffered : bool)
    : (nat * bool) * res (option Message) :=
  let '(idx, reply) := next_signature token (drop credentialIndex creds) credentialIndex in
  match reply with
  | Err e => ((idx, publicKeyOffered), Err e)
  | Ok (Some m) => ((idx, publicKeyOffered), Ok (Some m))
  | Ok None =>
      if publicKeyOffered then ((idx, true), Ok None)
      else ((idx, true),
            Ok ((λ p, mkMessage CommandAUTH AuthRSAPublicKey 0 p) <$> first_public_key creds))
  end.

Definition contextualError (ctx : Context_) (op : string) (err : error) : error :=
  match ctx_failing ctx with
  | Some ctxErr => ErrorfW "adb handshake %s canceled: %w" [AStr op] ctxErr
  | None => ErrorfW "adb handshake %s: %w" [AStr op] err
  end.

Context `{io_Writer W}.

(** [readHandshakeResponses]: [None] when the fuel runs out. *)
Fixpoint readHandshakeResponses (fuel : nat) (ctx : Context_) (creds : credentials)
    (credentialIndex : nat) (publicKeyOffered : bool) (r : Reader) (w : W)
    : option ((Reader * W) * res Message) :=
  match fuel with
  | O => None
  | S fuel =>
      let '(r, response) := ReadMessage r in
      match response with
      | Err err => Some ((r, w), Err (contextualError ctx "read handshake response" err))
      | Ok response =>
          if msg_Command response =? CommandCNXN then Some ((r, w), Ok response)
          else if msg_Command response =? CommandAUTH then
            if negb (msg_Arg0 response =? AuthToken) then
              Some ((r, w), Err (AuthRequiredError response))
            else
              let '((credentialIndex, publicKeyOffered), reply) :=
                nextAuthReply (msg_Payload response) creds credentialIndex publicKeyOffered in
              match reply with
              | Err err => Some ((r, w), Err (contextualError ctx "prepare auth reply" err))
              | Ok None => Some ((r, w), Err (AuthRequiredError response))
              | Ok (Some reply) =>
                  let '(w, werr) := WriteMessage w reply in
                  match werr with
                  | Some err => Some ((r, w), Err (contextualError ctx "write auth reply" err))
                  | None => readHandshakeResponses fuel ctx creds credentialIndex
                              publicKeyOffered r w
                  end
              end
          else Some ((r, w), Err (Errorf "adb handshake unexpected response command %#x"
                                    [AInt (msg_Command response)]))
      end
  end.

Definition cnxn_request : Message :=
  mkMessage CommandCNXN Version MaxPayload
    (list_byte_of_string (SystemIdentityString ++ NUL)).

(** Every round that continues uses up a credential or the key offer. *)
Definition handshake_fuel (creds : credentials) : nat := length creds + 2.

Definition HandshakeWithOptions (ctx : Context_) (creds : credentials) (r : Reader) (w : W)
    : option ((Reader * W) * res Message) :=
  match ctx_entry ctx with
  | Some err => Some ((r, w), Err err)
  | None =>
      let '(w, werr) := WriteMessage w cnxn_request in
      match werr with
      | Some err => Some ((r, w), Err (contextualError ctx "write cnxn" err))
      | None => readHandshakeResponses (handshake_fuel creds) ctx creds 0 false r w
      end
  end.

Definition Handshake (ctx : Context_) (r : Reader) (w : W) :=
  HandshakeWithOptions ctx [] r w.

(** ** Specification: the plan a list of credentials gives *)

Inductive auth_action :=
  | Sign (sign : signer)
  | Offer (payload : list byte).

Definition auth_plan (creds : credentials) : list auth_action :=
  (Sign <$> omap (λ c, c ≫= Signer) creds) ++
  match first_public_key creds with Some p => [Offer p] | None => [] end.

Definition perform (a : auth_action) (token : list byte) : res Message :=
  match a with
  | Sign sign =>
      signature ← sign (sha1_Sum token);
      Ok (mkMessage CommandAUTH AuthSignature 0 signature)
  | Offer p => Ok (mkMessage CommandAUTH AuthRSAPublicKey 0 p)
  end.

(** Answer challenges from the plan until the peer connects. *)
Fixpoint follow_plan (ctx : Context_) (plan : list auth_action) (r : Reader) (w : W)
    : (Reader * W) * res Message :=
  let '(r, response) := ReadMessage r in
  match response with
  | Err err => ((r, w), Err (contextualError ctx "read handshake response" err))
  | Ok response =>
      if msg_Command response =? CommandCNXN then ((r, w), Ok response)
      else if msg_Command response =? CommandAUTH then
        if negb (msg_Arg0 response =? AuthToken) then ((r, w), Err (AuthRequiredError response))
        else
          match plan with
          | [] => ((r, w), Err (AuthRequiredError response))
          | action :: plan =>
              match perform action (msg_Payload response) with
              | Err err => ((r, w), Err (contextualError ctx "prepare auth reply" err))
              | Ok reply =>
                  let '(w, werr) := WriteMessage w reply in
                  match werr with
                  | Some err => ((r, w), Err (contextualError ctx "write auth reply" err))
                  | None => follow_plan ctx plan r w
                  end
              end
          end
      else ((r, w), Err (Errorf "adb handshake unexpected response command %#x"
                           [AInt (msg_Command response)]))
  end.

(** ** The index and the flag implement the plan *)

Definition signers (creds : credentials) : list signer := omap (λ c, c ≫= Signer) creds.

(** What is left of the plan in a state of the loop. *)
Definition plan_at (creds : credentials) (idx : nat) (offered : bool) : list auth_action :=
  (Sign <$> signers (drop idx creds)) ++
  (if offered then []
   else match first_public_key creds with Some p => [Offer p] | None => [] end).

Lemma signers_cons c creds :
  signers (c :: creds) = match c ≫= Signer with
                         | Some s => s :: signers creds
                         | None => signers creds
                         end.
Proof. done. Qed.

Lemma next_signature_cons token c rest idx :
  next_signature token (c :: rest) idx =
    match c ≫= Signer with
    | None => next_signature token rest (S idx)
    | Some s => (S idx, m ← perform (Sign s) token; Ok (Some m))
    end.
Proof.
  destruct c as [[[s|] p]|]; [|done|done]. cbn. f_equal. by destruct (s _).
Qed.

Lemma next_signature_none token rest idx :
  signers rest = [] →
  next_signature token rest idx = ((idx + length rest)%nat, Ok None).
Proof.
  revert idx; induction rest as [|c rest IH]; intros idx Hs.
  - simpl. by rewrite Nat.add_0_r.
  - rewrite signers_cons in Hs. rewrite next_signature_cons.
    destruct (c ≫= Signer); [done|]. rewrite IH by done. by rewrite Nat.add_succ_comm.
Qed.

Lemma next_signature_some token rest idx s ss :
  signers rest = s :: ss →
  ∃ k, (0 < k ≤ length rest)%nat ∧ signers (drop k rest) = ss ∧
       next_signature token rest idx =
         ((idx + k)%nat, m ← perform (Sign s) token; Ok (Some m)).
Proof.
  revert idx; induction rest as [|c rest IH]; intros idx Hs; [done|].
  rewrite signers_cons in Hs. rewrite next_signature_cons. cbn [length].
  destruct (c ≫= Signer) as [s'|]; simplify_eq.
  - exists 1%nat. rewrite Nat.add_1_r, skipn_cons, drop_0. split_and!; [lia | lia | done | done].
  - destruct (IH (S idx) Hs) as (k & ? & ? & ->). exists (S k).
    rewrite skipn_cons, Nat.add_succ_comm. split_and!; [lia | lia | done | done].
Qed.

(** One challenge consumes one action of the plan. *)
Lemma nextAuthReply_plan token creds idx offered :
  match plan_at creds idx offered with
  | [] => ∃ idx', nextAuthReply token creds idx offered = ((idx', true), Ok None)
  | action :: plan =>
      ∃ idx' offered',
        nextAuthReply token creds idx offered =
          ((idx', offered'), m ← perform action token; Ok (Some m)) ∧
        plan_at creds idx' offered' = plan ∧
        ((length creds - idx') + (if offered' then 0 else 1) <
         (length creds - idx) + (if offered then 0 else 1))%nat
  end.
Proof.
  unfold plan_at, nextAuthReply.
  destruct (signers (drop idx creds)) as [|s ss] eqn:Es; simpl.
  - rewrite (next_signature_none _ _ _ Es). destruct offered; simpl; [by eexists|].
    destruct (first_public_key creds) as [p|] eqn:Ep; simpl; [|by eexists].
    do 2 eexists. split_and!; [done | |simpl; rewrite length_drop; lia].
    rewrite <-drop_drop, (drop_ge (drop idx creds)) by lia. done.
  - destruct (next_signature_some token _ idx _ _ Es) as (k & Hk & Hss & ->).
    rewrite length_drop in Hk. rewrite drop_drop in Hss.
    exists (idx + k)%nat, offered. rewrite Hss. split_and!; [|done|lia].
    simpl. by destruct (s (sha1_Sum token)).
Qed.

Lemma readHandshakeResponses_plan fuel ctx creds idx (offered : bool) r (w : W) :
  (length creds - idx + (if offered then 0 else 1) < fuel)%nat →
  readHandshakeResponses fuel ctx creds idx offered r w =
    Some (follow_plan ctx (plan_at creds idx offered) r w).
Proof.
  revert idx offered r w; induction fuel as [|fuel IH]; intros idx offered r w Hf; [lia|].
  cbn [readHandshakeResponses].
  pose proof nextAuthReply_plan as Hnext.
  destruct (plan_at creds idx offered) as [|a plan] eqn:Ep; cbn [follow_plan];
    destruct (ReadMessage r) as [r1 [m|e]]; try done;
    (destruct (msg_Command m =? CommandCNXN); [done|]);
    (destruct (msg_Command m =? CommandAUTH); [|done]);
    (destruct (negb _); [done|]);
    specialize (Hnext (msg_Payload m) creds idx offered); rewrite Ep in Hnext.
  - by destruct Hnext as (idx' & ->).
  - destruct Hnext as (idx' & offered' & -> & <- & Hlt).
    destruct (perform a (msg_Payload m)) as [reply|e]; simpl; [|done].
    destruct (WriteMessage w reply) as [w1 [e|]]; [done|]. apply IH. lia.
Qed.
End handshake.

(** ** Properties of the handshake *)

(** An [AUTH TOKEN] packet. *)
Definition is_challenge (m : Message) : Prop :=
  msg_Command m = CommandAUTH ∧ msg_Arg0 m = AuthToken.

Lemma challenge_tests m :
  is_challenge m →
  (msg_Command m =? CommandCNXN) = false ∧ (msg_Command m =? CommandAUTH) = true ∧
  negb (msg_Arg0 m =? AuthToken) = false.
Proof. intros [-> ->]. done. Qed.

Section properties.
Context (sha1_Sum : list byte → list byte) `{WriterOk W}.

(** The replies [replies] are what the first actions of [plan] give on the
    tokens of [challenges]. *)
Definition replies_of (plan : list auth_action) (challenges replies : list Message) : Prop :=
  Forall2 (λ ac reply, perform sha1_Sum ac.1 (msg_Payload ac.2) = Ok reply)
    (zip plan challenges) replies.

Lemma follow_plan_transcript ctx plan r (w : W) r' w' resp :
  follow_plan sha1_Sum ctx plan r w = ((r', w'), Ok resp) →
  ∃ challenges replies,
    msg_Command resp = CommandCNXN ∧ Forall is_challenge challenges ∧
    (length challenges ≤ length plan)%nat ∧ replies_of plan challenges replies ∧
    rd_bytes r = concat (encode_message <$> challenges) ++ encode_message resp ++ rd_bytes r' ∧
    written w' = written w ++ concat (encode_message <$> replies).
Proof.
  revert r w; induction plan as [|a plan IH]; intros r w; cbn [follow_plan];
    destruct (ReadMessage r) as [r1 [m|e]] eqn:Er; try done;
    apply ReadMessage_ok in Er as (_ & Hr & _);
    (destruct (msg_Command m =? CommandCNXN) eqn:Ec;
     [intros [= <- <- <-]; exists [], []; rewrite app_nil_r; unfold replies_of; simpl;
      bool_to_prop; repeat split; auto; lia|]);
    (destruct (msg_Command m =? CommandAUTH) eqn:Ea; [|done]);
    destruct (negb _) eqn:Et; try done.
  destruct (perform _ a (msg_Payload m)) as [reply|e] eqn:Ep; [|done].
  destruct (WriteMessage w reply) as [w1 [e|]] eqn:Ew; [done|].
  apply WriteMessage_encode in Ew. bool_to_prop.
  intros (cs & rs & Hc & Hcs & Hlen & Hrs & Hb & Hw)%IH.
  exists (m :: cs), (reply :: rs). rewrite !fmap_cons, !concat_cons, <-!app_assoc.
  split_and!; [done | by constructor | simpl; lia | by constructor | |].
  - by rewrite Hr, Hb.
  - by rewrite Hw, Ew, <-app_assoc.
Qed.

Lemma follow_plan_exhausted ctx plan r (w : W) cs last rest :
  (∀ (w : W) m, (WriteMessage w m).2 = None) →
  (∀ a t, a ∈ plan → ∃ reply, perform sha1_Sum a t = Ok reply) →
  Forall wf_message (cs ++ [last]) → Forall is_challenge (cs ++ [last]) →
  length cs = length plan →
  rd_bytes r = concat (encode_message <$> cs) ++ encode_message last ++ rest →
  ∃ r' w', follow_plan sha1_Sum ctx plan r w = ((r', w'), Err (AuthRequiredError last)) ∧
           rd_bytes r' = rest.
Proof.
  intros Hwrite. revert r w cs; induction plan as [|a plan IH];
    intros r w cs Hperf Hwf Hch Hlen Hr; destruct cs as [|c cs]; try done; simpl in Hlen;
    cbn [app] in *; inversion_clear Hwf as [|? ? Hwf1 Hwf2];
    inversion_clear Hch as [|? ? Hch1 Hch2];
    destruct (challenge_tests _ Hch1) as (T1 & T2 & T3); cbn [follow_plan].
  - destruct (ReadMessage_encode r last rest Hwf1 Hr) as (r1 & -> & Hr1 & _).
    rewrite T1, T2, T3. eauto.
  - rewrite fmap_cons, concat_cons, <-app_assoc in Hr.
    destruct (ReadMessage_encode _ _ _ Hwf1 Hr) as (r1 & -> & Hr1 & _).
    rewrite T1, T2, T3. destruct (Hperf a (msg_Payload c)) as [reply ->]; [left|].
    specialize (Hwrite w reply). destruct (WriteMessage w reply) as [w1 ?]; simpl in *; subst.
    apply (IH r1 w1 cs); [intros; apply Hperf; by right | done | done | lia | done].
Qed.

(** C5: for every context, credential list (nil entries included) and
    transport, the handshake returns, and its loop over an index and a flag
    does what the plan of the credentials says: each usable signer once, in
    order, then the first non-empty public key once.  The peer cannot make
    it read more than [length creds + 2] packets. *)
Theorem handshake_follows_plan ctx creds r (w : W) :
  HandshakeWithOptions sha1_Sum ctx creds r w =
  Some (match ctx_entry ctx with
        | Some err => ((r, w), Err err)
        | None =>
            let '(w, werr) := WriteMessage w cnxn_request in
            match werr with
            | Some err => ((r, w), Err (contextualError ctx "write cnxn" err))
            | None => follow_plan sha1_Sum ctx (auth_plan creds) r w
            end
        end).
Proof.
  unfold HandshakeWithOptions. destruct (ctx_entry ctx); [done|].
  destruct (WriteMessage w cnxn_request) as [w1 [e|]]; [done|].
  apply readHandshakeResponses_plan. unfold handshake_fuel. lia.
Qed.

(** The transcript of a successful handshake.  We sent CNXN followed by
    one reply per challenge, taken from the plan in order and computed on
    that challenge's token; we consumed those challenges and one CNXN, which
    is the message returned. *)
Theorem handshake_transcript ctx creds r (w : W) r' w' resp :
  HandshakeWithOptions sha1_Sum ctx creds r w = Some ((r', w'), Ok resp) →
  ∃ challenges replies,
    msg_Command resp = CommandCNXN ∧ Forall is_challenge challenges ∧
    (length challenges ≤ length (auth_plan creds))%nat ∧
    replies_of (auth_plan creds) challenges replies ∧
    rd_bytes r = concat (encode_message <$> challenges) ++ encode_message resp ++ rd_bytes r' ∧
    written w' = written w ++ encode_message cnxn_request ++
                 concat (encode_message <$> replies).
Proof.
  unfold HandshakeWithOptions. destruct (ctx_entry ctx); [done|].
  destruct (WriteMessage w cnxn_request) as [w1 [e|]] eqn:Ew; [done|].
  rewrite readHandshakeResponses_plan by (unfold handshake_fuel; lia). intros [= Hf].
  apply WriteMessage_encode in Ew. apply follow_plan_transcript in Hf.
  destruct Hf as (cs & rs & ? & ? & ? & ? & ? & Hw). exists cs, rs.
  rewrite Hw, Ew, <-app_assoc. done.
Qed.

(** A peer that keeps challenging gets every planned reply and then the
    error for its last challenge, which matches [ErrAuthRequired]; nothing
    behind that challenge is read. *)
Theorem handshake_auth_required ctx creds r (w : W) cs last rest :
  ctx_entry ctx = None →
  (∀ (w : W) m, (WriteMessage w m).2 = None) →
  (∀ a t, a ∈ auth_plan creds → ∃ reply, perform sha1_Sum a t = Ok reply) →
  Forall wf_message (cs ++ [last]) → Forall is_challenge (cs ++ [last]) →
  length cs = length (auth_plan creds) →
  rd_bytes r = concat (encode_message <$> cs) ++ encode_message last ++ rest →
  ∃ r' w' err,
    HandshakeWithOptions sha1_Sum ctx creds r w = Some ((r', w'), Err err) ∧
    err = AuthRequiredError last ∧ errors_Is err protocol_ErrAuthRequired = true ∧
    rd_bytes r' = rest.
Proof.
  intros Hctx Hwrite Hperf Hwf Hch Hlen Hr. unfold HandshakeWithOptions. rewrite Hctx.
  pose proof (Hwrite w cnxn_request) as Hcnxn.
  destruct (WriteMessage w cnxn_request) as [w1 ?]; simpl in *; subst.
  rewrite readHandshakeResponses_plan by (unfold handshake_fuel; lia).
  destruct (follow_plan_exhausted ctx (auth_plan creds) r w1 cs last rest)
    as (r' & w' & Hf & ?); [done..|].
  exists r', w', (AuthRequiredError last). change (auth_plan creds) with (plan_at creds 0 false) in Hf.
  rewrite Hf. done.
Qed.
End properties.

(** ** The properties at concrete inputs *)

(** A host with two credential entries, the first nil; its signer appends a
    mark to the digest. *)
Definition sample_creds : list (option AuthCredential) :=
  [None; Some (mkAuthCredential (Some (λ digest, Ok (digest ++ ["!"%byte]))) ["k"%byte; Byte.x00])].

Definition sample_challenge (t : byte) : Message := mkMessage CommandAUTH AuthToken 0 [t].
Definition sample_cnxn : Message := mkMessage CommandCNXN Version MaxPayload ["d"%byte].

Definition sample_peer (ms : list Message) : Reader :=
  mkReader (encode_message <$> ms) io_EOF.

Lemma handshake_transcript_witness :
  ∃ challenges replies,
    msg_Command sample_cnxn = CommandCNXN ∧ Forall is_challenge challenges ∧
    (length challenges ≤ length (auth_plan sample_creds))%nat ∧
    replies_of id (auth_plan sample_creds) challenges replies ∧
    rd_bytes (sample_peer [sample_challenge "t"; sample_cnxn]) =
      concat (encode_message <$> challenges) ++ encode_message sample_cnxn ++
      rd_bytes (mkReader [] io_EOF) ∧
    written (mkSlowWriter (encode_message cnxn_request ++
      encode_message (mkMessage CommandAUTH AuthSignature 0 ["t"%byte; "!"%byte])) []) =
    written (mkSlowWriter [] []) ++ encode_message cnxn_request ++
      concat (encode_message <$> replies).
Proof.
  apply (handshake_transcript id Background sample_creds
           (sample_peer [sample_challenge "t"; sample_cnxn])
           (mkSlowWriter [] []) (mkReader [] io_EOF)
           (mkSlowWriter (encode_message cnxn_request ++
              encode_message (mkMessage CommandAUTH AuthSignature 0 ["t"%byte; "!"%byte])) []) sample_cnxn).
  vm_compute. reflexivity.
Defined.

Lemma handshake_auth_required_witness :
  ∃ r' w' err,
    HandshakeWithOptions id Background sample_creds
      (sample_peer (sample_challenge <$> ["a"; "b"; "c"; "d"]%byte)) (mkSlowWriter [] [5]%nat)
      = Some ((r', w'), Err err) ∧
    err = AuthRequiredError (sample_challenge "c") ∧
    errors_Is err protocol_ErrAuthRequired = true ∧
    rd_bytes r' = encode_message (sample_challenge "d").
Proof.
  apply (handshake_auth_required id Background sample_creds _ (mkSlowWriter [] [5]%nat)
           [sample_challenge "a"; sample_challenge "b"] (sample_challenge "c")).
  - reflexivity.
  - intros w m. apply slow_WriteMessage_ok.
  - intros a t Ha. apply list_elem_of_In in Ha. simpl in Ha.
    destruct Ha as [<-|[<-|[]]]; eexists; reflexivity.
  - repeat constructor; vm_compute; intuition congruence.
  - repeat constructor.
  - reflexivity.
  - vm_compute. reflexivity.
Defined.
