(* ===== verification/FakeAdb.v ===== *)
(** * internal/fakeadb/server.go: the fake device of the tests

    The device's end of the protocol, written independently of the client's:
    the handshake with its requirement of authorization, the loop that serves
    OPEN packets, and the server's state.  Its handshake is put against the
    client's of Handshake.v over a channel that connects them both ways. *)

From S2P Require Import Prelude Errors GoStrings GoIO Message Handshake.

#[local] Open Scope string_scope.
#[local] Open Scope Z_scope.
#[local] Open Scope list_scope.

Definition deviceIdentityString : string := "device::fake".

Record authRequirement := mkAuth {
  au_enabled : bool; au_token : list byte; au_signature : list byte; au_publicKey : list byte;
}.

(** [authRequirement.accepts] *)
Definition accepts (a : authRequirement) (msg : Message) : bool :=
  if msg_Arg0 msg =? AuthSignature then (0 <? length (au_signature a))%nat && bool_decide (msg_Payload msg = au_signature a)
  else if msg_Arg0 msg =? AuthRSAPublicKey then
    (0 <? length (au_publicKey a))%nat && bool_decide (msg_Payload msg = au_publicKey a)
  else false.

Definition challenge (a : authRequirement) : Message := mkMessage CommandAUTH AuthToken 0 (au_token a).
Definition device_cnxn : Message :=
  mkMessage CommandCNXN Version MaxPayload (list_byte_of_string (deviceIdentityString +++ NUL)).

Section server.
Context `{io_Writer V}.

(** A handler gets the connection, both its ends, and the OPEN packet. *)
Definition ServiceHandler : Type := Message → Reader → V → Reader * V.

(** Connections are numbers; [closed_conns] are those that were closed. *)
Record Server := mkServer {
  fs_listening : bool; fs_canceled : bool; fs_handlers : gmap string ServiceHandler; fs_conns : gset nat;
  fs_closed_conns : gset nat; fs_auth : authRequirement;
}.

(** [listen] is the error of [net.Listen]. *)
Definition fake_Listen (listen : option error) : res Server :=
  match listen with
  | Some err => Err err
  | None => Ok (mkServer true false ∅ ∅ ∅ (mkAuth false [] [] []))
  end.
Definition Handle (service : string) (h : ServiceHandler) (s : Server) : Server :=
  mkServer (fs_listening s) (fs_canceled s) (<[service := h]> (fs_handlers s)) (fs_conns s) (fs_closed_conns s) (fs_auth s).
Definition RequireAuth (token acceptedSignature acceptedPublicKey : list byte) (s : Server) : Server :=
  mkServer (fs_listening s) (fs_canceled s) (fs_handlers s) (fs_conns s) (fs_closed_conns s)
    (mkAuth true token acceptedSignature acceptedPublicKey).
Definition track (conn : nat) (s : Server) : Server :=
  mkServer (fs_listening s) (fs_canceled s) (fs_handlers s) ({[conn]} ∪ fs_conns s) (fs_closed_conns s) (fs_auth s).
(** The deferred [conn.Close] and [untrack] of [handleConn]. *)
Definition untrack (conn : nat) (s : Server) : Server :=
  mkServer (fs_listening s) (fs_canceled s) (fs_handlers s) (fs_conns s ∖ {[conn]}) ({[conn]} ∪ fs_closed_conns s) (fs_auth s).
(** [Close] before it waits for the goroutines; [close_err] is the listener's. *)
Definition fake_Close (close_err : option error) (s : Server) : Server * option error :=
  (mkServer false true (fs_handlers s) (fs_conns s) (fs_conns s ∪ fs_closed_conns s) (fs_auth s),
   match close_err with
   | Some err => if errors_Is err net_ErrClosed then None else Some err
   | None => None
   end).

(** A round of the accept loop [serve]: a connection is tracked and served by its
    own goroutine; an error ends the loop once the listener or the context is closed. *)
Inductive serve_round := Stops | Again | Serves (s : Server).
Definition serve (accept : res nat) (s : Server) : serve_round :=
  match accept with
  | Err err => if errors_Is err net_ErrClosed || fs_canceled s then Stops else Again
  | Ok conn => Serves (track conn s)
  end.

(** [Server.handshake] *)
Definition fake_handshake (a : authRequirement) (r : Reader) (v : V) : (Reader * V) * option error :=
  let '(r, request) := ReadMessage r in
  match request with
  | Err err => ((r, v), Some err)
  | Ok request =>
      if negb (msg_Command request =? CommandCNXN)
      then ((r, v), Some (Errorf "fake adb expected CNXN, got %#x" [AInt (msg_Command request)])) else
      if au_enabled a then
        let '(v, err) := WriteMessage v (challenge a) in
        match err with
        | Some err => ((r, v), Some err)
        | None =>
            let '(r, response) := ReadMessage r in
            match response with
            | Err err => ((r, v), Some err)
            | Ok response =>
                let '(v, err) := WriteMessage v (if accepts a response then device_cnxn else challenge a) in
                ((r, v), err)
            end
        end
      else let '(v, err) := WriteMessage v device_cnxn in ((r, v), err)
  end.

(** The loop of [handleConn] behind the handshake; [None] when the fuel runs
    out, which the packets that are left bound if no handler adds to them. *)
Fixpoint serve_opens (fuel : nat) (handlers : gmap string ServiceHandler) (r : Reader) (v : V) : option (Reader * V) :=
  match fuel with
  | O => None
  | S fuel =>
      let '(r, msg) := ReadMessage r in
      match msg with
      | Err _ => Some (r, v)
      | Ok msg =>
          if negb (msg_Command msg =? CommandOPEN) then serve_opens fuel handlers r v else
          match handlers !! TrimSuffix (string_of (msg_Payload msg)) NUL with
          | None =>
              let '(v, _) := WriteMessage v (mkMessage CommandCLSE 0 (msg_Arg0 msg) []) in
              serve_opens fuel handlers r v
          | Some handler => let '(r, v) := handler msg r v in serve_opens fuel handlers r v
          end
      end
  end.

Definition fake_handleConn (fuel : nat) (s : Server) (conn : nat) (r : Reader) (v : V) : option (Server * (Reader * V)) :=
  let '((r, v), err) := fake_handshake (fs_auth s) r v in
  match err with
  | Some _ => Some (untrack conn s, (r, v))
  | None => '(r, v) ← serve_opens fuel (fs_handlers s) r v; Some (untrack conn s, (r, v))
  end.
End server.

(** ** The two ends of the handshake *)

Lemma wf_device_cnxn : wf_message device_cnxn.
Proof. split; vm_compute; intuition congruence. Qed.
Lemma wf_cnxn_request : wf_message cnxn_request.
Proof. split; vm_compute; intuition congruence. Qed.
Lemma wf_challenge a : Z.of_nat (length (au_token a)) < 2 ^ 32 → wf_message (challenge a).
Proof. intros H. split; [..|done]; vm_compute; intuition congruence. Qed.
#[local] Hint Resolve wf_device_cnxn wf_cnxn_request wf_challenge : core.

(** Nothing is read where nothing was written. *)
Lemma ReadMessage_nothing r : rd_bytes r = [] → ∃ r' e, ReadMessage r = (r', Err e).
Proof.
  intros Hr. destruct (ReadMessage r) as [r' [m|e]] eqn:E; [|by exists r', e].
  apply ReadMessage_ok in E as (_ & E & _). rewrite Hr in E. apply (f_equal length) in E.
  unfold encode_message in E. rewrite !length_app, length_message_header in E. cbn in E. lia.
Qed.

Section agreement.
Context (sha1_Sum : list byte → list byte) `{WriterOk W} `{WriterOk V}.
Context (HW : ∀ (w : W) m, (WriteMessage w m).2 = None) (HV : ∀ (v : V) m, (WriteMessage v m).2 = None).

Lemma write_ok `{WriterOk X} (HX : ∀ (x : X) m, (WriteMessage x m).2 = None) x m :
  ∃ x', WriteMessage x m = (x', None) ∧ written x' = written x ++ encode_message m.
Proof.
  specialize (HX x m). destruct (WriteMessage x m) as [x' err] eqn:E. cbn in HX. subst err.
  exists x'. split; [done|by apply WriteMessage_encode].
Qed.

(** The client on the first packet of the channel. *)
Lemma follow_nothing ctx plan r (w : W) : rd_bytes r = [] →
  ∃ r' e, follow_plan sha1_Sum ctx plan r w = ((r', w), Err e).
Proof. intros Hr. destruct (ReadMessage_nothing r Hr) as (r' & e & E). destruct plan; cbn; rewrite E; by eexists _, _. Qed.

Lemma follow_cnxn ctx plan r (w : W) rest : rd_bytes r = encode_message device_cnxn ++ rest →
  ∃ r', follow_plan sha1_Sum ctx plan r w = ((r', w), Ok device_cnxn).
Proof.
  intros Hr. destruct (ReadMessage_encode _ _ _ wf_device_cnxn Hr) as (r' & E & _).
  exists r'. destruct plan; cbn; by rewrite E.
Qed.

(** What the client answers first. *)
Definition first_reply (creds : list (option AuthCredential)) (auth : authRequirement) : option Message :=
  match auth_plan creds with
  | a :: _ => match perform sha1_Sum a (au_token auth) with Ok m => Some m | Err _ => None end
  | [] => None
  end.
(** The client writes its CNXN, then follows its plan; what it writes only grows. *)
Lemma client_starts creds r (w : W) : ∃ w1, written w1 = written w ++ encode_message cnxn_request ∧
  HandshakeWithOptions sha1_Sum Background creds r w = Some (follow_plan sha1_Sum Background (auth_plan creds) r w1).
Proof.
  unfold HandshakeWithOptions. cbn [ctx_entry Background]. destruct (write_ok HW w cnxn_request) as (w1 & -> & Hw).
  exists w1. split; [done|]. apply readHandshakeResponses_plan. unfold handshake_fuel. lia.
Qed.

Lemma follow_grows ctx plan r (w : W) r' w' x : follow_plan sha1_Sum ctx plan r w = ((r', w'), x) →
  ∃ t, written w' = written w ++ t.
Proof.
  revert r w. induction plan as [|a plan IH]; intros r w; cbn [follow_plan]; destruct (ReadMessage r) as [r1 [m|e]];
    try (by intros [= _ <- _]; exists []; rewrite app_nil_r);
    (destruct (msg_Command m =? CommandCNXN); [by intros [= _ <- _]; exists []; rewrite app_nil_r|]);
    (destruct (msg_Command m =? CommandAUTH); [|by intros [= _ <- _]; exists []; rewrite app_nil_r]);
    (destruct (negb _); [by intros [= _ <- _]; exists []; rewrite app_nil_r|]);
    try (by intros [= _ <- _]; exists []; rewrite app_nil_r).
  destruct (perform sha1_Sum a (msg_Payload m)) as [reply|e]; [|by intros [= _ <- _]; exists []; rewrite app_nil_r].
  destruct (write_ok HW w reply) as (w1 & -> & Hw). intros HE. destruct (IH _ _ HE) as [t Ht].
  exists (encode_message reply ++ t). by rewrite Ht, Hw, app_assoc.
Qed.

(** The client on a challenge: silent, or with its first reply. *)
Lemma follow_silent creds auth r (w : W) rest : Z.of_nat (length (au_token auth)) < 2 ^ 32 →
  rd_bytes r = encode_message (challenge auth) ++ rest → first_reply creds auth = None →
  ∃ r' e, follow_plan sha1_Sum Background (auth_plan creds) r w = ((r', w), Err e).
Proof.
  intros Ht Hr Hn. unfold first_reply in Hn. destruct (ReadMessage_encode _ _ _ (wf_challenge auth Ht) Hr) as (r' & E & _).
  exists r'. destruct (auth_plan creds) as [|a plan]; cbn [follow_plan]; rewrite E; cbn [challenge msg_Command msg_Arg0 msg_Payload];
    change (CommandAUTH =? CommandCNXN) with false; change (CommandAUTH =? CommandAUTH) with true;
    cbn [AuthToken Z.eqb Pos.eqb negb]; [by eexists|].
  destruct (perform sha1_Sum a (au_token auth)); [done|by eexists].
Qed.
Lemma follow_answers creds auth r (w : W) rest m : Z.of_nat (length (au_token auth)) < 2 ^ 32 →
  rd_bytes r = encode_message (challenge auth) ++ rest → first_reply creds auth = Some m →
  ∃ r' w' plan, rd_bytes r' = rest ∧ written w' = written w ++ encode_message m ∧
    follow_plan sha1_Sum Background (auth_plan creds) r w = follow_plan sha1_Sum Background plan r' w'.
Proof.
  intros Ht Hr Hm. unfold first_reply in Hm. destruct (ReadMessage_encode _ _ _ (wf_challenge auth Ht) Hr) as (r' & E & Hr' & _).
  destruct (auth_plan creds) as [|a plan]; [done|]. cbn [follow_plan]. rewrite E. cbn [challenge msg_Command msg_Arg0 msg_Payload].
  change (CommandAUTH =? CommandCNXN) with false. change (CommandAUTH =? CommandAUTH) with true.
  cbn [AuthToken Z.eqb Pos.eqb negb]. destruct (perform sha1_Sum a (au_token auth)) as [reply|]; [|done].
  injection Hm as ->. destruct (write_ok HW w m) as (w' & -> & Hw). by exists r', w', plan.
Qed.

(** A second challenge with nothing behind it ends the client in an error. *)
Lemma follow_refused plan auth r (w : W) : Z.of_nat (length (au_token auth)) < 2 ^ 32 →
  rd_bytes r = encode_message (challenge auth) →
  ∃ r' w' e, follow_plan sha1_Sum Background plan r w = ((r', w'), Err e).
Proof.
  intros Ht Hr. rewrite <-(app_nil_r (encode_message _)) in Hr.
  destruct (ReadMessage_encode _ _ _ (wf_challenge auth Ht) Hr) as (r' & E & Hr' & _).
  destruct plan as [|a plan]; cbn [follow_plan]; rewrite E; cbn [challenge msg_Command msg_Arg0 msg_Payload];
    change (CommandAUTH =? CommandCNXN) with false; change (CommandAUTH =? CommandAUTH) with true;
    cbn [AuthToken Z.eqb Pos.eqb negb]; [by do 3 eexists|].
  destruct (perform sha1_Sum a (au_token auth)) as [m|]; [|by do 3 eexists].
  destruct (write_ok HW w m) as (w' & -> & _). destruct (follow_nothing Background plan r' w' Hr') as (r2 & e & ->). by do 3 eexists.
Qed.

(** The fake device behind its challenge. *)
Definition fake_answer (auth : authRequirement) (r : Reader) (v : V) : (Reader * V) * option error :=
  let '(r, response) := ReadMessage r in
  match response with
  | Err err => ((r, v), Some err)
  | Ok response =>
      let '(v, err) := WriteMessage v (if accepts auth response then device_cnxn else challenge auth) in ((r, v), err)
  end.

Lemma fake_answer_writes auth r v r' v' err : fake_answer auth r v = ((r', v'), err) → ∃ u, written v' = written v ++ u.
Proof.
  unfold fake_answer. destruct (ReadMessage r) as [r1 [m|e]]; [|by intros [= _ <- _]; exists []; rewrite app_nil_r].
  destruct (write_ok HV v (if accepts auth m then device_cnxn else challenge auth)) as (v1 & -> & Hv). intros [= _ <- _].
  by eexists.
Qed.

(** Behind the first exchange, when the client is asked for authorization. *)
Lemma authorized creds auth (w1 w' : W) (v1 v' : V) rc rc' rf1 rf' res err t u :
  Z.of_nat (length (au_token auth)) < 2 ^ 32 → (∀ m, first_reply creds auth = Some m → wf_message m) →
  follow_plan sha1_Sum Background (auth_plan creds) rc w1 = ((rc', w'), res) →
  fake_answer auth rf1 v1 = ((rf', v'), err) →
  rd_bytes rf1 = t → written w' = written w1 ++ t → rd_bytes rc = encode_message (challenge auth) ++ u →
  written v' = written v1 ++ u →
  match first_reply creds auth with
  | None => (∃ e, res = Err e) ∧ err ≠ None
  | Some m => err = None ∧ if accepts auth m then res = Ok device_cnxn else ∃ e, res = Err e
  end.
Proof.
  intros Ht Hwf Hc Hf Hrf Hw' Hrc Hv'. unfold fake_answer in Hf. destruct (first_reply creds auth) as [m|] eqn:ER.
  - destruct (follow_answers _ _ _ w1 _ _ Ht Hrc ER) as (rc1 & w2 & plan & Hrc1 & Hw2 & E). rewrite E in Hc.
    destruct (follow_grows _ _ _ _ _ _ _ Hc) as [t2 Ht2].
    assert (rd_bytes rf1 = encode_message m ++ t2) as Hb
      by (apply (app_inv_head (written w1)); by rewrite Hrf, <-Hw', Ht2, Hw2, app_assoc).
    destruct (ReadMessage_encode _ _ _ (Hwf m eq_refl) Hb) as (rf2 & Em & _). rewrite Em in Hf.
    destruct (write_ok HV v1 (if accepts auth m then device_cnxn else challenge auth)) as (v2 & Ev & Hv2).
    rewrite Ev in Hf. injection Hf as _ <- <-. split; [done|].
    assert (u = encode_message (if accepts auth m then device_cnxn else challenge auth)) as ->
      by (apply (app_inv_head (written v1)); by rewrite <-Hv', Hv2).
    destruct (accepts auth m).
    + destruct (follow_cnxn Background plan rc1 w2 []) as (r' & EC); [by rewrite app_nil_r|]. congruence.
    + destruct (follow_refused plan auth rc1 w2 Ht Hrc1) as (r' & w3 & e & EC). exists e. congruence.
  - destruct (follow_silent _ _ _ w1 _ Ht Hrc ER) as (r' & e & E). rewrite E in Hc. injection Hc as _ <- <-.
    split; [by eexists|]. assert (t = []) as -> by (apply (app_inv_head (written w1)); by rewrite app_nil_r).
    destruct (ReadMessage_nothing rf1 Hrf) as (r2 & e2 & E2). rewrite E2 in Hf. congruence.
Qed.

(** C6: the client's handshake and the fake device's agree, in any fragmentation
    and when each reads all that the other writes: the client connects, to the
    device's CNXN, exactly when no authorization is asked for or its first
    reply is accepted; and the device goes on to serve the connection when the
    client answered at all, accepted or not. *)
Theorem handshake_agreement (creds : list (option AuthCredential)) (auth : authRequirement) (w w' : W) (v v' : V)
    (rc rc' rf rf' : Reader) (res : res Message) (err : option error) :
  Z.of_nat (length (au_token auth)) < 2 ^ 32 →
  (∀ m, first_reply creds auth = Some m → wf_message m) →
  HandshakeWithOptions sha1_Sum Background creds rc w = Some ((rc', w'), res) →
  fake_handshake auth rf v = ((rf', v'), err) →
  written w' = written w ++ rd_bytes rf → written v' = written v ++ rd_bytes rc →
  let accepted := au_enabled auth = false ∨ ∃ m, first_reply creds auth = Some m ∧ accepts auth m = true in
  (accepted → res = Ok device_cnxn) ∧ (¬ accepted → ∃ e, res = Err e) ∧
  (err = None ↔ au_enabled auth = false ∨ first_reply creds auth ≠ None).
Proof.
  intros Ht Hwf Hc Hf Hrf Hrc accepted. destruct (client_starts creds rc w) as (w1 & Hw1 & E). rewrite E in Hc.
  injection Hc as Hc. destruct (follow_grows _ _ _ _ _ _ _ Hc) as [t Htail].
  assert (rd_bytes rf = encode_message cnxn_request ++ t) as Hb
    by (apply (app_inv_head (written w)); by rewrite <-Hrf, Htail, Hw1, app_assoc).
  destruct (ReadMessage_encode _ _ _ wf_cnxn_request Hb) as (rf1 & Ef & Hrf1 & _).
  unfold fake_handshake in Hf. rewrite Ef in Hf. change (negb (msg_Command cnxn_request =? CommandCNXN)) with false in Hf.
  cbn iota in Hf. destruct (au_enabled auth) eqn:EA.
  2:{ destruct (write_ok HV v device_cnxn) as (v1 & Ev & Hv1). rewrite Ev in Hf. injection Hf as <- <- <-.
      rewrite Hv1 in Hrc. apply app_inv_head in Hrc. destruct (follow_cnxn Background (auth_plan creds) rc w1 []) as (r' & EC);
        [by rewrite app_nil_r|]. rewrite EC in Hc. assert (res = Ok device_cnxn) as -> by congruence.
      split_and!; [done|intros Hn; destruct Hn; by left|by split; [left|]]. }
  destruct (write_ok HV v (challenge auth)) as (v1 & Ev & Hv1). rewrite Ev in Hf.
  destruct (fake_answer_writes _ _ _ _ _ _ Hf) as [u Hu].
  assert (rd_bytes rc = encode_message (challenge auth) ++ u) as Hb2
    by (apply (app_inv_head (written v)); by rewrite <-Hrc, Hu, Hv1, app_assoc).
  pose proof (authorized _ _ _ _ _ _ _ _ _ _ _ _ _ _ Ht Hwf Hc Hf Hrf1 Htail Hb2 Hu) as HA. unfold accepted.
  destruct (first_reply creds auth) as [m|].
  - destruct HA as [-> HA]. destruct (accepts auth m) eqn:EM; split_and!; try done; try (by split; [right|]).
    + intros Hn. destruct Hn. right. by exists m.
    + intros [?|(m' & Em & ?)]; [done|]. assert (m' = m) as -> by congruence. congruence.
  - destruct HA as [HA He]. split_and!; [by intros [?|(m' & ? & _)]|done|].
    split; [done|]. by intros [?|?].
Qed.
End agreement.

(** ** At concrete inputs *)

Definition sample_auth : authRequirement := mkAuth true ["t"%byte] ["t"%byte; "!"%byte] [].
Definition sample_reply (mark : byte) : Message := mkMessage CommandAUTH AuthSignature 0 ["t"%byte; mark].

Lemma handshake_agreement_witness :
  let rc := sample_peer [challenge sample_auth; device_cnxn] in
  let rf := sample_peer [cnxn_request; sample_reply "!"] in
  first_reply id sample_creds sample_auth = Some (sample_reply "!") ∧
  ∃ w' rc', HandshakeWithOptions id Background sample_creds rc (mkSlowWriter [] [3%nat]) = Some ((rc', w'), Ok device_cnxn).
Proof.
  intros rc rf. split; [by vm_compute|].
  destruct (HandshakeWithOptions id Background sample_creds rc (mkSlowWriter [] [3%nat])) as [[[rc' w'] res]|] eqn:EC;
    [|by vm_compute in EC].
  destruct (fake_handshake sample_auth rf (mkSlowWriter [] [])) as [[rf' v'] err] eqn:EF.
  exists w', rc'. assert (res = Ok device_cnxn) as ->; [|done].
  apply (handshake_agreement id (λ w m, slow_WriteMessage_ok w m) (λ w m, slow_WriteMessage_ok w m) sample_creds sample_auth
    (mkSlowWriter [] [3%nat]) w' (mkSlowWriter [] []) v' rc rc' rf rf' res err).
  - by vm_compute.
  - intros m Hm. vm_compute in Hm. injection Hm as <-. split; vm_compute; intuition congruence.
  - exact EC.
  - exact EF.
  - vm_compute in EC. injection EC as <- <- <-. by vm_compute.
  - vm_compute in EF. injection EF as <- <- <-. by vm_compute.
  - right. exists (sample_reply "!"). split; by vm_compute.
Defined.

(** A client whose reply was refused is served all the same: its OPEN is
    answered, here with CLSE. *)
Definition sample_open : Message := mkMessage CommandOPEN 5 0 (list_byte_of_string "shell:id").
Example refused_client_is_served :
  let s := RequireAuth ["t"%byte] ["t"%byte; "!"%byte] [] (mkServer (V := SlowWriter) true false ∅ ∅ ∅ (mkAuth false [] [] [])) in
  (λ '(_, (_, v)), sw_out v) <$>
    fake_handleConn 5 s 0 (sample_peer [cnxn_request; sample_reply "?"; sample_open]) (mkSlowWriter [] []) =
  Some (encode_message (challenge sample_auth) ++ encode_message (challenge sample_auth) ++
        encode_message (mkMessage CommandCLSE 0 5 [])).
Proof. by vm_compute. Qed.
