(* ===== verification/Stream.v ===== *)
(** * protocol/stream.go: streams multiplexed over one connection

    The state of a [Connection] and of its [Stream]s, and one definition per
    function of the file.  A [*Stream] is a pointer (an index of the heap):
    the connection's map, the reader goroutine, the user and the handlers share
    it.  Each definition here is run to completion without interleaving;
    [Schedule] cuts them into their critical sections and channel operations. *)

From S2P Require Import Prelude Errors GoStrings GoIO Message Handshake.

(** ** State *)

Record Stream := mkStream {
  s_localID : Z;
  s_remoteID : Z;
  s_openOnce : bool;                  (* openOnce has run *)
  s_openCh : option (option error);   (* the value buffered in openCh *)
  s_buf : list byte;
  s_closed : bool;
  s_err : option error;
  s_dataCh : list (list byte);        (* the chunks buffered in dataCh *)
  s_dataClosed : bool;                (* close(dataCh) was executed *)
}.

Record Connection := mkConnection {
  c_streams : gmap Z nat;             (* localID to stream pointer *)
  c_openHandlers : gmap string nat;   (* service to handler function *)
  c_nextLocalID : Z;
  c_readerStarted : bool;
  c_readerErr : option error;
  c_heap : list Stream;               (* every stream ever allocated *)
  c_out : list Message;               (* packets written, oldest first *)
  c_werr : list (option error);       (* outcome of the next writes *)
  c_spawned : list (nat * string * nat); (* handler goroutines started *)
}.

(** The capacity of [dataCh]. *)
Definition dataCh_cap : nat := 16.

Definition NewConnection (werr : list (option error)) : Connection :=
  mkConnection ∅ ∅ 0 false None [] [] werr [].

(** Field updates. *)
Definition with_streams (m : gmap Z nat) (c : Connection) : Connection :=
  mkConnection m (c_openHandlers c) (c_nextLocalID c) (c_readerStarted c) (c_readerErr c)
    (c_heap c) (c_out c) (c_werr c) (c_spawned c).
Definition with_handlers (m : gmap string nat) (c : Connection) : Connection :=
  mkConnection (c_streams c) m (c_nextLocalID c) (c_readerStarted c) (c_readerErr c)
    (c_heap c) (c_out c) (c_werr c) (c_spawned c).
Definition with_reader (started : bool) (err : option error) (c : Connection) : Connection :=
  mkConnection (c_streams c) (c_openHandlers c) (c_nextLocalID c) started err
    (c_heap c) (c_out c) (c_werr c) (c_spawned c).
Definition with_heap (h : list Stream) (c : Connection) : Connection :=
  mkConnection (c_streams c) (c_openHandlers c) (c_nextLocalID c) (c_readerStarted c)
    (c_readerErr c) h (c_out c) (c_werr c) (c_spawned c).
Definition with_wire (out : list Message) (werr : list (option error)) (c : Connection)
    : Connection :=
  mkConnection (c_streams c) (c_openHandlers c) (c_nextLocalID c) (c_readerStarted c)
    (c_readerErr c) (c_heap c) out werr (c_spawned c).
Definition with_spawned (l : list (nat * string * nat)) (c : Connection) : Connection :=
  mkConnection (c_streams c) (c_openHandlers c) (c_nextLocalID c) (c_readerStarted c)
    (c_readerErr c) (c_heap c) (c_out c) (c_werr c) l.

(** Dereference and update of a stream pointer. *)
Definition deref (c : Connection) (p : nat) : option Stream := c_heap c !! p.
Definition upd (p : nat) (f : Stream → Stream) (c : Connection) : Connection :=
  with_heap (alter f p (c_heap c)) c.

(** ** Stream methods that only touch the stream *)

(** [openOnce.Do(func() { s.openCh <- v })]; the channel has room for one. *)
Definition openOnce_send (v : option error) (s : Stream) : Stream :=
  if s_openOnce s then s else
  mkStream (s_localID s) (s_remoteID s) true (Some v) (s_buf s) (s_closed s) (s_err s)
    (s_dataCh s) (s_dataClosed s).

Definition establish (remoteID : Z) (s : Stream) : Stream :=
  let s :=
    if s_remoteID s =? 0 then
      mkStream (s_localID s) remoteID (s_openOnce s) (s_openCh s) (s_buf s) (s_closed s)
        (s_err s) (s_dataCh s) (s_dataClosed s)
    else s in
  openOnce_send None s.

Definition closeWithError (err : option error) (s : Stream) : Stream :=
  if s_closed s then s else
  openOnce_send err
    (mkStream (s_localID s) (s_remoteID s) (s_openOnce s) (s_openCh s) (s_buf s) true err
       (s_dataCh s) true).

Definition with_data (chunks : list (list byte)) (buf : list byte) (s : Stream) : Stream :=
  mkStream (s_localID s) (s_remoteID s) (s_openOnce s) (s_openCh s) buf (s_closed s) (s_err s)
    chunks (s_dataClosed s).

(** [<-s.openCh] *)
Definition take_openCh (s : Stream) : Stream :=
  mkStream (s_localID s) (s_remoteID s) (s_openOnce s) None (s_buf s) (s_closed s) (s_err s)
    (s_dataCh s) (s_dataClosed s).

(** An operation finishes, waits for a channel, or panics. *)
Inductive outcome (A : Type) :=
  | Done (a : A)
  | Blocks
  | Panics.
Arguments Done {_} a.
Arguments Blocks {_}.
Arguments Panics {_}.

(** [receive]: [s.dataCh <- chunk].  A send on a closed channel panics, a send
    on a full one waits. *)
Definition receive (payload : list byte) (s : Stream) : outcome Stream :=
  if s_dataClosed s then Panics
  else if (dataCh_cap <=? length (s_dataCh s))%nat then Blocks
  else Done (with_data (s_dataCh s ++ [payload]) (s_buf s) s).

(** ** Connection *)

(** [writeMessage]: the transport may fail. *)
Definition writeMessage (m : Message) (c : Connection) : Connection * option error :=
  match c_werr c with
  | Some err :: werr => (with_wire (c_out c) werr c, Some err)
  | None :: werr => (with_wire (c_out c ++ [m]) werr c, None)
  | [] => (with_wire (c_out c ++ [m]) [] c, None)
  end.

Definition startReader (c : Connection) : Connection * option error :=
  if c_readerStarted c then (c, c_readerErr c) else (with_reader true (c_readerErr c) c, None).

(** [newStreamLocked]: [c.nextLocalID++] on a [uint32]. *)
Definition newStreamLocked (remoteID : Z) (c : Connection) : Connection * nat :=
  let id := uint32 (c_nextLocalID c + 1) in
  let p := length (c_heap c) in
  let s := mkStream id remoteID false None [] false None [] false in
  (mkConnection (<[id := p]> (c_streams c)) (c_openHandlers c) id (c_readerStarted c)
     (c_readerErr c) (c_heap c ++ [s]) (c_out c) (c_werr c) (c_spawned c), p).

Definition newStream (c : Connection) : Connection * nat := newStreamLocked 0 c.

Definition newAcceptedStream (remoteID : Z) (c : Connection) : Connection * nat :=
  let '(c, p) := newStreamLocked remoteID c in
  (upd p (openOnce_send None) c, p).

Definition streamByLocalID (localID : Z) (c : Connection) : option nat := c_streams c !! localID.

Definition removeStream (localID : Z) (c : Connection) : Connection :=
  with_streams (delete localID (c_streams c)) c.

Definition closeStream (localID : Z) (err : option error) (c : Connection) : Connection :=
  let s := streamByLocalID localID c in
  let c := removeStream localID c in
  match s with
  | Some p => upd p (closeWithError err) c
  | None => c
  end.

(** [closeAllStreams]: the map is swapped for an empty one; the order in which
    Go ranges over the old one does not matter, since the streams are distinct. *)
Definition closeAllStreams (err : option error) (c : Connection) : Connection :=
  foldr (λ p, upd p (closeWithError err)) (with_streams ∅ c) (map_to_list (c_streams c)).*2.

Definition openHandler (service : string) (c : Connection) : option nat :=
  c_openHandlers c !! service.

(** [local_id_of c p]: the field [s.localID] through a pointer. *)
Definition local_id_of (c : Connection) (p : nat) : Z :=
  match deref c p with Some s => s_localID s | None => 0 end.

Definition handlePeerOpen (msg : Message) (c : Connection) : Connection :=
  let service := TrimSuffix (string_of (msg_Payload msg)) NUL in
  match openHandler service c with
  | None => fst (writeMessage (mkMessage CommandCLSE 0 (msg_Arg0 msg) []) c)
  | Some handler =>
      let '(c, p) := newAcceptedStream (msg_Arg0 msg) c in
      let id := local_id_of c p in
      let '(c, err) := writeMessage (mkMessage CommandOKAY id (msg_Arg0 msg) []) c in
      match err with
      | Some err => closeStream id (Some err) c
      | None => with_spawned (c_spawned c ++ [(handler, service, p)]) c
      end
  end.

Definition handleStreamMessage (msg : Message) (c : Connection) : outcome Connection :=
  if msg_Command msg =? CommandOPEN then Done (handlePeerOpen msg c) else
  let s := streamByLocalID (msg_Arg1 msg) c in
  if msg_Command msg =? CommandOKAY then
    match s with
    | Some p => Done (upd p (establish (msg_Arg0 msg)) c)
    | None => Done c
    end
  else if msg_Command msg =? CommandWRTE then
    match s with
    | Some p =>
        let c := upd p (establish (msg_Arg0 msg)) c in
        let '(c, _) := writeMessage (mkMessage CommandOKAY (local_id_of c p) (msg_Arg0 msg) []) c in
        match deref c p with
        | Some s =>
            match receive (msg_Payload msg) s with
            | Done s => Done (upd p (λ _, s) c)
            | Blocks => Blocks
            | Panics => Panics
            end
        | None => Panics                                    (* nil dereference *)
        end
    | None => Done c
    end
  else if msg_Command msg =? CommandCLSE then
    match s with
    | Some p =>
        match deref c p with
        | Some s =>
            let established := negb (s_remoteID s =? 0) in
            Done (closeStream (s_localID s)
                    (if established then None else Some (Sentinel protocol_ErrDeviceClosed)) c)
        | None => Panics
        end
    | None => Done c
    end
  else Done c.

(** The end of [readLoop], when [ReadMessage] fails. *)
Definition readLoop_fail (err : error) (c : Connection) : Connection :=
  closeAllStreams (Some (Sentinel protocol_ErrDeviceClosed)) (with_reader (c_readerStarted c) (Some err) c).

(** [Connection.Close], without the transport's own [Close]. *)
Definition Connection_Close (c : Connection) : Connection :=
  closeAllStreams (Some (Sentinel protocol_ErrDeviceClosed)) c.

Definition HandleOpen (service : string) (h : option nat) (c : Connection)
    : Connection * option error :=
  let service := TrimSuffix service NUL in
  match h with
  | None => (with_handlers (delete service (c_openHandlers c)) c, None)
  | Some h => startReader (with_handlers (<[service := h]> (c_openHandlers c)) c)
  end.

Definition RemoveOpenHandler (service : string) (c : Connection) : Connection :=
  with_handlers (delete (TrimSuffix service NUL) (c_openHandlers c)) c.

(** ** The user's side of a stream *)

(** [OpenContext] up to the [select]: the pointer of the new stream, or the
    error that is returned at once. *)
Definition OpenContext_start (ctx_err : option error) (service : string) (c : Connection)
    : Connection * res nat :=
  match ctx_err with
  | Some err => (c, Err err)
  | None =>
      let '(c, rerr) := startReader c in
      match rerr with
      | Some err => (c, Err err)
      | None =>
          let '(c, p) := newStream c in
          let payload := bytes_of (TrimSuffix service NUL +++ NUL) in
          let id := local_id_of c p in
          let '(c, werr) := writeMessage (mkMessage CommandOPEN id 0 payload) c in
          match werr with
          | Some err => (removeStream id c, Err (ErrorfW "adb open service %q: %w" [AStr service] err))
          | None => (c, Ok p)
          end
      end
  end.

(** The [case err := <-stream.openCh] of its [select]. *)
Definition OpenContext_wait (service : string) (p : nat) (c : Connection)
    : outcome (Connection * res nat) :=
  match deref c p with
  | Some s =>
      match s_openCh s with
      | None => Blocks
      | Some None => Done (upd p take_openCh c, Ok p)
      | Some (Some err) =>
          Done (upd p take_openCh c, Err (ErrorfW "adb open service %q: %w" [AStr service] err))
      end
  | None => Panics
  end.

(** [Close]: CLSE to the peer when the stream is open and established. *)
Definition Close (p : nat) (c : Connection) : Connection :=
  match deref c p with
  | Some s =>
      let c :=
        if negb (s_closed s) && negb (s_remoteID s =? 0)
        then fst (writeMessage (mkMessage CommandCLSE (s_localID s) (s_remoteID s) []) c)
        else c in
      closeStream (s_localID s) (Some (Sentinel io_ErrClosedPipe)) c
  | None => c
  end.

(** The [case <-ctx.Done()] of [OpenContext]. *)
Definition OpenContext_cancel (ctx_err : error) (service : string) (p : nat) (c : Connection)
    : Connection * res nat :=
  (Close p c, Err (ErrorfW "adb open service %q canceled: %w" [AStr service] ctx_err)).

(** The loop of [Read(p)] with [len(p) = n]: the stream's chunks and buffer,
    and the bytes or the error returned. *)
Fixpoint Read_loop (closed : bool) (err : option error) (chunks : list (list byte))
    (buf : list byte) (n : nat) : (list (list byte) * list byte) * outcome (res (list byte)) :=
  match buf with
  | _ :: _ => ((chunks, drop n buf), Done (Ok (take n buf)))
  | [] =>
      match chunks with
      | chunk :: chunks => Read_loop closed err chunks (buf ++ chunk) n
      | [] =>
          (([], []),
           if closed then Done (Err (default (Sentinel io_EOF) err)) else Blocks)
      end
  end.

Definition Stream_Read (n : nat) (s : Stream) : Stream * outcome (res (list byte)) :=
  let '((chunks, buf), r) := Read_loop (s_closed s) (s_err s) (s_dataCh s) (s_buf s) n in
  (with_data chunks buf s, r).

Definition Read (p n : nat) (c : Connection) : Connection * outcome (res (list byte)) :=
  match deref c p with
  | Some s => let '(s, r) := Stream_Read n s in (upd p (λ _, s) c, r)
  | None => (c, Panics)
  end.

(** [Write]: the whole buffer goes out as one WRTE packet.  (A Go pointer is
    never dangling, so the [None] cases of these definitions are not reached:
    a history only mentions allocated streams.) *)
Definition Write (p : nat) (bs : list byte) (c : Connection) : Connection * res nat :=
  match deref c p with
  | Some s =>
      if s_closed s then (c, Err (Sentinel io_ErrClosedPipe))
      else if s_remoteID s =? 0 then (c, Err (Sentinel io_ErrClosedPipe))
      else
        let '(c, err) :=
          writeMessage (mkMessage CommandWRTE (s_localID s) (s_remoteID s) bs) c in
        match err with
        | Some err => (c, Err err)
        | None => (c, Ok (length bs))
        end
  | None => (c, Err (External 0))
  end.

(** ** Histories of one connection

    Everything that can happen to a connection, one operation at a time. *)

Inductive event :=
  | EvMessage (m : Message)                 (* the reader handles a packet *)
  | EvReadError (e : error)                 (* the transport ends *)
  | EvOpen (service : string)               (* OpenContext, up to its select *)
  | EvOpenWait (service : string) (p : nat)
  | EvOpenCancel (service : string) (p : nat)
  | EvRead (p n : nat)
  | EvWrite (p : nat) (bs : list byte)
  | EvClose (p : nat)
  | EvConnClose
  | EvHandle (service : string) (h : option nat)
  | EvRemoveHandler (service : string).

(** [Done] with the state and the bytes a [Read] returned. *)
Definition step (ev : event) (c : Connection) : outcome (Connection * list byte) :=
  match ev with
  | EvMessage m =>
      match handleStreamMessage m c with
      | Done c => Done (c, [])
      | Blocks => Blocks
      | Panics => Panics
      end
  | EvReadError e => Done (readLoop_fail e c, [])
  | EvOpen service => Done (fst (OpenContext_start None service c), [])
  | EvOpenWait service p =>
      match OpenContext_wait service p c with
      | Done (c, _) => Done (c, [])
      | Blocks => Blocks
      | Panics => Panics
      end
  | EvOpenCancel service p =>
      Done (fst (OpenContext_cancel (Sentinel context_Canceled) service p c), [])
  | EvRead p n =>
      match Read p n c with
      | (c, Done (Ok bs)) => Done (c, bs)
      | (c, Done (Err _)) => Done (c, [])
      | (_, Blocks) => Blocks
      | (_, Panics) => Panics
      end
  | EvWrite p bs => Done (fst (Write p bs c), [])
  | EvClose p => Done (Close p c, [])
  | EvConnClose => Done (Connection_Close c, [])
  | EvHandle service h => Done (fst (HandleOpen service h c), [])
  | EvRemoveHandler service => Done (RemoveOpenHandler service c, [])
  end.

(** ** Well-formed connections *)

Record wf_stream (s : Stream) : Prop := {
  wfs_chan : s_dataClosed s = s_closed s;
  wfs_open : s_openOnce s = false → s_openCh s = None ∧ s_closed s = false;
  wfs_cap : (length (s_dataCh s) ≤ dataCh_cap)%nat;
}.

(** The map only holds open streams, under their own local ID. *)
Record wf_conn (c : Connection) : Prop := {
  wfc_heap : Forall wf_stream (c_heap c);
  wfc_map id p : c_streams c !! id = Some p →
    ∃ s, deref c p = Some s ∧ s_localID s = id ∧ s_closed s = false;
}.

(** What the readers of a stream have not seen yet. *)
Definition pending (s : Stream) : list byte := s_buf s ++ concat (s_dataCh s).
Definition pending_at (c : Connection) (p : nat) : list byte := default [] (pending <$> deref c p).

(** A change of a stream that leaves its identity and its life alone. *)
Definition same_life (s s' : Stream) : Prop :=
  s_localID s' = s_localID s ∧ s_closed s' = s_closed s.

Lemma deref_upd c p q f :
  deref (upd q f c) p = if decide (p = q) then f <$> deref c p else deref c p.
Proof.
  unfold deref, upd, with_heap; simpl. case_decide as E; [subst; apply list_lookup_alter_eq|].
  by apply list_lookup_alter_ne.
Qed.

Lemma streams_upd c q f : c_streams (upd q f c) = c_streams c.
Proof. done. Qed.

Lemma wf_upd c p f :
  (∀ s, deref c p = Some s → wf_stream s → wf_stream (f s) ∧ same_life s (f s)) →
  wf_conn c → wf_conn (upd p f c).
Proof.
  intros Hf [Hheap Hmap]. split.
  - unfold upd, with_heap; simpl. apply Forall_alter; [done|].
    intros s Hs Hwf. by apply Hf.
  - intros id q Hq. rewrite streams_upd in Hq. apply Hmap in Hq as (s & Hs & Hid & Hc).
    rewrite deref_upd. case_decide as E; [subst q|by eauto].
    rewrite Hs. exists (f s). split; [done|].
    destruct (Hf s) as [_ [-> ->]]; [done | | done].
    by eapply Forall_lookup_1.
Qed.

(** A stream that is no longer registered may change in any way. *)
Lemma wf_upd_unregistered c p f :
  (∀ id, c_streams c !! id ≠ Some p) →
  (∀ s, wf_stream s → wf_stream (f s)) →
  wf_conn c → wf_conn (upd p f c).
Proof.
  intros Hun Hf [Hheap Hmap]. split.
  - unfold upd, with_heap; simpl. apply Forall_alter; auto.
  - intros id q Hq. rewrite streams_upd in Hq.
    destruct (Hmap _ _ Hq) as (s & ? & ? & ?).
    rewrite deref_upd. case_decide as E; [subst q; by destruct (Hun id)|by eauto].
Qed.

(** Changing anything but the map and the heap. *)
Lemma wf_conn_ext c c' :
  c_streams c' = c_streams c → c_heap c' = c_heap c → wf_conn c → wf_conn c'.
Proof.
  intros Hs Hh [Hheap Hmap]. split; [by rewrite Hh|].
  intros id p. unfold deref. rewrite Hs, Hh. apply Hmap.
Qed.

Lemma wf_removeStream id c : wf_conn c → wf_conn (removeStream id c).
Proof.
  intros [Hheap Hmap]. split; [done|]. intros id' p Hp. unfold removeStream in Hp; simpl in Hp.
  apply lookup_delete_Some in Hp as [_ Hp]. by apply Hmap.
Qed.

Lemma wf_openOnce_send v s : wf_stream s → wf_stream (openOnce_send v s) ∧ same_life s (openOnce_send v s).
Proof.
  intros Hs. unfold openOnce_send. destruct (s_openOnce s); [done|].
  destruct Hs. by split.
Qed.

Lemma wf_establish r s : wf_stream s → wf_stream (establish r s) ∧ same_life s (establish r s).
Proof.
  intros Hs. unfold establish. destruct (s_remoteID s =? 0); [|by apply wf_openOnce_send].
  set (t := mkStream _ _ _ _ _ _ _ _ _).
  assert (wf_stream t) as Ht by (destruct Hs; by split).
  by apply (wf_openOnce_send None) in Ht.
Qed.

Lemma wf_closeWithError e s : wf_stream s → wf_stream (closeWithError e s).
Proof.
  intros Hs. unfold closeWithError. destruct (s_closed s) eqn:E; [done|].
  unfold openOnce_send; simpl. destruct Hs as [H1 H2 H3].
  destruct (s_openOnce s) eqn:Eo; split; simpl; congruence || done.
Qed.

Lemma wf_receive bs s s' : wf_stream s → receive bs s = Done s' → wf_stream s' ∧ same_life s s'.
Proof.
  unfold receive. intros Hs Hr. destruct (s_dataClosed s); [done|].
  destruct (Nat.leb_spec dataCh_cap (length (s_dataCh s))); simplify_eq.
  destruct Hs as [H1 H2 H3]. split; [|done].
  split; simpl; [done | done | rewrite length_app; simpl; lia].
Qed.

Lemma writeMessage_frame m c :
  c_streams (fst (writeMessage m c)) = c_streams c ∧ c_heap (fst (writeMessage m c)) = c_heap c.
Proof. unfold writeMessage. by destruct (c_werr c) as [|[e|] werr]. Qed.

Lemma wf_writeMessage m c : wf_conn c → wf_conn (fst (writeMessage m c)).
Proof. destruct (writeMessage_frame m c). by apply wf_conn_ext. Qed.

Lemma wf_startReader c : wf_conn c → wf_conn (fst (startReader c)).
Proof. unfold startReader. destruct (c_readerStarted c); [done|]. by apply wf_conn_ext. Qed.

Lemma newStreamLocked_spec r c c' p :
  newStreamLocked r c = (c', p) →
  p = length (c_heap c) ∧ c_streams c' = <[uint32 (c_nextLocalID c + 1) := p]> (c_streams c) ∧
  c_heap c' = c_heap c ++ [mkStream (uint32 (c_nextLocalID c + 1)) r false None [] false None [] false] ∧
  c_out c' = c_out c ∧ c_werr c' = c_werr c ∧ c_spawned c' = c_spawned c ∧
  c_nextLocalID c' = uint32 (c_nextLocalID c + 1).
Proof. unfold newStreamLocked. by intros [= <- <-]. Qed.

Lemma wf_newStreamLocked r c : wf_conn c → wf_conn (fst (newStreamLocked r c)).
Proof.
  intros [Hheap Hmap]. destruct (newStreamLocked r c) as [c' p] eqn:E; simpl.
  apply newStreamLocked_spec in E as (-> & Hs & Hh & _). split.
  - rewrite Hh. apply Forall_app_2; [done|]. constructor; [|constructor]. split; simpl; [done | done | unfold dataCh_cap; lia].
  - intros id q. rewrite Hs. unfold deref. rewrite Hh. intros [[<- <-]|[? Hq]]%lookup_insert_Some.
    + rewrite lookup_app_r, Nat.sub_diag by done. eauto.
    + destruct (Hmap _ _ Hq) as (s & Hd & ?). unfold deref in Hd.
      rewrite lookup_app_l by (by eapply lookup_lt_Some). eauto.
Qed.

Lemma streams_remove id c id' p :
  c_streams (removeStream id c) !! id' = Some p ↔ id ≠ id' ∧ c_streams c !! id' = Some p.
Proof. apply (lookup_delete_Some (M := gmap Z)). Qed.

Lemma unregistered_after_remove c id p :
  wf_conn c → c_streams c !! id = Some p →
  ∀ id', c_streams (removeStream id c) !! id' ≠ Some p.
Proof.
  intros [_ Hmap] Hp id' [Hne Hp']%streams_remove.
  destruct (Hmap _ _ Hp) as (s & Hs & <- & _), (Hmap _ _ Hp') as (s' & Hs' & <- & _).
  congruence.
Qed.

Lemma wf_closeStream id e c : wf_conn c → wf_conn (closeStream id e c).
Proof.
  intros Hwf. unfold closeStream, streamByLocalID.
  destruct (c_streams c !! id) as [p|] eqn:Hp; [|by apply wf_removeStream].
  apply wf_upd_unregistered; [by apply unregistered_after_remove | intros s; apply wf_closeWithError |].
  by apply wf_removeStream.
Qed.

Lemma closeAll_frame (f : Stream → Stream) ps c :
  c_streams (foldr (λ p, upd p f) c ps) = c_streams c ∧
  c_out (foldr (λ p, upd p f) c ps) = c_out c ∧
  c_werr (foldr (λ p, upd p f) c ps) = c_werr c.
Proof. by induction ps. Qed.

Lemma wf_closeAllStreams e c : wf_conn c → wf_conn (closeAllStreams e c).
Proof.
  intros [Hheap _]. unfold closeAllStreams.
  assert (wf_conn (with_streams ∅ c)) as Hwf by (split; [done | intros id p Hp; set_solver]).
  induction (map_to_list (c_streams c)).*2 as [|p ps IH]; simpl; [done|].
  apply wf_upd_unregistered; [|intros s; apply wf_closeWithError|done].
  intros id. destruct (closeAll_frame (closeWithError e) ps (with_streams ∅ c)) as [-> _].
  set_solver.
Qed.

Lemma wf_upd_life c p f :
  (∀ s, wf_stream s → wf_stream (f s) ∧ same_life s (f s)) → wf_conn c → wf_conn (upd p f c).
Proof. intros Hf. apply wf_upd. auto. Qed.

Create HintDb wf.
#[local] Hint Resolve wf_removeStream wf_closeStream wf_closeAllStreams wf_writeMessage
  wf_startReader wf_newStreamLocked wf_upd_life wf_establish wf_openOnce_send : wf.

Lemma wf_newAcceptedStream r c : wf_conn c → wf_conn (fst (newAcceptedStream r c)).
Proof.
  intros Hwf. unfold newAcceptedStream. pose proof (wf_newStreamLocked r c Hwf) as Hn.
  destruct (newStreamLocked r c); cbn [fst] in *. auto with wf.
Qed.

Lemma wf_handlePeerOpen m c : wf_conn c → wf_conn (handlePeerOpen m c).
Proof.
  intros Hwf. unfold handlePeerOpen. destruct (openHandler _ c); [|auto with wf].
  pose proof (wf_newAcceptedStream (msg_Arg0 m) c Hwf) as Hn.
  destruct (newAcceptedStream _ c) as [c1 p]; cbn [fst] in Hn.
  match goal with |- context [writeMessage ?m c1] => pose proof (wf_writeMessage m c1 Hn) as Hw;
    destruct (writeMessage m c1) as [c2 [e|]] end; [auto with wf|].
  by apply wf_conn_ext with c2.
Qed.

(** The reader finishes a packet, waits, and on a well-formed connection never
    panics. *)
Lemma handleStreamMessage_wf m c :
  wf_conn c →
  match handleStreamMessage m c with
  | Done c' => wf_conn c'
  | Blocks => True
  | Panics => False
  end.
Proof.
  intros Hwf. unfold handleStreamMessage, streamByLocalID.
  destruct (msg_Command m =? CommandOPEN); [by apply wf_handlePeerOpen|].
  destruct (msg_Command m =? CommandOKAY).
  { destruct (c_streams c !! msg_Arg1 m); auto with wf. }
  destruct (msg_Command m =? CommandWRTE).
  { destruct (c_streams c !! msg_Arg1 m) as [p|] eqn:Hp; [|done].
    assert (wf_conn (upd p (establish (msg_Arg0 m)) c)) as H1 by auto with wf.
    match goal with |- context [writeMessage ?m ?c] => pose proof (wf_writeMessage m c H1) as H2;
      pose proof (writeMessage_frame m c) as [F1 F2]; destruct (writeMessage m c) as [c2 o] end.
    cbn [fst] in *. rewrite streams_upd in F1.
    destruct (wfc_map _ H2 (msg_Arg1 m) p) as (s & Hs & _ & Hc); [by rewrite F1|].
    rewrite Hs. assert (wf_stream s) as Hsw by (by eapply Forall_lookup_1; [apply H2|]).
    destruct (receive (msg_Payload m) s) as [s'| |] eqn:Hr; [|done|].
    - apply wf_upd; [|done]. intros s0 Hs0 _. simplify_eq. by apply wf_receive in Hr.
    - unfold receive in Hr. rewrite (wfs_chan s Hsw), Hc in Hr. by destruct (_ <=? _)%nat. }
  destruct (msg_Command m =? CommandCLSE); [|done].
  destruct (c_streams c !! msg_Arg1 m) as [p|] eqn:Hp; [|done].
  destruct (wfc_map _ Hwf _ _ Hp) as (s & -> & _). auto with wf.
Qed.

Lemma Read_loop_spec closed err chunks buf n chunks' buf' r :
  Read_loop closed err chunks buf n = ((chunks', buf'), r) →
  (length chunks' ≤ length chunks)%nat ∧
  match r with
  | Done (Ok bs) => bs ++ buf' ++ concat chunks' = buf ++ concat chunks ∧
      (0 < n → bs ≠ [])%nat ∧ (length bs ≤ n)%nat
  | Done (Err e) => buf ++ concat chunks = [] ∧ chunks' = [] ∧ buf' = [] ∧
      closed = true ∧ e = default (Sentinel io_EOF) err
  | Blocks => buf ++ concat chunks = [] ∧ closed = false ∧ chunks' = [] ∧ buf' = []
  | Panics => False
  end.
Proof.
  revert buf. induction chunks as [|ch chunks IH]; intros buf; simpl; destruct buf as [|b buf].
  - destruct closed; intros [= <- <- <-]; repeat split; auto.
  - intros [= <- <- <-]. split; [done|]. rewrite app_assoc, take_drop. split_and!; [done| |].
    + intros Hn. destruct n; [lia | done].
    + rewrite length_take. lia.
  - rewrite app_nil_l. intros H. apply IH in H as [Hl H]. split; [lia|]. done.
  - intros [= <- <- <-]. split; [done|]. cbn [concat]. rewrite app_assoc, take_drop. split_and!; [done| |].
    + intros Hn. destruct n; [lia | done].
    + rewrite length_take. lia.
Qed.

Lemma Stream_Read_spec n s s' r :
  Stream_Read n s = (s', r) →
  s' = with_data (s_dataCh s') (s_buf s') s ∧ (length (s_dataCh s') ≤ length (s_dataCh s))%nat ∧
  match r with
  | Done (Ok bs) => bs ++ pending s' = pending s ∧ (0 < n → bs ≠ [])%nat ∧ (length bs ≤ n)%nat
  | Done (Err e) => pending s = [] ∧ pending s' = [] ∧ s_closed s = true ∧
      e = default (Sentinel io_EOF) (s_err s)
  | Blocks => pending s = [] ∧ pending s' = [] ∧ s_closed s = false
  | Panics => False
  end.
Proof.
  unfold Stream_Read, pending.
  destruct (Read_loop (s_closed s) (s_err s) (s_dataCh s) (s_buf s) n) as [[chunks buf] r'] eqn:E.
  intros [= <- <-]. apply Read_loop_spec in E as [Hl Hr]. split_and!; [done..|]. simpl.
  destruct r' as [[bs|e]| |]; [done | | |done].
  - destruct Hr as (? & -> & -> & ? & ?). auto.
  - destruct Hr as (? & ? & -> & ->). auto.
Qed.

Lemma wf_Read p n c : wf_conn c → wf_conn (fst (Read p n c)).
Proof.
  intros Hwf. unfold Read. destruct (deref c p) as [s|] eqn:Hs; [|done].
  destruct (Stream_Read n s) as [s' r] eqn:E. apply Stream_Read_spec in E as (-> & Hl & _).
  apply wf_upd; [|done]. intros s0 Hs0 [H1 H2 H3]. simplify_eq. split; [|done]. split; simpl in *; [done | done | lia].
Qed.

Lemma wf_take_openCh s : wf_stream s → wf_stream (take_openCh s) ∧ same_life s (take_openCh s).
Proof. intros [H1 H2 H3]. split; [split|done]; simpl; auto. naive_solver. Qed.

Lemma wf_OpenContext_start ctx service c :
  wf_conn c → wf_conn (fst (OpenContext_start ctx service c)).
Proof.
  intros Hwf. unfold OpenContext_start. destruct ctx; [done|].
  pose proof (wf_startReader c Hwf) as H1. destruct (startReader c) as [c1 [e|]]; cbn [fst] in *; [done|].
  pose proof (wf_newStreamLocked 0 c1 H1) as H2. unfold newStream.
  destruct (newStreamLocked 0 c1) as [c2 p]; cbn [fst] in *.
  match goal with |- context [writeMessage ?m c2] => pose proof (wf_writeMessage m c2 H2);
    destruct (writeMessage m c2) as [c3 [e|]] end; cbn [fst] in *; auto with wf.
Qed.

Lemma wf_Close p c : wf_conn c → wf_conn (Close p c).
Proof.
  intros Hwf. unfold Close. destruct (deref c p) as [s|]; [|done].
  destruct (_ && _); auto with wf.
Qed.

(** The pointers of an event are allocated. *)
Definition valid (ev : event) (c : Connection) : Prop :=
  match ev with
  | EvOpenWait _ p | EvOpenCancel _ p | EvRead p _ | EvWrite p _ | EvClose p =>
      (p < length (c_heap c))%nat
  | _ => True
  end.

Lemma step_wf ev c :
  wf_conn c → valid ev c →
  match step ev c with
  | Done (c', _) => wf_conn c'
  | Blocks => True
  | Panics => False
  end.
Proof.
  intros Hwf Hv. destruct ev as [m|e|service|service p|service p|p n|p bs|p| |service h|service];
    cbn [step valid] in *.
  - pose proof (handleStreamMessage_wf m c Hwf). by destruct (handleStreamMessage m c).
  - apply wf_closeAllStreams. by apply wf_conn_ext with c.
  - by apply wf_OpenContext_start.
  - apply lookup_lt_is_Some_2 in Hv as [s Hs]. unfold OpenContext_wait, deref. rewrite Hs.
    destruct (s_openCh s) as [[e|]|]; [| |done]; apply wf_upd_life; auto using wf_take_openCh.
  - by apply wf_Close.
  - apply lookup_lt_is_Some_2 in Hv as [s Hs]. pose proof (wf_Read p n c Hwf) as Hr.
    unfold Read, deref in *. rewrite Hs in *.
    destruct (Stream_Read n s) as [s' r] eqn:E. apply Stream_Read_spec in E as (_ & _ & E).
    by destruct r as [[bs|e]| |].
  - unfold Write. destruct (deref c p) as [s|]; [|done].
    destruct (s_closed s); [done|]. destruct (s_remoteID s =? 0); [done|].
    match goal with |- context [writeMessage ?m c] => pose proof (wf_writeMessage m c Hwf);
      destruct (writeMessage m c) as [c3 [e|]] end; done.
  - by apply wf_Close.
  - by apply wf_closeAllStreams.
  - unfold HandleOpen. destruct h; [|by apply wf_conn_ext with c].
    apply wf_startReader. by apply wf_conn_ext with c.
  - by apply wf_conn_ext with c.
Qed.

(** ** What operations leave alone

    [keeps R c c']: no stream disappears, and each old stream is related to its
    new state by [R]. *)

Section keeps.
Variable R : Stream → Stream → Prop.
Context `{!PreOrder R}.

Definition keeps (c c' : Connection) : Prop :=
  (length (c_heap c) ≤ length (c_heap c'))%nat ∧
  ∀ p s, deref c p = Some s → ∃ s', deref c' p = Some s' ∧ R s s'.

#[global] Instance keeps_preorder : PreOrder keeps.
Proof.
  split.
  - intros c. split; [done|]. intros p s Hs. by exists s.
  - intros c1 c2 c3 [L1 H1] [L2 H2]. split; [lia|]. intros p s Hs.
    destruct (H1 _ _ Hs) as (s2 & Hs2 & R12), (H2 _ _ Hs2) as (s3 & Hs3 & R23).
    exists s3. split; [done|]. by trans s2.
Qed.

Lemma keeps_upd p f c : (∀ s, deref c p = Some s → R s (f s)) → keeps c (upd p f c).
Proof.
  intros Hf. split; [unfold upd, with_heap; simpl; by rewrite length_alter|].
  intros q s Hs. rewrite deref_upd. case_decide as E; subst.
  - rewrite Hs. exists (f s). auto.
  - by exists s.
Qed.

Lemma keeps_heap c c' : c_heap c' = c_heap c → keeps c c'.
Proof.
  intros E. unfold keeps, deref. rewrite E. split; [done|]. intros p s Hs. by exists s.
Qed.

Lemma keeps_writeMessage m c : keeps c (fst (writeMessage m c)).
Proof. apply keeps_heap, writeMessage_frame. Qed.

Lemma keeps_newStreamLocked r c : keeps c (fst (newStreamLocked r c)).
Proof.
  destruct (newStreamLocked r c) as [c' p] eqn:E; simpl.
  apply newStreamLocked_spec in E as (_ & _ & Hh & _). unfold keeps, deref. rewrite Hh.
  split; [rewrite length_app; lia|]. intros q s Hs. exists s. split; [|done].
  rewrite lookup_app_l; [done | by eapply lookup_lt_Some].
Qed.

Lemma keeps_closeStream id e c : (∀ s, R s (closeWithError e s)) → keeps c (closeStream id e c).
Proof.
  intros Hr. unfold closeStream. destruct (streamByLocalID id c); [|by apply keeps_heap].
  trans (removeStream id c); [by apply keeps_heap | by apply keeps_upd].
Qed.

Lemma keeps_closeAllStreams e c : (∀ s, R s (closeWithError e s)) → keeps c (closeAllStreams e c).
Proof.
  intros Hr. unfold closeAllStreams. trans (with_streams ∅ c); [by apply keeps_heap|].
  induction (map_to_list (c_streams c)).*2 as [|p ps IH]; simpl; [done|].
  etrans; [exact IH | by apply keeps_upd].
Qed.
End keeps.

(** A fresh pointer is not an old one. *)
Lemma newStreamLocked_fresh r c : snd (newStreamLocked r c) = length (c_heap c).
Proof. done. Qed.

Definition same_pending (s s' : Stream) : Prop := pending s' = pending s.

#[global] Instance same_pending_preorder : PreOrder same_pending.
Proof. split; unfold same_pending; [done | congruence]. Qed.

Lemma openOnce_send_pending v s : same_pending s (openOnce_send v s).
Proof. unfold openOnce_send. by destruct (s_openOnce s). Qed.
Lemma establish_pending r s : same_pending s (establish r s).
Proof.
  unfold establish. destruct (s_remoteID s =? 0); [|apply openOnce_send_pending].
  etrans; [|apply openOnce_send_pending]. done.
Qed.
Lemma closeWithError_pending e s : same_pending s (closeWithError e s).
Proof.
  unfold closeWithError. destruct (s_closed s); [done|].
  etrans; [|apply openOnce_send_pending]. done.
Qed.

Lemma take_openCh_pending s : same_pending s (take_openCh s).
Proof. done. Qed.

#[export] Hint Resolve same_pending_preorder take_openCh_pending openOnce_send_pending establish_pending closeWithError_pending
  keeps_writeMessage keeps_newStreamLocked keeps_closeStream keeps_closeAllStreams : wf.

Lemma keeps_pending_at c c' p :
  keeps same_pending c c' → (p < length (c_heap c))%nat → pending_at c' p = pending_at c p.
Proof.
  intros [_ H] [s Hs]%lookup_lt_is_Some_2. destruct (H p s Hs) as (s' & Hs' & E).
  unfold pending_at. unfold deref in *. by rewrite Hs, Hs'.
Qed.

Lemma keeps_handlePeerOpen m c : keeps same_pending c (handlePeerOpen m c).
Proof.
  unfold handlePeerOpen. destruct (openHandler _ c); [|auto with wf].
  unfold newAcceptedStream. pose proof (keeps_newStreamLocked same_pending (msg_Arg0 m) c) as H1.
  destruct (newStreamLocked (msg_Arg0 m) c) as [c1 p]; cbn [fst] in *.
  etrans; [exact H1|]. etrans; [apply (keeps_upd same_pending p (openOnce_send None)); auto with wf|].
  match goal with |- context [writeMessage ?m ?c] =>
    pose proof (keeps_writeMessage same_pending m c) as H2;
    destruct (writeMessage m c) as [c2 [e|]] end; cbn [fst] in *.
  - etrans; [exact H2|]. auto with wf.
  - etrans; [exact H2|]. by apply (keeps_heap same_pending).
Qed.

Lemma keeps_Close p c : keeps same_pending c (Close p c).
Proof.
  unfold Close. destruct (deref c p) as [s|]; [|done].
  destruct (_ && _); [etrans; [by apply (keeps_writeMessage same_pending)|]|]; auto with wf.
Qed.

Lemma keeps_OpenContext_start ctx service c : keeps same_pending c (fst (OpenContext_start ctx service c)).
Proof.
  unfold OpenContext_start. destruct ctx; [done|].
  assert (keeps same_pending c (fst (startReader c))) as H1.
  { unfold startReader. destruct (c_readerStarted c); [done | by apply (keeps_heap same_pending)]. }
  destruct (startReader c) as [c1 [e|]]; cbn [fst] in *; [done|]. etrans; [exact H1|].
  pose proof (keeps_newStreamLocked same_pending 0 c1) as H2. unfold newStream.
  destruct (newStreamLocked 0 c1) as [c2 p]; cbn [fst] in *. etrans; [exact H2|].
  match goal with |- context [writeMessage ?m ?c] =>
    pose proof (keeps_writeMessage same_pending m c) as H3;
    destruct (writeMessage m c) as [c3 [e|]] end; cbn [fst] in *; [|done].
  etrans; [exact H3|]. by apply (keeps_heap same_pending).
Qed.

(** ** Every stream is a FIFO *)

(** The bytes an event hands to a reader of [p], and those the peer delivers to
    [p]: the payload of a WRTE whose Arg1 names the stream. *)
Definition read_by (p : nat) (ev : event) (bs : list byte) : list byte :=
  match ev with EvRead q _ => if decide (p = q) then bs else [] | _ => [] end.

Definition delivered (p : nat) (ev : event) (c : Connection) : list byte :=
  match ev with
  | EvMessage m =>
      if (msg_Command m =? CommandWRTE) && bool_decide (streamByLocalID (msg_Arg1 m) c = Some p)
      then msg_Payload m else []
  | _ => []
  end.

(** A history: the final state, and for the stream [p] what was read from it
    and what was delivered to it on the way. *)
Fixpoint run (p : nat) (evs : list event) (c : Connection)
    : outcome (Connection * list byte * list byte) :=
  match evs with
  | [] => Done (c, [], [])
  | ev :: evs =>
      match step ev c with
      | Done (c1, bs) =>
          match run p evs c1 with
          | Done (c2, reads, sent) => Done (c2, read_by p ev bs ++ reads, delivered p ev c ++ sent)
          | Blocks => Blocks
          | Panics => Panics
          end
      | Blocks => Blocks
      | Panics => Panics
      end
  end.

Lemma handleStreamMessage_pending m c c' p :
  wf_conn c → handleStreamMessage m c = Done c' → (p < length (c_heap c))%nat →
  (length (c_heap c) ≤ length (c_heap c'))%nat ∧
  pending_at c' p = pending_at c p ++ delivered p (EvMessage m) c.
Proof.
  intros Hwf Hm Hp.
  assert (∀ c', keeps same_pending c c' → (length (c_heap c) ≤ length (c_heap c'))%nat ∧
    pending_at c' p = pending_at c p ++ []) as Hkeep.
  { intros c2 Hk. split; [apply Hk|]. rewrite app_nil_r. by apply keeps_pending_at. }
  unfold handleStreamMessage, streamByLocalID, delivered, streamByLocalID in *.
  destruct (Z.eqb_spec (msg_Command m) CommandOPEN) as [EO|_].
  { simplify_eq. rewrite EO. simpl. apply Hkeep, keeps_handlePeerOpen. }
  destruct (Z.eqb_spec (msg_Command m) CommandOKAY) as [EK|_].
  { rewrite EK. simpl. destruct (c_streams c !! msg_Arg1 m); simplify_eq; apply Hkeep; [|done].
    apply keeps_upd; auto with wf. }
  destruct (Z.eqb_spec (msg_Command m) CommandWRTE) as [EW|_].
  { simpl. destruct (c_streams c !! msg_Arg1 m) as [q|] eqn:Hq; simplify_eq; [|by apply Hkeep].
    assert (keeps same_pending c (upd q (establish (msg_Arg0 m)) c)) as K1
      by (apply keeps_upd; auto with wf).
    match type of Hm with context [writeMessage ?m ?c1] => 
      pose proof (keeps_writeMessage same_pending m c1) as K2;
      destruct (writeMessage m c1) as [c2 o] end.
    cbn [fst] in *. assert (keeps same_pending c c2) as K by (by etrans).
    destruct (deref c2 q) as [s|] eqn:Hs; [|done].
    unfold receive in Hm. destruct (s_dataClosed s); [done|].
    destruct (dataCh_cap <=? length (s_dataCh s))%nat; [done|]. simplify_eq. split.
    - unfold upd, with_heap; simpl. rewrite length_alter. apply K.
    - rewrite <-(keeps_pending_at _ _ _ K Hp). unfold pending_at. rewrite deref_upd.
      case_decide as E; case_bool_decide; simplify_eq.
      + rewrite Hs. unfold pending; simpl. rewrite concat_app; cbn [concat].
        by rewrite app_nil_r, app_assoc.
      + by rewrite app_nil_r. }
  cbn [andb].
  destruct (msg_Command m =? CommandCLSE); [|by simplify_eq; apply Hkeep].
  destruct (c_streams c !! msg_Arg1 m) as [q|] eqn:Hq; [|by simplify_eq; apply Hkeep].
  destruct (deref c q) as [s|]; simplify_eq. apply Hkeep; auto with wf.
Qed.

Lemma step_pending ev c c' bs p :
  wf_conn c → valid ev c → step ev c = Done (c', bs) → (p < length (c_heap c))%nat →
  (length (c_heap c) ≤ length (c_heap c'))%nat ∧
  read_by p ev bs ++ pending_at c' p = pending_at c p ++ delivered p ev c.
Proof.
  intros Hwf Hv Hstep Hp.
  assert (∀ c', keeps same_pending c c' → (length (c_heap c) ≤ length (c_heap c'))%nat ∧
    pending_at c' p = pending_at c p ++ []) as Hkeep.
  { intros c2 Hk. split; [apply Hk|]. rewrite app_nil_r. by apply keeps_pending_at. }
  destruct ev as [m|e|service|service q|service q|q n|q bs'|q| |service h|service];
    cbn [step read_by app valid] in *.
  - destruct (handleStreamMessage m c) eqn:Hm; simplify_eq.
    by apply handleStreamMessage_pending.
  - simplify_eq. apply Hkeep. unfold readLoop_fail.
    etrans; [|apply keeps_closeAllStreams; auto with wf]. by apply (keeps_heap same_pending).
  - assert (c' = fst (OpenContext_start None service c)) as -> by congruence.
    apply Hkeep, keeps_OpenContext_start.
  - unfold OpenContext_wait in Hstep. destruct (deref c q) as [s|]; [|done].
    destruct (s_openCh s) as [[e|]|]; [| |done];
      assert (c' = upd q take_openCh c) as -> by congruence;
      apply Hkeep, (keeps_upd same_pending); auto with wf.
  - injection Hstep as <- <-. apply Hkeep, keeps_Close.
  - unfold Read in Hstep. destruct (deref c q) as [s|] eqn:Hs; [|done].
    destruct (Stream_Read n s) as [s' r] eqn:E. apply Stream_Read_spec in E as (_ & _ & E).
    assert (∀ P : Prop, ((length (c_heap c) ≤ length (c_heap (upd q (λ _, s') c)))%nat → P) → P) as HP.
    { intros P HP. apply HP. unfold upd, with_heap; simpl. by rewrite length_alter. }
    unfold pending_at, delivered.
    destruct r as [[bs'|e]| |]; simplify_eq; apply HP; intros ?; (split; [done|]);
      rewrite deref_upd; rewrite !app_nil_r; case_decide; subst; rewrite ?Hs; simpl; try done.
    + by destruct E.
    + by destruct E as (-> & -> & _).
  - unfold Write in Hstep. destruct (deref c q) as [s|]; [|by simplify_eq; apply Hkeep].
    destruct (s_closed s); [by simplify_eq; apply Hkeep|].
    destruct (s_remoteID s =? 0); [by simplify_eq; apply Hkeep|].
    match type of Hstep with context [writeMessage ?m ?c1] => 
      pose proof (keeps_writeMessage same_pending m c1) as K2;
      destruct (writeMessage m c1) as [c2 [e|]] end; simplify_eq; by apply Hkeep.
  - injection Hstep as <- <-. apply Hkeep, keeps_Close.
  - simplify_eq. apply Hkeep. unfold Connection_Close. auto with wf.
  - simplify_eq. apply Hkeep. unfold HandleOpen, startReader. destruct h; [|by apply (keeps_heap same_pending)].
    destruct (c_readerStarted _); by apply (keeps_heap same_pending).
  - simplify_eq. by apply Hkeep, (keeps_heap same_pending).
Qed.

(** The pointers a history mentions are allocated when it uses them. *)
Fixpoint valid_run (evs : list event) (c : Connection) : Prop :=
  match evs with
  | [] => True
  | ev :: evs =>
      valid ev c ∧ match step ev c with Done (c, _) => valid_run evs c | _ => True end
  end.

Lemma wf_NewConnection werr : wf_conn (NewConnection werr).
Proof. split; [constructor|]. intros id p Hp. simpl in Hp. set_solver. Qed.

Lemma run_wf p evs c :
  wf_conn c → valid_run evs c →
  match run p evs c with
  | Done (c', _, _) => wf_conn c'
  | Blocks => True
  | Panics => False
  end.
Proof.
  revert c. induction evs as [|ev evs IH]; intros c Hwf; simpl; [done|].
  intros [Hv Hvs]. pose proof (step_wf ev c Hwf Hv) as Hstep.
  destruct (step ev c) as [[c1 bs]| |]; [|done|done].
  specialize (IH c1 Hstep Hvs). by destruct (run p evs c1) as [[[c2 r] d]| |].
Qed.

(** C1: a connection stays well-formed along every history in which operations
    do not overlap (open streams, and only those, are registered under their
    own local ID; a stream's data channel is closed exactly when the stream
    is; it never holds more than its capacity), and no such history makes the
    reader send on a closed channel. *)
Theorem connection_invariant (p : nat) (evs : list event) (werr : list (option error)) :
  valid_run evs (NewConnection werr) →
  match run p evs (NewConnection werr) with
  | Done (c, _, _) => wf_conn c
  | Blocks => True
  | Panics => False
  end.
Proof. apply run_wf, wf_NewConnection. Qed.

(** C2: each stream is a FIFO under every history: what was read from it,
    followed by what it still holds, is what it held before followed by the
    payloads of the WRTE packets that named it, whatever happened to this and
    to the other streams in between, its own closing included. *)
Theorem streams_are_fifo (p : nat) (evs : list event) (c c' : Connection) (reads sent : list byte) :
  wf_conn c → valid_run evs c → (p < length (c_heap c))%nat →
  run p evs c = Done (c', reads, sent) →
  reads ++ pending_at c' p = pending_at c p ++ sent.
Proof.
  revert c reads sent. induction evs as [|ev evs IH]; intros c reads sent Hwf; simpl.
  { intros _ _ [= <- <- <-]. by rewrite app_nil_r. }
  intros [Hv Hvs] Hp. pose proof (step_wf ev c Hwf Hv) as Hwf1.
  destruct (step ev c) as [[c1 bs]| |] eqn:Hstep; [|done|done].
  destruct (step_pending _ _ _ _ p Hwf Hv Hstep Hp) as [Hl Hpend].
  destruct (run p evs c1) as [[[c2 r] d]| |] eqn:Hrun; [|done|done]. intros [= <- <- <-].
  assert (r ++ pending_at c2 p = pending_at c1 p ++ d) as E by (apply IH; auto; lia).
  by rewrite <-app_assoc, E, app_assoc, Hpend, <-app_assoc.
Qed.

(** A connection with one open stream, used by the witnesses. *)
Definition demo : list event :=
  [EvOpen "shell:ls"; EvMessage (mkMessage CommandOKAY 7 1 []);
   EvMessage (mkMessage CommandWRTE 7 1 (bytes_of "hello ")); EvRead 0 3;
   EvMessage (mkMessage CommandWRTE 7 1 (bytes_of "world"));
   EvMessage (mkMessage CommandCLSE 7 1 []); EvRead 0 100].

Lemma connection_invariant_witness :
  match run 0 demo (NewConnection []) with Done (c, _, _) => wf_conn c | Blocks => True | Panics => False end
  ∧ ∃ c, run 0 demo (NewConnection []) = Done (c, bytes_of "hello ", bytes_of "hello world").
Proof.
  split.
  - apply (connection_invariant 0 demo []). vm_compute. repeat split; lia.
  - eexists. vm_compute. reflexivity.
Defined.

Lemma streams_are_fifo_witness :
  ∃ c, run 0 (tl demo) (fst (OpenContext_start None "shell:ls" (NewConnection [])))
         = Done (c, bytes_of "hello ", bytes_of "hello world") ∧
       bytes_of "hello " ++ pending_at c 0 = bytes_of "" ++ bytes_of "hello world".
Proof.
  destruct (run 0 (tl demo) (fst (OpenContext_start None "shell:ls" (NewConnection []))))
    as [[[c r] d]| |] eqn:E; [|by vm_compute in E..].
  assert (r = bytes_of "hello " ∧ d = bytes_of "hello world") as [-> ->] by (by vm_compute in E; simplify_eq).
  exists c. split; [done|].
  apply (streams_are_fifo 0 (tl demo) _ c _ _ (wf_OpenContext_start None "shell:ls" _ (wf_NewConnection [])));
    [vm_compute; repeat split; lia | vm_compute; lia | exact E].
Defined.

(** ** What the reader does with a packet *)

(** The packets the reader sends in answer to [m], when the transport works. *)
Definition reply (m : Message) (c : Connection) : list Message :=
  if msg_Command m =? CommandOPEN then
    match openHandler (TrimSuffix (string_of (msg_Payload m)) NUL) c with
    | Some _ => [mkMessage CommandOKAY (uint32 (c_nextLocalID c + 1)) (msg_Arg0 m) []]
    | None => [mkMessage CommandCLSE 0 (msg_Arg0 m) []]
    end
  else if msg_Command m =? CommandWRTE then
    match streamByLocalID (msg_Arg1 m) c with
    | Some _ => [mkMessage CommandOKAY (msg_Arg1 m) (msg_Arg0 m) []]
    | None => []
    end
  else [].

(** The stream a packet is addressed to. *)
Definition addressed (m : Message) (c : Connection) : option nat :=
  if (msg_Command m =? CommandOPEN) then None else streamByLocalID (msg_Arg1 m) c.

Lemma closeStream_out id e c : c_out (closeStream id e c) = c_out c.
Proof. unfold closeStream. by destruct (streamByLocalID id c). Qed.

Lemma writeMessage_ok m c :
  c_werr c = [] → writeMessage m c = (with_wire (c_out c ++ [m]) [] c, None).
Proof. unfold writeMessage. by intros ->. Qed.

Lemma local_id_of_upd_establish c p r :
  local_id_of (upd p (establish r) c) p = local_id_of c p.
Proof.
  unfold local_id_of. rewrite deref_upd, decide_True by done. destruct (deref c p) as [s|]; [|done].
  simpl. unfold establish. destruct (s_remoteID s =? 0); unfold openOnce_send; by destruct (s_openOnce _).
Qed.

(** A frame for the streams a packet is not addressed to. *)
Lemma deref_upd_ne c p q f : p ≠ q → deref (upd q f c) p = deref c p.
Proof. intros. rewrite deref_upd. by rewrite decide_False. Qed.

Lemma deref_closeStream_ne c id e p :
  streamByLocalID id c ≠ Some p → deref (closeStream id e c) p = deref c p.
Proof.
  intros Hne. unfold closeStream. destruct (streamByLocalID id c) as [q|]; [|done].
  rewrite deref_upd_ne; [done|congruence].
Qed.

Lemma streams_closeStream c id e id' :
  id' ≠ id → c_streams (closeStream id e c) !! id' = c_streams c !! id'.
Proof.
  intros. unfold closeStream. destruct (streamByLocalID id c); simpl; by apply lookup_delete_ne.
Qed.

Lemma handlePeerOpen_unknown m c :
  openHandler (TrimSuffix (string_of (msg_Payload m)) NUL) c = None →
  c_werr c = [] →
  handlePeerOpen m c = with_wire (c_out c ++ [mkMessage CommandCLSE 0 (msg_Arg0 m) []]) [] c.
Proof. intros Hh Hw. unfold handlePeerOpen. rewrite Hh. by rewrite writeMessage_ok. Qed.

Lemma handlePeerOpen_known m c h :
  openHandler (TrimSuffix (string_of (msg_Payload m)) NUL) c = Some h →
  c_werr c = [] →
  let id := uint32 (c_nextLocalID c + 1) in
  let c' := handlePeerOpen m c in
  c_out c' = c_out c ++ [mkMessage CommandOKAY id (msg_Arg0 m) []] ∧
  c_streams c' = <[id := length (c_heap c)]> (c_streams c) ∧
  c_heap c' = c_heap c ++ [mkStream id (msg_Arg0 m) true (Some None) [] false None [] false] ∧
  c_spawned c' = c_spawned c ++ [(h, TrimSuffix (string_of (msg_Payload m)) NUL, length (c_heap c))] ∧
  c_werr c' = [].
Proof.
  intros Hh Hw id. unfold handlePeerOpen. rewrite Hh. unfold newAcceptedStream, newStreamLocked.
  cbn [fst snd].
  set (c1 := upd _ _ _).
  assert (c_heap c1 = c_heap c ++ [mkStream id (msg_Arg0 m) true (Some None) [] false None [] false]) as H1.
  { unfold c1, upd, with_heap; cbn [c_heap]. by rewrite alter_app_r_alt, Nat.sub_diag. }
  assert (local_id_of c1 (length (c_heap c)) = id) as H2.
  { unfold local_id_of, deref. by rewrite H1, lookup_app_r, Nat.sub_diag. }
  rewrite H2, writeMessage_ok by done. cbn [with_spawned c_out c_streams c_heap c_spawned c_werr with_wire].
  by rewrite H1.
Qed.

(** C7: what the reader does with one packet when the transport works.  It
    sends exactly the answer the protocol asks for (one OKAY per WRTE of a
    registered stream, OKAY or CLSE for a peer's OPEN, nothing otherwise), and
    a packet addressed to one stream leaves every other stream, and its
    registration, exactly as it was.  It may only wait on a WRTE, and then
    because the 16 chunks of that stream's channel are unread. *)
Theorem reader_step (m : Message) (c : Connection) :
  wf_conn c → c_werr c = [] →
  match handleStreamMessage m c with
  | Done c' =>
      c_out c' = c_out c ++ reply m c ∧
      (∀ q, (q < length (c_heap c))%nat → addressed m c ≠ Some q → deref c' q = deref c q) ∧
      (msg_Command m ≠ CommandOPEN → ∀ id, id ≠ msg_Arg1 m → c_streams c' !! id = c_streams c !! id)
  | Blocks => msg_Command m = CommandWRTE ∧ ∃ p s, addressed m c = Some p ∧ deref c p = Some s ∧
      length (s_dataCh s) = dataCh_cap
  | Panics => False
  end.
Proof.
  intros Hwf Hw. pose proof (handleStreamMessage_wf m c Hwf) as Hnp. revert Hnp.
  unfold handleStreamMessage, reply, addressed.
  destruct (Z.eqb_spec (msg_Command m) CommandOPEN) as [EO|EO].
  { intros _. destruct (openHandler (TrimSuffix (string_of (msg_Payload m)) NUL) c) as [h|] eqn:Hh.
    - destruct (handlePeerOpen_known m c h Hh Hw) as (-> & _ & Hheap & _). split_and!; [done| |done].
      intros q Hq _. unfold deref. rewrite Hheap. by apply lookup_app_l.
    - rewrite handlePeerOpen_unknown by done. done. }
  destruct (Z.eqb_spec (msg_Command m) CommandOKAY) as [EK|_].
  { intros _. rewrite EK. simpl. unfold streamByLocalID.
    destruct (c_streams c !! msg_Arg1 m) as [p|] eqn:Hp; rewrite app_nil_r; [|done].
    split_and!; [done| |done]. intros q _ Hne. apply deref_upd_ne. congruence. }
  destruct (Z.eqb_spec (msg_Command m) CommandWRTE) as [EW|_].
  { unfold streamByLocalID. destruct (c_streams c !! msg_Arg1 m) as [p|] eqn:Hp;
      [|intros _; rewrite app_nil_r; done].
    destruct (wfc_map _ Hwf _ _ Hp) as (s & Hs & Hid & _).
    rewrite local_id_of_upd_establish, writeMessage_ok by done.
    assert (local_id_of c p = msg_Arg1 m) as -> by (unfold local_id_of; by rewrite Hs).
    set (c1 := with_wire _ _ _). destruct (deref c1 p) as [s1|] eqn:Hs1; [|done].
    destruct (receive (msg_Payload m) s1) as [s2| |] eqn:Hr; [| |done]; intros _.
    - split_and!; [done| |done]. intros q _ Hne.
      rewrite deref_upd_ne by congruence. change (deref c1 q) with (deref (upd p (establish (msg_Arg0 m)) c) q).
      apply deref_upd_ne. congruence.
    - split; [done|]. exists p, s. split_and!; [done..|].
      change (deref c1 p) with (deref (upd p (establish (msg_Arg0 m)) c) p) in Hs1.
      rewrite deref_upd, decide_True, Hs in Hs1 by done. simpl in Hs1. simplify_eq.
      unfold receive in Hr. destruct (s_dataClosed _); [done|].
      assert (s_dataCh (establish (msg_Arg0 m) s) = s_dataCh s) as Hd.
      { unfold establish. destruct (s_remoteID s =? 0); unfold openOnce_send; by destruct (s_openOnce _). }
      rewrite Hd in Hr. destruct (Nat.leb_spec dataCh_cap (length (s_dataCh s))); [|done].
      assert (wf_stream s) as Hsw by (by eapply Forall_lookup_1; [apply Hwf|]).
      pose proof (wfs_cap _ Hsw). lia. }
  destruct (Z.eqb_spec (msg_Command m) CommandCLSE) as [EC|_]; [|intros _; by rewrite app_nil_r].
  unfold streamByLocalID. destruct (c_streams c !! msg_Arg1 m) as [p|] eqn:Hp;
    [|intros _; rewrite app_nil_r; done].
  destruct (wfc_map _ Hwf _ _ Hp) as (s & Hs & Hid & _). rewrite Hs, Hid. intros _.
  rewrite closeStream_out, app_nil_r. split_and!; [done| |].
  - intros q _ Hne. apply deref_closeStream_ne. unfold streamByLocalID. congruence.
  - intros _ id Hne. by apply streams_closeStream.
Qed.

Definition demo_open : Connection :=
  match run 0 (firstn 3 demo) (NewConnection []) with Done (c, _, _) => c | _ => NewConnection [] end.

Lemma demo_open_wf : wf_conn demo_open.
Proof.
  unfold demo_open. pose proof (run_wf 0 (firstn 3 demo) _ (wf_NewConnection [])) as H.
  destruct (run 0 (firstn 3 demo) (NewConnection [])) as [[[c r] d]| |];
    [apply H; vm_compute; repeat split; lia | apply wf_NewConnection..].
Qed.

Lemma reader_step_witness :
  ∃ c', handleStreamMessage (mkMessage CommandWRTE 7 1 (bytes_of "x")) demo_open = Done c' ∧
    c_out c' = c_out demo_open ++ [mkMessage CommandOKAY 1 7 []].
Proof.
  pose proof (reader_step (mkMessage CommandWRTE 7 1 (bytes_of "x")) demo_open demo_open_wf eq_refl) as H.
  destruct (handleStreamMessage _ demo_open) as [c'| |] eqn:E; [|by vm_compute in E..].
  exists c'. split; [done|]. apply (proj1 H).
Defined.

(** ** The end of a stream and of a connection *)

(** Reading a stream to its end with a buffer of [n] bytes, as [io.ReadAll] and
    [io.Copy] do: the bytes, and the error that ended the reading. *)
Fixpoint drain (fuel n : nat) (s : Stream) : list byte * outcome error :=
  match fuel with
  | O => ([], Blocks)
  | S fuel =>
      match Stream_Read n s with
      | (s, Done (Ok bs)) => let '(rest, r) := drain fuel n s in (bs ++ rest, r)
      | (_, Done (Err e)) => ([], Done e)
      | (_, Blocks) => ([], Blocks)
      | (_, Panics) => ([], Panics)
      end
  end.

Lemma drain_closed n s fuel :
  (0 < n)%nat → s_closed s = true → (length (pending s) < fuel)%nat →
  drain fuel n s = (pending s, Done (default (Sentinel io_EOF) (s_err s))).
Proof.
  intros Hn. revert s. induction fuel as [|fuel IH]; intros s Hc Hf; [lia|]. cbn [drain].
  destruct (Stream_Read n s) as [s' r] eqn:E. apply Stream_Read_spec in E as (Hs' & _ & E).
  destruct r as [[bs|e]| |].
  - destruct E as (E & Hne & _). rewrite IH.
    + rewrite Hs' at 2. cbn [with_data s_err]. by rewrite E.
    + by rewrite Hs'.
    + specialize (Hne Hn). rewrite <-E, length_app in Hf. destruct bs; [done|]. simpl in Hf. lia.
  - by destruct E as (-> & _ & _ & ->).
  - by destruct E as (_ & _ & ?); congruence.
  - done.
Qed.

Lemma deref_closeAll e ps c p :
  NoDup ps →
  deref (foldr (λ p, upd p (closeWithError e)) c ps) p =
  if decide (p ∈ ps) then closeWithError e <$> deref c p else deref c p.
Proof.
  intros Hnd. induction Hnd as [|q ps Hq Hnd IH]; cbn [foldr]; [by rewrite decide_False by set_solver|].
  rewrite deref_upd. destruct (decide (p = q)) as [->|Hne].
  - rewrite IH, decide_False, decide_True by set_solver. done.
  - rewrite IH. destruct (decide (p ∈ ps)); [rewrite decide_True|rewrite decide_False]; set_solver.
Qed.

(** Distinct local IDs name distinct streams. *)
Lemma registered_inj c id id' p :
  wf_conn c → c_streams c !! id = Some p → c_streams c !! id' = Some p → id = id'.
Proof.
  intros Hwf H1 H2. destruct (wfc_map _ Hwf _ _ H1) as (s & Hs & <- & _).
  destruct (wfc_map _ Hwf _ _ H2) as (s' & Hs' & <- & _). congruence.
Qed.

Lemma registered_NoDup c : wf_conn c → NoDup (map_to_list (c_streams c)).*2.
Proof.
  intros Hwf. apply NoDup_fmap_2_strong; [|apply NoDup_map_to_list].
  intros [i p] [j q] Hi Hj ?; simpl in *; subst.
  apply elem_of_map_to_list in Hi, Hj. f_equal. by eapply registered_inj.
Qed.

Lemma deref_closeAllStreams e c id p :
  wf_conn c → c_streams c !! id = Some p →
  deref (closeAllStreams e c) p = closeWithError e <$> deref c p.
Proof.
  intros Hwf Hid. unfold closeAllStreams. rewrite deref_closeAll by by apply registered_NoDup.
  rewrite decide_True; [done|]. rewrite list_elem_of_fmap.
  exists (id, p). split; [done|]. by apply elem_of_map_to_list.
Qed.

Lemma streams_closeAllStreams e c : c_streams (closeAllStreams e c) = ∅.
Proof. unfold closeAllStreams. by destruct (closeAll_frame (closeWithError e) (map_to_list (c_streams c)).*2 (with_streams ∅ c)) as [-> _]. Qed.

Lemma closeAllStreams_reader e c :
  c_readerStarted (closeAllStreams e c) = c_readerStarted c ∧
  c_readerErr (closeAllStreams e c) = c_readerErr c.
Proof. unfold closeAllStreams. by induction (map_to_list (c_streams c)).*2. Qed.

Lemma closeWithError_open e s :
  s_closed s = false →
  s_closed (closeWithError e s) = true ∧ s_err (closeWithError e s) = e ∧
  pending (closeWithError e s) = pending s ∧ s_localID (closeWithError e s) = s_localID s ∧
  s_openCh (closeWithError e s) = if s_openOnce s then s_openCh s else Some e.
Proof.
  intros Hc. unfold closeWithError. rewrite Hc. unfold openOnce_send; simpl.
  by destruct (s_openOnce s).
Qed.

(** What readers of a stream see once it was closed with [err]. *)
Definition ends_with (err : option error) (held : list byte) (s : Stream) : Prop :=
  s_closed s = true ∧
  ∀ n fuel, (0 < n)%nat → (length held < fuel)%nat →
    drain fuel n s = (held, Done (default (Sentinel io_EOF) err)).

Lemma closeWithError_ends e s :
  s_closed s = false → ends_with e (pending s) (closeWithError e s).
Proof.
  intros Hc. destruct (closeWithError_open e s Hc) as (H1 & H2 & H3 & _).
  split; [done|]. intros n fuel Hn Hf. rewrite drain_closed, H3, H2; auto. by rewrite H3.
Qed.

(** C32: when the transport fails with [e], every open stream is closed: its
    readers still get all the bytes it held and then [ErrDeviceClosed], an
    [OpenContext] that was waiting for it fails with an error matching
    [ErrDeviceClosed], and every later [OpenContext] returns [e] at once
    without sending anything. *)
Theorem reader_failure_closes_everything (e : error) (c : Connection) :
  wf_conn c → c_readerStarted c = true →
  let c' := readLoop_fail e c in
  c_streams c' = ∅ ∧
  (∀ id p s, c_streams c !! id = Some p → deref c p = Some s →
    ∃ s', deref c' p = Some s' ∧ ends_with (Some (Sentinel protocol_ErrDeviceClosed)) (pending s) s' ∧
      (s_openOnce s = false → ∀ service, ∃ c2 err,
        OpenContext_wait service p c' = Done (c2, Err err) ∧ errors_Is err protocol_ErrDeviceClosed = true)) ∧
  (∀ service, OpenContext_start None service c' = (c', Err e)).
Proof.
  intros Hwf Hstart c'. unfold readLoop_fail in c'.
  assert (wf_conn (with_reader (c_readerStarted c) (Some e) c)) as Hwf' by by apply wf_conn_ext with c.
  split_and!.
  - apply streams_closeAllStreams.
  - intros id p s Hp Hs. destruct (wfc_map _ Hwf _ _ Hp) as (s0 & Hs0 & _ & Hc). simplify_eq.
    pose proof (deref_closeAllStreams (Some (Sentinel protocol_ErrDeviceClosed)) _ id p Hwf' Hp) as Hd.
    change (deref (with_reader _ _ c) p) with (deref c p) in Hd. rewrite Hs in Hd.
    eexists. split; [exact Hd|]. split; [by apply closeWithError_ends|].
    intros Ho service. unfold OpenContext_wait. unfold c'. rewrite Hd. cbn [fmap option_fmap option_map].
    destruct (closeWithError_open (Some (Sentinel protocol_ErrDeviceClosed)) s Hc) as (_ & _ & _ & _ & ->).
    rewrite Ho. by do 2 eexists.
  - intros service. unfold OpenContext_start, startReader. subst c'.
    destruct (closeAllStreams_reader (Some (Sentinel protocol_ErrDeviceClosed)) (with_reader (c_readerStarted c) (Some e) c)) as [-> ->].
    by rewrite Hstart.
Qed.

Lemma reader_failure_closes_everything_witness :
  c_streams (readLoop_fail (Sentinel io_EOF) demo_open) = ∅ ∧
  OpenContext_start None "sync:" (readLoop_fail (Sentinel io_EOF) demo_open)
    = (readLoop_fail (Sentinel io_EOF) demo_open, Err (Sentinel io_EOF)).
Proof.
  destruct (reader_failure_closes_everything (Sentinel io_EOF) demo_open demo_open_wf eq_refl) as (H1 & _ & H3).
  split; [exact H1 | apply H3].
Defined.

(** The three ways a registered stream ends.  The peer's CLSE ends an
    established stream with end-of-file behind everything it held, and refuses
    an unanswered open with [ErrDeviceClosed]; [Close] sends one CLSE to the
    peer if the stream is established (and nothing if it is not), and leaves a
    closed pipe.  In each case the local ID is free again, writes fail and
    send nothing, and later packets for that ID are ignored. *)
Theorem stream_end (c c' : Connection) (id : Z) (p : nat) (s : Stream) (local : bool) :
  wf_conn c → c_werr c = [] → c_streams c !! id = Some p → deref c p = Some s →
  (if local then Done (Close p c) else handleStreamMessage (mkMessage CommandCLSE 0 id []) c) = Done c' →
  c_out c' = c_out c ++
    (if local && negb (s_remoteID s =? 0) then [mkMessage CommandCLSE id (s_remoteID s) []] else []) ∧
  c_streams c' = delete id (c_streams c) ∧
  (∃ s', deref c' p = Some s' ∧
    ends_with (if local then Some (Sentinel io_ErrClosedPipe)
               else if s_remoteID s =? 0 then Some (Sentinel protocol_ErrDeviceClosed) else None)
      (pending s) s') ∧
  (∀ bs, Write p bs c' = (c', Err (Sentinel io_ErrClosedPipe))) ∧
  (∀ m, msg_Arg1 m = id → msg_Command m ≠ CommandOPEN → handleStreamMessage m c' = Done c').
Proof.
  intros Hwf Hw Hp Hs Hend. destruct (wfc_map _ Hwf _ _ Hp) as (s0 & Hs0 & Hid & Hc). simplify_eq.
  (* both ends are a packet or none, then [closeStream] *)
  assert (∃ out e, c' = closeStream (s_localID s) e (with_wire (c_out c ++ out) [] c) ∧
    out = (if local && negb (s_remoteID s =? 0) then [mkMessage CommandCLSE (s_localID s) (s_remoteID s) []] else []) ∧
    e = if local then Some (Sentinel io_ErrClosedPipe)
               else if s_remoteID s =? 0 then Some (Sentinel protocol_ErrDeviceClosed) else None)
    as (out & e & -> & -> & ->).
  { destruct local.
    - assert (c' = Close p c) as -> by congruence. unfold Close. rewrite Hs, Hc. cbn [negb andb].
      destruct (s_remoteID s =? 0); cbn [negb].
      + eexists [], _. split_and!; [|done|done]. rewrite app_nil_r. f_equal.
        destruct c; simpl in *; by subst.
      + rewrite writeMessage_ok by done. by eexists _, _.
    - revert Hend. unfold handleStreamMessage. simpl. unfold streamByLocalID. rewrite Hp, Hs.
      intros [= <-]. eexists [], _. split_and!; [|done|done]. rewrite app_nil_r.
      destruct (s_remoteID s =? 0); simpl; f_equal; destruct c; simpl in *; by subst. }
  clear Hend. set (e := if local then _ else _). set (c1 := with_wire _ _ _).
  assert (closeStream (s_localID s) e c1 = upd p (closeWithError e) (removeStream (s_localID s) c1)) as ->.
  { unfold closeStream, streamByLocalID. change (c_streams c1) with (c_streams c). by rewrite Hp. }
  assert (deref (upd p (closeWithError e) (removeStream (s_localID s) c1)) p = Some (closeWithError e s)) as Hd.
  { rewrite deref_upd, decide_True by done.
    change (deref (removeStream (s_localID s) c1) p) with (deref c p). by rewrite Hs. }
  split_and!; [done | done | | |].
  - rewrite Hd. eexists. split; [done|]. by apply closeWithError_ends.
  - intros bs. unfold Write. rewrite Hd. by destruct (closeWithError_open e s Hc) as (-> & _).
  - intros m Hm Ho. unfold handleStreamMessage, streamByLocalID.
    apply Z.eqb_neq in Ho. rewrite Ho. cbn [c_streams upd with_heap removeStream with_streams].
    rewrite Hm, lookup_delete_eq.
    destruct (msg_Command m =? CommandOKAY), (msg_Command m =? CommandWRTE), (msg_Command m =? CommandCLSE); done.
Qed.

Lemma stream_end_witness :
  c_out (Close 0 demo_open) = c_out demo_open ++ [mkMessage CommandCLSE 1 7 []] ∧
  Write 0 (bytes_of "x") (Close 0 demo_open) = (Close 0 demo_open, Err (Sentinel io_ErrClosedPipe)).
Proof.
  destruct (deref demo_open 0) as [s|] eqn:Hs; [|by vm_compute in Hs].
  destruct (stream_end demo_open (Close 0 demo_open) 1 0 s true demo_open_wf) as (H1 & _ & _ & H4 & _);
    [reflexivity | reflexivity | exact Hs | reflexivity |].
  split; [|apply H4]. rewrite H1. f_equal.
  vm_compute in Hs. injection Hs as <-. reflexivity.
Defined.

(** ** Opening a stream *)

Lemma OpenContext_start_ok service c :
  c_werr c = [] → (c_readerStarted c = true → c_readerErr c = None) →
  let id := uint32 (c_nextLocalID c + 1) in
  let p := length (c_heap c) in
  ∃ c1, OpenContext_start None service c = (c1, Ok p) ∧
    c_out c1 = c_out c ++ [mkMessage CommandOPEN id 0 (bytes_of (TrimSuffix service NUL +++ NUL))] ∧
    c_streams c1 = <[id := p]> (c_streams c) ∧
    deref c1 p = Some (mkStream id 0 false None [] false None [] false) ∧ c_werr c1 = [] ∧
    c_readerStarted c1 = true.
Proof.
  intros Hw Hr id p. unfold OpenContext_start.
  assert (∃ c0, startReader c = (c0, None) ∧ c_out c0 = c_out c ∧ c_streams c0 = c_streams c ∧
    c_heap c0 = c_heap c ∧ c_werr c0 = [] ∧ c_nextLocalID c0 = c_nextLocalID c ∧
    c_readerStarted c0 = true) as (c0 & -> & H1 & H2 & H3 & H4 & H5 & H6).
  { unfold startReader. destruct (c_readerStarted c) eqn:E; [exists c; by rewrite Hr|].
    by eexists. }
  unfold newStream. destruct (newStreamLocked 0 c0) as [c1 q] eqn:E.
  assert (c_readerStarted c1 = true) as E9.
  { unfold newStreamLocked in E. injection E as <- <-. exact H6. }
  apply newStreamLocked_spec in E as (-> & E2 & E3 & E4 & E5 & _).
  rewrite H3, H5 in *. fold id in E2, E3. fold p in E2, E3 |- *.
  assert (deref c1 p = Some (mkStream id 0 false None [] false None [] false)) as Hd.
  { unfold deref. rewrite E3. unfold p. by rewrite lookup_app_r, Nat.sub_diag. }
  assert (local_id_of c1 p = id) as -> by (unfold local_id_of; by rewrite Hd).
  rewrite writeMessage_ok by congruence. eexists. split; [done|].
  cbn [with_wire c_out c_streams c_werr c_readerStarted]. rewrite E4, H1, E2, H2. done.
Qed.

(** The states an accepted open goes through. *)
Lemma open_accepted service remote c :
  c_werr c = [] → (c_readerStarted c = true → c_readerErr c = None) →
  let id := uint32 (c_nextLocalID c + 1) in
  let p := length (c_heap c) in
  ∃ c1 c2 c3,
    OpenContext_start None service c = (c1, Ok p) ∧
    OpenContext_wait service p c1 = Blocks ∧
    (∀ bs, Write p bs c1 = (c1, Err (Sentinel io_ErrClosedPipe))) ∧
    handleStreamMessage (mkMessage CommandOKAY remote id []) c1 = Done c2 ∧
    OpenContext_wait service p c2 = Done (c3, Ok p) ∧
    deref c3 p = Some (mkStream id remote true None [] false None [] false) ∧
    c_streams c3 = <[id := p]> (c_streams c) ∧ c_werr c3 = [] ∧
    c_out c3 = c_out c ++ [mkMessage CommandOPEN id 0 (bytes_of (TrimSuffix service NUL +++ NUL))] ∧
    (wf_conn c → wf_conn c3).
Proof.
  intros Hw Hr id p.
  destruct (OpenContext_start_ok service c Hw Hr) as (c1 & E1 & Hout & Hst & Hd & Hw1 & _).
  fold id p in Hout, Hst, Hd, E1.
  pose proof (wf_OpenContext_start None service c) as Hwf1. rewrite E1 in Hwf1. cbn [fst] in Hwf1.
  exists c1. do 2 eexists. split; [done|].
  split; [unfold OpenContext_wait; by rewrite Hd|].
  split; [intros bs; unfold Write; by rewrite Hd|].
  split; [unfold handleStreamMessage, streamByLocalID; simpl; by rewrite Hst, lookup_insert_eq|].
  assert (deref (upd p (establish remote) c1) p
    = Some (mkStream id remote true (Some None) [] false None [] false)) as Hd2.
  { by rewrite deref_upd, decide_True, Hd by done. }
  unfold OpenContext_wait. rewrite Hd2. split; [done|].
  rewrite deref_upd, decide_True, Hd2 by done.
  split_and!; [done | done | done | done |]. intros Hwf.
  apply wf_upd_life, wf_upd_life; auto using wf_establish, wf_take_openCh.
Qed.

(** An open that the peer accepts.  [OpenContext] sends one OPEN with the
    next local ID and the NUL-terminated service; until the peer answers, it
    waits and nothing can be written; after OKAY it returns the stream, and a
    write sends its whole buffer as one WRTE addressed to the peer's ID. *)
Theorem open_session (service : string) (remote : Z) (bs : list byte) (c : Connection) :
  c_werr c = [] → (c_readerStarted c = true → c_readerErr c = None) → remote ≠ 0 →
  let id := uint32 (c_nextLocalID c + 1) in
  ∃ c1 p c2 c3 c4,
    OpenContext_start None service c = (c1, Ok p) ∧
    OpenContext_wait service p c1 = Blocks ∧
    Write p bs c1 = (c1, Err (Sentinel io_ErrClosedPipe)) ∧
    handleStreamMessage (mkMessage CommandOKAY remote id []) c1 = Done c2 ∧
    OpenContext_wait service p c2 = Done (c3, Ok p) ∧
    Write p bs c3 = (c4, Ok (length bs)) ∧
    c_out c4 = c_out c ++ [mkMessage CommandOPEN id 0 (bytes_of (TrimSuffix service NUL +++ NUL));
                           mkMessage CommandWRTE id remote bs].
Proof.
  intros Hw Hr Hne id.
  destruct (open_accepted service remote c Hw Hr)
    as (c1 & c2 & c3 & E1 & E2 & E3 & E4 & E5 & Hd & _ & Hw3 & Hout & _).
  exists c1, (length (c_heap c)), c2, c3. eexists. do 5 (split; [done|]).
  unfold Write at 1. rewrite Hd. cbn [s_closed s_remoteID s_localID].
  apply Z.eqb_neq in Hne. rewrite Hne, writeMessage_ok by done. split; [done|].
  cbn [with_wire c_out]. by rewrite Hout, <-app_assoc.
Qed.

Lemma open_session_witness :
  ∃ c4, c_out c4 = [mkMessage CommandOPEN 1 0 (bytes_of ("shell:ls" +++ NUL));
                    mkMessage CommandWRTE 1 9 (bytes_of "hi")].
Proof.
  destruct (open_session "shell:ls" 9 (bytes_of "hi") (NewConnection []))
    as (c1 & p & c2 & c3 & c4 & _ & _ & _ & _ & _ & _ & E); [reflexivity | done | done |].
  exists c4. exact E.
Defined.
