(* ===== verification/Schedule.v ===== *)
(** * protocol/stream.go under interleaving

    [readLoop] runs beside the user's goroutines.  [handleStreamMessage] is cut
    here at the places where another goroutine can come in between: a WRTE
    packet is looked up under the connection's lock, established and
    acknowledged, and only then sent on the stream's channel, with no lock
    held.  Every user operation of [Stream] may run in these gaps.  The step
    relation shows which interleavings are safe, and that one is not. *)

From S2P Require Import Prelude Errors GoStrings GoIO Message Handshake Stream.

(** Where the reader goroutine is inside [handleStreamMessage]. *)
Inductive reader_pc :=
  | RIdle                                    (* in ReadMessage *)
  | RFound (m : Message) (p : nat)           (* WRTE: behind streamByLocalID *)
  | RAcked (payload : list byte) (p : nat)   (* behind the OKAY, before receive *)
  | RPanic.                                  (* send on a closed channel *)

Definition rstate : Type := Connection * reader_pc.

(** [s := c.streamByLocalID(msg.Arg1)] of a WRTE; any other packet is handled
    in one step. *)
Definition reader_lookup (m : Message) (c : Connection) : outcome rstate :=
  if msg_Command m =? CommandWRTE then
    match streamByLocalID (msg_Arg1 m) c with
    | Some p => Done (c, RFound m p)
    | None => Done (c, RIdle)
    end
  else
    match handleStreamMessage m c with
    | Done c => Done (c, RIdle)
    | Blocks => Blocks
    | Panics => Done (c, RPanic)
    end.

(** [s.establish(msg.Arg0); _ = c.writeMessage(OKAY)] *)
Definition reader_ack (m : Message) (p : nat) (c : Connection) : rstate :=
  let c := upd p (establish (msg_Arg0 m)) c in
  (fst (writeMessage (mkMessage CommandOKAY (local_id_of c p) (msg_Arg0 m) []) c),
   RAcked (msg_Payload m) p).

(** [s.receive(msg.Payload)] *)
Definition reader_receive (payload : list byte) (p : nat) (c : Connection) : outcome rstate :=
  match deref c p with
  | Some s =>
      match receive payload s with
      | Done s => Done (upd p (λ _, s) c, RIdle)
      | Blocks => Blocks
      | Panics => Done (c, RPanic)
      end
  | None => Done (c, RPanic)
  end.

(** An event of a user's goroutine. *)
Definition user_event (ev : event) : bool :=
  match ev with EvMessage _ | EvReadError _ => false | _ => true end.

Inductive rstep : rstate → rstate → Prop :=
  | step_user ev c c' bs pc :
      user_event ev = true → valid ev c → step ev c = Done (c', bs) → rstep (c, pc) (c', pc)
  | step_packet m c st : reader_lookup m c = Done st → rstep (c, RIdle) st
  | step_error e c : rstep (c, RIdle) (readLoop_fail e c, RIdle)
  | step_ack m p c : rstep (c, RFound m p) (reader_ack m p c)
  | step_receive payload p c st :
      reader_receive payload p c = Done st → rstep (c, RAcked payload p) st.

(** Without interleaving the three steps are [handleStreamMessage]. *)
Lemma reader_steps_sequential m c c' :
  msg_Command m = CommandWRTE → wf_conn c → handleStreamMessage m c = Done c' →
  rtc rstep (c, RIdle) (c', RIdle).
Proof.
  intros EW Hwf Hm.
  destruct (streamByLocalID (msg_Arg1 m) c) as [p|] eqn:Hp.
  - eapply rtc_l; [apply (step_packet m); unfold reader_lookup; by rewrite EW, Z.eqb_refl, Hp|].
    eapply rtc_l; [apply step_ack|]. unfold reader_ack.
    apply rtc_once. apply step_receive. unfold reader_receive.
    unfold handleStreamMessage in Hm. rewrite EW, Hp in Hm. simpl in Hm.
    match type of Hm with context [writeMessage ?m ?c1] => destruct (writeMessage m c1) as [c2 o] end.
    cbn [fst]. destruct (deref c2 p) as [s|]; [|done]. destruct (receive (msg_Payload m) s); by simplify_eq.
  - unfold handleStreamMessage in Hm. rewrite EW, Hp in Hm. simpl in Hm. simplify_eq.
    apply rtc_once. apply (step_packet m). unfold reader_lookup. by rewrite EW, Z.eqb_refl, Hp.
Qed.

(** ** The unsafe interleaving *)

(** C33: a [Close] between the reader's lookup of a WRTE packet and its send
    on the stream's channel makes the reader goroutine panic (it sends on the
    channel that [Close] closed): the state is reachable from a fresh
    connection by an open, its acceptance, and one WRTE. *)
Theorem close_can_panic_the_reader :
  ∃ c, rtc rstep (NewConnection [], RIdle) (c, RPanic).
Proof.
  eexists.
  eapply rtc_l; [eapply (step_user (EvOpen "shell:ls")); [done | done | vm_compute; reflexivity]|].
  eapply rtc_l; [apply (step_packet (mkMessage CommandOKAY 7 1 [])); vm_compute; reflexivity|].
  eapply rtc_l; [apply (step_packet (mkMessage CommandWRTE 7 1 [])); vm_compute; reflexivity|].
  eapply rtc_l; [apply step_ack|].
  eapply rtc_l; [eapply (step_user (EvClose 0)); [done | vm_compute; lia | vm_compute; reflexivity]|].
  eapply rtc_l; [apply step_receive; vm_compute; reflexivity|].
  apply rtc_refl.
Qed.

(** ** The safe ones *)

(** What closes a stream from the user's side. *)
Definition local_close (ev : event) : bool :=
  match ev with EvClose _ | EvOpenCancel _ _ | EvConnClose => true | _ => false end.

(** Steps in which no user closes a stream while the reader delivers to one. *)
Inductive safe_step : rstate → rstate → Prop :=
  | safe_user ev c c' bs pc :
      user_event ev = true → (pc = RIdle ∨ local_close ev = false) →
      valid ev c → step ev c = Done (c', bs) → safe_step (c, pc) (c', pc)
  | safe_packet m c st : reader_lookup m c = Done st → safe_step (c, RIdle) st
  | safe_error e c : safe_step (c, RIdle) (readLoop_fail e c, RIdle)
  | safe_ack m p c : safe_step (c, RFound m p) (reader_ack m p c)
  | safe_receive payload p c st :
      reader_receive payload p c = Done st → safe_step (c, RAcked payload p) st.

Definition live (p : nat) (c : Connection) : Prop :=
  ∃ s, deref c p = Some s ∧ s_closed s = false.

Definition rinv (st : rstate) : Prop :=
  wf_conn (fst st) ∧
  match snd st with
  | RIdle => True
  | RFound _ p | RAcked _ p => live p (fst st)
  | RPanic => False
  end.

(** A stream is not closed by operations that keep its life. *)
Definition same_closed (s s' : Stream) : Prop := s_closed s' = s_closed s.
#[global] Instance same_closed_preorder : PreOrder same_closed.
Proof. split; unfold same_closed; [done | congruence]. Qed.

Lemma live_keeps p c c' : keeps same_closed c c' → live p c → live p c'.
Proof. intros [_ H] (s & Hs & Hc). destruct (H _ _ Hs) as (s' & ? & E). exists s'. by rewrite E. Qed.

Lemma live_upd q f p c :
  (∀ s, s_closed (f s) = s_closed s) → live p c → live p (upd q f c).
Proof. intros Hf. apply live_keeps, keeps_upd; [apply _|]. intros s _. apply Hf. Qed.

Lemma establish_closed r s : s_closed (establish r s) = s_closed s.
Proof. unfold establish. destruct (s_remoteID s =? 0); unfold openOnce_send; by destruct (s_openOnce _). Qed.

(** A user operation other than the closing ones closes no live stream. *)
Lemma user_step_live ev c c' bs p :
  wf_conn c → user_event ev = true → local_close ev = false →
  step ev c = Done (c', bs) → live p c → live p c'.
Proof.
  intros Hwf Hu Hl Hstep Hp.
  destruct ev as [m|e|service|service q|service q|q n|q bs'|q| |service h|service]; try done; cbn [step] in Hstep.
  - assert (c' = fst (OpenContext_start None service c)) as -> by congruence.
    revert Hp. apply live_keeps. unfold OpenContext_start.
    assert (keeps same_closed c (fst (startReader c))) as H1.
    { unfold startReader. destruct (c_readerStarted c); [done | by apply (keeps_heap same_closed)]. }
    destruct (startReader c) as [c1 [e|]]; cbn [fst] in *; [done|]. etrans; [exact H1|].
    pose proof (keeps_newStreamLocked same_closed 0 c1) as H2. unfold newStream.
    destruct (newStreamLocked 0 c1) as [c2 q]; cbn [fst] in *. etrans; [exact H2|].
    match goal with |- context [writeMessage ?m ?c] =>
      pose proof (keeps_writeMessage same_closed m c) as H3;
      destruct (writeMessage m c) as [c3 [e|]] end; cbn [fst] in *; [|done].
    etrans; [exact H3|]. by apply (keeps_heap same_closed).
  - unfold OpenContext_wait in Hstep. destruct (deref c q) as [s|]; [|done].
    destruct (s_openCh s) as [[e|]|]; [| |done];
      assert (c' = upd q take_openCh c) as -> by congruence; by apply live_upd.
  - unfold Read in Hstep. destruct (deref c q) as [s|] eqn:Hs; [|done].
    destruct (Stream_Read n s) as [s' r] eqn:E. apply Stream_Read_spec in E as (E & _ & _).
    assert (live p (upd q (λ _, s') c)) as Hl'.
    { revert Hp. apply live_keeps, keeps_upd; [apply _|]. intros s0 Hs0. simplify_eq. by rewrite E. }
    by destruct r as [[bs'|e]| |]; simplify_eq.
  - unfold Write in Hstep. destruct (deref c q) as [s|]; [|by simplify_eq].
    destruct (s_closed s); [by simplify_eq|]. destruct (s_remoteID s =? 0); [by simplify_eq|].
    match type of Hstep with context [writeMessage ?m ?c1] =>
      pose proof (keeps_writeMessage same_closed m c1) as K2;
      destruct (writeMessage m c1) as [c2 [e|]] end; simplify_eq; by eapply live_keeps.
  - simplify_eq. revert Hp. apply live_keeps. unfold HandleOpen, startReader.
    destruct h; [|by apply (keeps_heap same_closed)].
    destruct (c_readerStarted _); by apply (keeps_heap same_closed).
  - simplify_eq. revert Hp. by apply live_keeps, (keeps_heap same_closed).
Qed.

Lemma safe_step_inv st st' : safe_step st st' → rinv st → rinv st'.
Proof.
  intros Hs. destruct Hs as [ev c c' bs pc Hu Hsafe Hv Hst | m c st Hl | e c | m p c | payload p c st Hr];
    intros [Hwf Hpc]; cbn [fst snd] in *.
  - pose proof (step_wf ev c Hwf Hv) as H. rewrite Hst in H. split; [done|]. cbn [fst snd].
    destruct pc as [|m p|pl p|]; [done| | |done];
      (destruct Hsafe as [?|Hsafe]; [done|]; apply (user_step_live ev c c' bs p); [done | done | done | done | exact Hpc]).
  - unfold reader_lookup in Hl. destruct (msg_Command m =? CommandWRTE).
    + destruct (streamByLocalID (msg_Arg1 m) c) as [p|] eqn:Hp; simplify_eq; split; try done.
      destruct (wfc_map _ Hwf _ _ Hp) as (s & ? & _ & ?). by exists s.
    + pose proof (handleStreamMessage_wf m c Hwf) as H.
      destruct (handleStreamMessage m c); by simplify_eq.
  - split; [|done]. apply (step_wf (EvReadError e) c Hwf I).
  - assert (wf_conn (upd p (establish (msg_Arg0 m)) c)) as H1
      by (apply wf_upd_life; auto using wf_establish).
    split; cbn [reader_ack fst snd]; [by apply wf_writeMessage|].
    eapply live_keeps; [apply (keeps_writeMessage same_closed)|].
    apply live_upd; [apply establish_closed | done].
  - destruct Hpc as (s & Hs & Hc). unfold reader_receive in Hr. rewrite Hs in Hr.
    assert (wf_stream s) as Hsw by (by eapply Forall_lookup_1; [apply Hwf|]).
    destruct (receive payload s) as [s'| |] eqn:E; simplify_eq.
    + split; [|done]. apply wf_upd; [|done]. intros s0 Hs0 _. rewrite Hs in Hs0. simplify_eq.
      by eapply wf_receive.
    + exfalso. unfold receive in E. rewrite (wfs_chan s Hsw), Hc in E. by destruct (_ <=? _)%nat.
Qed.

(** As long as no goroutine closes a stream (or the connection, or a
    pending open) while the reader is delivering a WRTE packet, no interleaving
    of the reader with opens, reads, writes, handler changes and closes makes
    it panic, and the connection stays well-formed. *)
Theorem reader_safe_without_close_races (werr : list (option error)) (st : rstate) :
  rtc safe_step (NewConnection werr, RIdle) st → wf_conn (fst st) ∧ snd st ≠ RPanic.
Proof.
  intros Hreach.
  assert (rinv st) as [Hwf Hpc].
  { remember (NewConnection werr, RIdle) as st0 eqn:E0.
    assert (rinv st0) as H0 by (subst; split; [apply wf_NewConnection | done]). clear E0.
    induction Hreach as [|st0 st1 st Hs _ IH]; [done|]. eapply IH, safe_step_inv; eauto. }
  split; [done|]. by intros E; rewrite E in Hpc.
Qed.

Lemma reader_safe_without_close_races_witness :
  ∃ st, rtc safe_step (NewConnection [], RIdle) st ∧ wf_conn (fst st) ∧ snd st ≠ RPanic.
Proof.
  assert (∃ st, rtc safe_step (NewConnection [], RIdle) st ∧ snd st = RAcked [] 0) as (st & Hst & _).
  { eexists. split.
    - eapply rtc_l; [eapply (safe_user (EvOpen "shell:ls")); [done | by left | done | vm_compute; reflexivity]|].
      eapply rtc_l; [apply (safe_packet (mkMessage CommandWRTE 7 1 [])); vm_compute; reflexivity|].
      eapply rtc_l; [apply safe_ack|]. apply rtc_refl.
    - reflexivity. }
  exists st. split; [exact Hst|]. apply (reader_safe_without_close_races [] st Hst).
Defined.
