(* ===== verification/Address.v ===== *)
(** * client: addresses, endpoints, connecting and scanning

    [normalizeTCPAddr] of client.go, the endpoint constructors and parsers of
    forward.go and reverse.go, [connectWithTransportOptions] of transport.go
    with the TCP and USB dialers in front of it, and the port scan of
    tcp_scan.go. *)

From S2P Require Import Prelude Errors GoStrings Strconv GoIO Message Handshake.

#[local] Open Scope string_scope.
#[local] Open Scope Z_scope.

(** ** client.go: normalizeTCPAddr *)

Definition defaultTCPPort : string := "5555".

Definition normalizeTCPAddr (addr : string) : res string :=
  let addr := TrimSpace addr in
  if (addr =? "")%string then Err (Errorf "adb tcp address is empty" []) else
  match SplitHostPort addr with
  | Ok (host, port) =>
      Ok (JoinHostPort host (if (port =? "")%string then defaultTCPPort else port))
  | Err _ =>
      if (1 <? CountByte addr COLON)%nat && negb (HasPrefix addr "[") then
        Ok (JoinHostPort addr defaultTCPPort)
      else if (CountByte addr COLON =? 1)%nat then
        match Cut addr ":" with              (* strings.SplitN(addr, ":", 2) *)
        | Some (h, p) => if negb (p =? "")%string then Ok addr else Ok (JoinHostPort h defaultTCPPort)
        | None => Ok addr                     (* not reached: there is a colon *)
        end
      else Ok (JoinHostPort addr defaultTCPPort)
  end.

(** ** forward.go and reverse.go: endpoints *)

Record ForwardTarget := mkForwardTarget { ft_service : string }.
Record ReverseDeviceEndpoint := mkReverseDeviceEndpoint { rd_service : string; rd_port : Z }.
Record ReverseHostEndpoint := mkReverseHostEndpoint { rh_service : string; rh_addr : string; rh_port : Z }.

Definition ForwardTCP (port : Z) : res ForwardTarget :=
  if (port <? 1) || (65535 <? port)
  then Err (Errorf "adb forward tcp port %d out of range" [AInt port])
  else Ok (mkForwardTarget ("tcp:" +++ Itoa port)).

Definition ReverseDeviceTCP (port : Z) : res ReverseDeviceEndpoint :=
  if (port <? 1) || (65535 <? port)
  then Err (Errorf "adb reverse device tcp port %d out of range" [AInt port])
  else Ok (mkReverseDeviceEndpoint ("tcp:" +++ Itoa port) port).

Definition ReverseHostTCP (port : Z) : res ReverseHostEndpoint :=
  if (port <? 1) || (65535 <? port)
  then Err (Errorf "adb reverse host tcp port %d out of range" [AInt port])
  else Ok (mkReverseHostEndpoint ("tcp:" +++ Itoa port) (JoinHostPort "127.0.0.1" (Itoa port)) port).

Definition ParseReverseDeviceEndpoint (endpoint : string) : res ReverseDeviceEndpoint :=
  let unsupported := Err (Errorf "adb reverse unsupported device endpoint %q: only tcp:PORT is supported" [AStr endpoint]) in
  match Cut (TrimSpace endpoint) ":" with
  | Some (family, value) =>
      if negb (family =? "tcp")%string then unsupported else
      match Atoi value with
      | Err err => Err (ErrorfW "adb reverse invalid device tcp port %q: %w" [AStr value] err)
      | Ok port => ReverseDeviceTCP port
      end
  | None => unsupported
  end.

Definition ParseReverseHostEndpoint (endpoint : string) : res ReverseHostEndpoint :=
  let unsupported := Err (Errorf "adb reverse unsupported host endpoint %q: only tcp:PORT is supported" [AStr endpoint]) in
  match Cut (TrimSpace endpoint) ":" with
  | Some (family, value) =>
      if negb (family =? "tcp")%string then unsupported else
      match Atoi value with
      | Err err => Err (ErrorfW "adb reverse invalid host tcp port %q: %w" [AStr value] err)
      | Ok port => ReverseHostTCP port
      end
  | None => unsupported
  end.

(** ** transport.go: connecting *)

Section connect.
Context (sha1_Sum : list byte → list byte) `{io_Writer W}.

(** The [transportDialer] interface.  A transport is what can be read from it
    and its writing end; a description is a format string with its arguments,
    which the error's format string takes in. *)
Record transportDialer := mkDialer {
  ConnectDescription : string * list arg;
  DialTransport : res (Reader * W);
}.

(** The connected transport of the [Client], or the error with the transport
    that was closed before returning it. *)
Inductive connected :=
  | Connected (r : Reader) (w : W)
  | NotConnected (closed : option (Reader * W)) (err : error).

(** [None]: the handshake did not return, which [HandshakeWithOptions] rules out. *)
Definition connectWithTransportOptions (ctx : Context_) (dialer : option transportDialer)
    (creds : list (option AuthCredential)) : option connected :=
  match ctx_entry ctx with
  | Some err => Some (NotConnected None err)
  | None =>
      match dialer with
      | None => Some (NotConnected None (Errorf "adb connect: transport dialer is nil" []))
      | Some dialer =>
          let '(desc, args) := ConnectDescription dialer in
          let format := "adb connect " +++ desc +++ ": %w" in
          match DialTransport dialer with
          | Err err => Some (NotConnected None (ErrorfW format args err))
          | Ok (r, w) =>
              match HandshakeWithOptions sha1_Sum ctx creds r w with
              | None => None
              | Some ((r, w), Ok _) => Some (Connected r w)
              | Some ((r, w), Err err) =>
                  if errors_Is err protocol_ErrAuthRequired
                  then Some (NotConnected (Some (r, w)) (ErrorfW format args client_ErrAuthRequired))
                  else Some (NotConnected (Some (r, w)) (ErrorfW format args err))
              end
          end
      end
  end.

(** [newTCPTransportDialer] with the dialing of the address as [dial]. *)
Definition newTCPTransportDialer (dial : string → res (Reader * W)) (addr : string)
    : res transportDialer :=
  match normalizeTCPAddr addr with
  | Err err => Err err
  | Ok networkAddr => Ok (mkDialer ("tcp %q", [AStr networkAddr]) (dial networkAddr))
  end.

Definition ConnectTCPWithOptions (dial : string → res (Reader * W)) (ctx : Context_)
    (addr : string) (creds : list (option AuthCredential)) : option connected :=
  match ctx_entry ctx with
  | Some err => Some (NotConnected None err)
  | None =>
      match newTCPTransportDialer dial addr with
      | Err err => Some (NotConnected None err)
      | Ok dialer => connectWithTransportOptions ctx (Some dialer) creds
      end
  end.

Definition ConnectTCP (dial : string → res (Reader * W)) (ctx : Context_) (addr : string) : option connected :=
  ConnectTCPWithOptions dial ctx addr [].
End connect.

(** ** tcp_scan.go *)

Record TCPTarget := mkTCPTarget {
  tt_Addr : string; tt_Host : string; tt_Port : Z; tt_AuthRequired : bool;
}.

(** [Timeout] in nanoseconds. *)
Record TCPScanOptions := mkTCPScanOptions {
  so_Host : string; so_StartPort : Z; so_EndPort : Z; so_IncludeEvenPorts : bool; so_Timeout : Z;
}.

Definition defaultTCPScanHost : string := "127.0.0.1".
Definition defaultTCPScanStartPort : Z := 5555.
Definition defaultTCPScanEndPort : Z := 5585.
Definition defaultTCPScanTimeout : Z := 300 * 1000000.

Definition defaultTCPScanOptions (opts : TCPScanOptions) : TCPScanOptions :=
  mkTCPScanOptions
    (if (so_Host opts =? "")%string then defaultTCPScanHost else so_Host opts)
    (if so_StartPort opts =? 0 then defaultTCPScanStartPort else so_StartPort opts)
    (if so_EndPort opts =? 0 then defaultTCPScanEndPort else so_EndPort opts)
    (so_IncludeEvenPorts opts)
    (if so_Timeout opts =? 0 then defaultTCPScanTimeout else so_Timeout opts).

Fixpoint tcpScanPorts_loop (n : nat) (port : Z) (even : bool) : list Z :=
  match n with
  | O => []
  | S n =>
      (if negb even && (Z.rem port 2 =? 0) then [] else [port]) ++ tcpScanPorts_loop n (port + 1) even
  end.

(** The loop runs while [port <= opts.EndPort]. *)
Definition tcpScanPorts (opts : TCPScanOptions) : list Z :=
  tcpScanPorts_loop (Z.to_nat (so_EndPort opts - so_StartPort opts + 1)) (so_StartPort opts)
    (so_IncludeEvenPorts opts).

(** The order of [sort.Slice]: host, then port. *)
Definition target_le (t1 t2 : TCPTarget) : Prop :=
  if decide (tt_Host t1 = tt_Host t2) then tt_Port t1 <= tt_Port t2
  else String.le (tt_Host t1) (tt_Host t2).    (* [<], as they differ *)

#[global] Instance target_le_dec : RelDecision target_le.
Proof. intros t1 t2. unfold target_le. destruct (decide (tt_Host t1 = tt_Host t2)); apply _. Defined.

Section scan.
(** [scanTCPConnect]: the outcome of connecting to an address. *)
Context (scanTCPConnect : string → option error).
(** The goroutines send their results in any order. *)
Context (arrival : list TCPTarget → list TCPTarget).

Definition scanTCPPort (opts : TCPScanOptions) (port : Z) : option TCPTarget :=
  let addr := JoinHostPort (so_Host opts) (Itoa port) in
  match scanTCPConnect addr with
  | None => Some (mkTCPTarget addr (so_Host opts) port false)
  | Some err =>
      if errors_Is err client_ErrAuthRequired
      then Some (mkTCPTarget addr (so_Host opts) port true) else None
  end.

Definition ScanTCPTargets (ctx_err : option error) (opts : TCPScanOptions) : res (list TCPTarget) :=
  match ctx_err with
  | Some err => Err err
  | None =>
      let opts := defaultTCPScanOptions opts in
      if (so_StartPort opts <? 1) || (65535 <? so_StartPort opts)
      then Err (Errorf "adb tcp scan start port %d out of range" [AInt (so_StartPort opts)])
      else if (so_EndPort opts <? 1) || (65535 <? so_EndPort opts)
      then Err (Errorf "adb tcp scan end port %d out of range" [AInt (so_EndPort opts)])
      else if so_EndPort opts <? so_StartPort opts
      then Err (Errorf "adb tcp scan start port %d is greater than end port %d"
                  [AInt (so_StartPort opts); AInt (so_EndPort opts)])
      else if so_Timeout opts <=? 0 then Err (Errorf "adb tcp scan timeout must be positive" [])
      else Ok (merge_sort target_le (arrival (omap (scanTCPPort opts) (tcpScanPorts opts))))
  end.
End scan.

(** ** Addresses *)

Lemma JoinHostPort_not_empty h p : JoinHostPort h p ≠ "".
Proof. unfold JoinHostPort. destruct (contains h COLON); [done|]. by destruct h. Qed.

Lemma contains_split s c : contains s c = true → ∃ s1 s2, s = s1 +++ String c s2 ∧ contains s2 c = false.
Proof.
  induction s as [|a s IH]; [done|]. rewrite contains_cons. intros H.
  destruct (contains s c) eqn:Hs.
  - destruct (IH eq_refl) as (s1 & s2 & -> & ?). by exists (String a s1), s2.
  - rewrite orb_false_r in H. apply Ascii.eqb_eq in H as ->. by exists "", s.
Qed.

Lemma CountByte_contains s c : (0 < CountByte s c)%nat → contains s c = true.
Proof. destruct (contains s c) eqn:E; [done|]. rewrite CountByte_zero by done. lia. Qed.

(** A bare IPv6 literal is no host:port. *)
Lemma SplitHostPort_literal h :
  contains h LBRACK = false → (1 < CountByte h COLON)%nat →
  SplitHostPort h = addrErr h "too many colons in address".
Proof.
  intros Hl Hc. destruct (contains_split h COLON) as (h1 & h2 & -> & H2); [apply CountByte_contains; lia|].
  rewrite contains_append in Hl. apply orb_false_iff in Hl as [Hl _].
  rewrite CountByte_append in Hc. simpl in Hc. rewrite (CountByte_zero h2) in Hc by done.
  apply (SplitHostPort_too_many h1 ""); [by rewrite append_nil_r | done |].
  apply CountByte_contains. lia.
Qed.

Lemma HasPrefix_LBRACK h : contains h LBRACK = false → HasPrefix h "[" = false.
Proof.
  intros H. destruct (HasPrefix h "[") eqn:E; [|done].
  apply HasPrefix_spec in E as [t ->]. simpl in H. by rewrite contains_cons in H.
Qed.

(** The address forms [Connect] accepts.  A bare host, a bare IPv6 literal
    and an address that ends in a colon get the default port 5555; an explicit
    host:port, bracketed or not, is kept as it is; a blank address is an error. *)
Theorem normalizeTCPAddr_forms (h p : string) :
  clean_host h → clean_port p → p ≠ "" → h ≠ "" → trimmed h →
  trimmed (JoinHostPort h p) → trimmed (JoinHostPort h "") →
  (CountByte h COLON ≠ 1)%nat →
  normalizeTCPAddr h = Ok (JoinHostPort h defaultTCPPort) ∧
  normalizeTCPAddr (JoinHostPort h p) = Ok (JoinHostPort h p) ∧
  normalizeTCPAddr (JoinHostPort h "") = Ok (JoinHostPort h defaultTCPPort) ∧
  ∀ blank, TrimSpace blank = "" → is_ok (normalizeTCPAddr blank) = false.
Proof.
  intros Hh Hp Hpne Hhne Th Tj Te Hc. split_and!.
  - unfold normalizeTCPAddr. rewrite TrimSpace_trimmed by done.
    apply String.eqb_neq in Hhne as ->. destruct (contains h COLON) eqn:E.
    + apply CountByte_pos in E. rewrite SplitHostPort_literal by (apply Hh || lia).
      unfold addrErr. destruct (Nat.ltb_spec 1 (CountByte h COLON)); [|lia].
      by rewrite HasPrefix_LBRACK by apply Hh.
    + rewrite SplitHostPort_no_colon by done. unfold addrErr. by rewrite CountByte_zero.
  - unfold normalizeTCPAddr. rewrite TrimSpace_trimmed by done.
    rewrite (proj2 (String.eqb_neq _ _)) by apply JoinHostPort_not_empty.
    rewrite SplitHostPort_JoinHostPort by done. by apply String.eqb_neq in Hpne as ->.
  - unfold normalizeTCPAddr. rewrite TrimSpace_trimmed by done.
    rewrite (proj2 (String.eqb_neq _ _)) by apply JoinHostPort_not_empty.
    by rewrite SplitHostPort_JoinHostPort by done.
  - intros blank Hb. unfold normalizeTCPAddr. by rewrite Hb.
Qed.

Lemma normalizeTCPAddr_forms_witness :
  normalizeTCPAddr "::1" = Ok "[::1]:5555" ∧ normalizeTCPAddr "[::1]:1234" = Ok "[::1]:1234".
Proof.
  destruct (normalizeTCPAddr_forms "::1" "1234") as (H1 & H2 & _);
    [by split | by repeat split | done | done | by split | by split | by split | by vm_compute |].
  split; [exact H1 | exact H2].
Defined.

(** A bracketed IPv6 literal without a port is bracketed a second time:
    the result is no valid host:port, and normalizing it again never gives the
    address with the default port. *)
Theorem bracketed_literal_is_mangled :
  normalizeTCPAddr "[::1]" = Ok "[[::1]]:5555" ∧
  is_ok (SplitHostPort "[[::1]]:5555") = false ∧
  JoinHostPort "::1" defaultTCPPort = "[::1]:5555".
Proof. by vm_compute. Qed.

(** ** Endpoints *)

Lemma port_range port : 1 <= port <= 65535 → (port <? 1) || (65535 <? port) = false.
Proof. intros ?. rewrite orb_false_iff, !Z.ltb_ge. lia. Qed.

Lemma TrimSpace_tcp z : 0 <= z → TrimSpace ("tcp:" +++ Itoa z) = "tcp:" +++ Itoa z.
Proof.
  intros Hz. destruct (Itoa_last z Hz) as (t & a & E & Ha).
  apply TrimSpace_trimmed. eapply (trimmed_printable "t" ("cp:" +++ Itoa z) a ("tcp:" +++ t));
    [|done|done]. rewrite E. by rewrite <-append_assoc.
Qed.

Lemma Cut_tcp v : Cut ("tcp:" +++ v) ":" = Some ("tcp", v).
Proof. by destruct v. Qed.

(** The endpoint notation round-trips, and parsing accepts nothing that is
    not a TCP port.  Each [tcp:PORT] with a port in 1..65535 parses to the
    endpoint its constructor builds (whose service is the notation itself, and
    whose host address is that port on the loopback interface); every endpoint
    a parser returns is of this form. *)
Theorem endpoints_roundtrip (port : Z) (s : string) :
  (1 <= port <= 65535 →
    let service := "tcp:" +++ Itoa port in
    ForwardTCP port = Ok (mkForwardTarget service) ∧
    ReverseDeviceTCP port = Ok (mkReverseDeviceEndpoint service port) ∧
    ParseReverseDeviceEndpoint service = ReverseDeviceTCP port ∧
    ParseReverseHostEndpoint service = ReverseHostTCP port ∧
    ∃ addr, ReverseHostTCP port = Ok (mkReverseHostEndpoint service addr port) ∧
      SplitHostPort addr = Ok ("127.0.0.1", Itoa port)) ∧
  (∀ d, ParseReverseDeviceEndpoint s = Ok d →
    1 <= rd_port d <= 65535 ∧ d = mkReverseDeviceEndpoint ("tcp:" +++ Itoa (rd_port d)) (rd_port d)) ∧
  (∀ h, ParseReverseHostEndpoint s = Ok h →
    1 <= rh_port h <= 65535 ∧ rh_service h = "tcp:" +++ Itoa (rh_port h)).
Proof.
  assert (∀ p d, ReverseDeviceTCP p = Ok d →
    1 <= rd_port d <= 65535 ∧ d = mkReverseDeviceEndpoint ("tcp:" +++ Itoa (rd_port d)) (rd_port d)) as Hd.
  { intros p d. unfold ReverseDeviceTCP. destruct (_ || _) eqn:E; intros; simplify_eq; simpl.
    bool_to_prop. split; [lia|done]. }
  assert (∀ p d, ReverseHostTCP p = Ok d →
    1 <= rh_port d <= 65535 ∧ rh_service d = "tcp:" +++ Itoa (rh_port d)) as Hh.
  { intros p d. unfold ReverseHostTCP. destruct (_ || _) eqn:E; intros; simplify_eq; simpl.
    bool_to_prop. split; [lia|done]. }
  split_and!.
  - intros Hp service. unfold ForwardTCP, ReverseDeviceTCP, ReverseHostTCP.
    rewrite port_range by done. split_and!; [done|done| | |].
    + unfold ParseReverseDeviceEndpoint, service. rewrite TrimSpace_tcp, Cut_tcp by lia.
      change (negb ("tcp" =? "tcp")%string) with false. cbn iota. rewrite Atoi_Itoa by lia. unfold ReverseDeviceTCP. by rewrite port_range.
    + unfold ParseReverseHostEndpoint, service. rewrite TrimSpace_tcp, Cut_tcp by lia.
      change (negb ("tcp" =? "tcp")%string) with false. cbn iota. rewrite Atoi_Itoa by lia. unfold ReverseHostTCP. by rewrite port_range.
    + eexists. split; [done|]. apply SplitHostPort_JoinHostPort; [by split | apply Itoa_clean; lia].
  - intros d. unfold ParseReverseDeviceEndpoint. destruct (Cut _ _) as [[f v]|]; [|done].
    destruct (negb _); [done|]. destruct (Atoi v); [apply Hd|done].
  - intros d. unfold ParseReverseHostEndpoint. destruct (Cut _ _) as [[f v]|]; [|done].
    destruct (negb _); [done|]. destruct (Atoi v); [apply Hh|done].
Qed.

Lemma endpoints_roundtrip_witness :
  ParseReverseDeviceEndpoint "tcp:8080" = Ok (mkReverseDeviceEndpoint "tcp:8080" 8080).
Proof.
  destruct (endpoints_roundtrip 8080 "") as [H _].
  destruct H as (_ & H1 & H2 & _); [lia|]. exact (eq_trans H2 H1).
Defined.

(** ** Connecting *)

Section connecting.
Context (sha1_Sum : list byte → list byte) `{WriterOk W}.

Lemma HandshakeWithOptions_total ctx creds r (w : W) :
  ∃ out, HandshakeWithOptions sha1_Sum ctx creds r w = Some out.
Proof.
  unfold HandshakeWithOptions. destruct (ctx_entry ctx); [eauto|].
  destruct (WriteMessage w cnxn_request) as [w1 [e|]]; [eauto|].
  rewrite readHandshakeResponses_plan by (unfold handshake_fuel; lia). eauto.
Qed.

(** Connecting always returns.  A client is only returned on a transport
    whose handshake succeeded; a failed handshake closes the transport it ran
    on; and its error says [client.ErrAuthRequired] exactly when the device
    asked for an authorization we could not give, and otherwise matches
    whatever the transport's or the context's error matches. *)
Theorem connect_outcome ctx (dialer : transportDialer) creds :
  ∃ out, connectWithTransportOptions sha1_Sum ctx (Some dialer) creds = Some out ∧
  match out with
  | Connected r w => ctx_entry ctx = None ∧ ∃ r0 (w0 : W) m, DialTransport dialer = Ok (r0, w0) ∧
      HandshakeWithOptions sha1_Sum ctx creds r0 w0 = Some ((r, w), Ok m)
  | NotConnected None err => ctx_entry ctx = Some err ∨
      ∃ e, DialTransport dialer = Err e ∧ ∀ t, errors_Is err t = errors_Is e t
  | NotConnected (Some (r, w)) err => ∃ r0 (w0 : W) e, DialTransport dialer = Ok (r0, w0) ∧
      HandshakeWithOptions sha1_Sum ctx creds r0 w0 = Some ((r, w), Err e) ∧
      (if errors_Is e protocol_ErrAuthRequired then errors_Is err client_ErrAuthRequired = true
       else ∀ t, errors_Is err t = errors_Is e t)
  end.
Proof.
  unfold connectWithTransportOptions. destruct (ctx_entry ctx); [eexists; split; [done|by left]|].
  destruct (ConnectDescription dialer) as [desc args].
  destruct (DialTransport dialer) as [[r0 w0]|e]; [|eexists; split; [done|right; eauto]].
  destruct (HandshakeWithOptions_total ctx creds r0 w0) as [[[r w] [m|e]] E]; rewrite E.
  - eexists; split; [done|]. split; [done|]. by exists r0, w0, m.
  - destruct (errors_Is e protocol_ErrAuthRequired) eqn:Ea; eexists; (split; [done|]);
      exists r0, w0, e; rewrite Ea; done.
Qed.
End connecting.

(** ** Scanning *)

Lemma tcpScanPorts_loop_spec n port even p :
  0 < port →
  p ∈ tcpScanPorts_loop n port even ↔
    port <= p < port + Z.of_nat n ∧ (even = true ∨ Z.odd p = true).
Proof.
  revert port. induction n as [|n IH]; intros port Hp; simpl.
  { split; [by intros ?%elem_of_nil | lia]. }
  rewrite elem_of_app, IH by lia.
  assert ((Z.rem port 2 =? 0) = negb (Z.odd port)) as Hodd.
  { rewrite Z.rem_mod_nonneg by lia. rewrite Zmod_odd. by destruct (Z.odd port). }
  rewrite Hodd. destruct even; cbn [negb andb].
  - rewrite list_elem_of_singleton. split; [intros [->|[? _]]; (split; [lia|by left])|].
    intros [? _]. destruct (decide (p = port)); [by left|right; split; [lia|by left]].
  - destruct (Z.odd port) eqn:E; cbn [negb].
    + rewrite list_elem_of_singleton. split.
      * intros [->|[? [?|?]]]; [split; [lia|by right] | done | split; [lia|by right]].
      * intros [? [?|?]]; [done|]. destruct (decide (p = port)); [by left|right; split; [lia|by right]].
    + split; [intros [?%elem_of_nil|[? ?]]; [done|split; [lia|done]]|].
      intros [? [?|Ho]]; [done|]. right. split; [|by right].
      assert (p ≠ port) by congruence. lia.
Qed.

Lemma tcpScanPorts_loop_ge n port even : Forall (Z.le port) (tcpScanPorts_loop n port even).
Proof.
  revert port. induction n as [|n IH]; intros port; simpl; [constructor|].
  apply Forall_app_2; [destruct (_ && _); [constructor | by repeat constructor]|].
  eapply Forall_impl; [apply IH|]. simpl. lia.
Qed.

Lemma tcpScanPorts_loop_sorted n port even : StronglySorted Z.lt (tcpScanPorts_loop n port even).
Proof.
  revert port. induction n as [|n IH]; intros port; simpl; [constructor|].
  destruct (negb even && (Z.rem port 2 =? 0)); simpl; [done|]. constructor; [done|].
  eapply Forall_impl; [apply tcpScanPorts_loop_ge|]. simpl. lia.
Qed.

Lemma scanTCPPort_host connect opts port t :
  scanTCPPort connect opts port = Some t → tt_Host t = so_Host opts ∧ tt_Port t = port.
Proof. unfold scanTCPPort. intros H. by repeat (case_match; simplify_eq). Qed.

Lemma scan_sorted connect opts ports :
  StronglySorted Z.lt ports → StronglySorted target_le (omap (scanTCPPort connect opts) ports).
Proof.
  induction 1 as [|p ports Hs IH Hf]; simpl; [constructor|].
  destruct (scanTCPPort connect opts p) as [t|] eqn:E; [|done]. constructor; [done|].
  apply Forall_forall. intros t' (q & Hq & Ht')%list_elem_of_omap.
  rewrite Forall_forall in Hf. specialize (Hf _ Hq).
  apply scanTCPPort_host in E as [E1 E2], Ht' as [E3 E4].
  unfold target_le. rewrite decide_True by congruence. lia.
Qed.

#[global] Instance target_le_trans : Transitive target_le.
Proof.
  intros t1 t2 t3. unfold target_le. intros L1 L2.
  destruct (decide (tt_Host t1 = tt_Host t2)) as [E1|E1], (decide (tt_Host t2 = tt_Host t3)) as [E2|E2].
  - rewrite decide_True by congruence. lia.
  - rewrite E1, decide_False by done. done.
  - rewrite <-E2, decide_False by done. done.
  - rewrite decide_False; [by trans (tt_Host t2)|]. intros E. rewrite <-E in L2.
    by apply E1, (anti_symm String.le).
Qed.

#[global] Instance target_le_total : Total target_le.
Proof.
  intros t1 t2. unfold target_le. destruct (decide (tt_Host t1 = tt_Host t2)) as [E|E].
  - rewrite decide_True by done. lia.
  - rewrite decide_False by congruence. apply (total String.le).
Qed.

(** The scan returns the endpoints that answered, one per port and in
    port order, whatever order the per-port goroutines finish in: exactly the
    ports of the range (the odd ones unless even ports are asked for) where
    connecting succeeded, or failed because authorization is missing, and this
    is what [AuthRequired] says. *)
Theorem scan_result (connect : string → option error) (arrival : list TCPTarget → list TCPTarget)
    (opts : TCPScanOptions) (targets : list TCPTarget) :
  (∀ l, arrival l ≡ₚ l) →
  ScanTCPTargets connect arrival None opts = Ok targets →
  let opts := defaultTCPScanOptions opts in
  StronglySorted Z.lt (tt_Port <$> targets) ∧
  ∀ t, t ∈ targets ↔
    so_StartPort opts <= tt_Port t <= so_EndPort opts ∧
    (so_IncludeEvenPorts opts = true ∨ Z.odd (tt_Port t) = true) ∧
    tt_Host t = so_Host opts ∧ tt_Addr t = JoinHostPort (so_Host opts) (Itoa (tt_Port t)) ∧
    match connect (tt_Addr t) with
    | None => tt_AuthRequired t = false
    | Some e => tt_AuthRequired t = true ∧ errors_Is e client_ErrAuthRequired = true
    end.
Proof.
  intros Harr Hscan o. unfold ScanTCPTargets in Hscan. cbv zeta in Hscan. fold o in Hscan.
  destruct ((so_StartPort o <? 1) || (65535 <? so_StartPort o)) eqn:E1; [done|].
  destruct ((so_EndPort o <? 1) || (65535 <? so_EndPort o)); [done|].
  destruct (so_EndPort o <? so_StartPort o) eqn:E3; [done|]. destruct (so_Timeout o <=? 0); [done|].
  injection Hscan as <-. bool_to_prop.
  set (found := omap (scanTCPPort connect o) (tcpScanPorts o)).
  assert (∀ t, t ∈ found → tt_Host t = so_Host o) as Hhost.
  { intros t (p & _ & Ht)%list_elem_of_omap. by apply scanTCPPort_host in Ht as [? _]. }
  assert (StronglySorted target_le found) as Hfs by apply scan_sorted, tcpScanPorts_loop_sorted.
  assert (merge_sort target_le (arrival found) = found) as ->.
  { apply (StronglySorted_unique_strong target_le).
    - intros t1 t2 Ht1 Ht2 L1 L2. rewrite merge_sort_Permutation, Harr in Ht1.
      pose proof (Hhost _ Ht1) as H1. pose proof (Hhost _ Ht2) as H2.
      unfold target_le in L1, L2. rewrite decide_True in L1 by congruence. rewrite decide_True in L2 by congruence.
      apply list_elem_of_omap in Ht1 as (p1 & _ & F1), Ht2 as (p2 & _ & F2).
      pose proof (scanTCPPort_host _ _ _ _ F1) as [_ P1].
      pose proof (scanTCPPort_host _ _ _ _ F2) as [_ P2].
      assert (p1 = p2) by lia. congruence.
    - apply StronglySorted_merge_sort; apply _.
    - done.
    - by rewrite merge_sort_Permutation, Harr. }
  split.
  - assert (∀ ports, StronglySorted Z.lt ports →
      StronglySorted Z.lt (tt_Port <$> omap (scanTCPPort connect o) ports)) as Hsorted.
    { clear. induction 1 as [|p ports Hs IH Hf]; simpl; [constructor|].
      destruct (scanTCPPort connect o p) as [t|] eqn:E; [|done]. simpl. constructor; [done|].
      apply Forall_fmap, Forall_forall. intros t' (q & Hq & Ht')%list_elem_of_omap. simpl.
      rewrite Forall_forall in Hf. specialize (Hf _ Hq).
      apply scanTCPPort_host in E as [_ ->], Ht' as [_ ->]. done. }
    apply Hsorted, tcpScanPorts_loop_sorted.
  - intros t. unfold found. rewrite list_elem_of_omap. split.
    + intros (p & Hp & Ht). apply tcpScanPorts_loop_spec in Hp as [Hr He]; [|lia].
      pose proof (scanTCPPort_host _ _ _ _ Ht) as [-> ->]. split_and!; [lia | lia | done | done |..].
      all: unfold scanTCPPort in Ht; repeat (case_match; simplify_eq/=); done.
    + intros (Hr & He & Hh & Ha & Hc). exists (tt_Port t). split.
      * apply tcpScanPorts_loop_spec; [lia|]. split; [lia|done].
      * unfold scanTCPPort. rewrite <-Ha. destruct (connect (tt_Addr t)) as [e|].
        -- destruct Hc as [Hc ->]. rewrite <-Hh, <-Hc. by destruct t.
        -- rewrite <-Hh, <-Hc. by destruct t.
Qed.

(** A host on which port 5557 is an emulator, and 5555 wants authorization. *)
Definition demo_host (addr : string) : option error :=
  if (addr =? "127.0.0.1:5557")%string then None
  else if (addr =? "127.0.0.1:5555")%string then Some (ErrorfW "adb connect: %w" [] client_ErrAuthRequired)
  else Some (External 111).

Lemma scan_result_witness :
  ∃ targets, ScanTCPTargets demo_host (@rev TCPTarget) None (mkTCPScanOptions "" 0 0 false 0) = Ok targets ∧
    (tt_Port <$> targets) = [5555; 5557] ∧ StronglySorted Z.lt (tt_Port <$> targets).
Proof.
  destruct (ScanTCPTargets demo_host (@rev TCPTarget) None (mkTCPScanOptions "" 0 0 false 0))
    as [targets|e] eqn:E; [|by vm_compute in E].
  exists targets. split; [done|].
  destruct (scan_result demo_host (@rev TCPTarget) (mkTCPScanOptions "" 0 0 false 0) targets) as [H _];
    [intros l; symmetry; apply Permutation_rev | exact E |].
  split; [|exact H]. vm_compute in E. injection E as <-. reflexivity.
Defined.
