(* ===== verification/Sync.v ===== *)
(** * client/sync.go: pulling and pushing files over the sync: service

    The framing (a four-byte id and a little-endian length), [PullFileWithOptions]
    and [PushFile] with every early return, over a stream that was opened by
    [OpenService] (or failed to) and a local file system in which opening, writing
    and closing can fail.  What the device sends is an arbitrary reader; what it
    receives is compared with a reference decoder of the push protocol. *)

From S2P Require Import Prelude Errors GoStrings Strconv GoIO Message Handshake.

#[local] Open Scope string_scope.
#[local] Open Scope Z_scope.
#[local] Open Scope list_scope.

Definition syncIDRECV : string := "RECV".
Definition syncIDSEND : string := "SEND".
Definition syncIDDATA : string := "DATA".
Definition syncIDDONE : string := "DONE".
Definition syncIDOKAY : string := "OKAY".
Definition syncIDFAIL : string := "FAIL".
Definition syncDataMax : nat := 4096.

(** ** Framing *)

(** The eight header bytes: [copy(header[0:4], id)] and the length. *)
Definition writeSyncHeaderTo (id : string) (size : Z) : list byte :=
  take 4 (bytes_of id ++ repeat Byte.x00 4) ++ PutUint32 size.

Definition writeSyncRequest `{io_Writer W} (w : W) (id : string) (payload : list byte) : W * option error :=
  writeFull w (writeSyncHeaderTo id (uint32 (Z.of_nat (length payload))) ++ payload).

Definition writeSyncHeader `{io_Writer W} (w : W) (id : string) (size : Z) : W * option error :=
  writeFull w (writeSyncHeaderTo id size).

Definition readSyncHeader (r : Reader) : Reader * res (string * Z) :=
  match ReadFull r 8 with
  | (r, Err e) => (r, Err e)
  | (r, Ok header) => (r, Ok (string_of (take 4 header), Uint32 (drop 4 header)))
  end.

(** ** The local file system *)

Record FS := mkFS {
  fs_files : gmap string (list byte);
  fs_free : nat;                          (* bytes that can still be written *)
  fs_stat_err : string → option error;    (* other failures of os.Stat *)
  fs_open_err : string → option error;    (* other failures of os.OpenFile *)
  fs_close_err : option error;            (* a failing close *)
}.

Definition ENOSPC : error := External 28.

Definition with_files (files : gmap string (list byte)) (free : nat) (fs : FS) : FS :=
  mkFS files free (fs_stat_err fs) (fs_open_err fs) (fs_close_err fs).

(** [os.Stat]: [None] when the file is there. *)
Definition os_Stat (path : string) (fs : FS) : option error :=
  match fs_stat_err fs path with
  | Some e => Some e
  | None => match fs_files fs !! path with
            | Some _ => None
            | None => Some (Sentinel os_ErrNotExist)
            end
  end.

(** [os.OpenFile(path, O_WRONLY|O_CREATE|flag, 0o666)] with [O_TRUNC] or [O_EXCL]. *)
Definition os_OpenFile (path : string) (trunc : bool) (fs : FS) : FS * option error :=
  match fs_open_err fs path with
  | Some e => (fs, Some e)
  | None =>
      match fs_files fs !! path with
      | Some _ =>
          if trunc then (with_files (<[path := []]> (fs_files fs)) (fs_free fs) fs, None)
          else (fs, Some (ErrorfW "open %s: %w" [AStr path] (Sentinel os_ErrExist)))
      | None => (with_files (<[path := []]> (fs_files fs)) (fs_free fs) fs, None)
      end
  end.

(** Appending to an open file; a full disk takes what fits. *)
Definition file_Write (path : string) (bs : list byte) (fs : FS) : FS * option error :=
  let n := Nat.min (fs_free fs) (length bs) in
  let old := default [] (fs_files fs !! path) in
  (with_files (<[path := old ++ take n bs]> (fs_files fs)) (fs_free fs - n) fs,
   if (n =? length bs)%nat then None else Some ENOSPC).

(** [io.CopyN(out, stream, n)]; an early end of the stream is [io.EOF]. *)
Fixpoint io_CopyN_loop (path : string) (fin : error) (cs : list (list byte)) (need : Z) (fs : FS)
    : Reader * FS * option error :=
  if need <=? 0 then (mkReader cs fin, fs, None) else
  match cs with
  | [] => (mkReader [] fin, fs, Some fin)
  | c :: cs' =>
      let n := Z.of_nat (length c) in
      if n <=? need then
        match file_Write path c fs with
        | (fs, Some e) => (mkReader cs' fin, fs, Some e)
        | (fs, None) => io_CopyN_loop path fin cs' (need - n) fs
        end
      else
        let '(fs, werr) := file_Write path (take (Z.to_nat need) c) fs in
        (mkReader (drop (Z.to_nat need) c :: cs') fin, fs, werr)
  end.

Definition io_CopyN (path : string) (r : Reader) (n : Z) (fs : FS) : Reader * FS * option error :=
  io_CopyN_loop path (rd_end r) (rd_chunks r) n fs.

(** ** PullFileWithOptions *)

(** [createOut]: opens the destination once. *)
Definition createOut (localPath : string) (overwrite created : bool) (fs : FS) : FS * option error :=
  if created then (fs, None) else
  match os_OpenFile localPath overwrite fs with
  | (fs, None) => (fs, None)
  | (fs, Some err) =>
      (fs, Some (if errors_Is err os_ErrExist
                 then ErrorfW "adb pull destination %q exists: %w" [AStr localPath] client_ErrDestinationExists
                 else ErrorfW "adb pull create destination %q: %w" [AStr localPath] err))
  end.

(** The receive loop; each round consumes a header, or returns.  [None]: out of
    fuel. *)
Fixpoint pull_loop (fuel : nat) (ctx : Context_) (remotePath localPath : string)
    (overwrite created : bool) (r : Reader) (fs : FS) : option (FS * option error) :=
  match fuel with
  | O => None
  | S fuel =>
      match readSyncHeader r with
      | (_, Err err) =>
          Some (fs, Some (match ctx_failing ctx with
                          | Some ctxErr => ErrorfW "adb pull %q canceled: %w" [AStr remotePath] ctxErr
                          | None => ErrorfW "adb pull %q: read response: %w" [AStr remotePath] err
                          end))
      | (r, Ok (id, size)) =>
          if (id =? syncIDDATA)%string then
            match createOut localPath overwrite created fs with
            | (fs, Some err) => Some (fs, Some err)
            | (fs, None) =>
                match io_CopyN localPath r size fs with
                | (_, fs, Some err) =>
                    Some (fs, Some (ErrorfW "adb pull %q: read DATA: %w" [AStr remotePath] err))
                | (r, fs, None) => pull_loop fuel ctx remotePath localPath overwrite true r fs
                end
            end
          else if (id =? syncIDDONE)%string then
            match createOut localPath overwrite created fs with
            | (fs, Some err) => Some (fs, Some err)
            | (fs, None) =>
                Some (fs, match fs_close_err fs with
                          | Some err => Some (ErrorfW "adb pull close destination %q: %w" [AStr localPath] err)
                          | None => None
                          end)
            end
          else if (id =? syncIDFAIL)%string then
            match ReadFull r size with
            | (_, Err err) => Some (fs, Some (ErrorfW "adb pull %q: read FAIL: %w" [AStr remotePath] err))
            | (_, Ok msg) =>
                Some (fs, Some (Errorf "adb pull %q: remote error: %s" [AStr remotePath; AStr (string_of msg)]))
            end
          else Some (fs, Some (Errorf "adb pull %q: unexpected sync response %q" [AStr remotePath; AStr id]))
      end
  end.

Definition pull_fuel (r : Reader) : nat := S (length (rd_bytes r)).

(** The check of the destination before anything is opened. *)
Definition destination_error (localPath : string) (overwrite : bool) (fs : FS) : option error :=
  if overwrite then None else
  match os_Stat localPath fs with
  | None => Some (ErrorfW "adb pull destination %q exists: %w" [AStr localPath] client_ErrDestinationExists)
  | Some err =>
      if errors_Is err os_ErrNotExist then None
      else Some (ErrorfW "adb pull stat destination %q: %w" [AStr localPath] err)
  end.

(** [open_sync] is what [c.OpenService(ctx, "sync:")] gives.  The result: the
    file system, what was written to the stream ([None] if none was opened),
    and the error. *)
Definition PullFileWithOptions `{io_Writer W} (ctx : Context_) (open_sync : res (Reader * W))
    (remotePath localPath : string) (overwrite : bool) (fs : FS)
    : option (FS * option W * option error) :=
  match ctx_entry ctx with
  | Some err => Some (fs, None, Some err)
  | None =>
      if (remotePath =? "")%string then Some (fs, None, Some (Errorf "adb pull remote path is empty" [])) else
      if (localPath =? "")%string then Some (fs, None, Some (Errorf "adb pull local path is empty" [])) else
      match destination_error localPath overwrite fs with
      | Some err => Some (fs, None, Some err)
      | None =>
          match open_sync with
          | Err err => Some (fs, None, Some err)
          | Ok (r, w) =>
              match writeSyncRequest w syncIDRECV (bytes_of remotePath) with
              | (w, Some err) =>
                  Some (fs, Some w, Some (ErrorfW "adb pull %q: send RECV: %w" [AStr remotePath] err))
              | (w, None) =>
                  match pull_loop (pull_fuel r) ctx remotePath localPath overwrite false r fs with
                  | Some (fs, err) => Some (fs, Some w, err)
                  | None => None
                  end
              end
          end
      end
  end.

Definition PullFile `{io_Writer W} (ctx : Context_) (open_sync : res (Reader * W))
    (remotePath localPath : string) (fs : FS) :=
  PullFileWithOptions ctx open_sync remotePath localPath false fs.

(** ** PushFile *)

(** The local source: what [os.Open], [Stat] and successive reads give. *)
Record Source := mkSource {
  src_open_err : option error;
  src_stat_err : option error;
  src_IsDir : bool;
  src_ModTime : Z;                        (* seconds since the epoch *)
  src_data : Reader;
}.

(** The loop that sends the file. [None]: out of fuel. *)
Fixpoint push_loop `{io_Writer W} (fuel : nat) (localPath remotePath : string) (inp : Reader) (w : W)
    : option (W * option error) :=
  match fuel with
  | O => None
  | S fuel =>
      let '(inp, (bs, readErr)) := Read inp syncDataMax in
      let '(w, werr) :=
        if (0 <? length bs)%nat then writeSyncRequest w syncIDDATA bs else (w, None) in
      match werr with
      | Some err => Some (w, Some (ErrorfW "adb push %q to %q: send DATA: %w" [AStr localPath; AStr remotePath] err))
      | None =>
          match readErr with
          | Some err =>
              if bool_decide (err = Sentinel io_EOF) then Some (w, None)
              else Some (w, Some (ErrorfW "adb push read source %q: %w" [AStr localPath] err))
          | None => push_loop fuel localPath remotePath inp w
          end
      end
  end.

(** Every round takes bytes from the source, or a chunk. *)
Definition push_fuel (r : Reader) : nat := S (length (rd_bytes r) + length (rd_chunks r)).

(** 0o644 in decimal. *)
Definition defaultRemoteMode : string := Itoa 420.

(** The device's verdict, behind DONE. *)
Definition push_response (ctx : Context_) (localPath remotePath : string) (r : Reader) : option error :=
  match readSyncHeader r with
  | (_, Err err) =>
      Some (match ctx_failing ctx with
            | Some ctxErr => ErrorfW "adb push %q to %q canceled: %w" [AStr localPath; AStr remotePath] ctxErr
            | None => ErrorfW "adb push %q to %q: read response: %w" [AStr localPath; AStr remotePath] err
            end)
  | (r, Ok (id, size)) =>
      if (id =? syncIDOKAY)%string then None
      else if (id =? syncIDFAIL)%string then
        match ReadFull r size with
        | (_, Err err) => Some (ErrorfW "adb push %q to %q: read FAIL: %w" [AStr localPath; AStr remotePath] err)
        | (_, Ok msg) =>
            Some (Errorf "adb push %q to %q: remote error: %s"
                    [AStr localPath; AStr remotePath; AStr (string_of msg)])
        end
      else Some (Errorf "adb push %q to %q: unexpected sync response %q"
                   [AStr localPath; AStr remotePath; AStr id])
  end.

(** The checks in front of [OpenService]. *)
Definition push_checks (ctx : Context_) (src : Source) (localPath remotePath : string) : option error :=
  match ctx_entry ctx with
  | Some err => Some err
  | None =>
      if (localPath =? "")%string then Some (Errorf "adb push local path is empty" []) else
      if (remotePath =? "")%string then Some (Errorf "adb push remote path is empty" []) else
      match src_open_err src, src_stat_err src, src_IsDir src with
      | Some err, _, _ => Some (ErrorfW "adb push open source %q: %w" [AStr localPath] err)
      | None, Some err, _ => Some (ErrorfW "adb push stat source %q: %w" [AStr localPath] err)
      | None, None, true =>
          Some (ErrorfW "adb push source %q is a directory: %w" [AStr localPath] client_ErrUnsupported)
      | None, None, false => None
      end
  end.

(** The session over an open stream: SEND, DATA packets, DONE, the verdict. *)
Definition push_session `{io_Writer W} (ctx : Context_) (src : Source) (localPath remotePath : string)
    (r : Reader) (w : W) : option (W * option error) :=
  match writeSyncRequest w syncIDSEND (bytes_of (remotePath +++ "," +++ defaultRemoteMode)) with
  | (w, Some err) =>
      Some (w, Some (ErrorfW "adb push %q to %q: send SEND: %w" [AStr localPath; AStr remotePath] err))
  | (w, None) =>
      match push_loop (push_fuel (src_data src)) localPath remotePath (src_data src) w with
      | None => None
      | Some (w, Some err) => Some (w, Some err)
      | Some (w, None) =>
          match writeSyncHeader w syncIDDONE (uint32 (Z.max 0 (src_ModTime src))) with
          | (w, Some err) =>
              Some (w, Some (ErrorfW "adb push %q to %q: send DONE: %w" [AStr localPath; AStr remotePath] err))
          | (w, None) => Some (w, push_response ctx localPath remotePath r)
          end
      end
  end.

Definition PushFile `{io_Writer W} (ctx : Context_) (open_sync : res (Reader * W))
    (src : Source) (localPath remotePath : string) : option (option W * option error) :=
  match push_checks ctx src localPath remotePath with
  | Some err => Some (None, Some err)
  | None =>
      match open_sync with
      | Err err => Some (None, Some err)
      | Ok (r, w) =>
          match push_session ctx src localPath remotePath r w with
          | Some (w, err) => Some (Some w, err)
          | None => None
          end
      end
  end.

(** ** Framing on byte streams *)

Lemma header_eq id size :
  String.length id = 4%nat → writeSyncHeaderTo id size = bytes_of id ++ PutUint32 size.
Proof.
  intros Hid. unfold writeSyncHeaderTo. by rewrite take_app_length' by (rewrite length_bytes_of; lia).
Qed.

Lemma length_header id size : String.length id = 4%nat → length (writeSyncHeaderTo id size) = 8%nat.
Proof. intros Hid. rewrite header_eq, length_app, length_bytes_of, length_PutUint32, Hid by done. done. Qed.

Lemma header_id id size : String.length id = 4%nat → take 4 (writeSyncHeaderTo id size) = bytes_of id.
Proof. intros Hid. by rewrite header_eq, take_app_length' by (rewrite ?length_bytes_of; lia). Qed.

Lemma header_size id size : String.length id = 4%nat → drop 4 (writeSyncHeaderTo id size) = PutUint32 size.
Proof. intros Hid. by rewrite header_eq, drop_app_length' by (rewrite ?length_bytes_of; lia). Qed.

Lemma readSyncHeader_header r id size rest :
  String.length id = 4%nat → is_uint32 size →
  rd_bytes r = writeSyncHeaderTo id size ++ rest →
  ∃ r', readSyncHeader r = (r', Ok (id, size)) ∧ rd_bytes r' = rest.
Proof.
  intros Hid Hs Hr.
  assert (8 <= Z.of_nat (length (rd_bytes r))) as Hlen.
  { rewrite Hr, length_app, length_header by done. lia. }
  destruct (ReadFull_enough r 8 Hlen) as (r' & E & Hb & _). exists r'.
  unfold readSyncHeader. rewrite E. change (Z.to_nat 8) with 8%nat in *.
  rewrite Hr, take_app_length' by by rewrite length_header.
  rewrite header_id, header_size, string_of_bytes_of by done.
  pose proof (Uint32_PutUint32 size []) as Hu. rewrite app_nil_r in Hu.
  rewrite Hu, uint32_small by done. split; [done|].
  rewrite Hb, Hr. by rewrite drop_app_length' by by rewrite length_header.
Qed.

Lemma readSyncHeader_consumes r r' h :
  readSyncHeader r = (r', Ok h) → (length (rd_bytes r') + 8 ≤ length (rd_bytes r))%nat ∧ rd_end r' = rd_end r.
Proof.
  unfold readSyncHeader. destruct (ReadFull r 8) as [r1 [hd|e]] eqn:E; [|done]. intros [= <- _].
  apply ReadFull_ok in E as (E & Hl & He). split; [|done].
  rewrite E, length_app. lia.
Qed.

(** ** Copying into the destination *)

(** [bs] was appended to [path], and nothing else changed. *)
Definition appended (path : string) (bs : list byte) (fs fs' : FS) : Prop :=
  fs_files fs' = <[path := default [] (fs_files fs !! path) ++ bs]> (fs_files fs) ∧
  fs_free fs = (fs_free fs' + length bs)%nat ∧
  fs_stat_err fs' = fs_stat_err fs ∧ fs_open_err fs' = fs_open_err fs ∧ fs_close_err fs' = fs_close_err fs.

Lemma appended_trans path b1 b2 fs1 fs2 fs3 :
  appended path b1 fs1 fs2 → appended path b2 fs2 fs3 → appended path (b1 ++ b2) fs1 fs3.
Proof.
  intros (E1 & F1 & A1 & A2 & A3) (E2 & F2 & B1 & B2 & B3).
  split_and!; [|rewrite length_app; lia|congruence..].
  rewrite E2, E1, lookup_insert_eq, insert_insert_eq. simpl. by rewrite app_assoc.
Qed.

Lemma appended_nil path c fs : fs_files fs !! path = Some c → appended path [] fs fs.
Proof.
  intros Hc. split_and!; [|simpl; lia|done..]. rewrite Hc, app_nil_r. simpl. by rewrite insert_id.
Qed.

Lemma appended_exists path bs fs fs' :
  appended path bs fs fs' → fs_files fs' !! path = Some (default [] (fs_files fs !! path) ++ bs).
Proof. intros (-> & _). apply lookup_insert_eq. Qed.

Lemma file_Write_fits path bs fs :
  (length bs ≤ fs_free fs)%nat → ∃ fs', file_Write path bs fs = (fs', None) ∧ appended path bs fs fs'.
Proof.
  intros Hl. unfold file_Write. rewrite Nat.min_r, firstn_all, Nat.eqb_refl by done.
  eexists. split; [done|]. split_and!; simpl; [done|lia|done..].
Qed.

(** What a write did, in every case. *)
Lemma file_Write_appended path bs fs fs' err :
  file_Write path bs fs = (fs', err) →
  ∃ n, appended path (take n bs) fs fs' ∧ (err = None → take n bs = bs).
Proof.
  unfold file_Write. set (n := Nat.min (fs_free fs) (length bs)). intros [= <- <-].
  exists n. split.
  - split_and!; simpl; [done | rewrite length_take; lia | done..].
  - destruct (Nat.eqb_spec n (length bs)) as [E|E]; [by rewrite E, firstn_all | done].
Qed.

(** Everything but the contents of [path] and the space left. *)
Definition only_path (path : string) (fs fs' : FS) : Prop :=
  (∀ q, q ≠ path → fs_files fs' !! q = fs_files fs !! q) ∧
  fs_stat_err fs' = fs_stat_err fs ∧ fs_open_err fs' = fs_open_err fs ∧ fs_close_err fs' = fs_close_err fs.

#[global] Instance only_path_preorder path : PreOrder (only_path path).
Proof.
  split; [by intros fs|]. intros fs1 fs2 fs3 (E1 & A1 & A2 & A3) (E2 & B1 & B2 & B3).
  split_and!; [|congruence..]. intros q Hq. by rewrite E2, E1.
Qed.

Lemma file_Write_only path bs fs : only_path path fs (fst (file_Write path bs fs)).
Proof. split_and!; simpl; [|done..]. intros q Hq. by rewrite lookup_insert_ne. Qed.

Lemma os_OpenFile_only path trunc fs : only_path path fs (fst (os_OpenFile path trunc fs)).
Proof.
  unfold os_OpenFile. destruct (fs_open_err fs path); [done|].
  destruct (fs_files fs !! path); [destruct trunc; [|done]|];
    (split_and!; simpl; [|done..]; intros q Hq; by rewrite lookup_insert_ne).
Qed.

Lemma createOut_only path overwrite created fs : only_path path fs (fst (createOut path overwrite created fs)).
Proof.
  unfold createOut. destruct created; [done|]. pose proof (os_OpenFile_only path overwrite fs) as H.
  by destruct (os_OpenFile path overwrite fs) as [fs' [e|]].
Qed.

Lemma io_CopyN_ok path r need fs c :
  0 <= need <= Z.of_nat (length (rd_bytes r)) → need <= Z.of_nat (fs_free fs) →
  fs_files fs !! path = Some c →
  ∃ r' fs', io_CopyN path r need fs = (r', fs', None) ∧
    rd_bytes r' = drop (Z.to_nat need) (rd_bytes r) ∧
    appended path (take (Z.to_nat need) (rd_bytes r)) fs fs'.
Proof.
  unfold io_CopyN, rd_bytes. generalize (rd_end r) as fin. generalize (rd_chunks r) as cs. intros cs fin.
  revert need fs c. induction cs as [|ch cs IH]; intros need fs c Hn Hf Hc;
    cbn [io_CopyN_loop concat length] in *.
  { destruct (Z.leb_spec need 0); [|lia]. assert (need = 0) as -> by lia.
    do 2 eexists. split; [done|]. split; [done|]. by eapply appended_nil. }
  destruct (Z.leb_spec need 0).
  { assert (need = 0) as -> by lia. do 2 eexists. split; [done|]. split; [done|]. by eapply appended_nil. }
  rewrite length_app in Hn. destruct (Z.leb_spec (Z.of_nat (length ch)) need).
  - destruct (file_Write_fits path ch fs) as (fs1 & -> & Happ); [lia|].
    destruct (IH (need - Z.of_nat (length ch)) fs1 (default [] (fs_files fs !! path) ++ ch)) as (r' & fs' & -> & Hb & Ha).
    { lia. } { destruct Happ as (_ & Hfree & _). lia. } { by eapply appended_exists. }
    assert (Z.to_nat need = length ch + Z.to_nat (need - Z.of_nat (length ch)))%nat as -> by lia.
    do 2 eexists. split; [done|]. rewrite drop_app_add, take_app_add. split; [done|].
    by eapply appended_trans.
  - destruct (file_Write_fits path (take (Z.to_nat need) ch) fs) as (fs1 & -> & Happ);
      [rewrite length_take; lia|].
    do 2 eexists. split; [done|]. cbn [rd_chunks concat]. rewrite drop_app_le, take_app_le by lia. done.
Qed.

Lemma io_CopyN_frame path r need fs r' fs' err :
  io_CopyN path r need fs = (r', fs', err) →
  (length (rd_bytes r') ≤ length (rd_bytes r))%nat ∧ only_path path fs fs'.
Proof.
  unfold io_CopyN, rd_bytes. generalize (rd_end r) as fin. generalize (rd_chunks r) as cs. intros cs fin.
  revert need fs. induction cs as [|ch cs IH]; intros need fs; cbn [io_CopyN_loop concat].
  { destruct (need <=? 0); by intros [= <- <- <-]. }
  destruct (need <=? 0); [by intros [= <- <- <-]|].
  destruct (Z.of_nat (length ch) <=? need).
  - pose proof (file_Write_only path ch fs) as Ho.
    destruct (file_Write path ch fs) as [fs1 [e|]]; cbn [fst] in Ho.
    + intros [= <- <- <-]. simpl. rewrite length_app. split; [lia|done].
    + intros [Hl Ho2]%IH. rewrite length_app. split; [lia|]. by etrans.
  - pose proof (file_Write_only path (take (Z.to_nat need) ch) fs) as Ho.
    destruct (file_Write path (take (Z.to_nat need) ch) fs) as [fs1 e]; cbn [fst] in Ho.
    intros [= <- <- <-]. simpl. rewrite !length_app, length_drop. split; [lia|done].
Qed.

(** ** Pull: what it can do to the local files *)

Lemma pull_loop_total fuel ctx remotePath localPath overwrite created r fs :
  (length (rd_bytes r) < fuel)%nat →
  ∃ fs' err, pull_loop fuel ctx remotePath localPath overwrite created r fs = Some (fs', err) ∧
    only_path localPath fs fs'.
Proof.
  revert created r fs. induction fuel as [|fuel IH]; intros created r fs Hf; [lia|]. cbn [pull_loop].
  destruct (readSyncHeader r) as [r1 [[id size]|e]] eqn:Eh; [|by do 2 eexists].
  apply readSyncHeader_consumes in Eh as [Hl _].
  pose proof (createOut_only localPath overwrite created fs) as Ho.
  destruct (id =? syncIDDATA)%string.
  { destruct (createOut localPath overwrite created fs) as [fs1 [e|]]; cbn [fst] in Ho; [eauto|].
    destruct (io_CopyN localPath r1 size fs1) as [[r2 fs2] e] eqn:Ec.
    apply io_CopyN_frame in Ec as [Hl2 Ho2].
    destruct e as [e|]; [do 2 eexists; split; [done|]; by etrans|].
    destruct (IH true r2 fs2) as (fs' & err & -> & Ho3); [lia|].
    do 2 eexists. split; [done|]. etrans; [exact Ho|]. by etrans. }
  destruct (id =? syncIDDONE)%string.
  { destruct (createOut localPath overwrite created fs) as [fs1 [e|]]; cbn [fst] in Ho; eauto. }
  destruct (id =? syncIDFAIL)%string; [|by do 2 eexists].
  destruct (ReadFull r1 size) as [r2 [m|e]]; by do 2 eexists.
Qed.

(** Until the destination was created, an existing file is not touched unless
    overwriting was asked for. *)
Lemma createOut_excl localPath fs c :
  fs_files fs !! localPath = Some c →
  ∃ e, createOut localPath false false fs = (fs, Some e).
Proof.
  intros Hc. unfold createOut, os_OpenFile. destruct (fs_open_err fs localPath); [eauto|].
  rewrite Hc. simpl. eauto.
Qed.

Lemma pull_loop_excl fuel ctx remotePath localPath r fs c fs' err :
  fs_files fs !! localPath = Some c →
  pull_loop fuel ctx remotePath localPath false false r fs = Some (fs', err) →
  fs' = fs ∧ ∃ e, err = Some e.
Proof.
  intros Hc. destruct (createOut_excl localPath fs c Hc) as [e2 He2].
  destruct fuel as [|fuel]; cbn [pull_loop]; [done|]. rewrite He2.
  destruct (readSyncHeader r) as [r1 [[id size]|e1]]; [|intros; simplify_eq; eauto].
  destruct (id =? syncIDDATA)%string; [intros; simplify_eq; eauto|].
  destruct (id =? syncIDDONE)%string; [intros; simplify_eq; eauto|].
  destruct (id =? syncIDFAIL)%string; [|intros; simplify_eq; eauto].
  destruct (ReadFull r1 size) as [r2 [m|e3]]; intros; simplify_eq; eauto.
Qed.

(** The part behind the checks. *)
Lemma pull_session `{io_Writer W} ctx (open_sync : res (Reader * W)) remotePath localPath overwrite fs :
  ∃ fs' w err,
    match open_sync with
    | Err err => Some (fs, None, Some err)
    | Ok (r, w) =>
        match writeSyncRequest w syncIDRECV (bytes_of remotePath) with
        | (w, Some err) =>
            Some (fs, Some w, Some (ErrorfW "adb pull %q: send RECV: %w" [AStr remotePath] err))
        | (w, None) =>
            match pull_loop (pull_fuel r) ctx remotePath localPath overwrite false r fs with
            | Some (fs, err) => Some (fs, Some w, err)
            | None => None
            end
        end
    end = Some (fs', w, err) ∧ only_path localPath fs fs' ∧
    (overwrite = false → ∀ c, fs_files fs !! localPath = Some c → fs' = fs ∧ ∃ e, err = Some e).
Proof.
  destruct open_sync as [[r w]|e]; [|do 3 eexists; split_and!; eauto; done].
  destruct (writeSyncRequest w syncIDRECV (bytes_of remotePath)) as [w1 [e|]];
    [do 3 eexists; split_and!; eauto; done|].
  destruct (pull_loop_total (pull_fuel r) ctx remotePath localPath overwrite false r fs)
    as (fs' & err & E & Ho); [unfold pull_fuel; lia|].
  rewrite E. do 3 eexists. split_and!; [done|done|]. intros -> c Hc. by eapply pull_loop_excl.
Qed.

(** C37: what a pull can do, whatever the device sends and however the stream
    and the disk fail.  It returns; it touches no file but the destination;
    and without [Overwrite] it leaves an existing destination exactly as it
    was and fails, saying [ErrDestinationExists] when [os.Stat] works. *)
Theorem pull_is_contained `{io_Writer W} ctx (open_sync : res (Reader * W)) remotePath localPath
    (overwrite : bool) fs :
  ∃ fs' w err, PullFileWithOptions ctx open_sync remotePath localPath overwrite fs = Some (fs', w, err) ∧
  (∀ q, q ≠ localPath → fs_files fs' !! q = fs_files fs !! q) ∧
  (overwrite = false → ∀ c, fs_files fs !! localPath = Some c →
    fs_files fs' = fs_files fs ∧ ∃ e, err = Some e ∧
    (ctx_entry ctx = None → remotePath ≠ "" → localPath ≠ "" → fs_stat_err fs localPath = None →
     errors_Is e client_ErrDestinationExists = true)).
Proof.
  unfold PullFileWithOptions.
  destruct (ctx_entry ctx) as [e|]; [do 3 eexists; split_and!; [done..|]; intros; split; [done|]; by eexists|].
  destruct (String.eqb_spec remotePath ""); [do 3 eexists; split_and!; [done..|]; split; [done|]; by eexists|].
  destruct (String.eqb_spec localPath ""); [do 3 eexists; split_and!; [done..|]; split; [done|]; by eexists|].
  destruct (pull_session ctx open_sync remotePath localPath overwrite fs) as (fs' & w & err & E & Ho & Hex).
  unfold destination_error. destruct overwrite.
  { rewrite E. do 3 eexists. split_and!; [done | apply Ho | done]. }
  unfold os_Stat. destruct (fs_stat_err fs localPath) as [e|] eqn:Es.
  - destruct (errors_Is e os_ErrNotExist).
    + cbn iota. rewrite E. do 3 eexists. split_and!; [done | apply Ho |]. intros _ c Hc.
      destruct (Hex eq_refl c Hc) as [-> [e' ->]]. split; [done|]. by eexists.
    + do 3 eexists. split_and!; [done..|]. split; [done|]. by eexists.
  - destruct (fs_files fs !! localPath) as [c|] eqn:Hf.
    + do 3 eexists. split_and!; [done..|]. split; [done|]. by eexists.
    + change (errors_Is (Sentinel os_ErrNotExist) os_ErrNotExist) with true. cbn iota.
      rewrite E. do 3 eexists. split_and!; [done | apply Ho | done].
Qed.

(** ** Pull: what a well-behaved device produces *)

(** The device's answer to RECV: DATA packets, then DONE. *)
Definition data_packet (bs : list byte) : list byte :=
  writeSyncHeaderTo syncIDDATA (Z.of_nat (length bs)) ++ bs.

Definition sync_answer (chunks : list (list byte)) (mtime : Z) : list byte :=
  concat (data_packet <$> chunks) ++ writeSyncHeaderTo syncIDDONE mtime.

Definition small (bs : list byte) : Prop := is_uint32 (Z.of_nat (length bs)).

Lemma pull_loop_data fuel ctx remotePath localPath overwrite r fs c chunks mtime rest :
  Forall small chunks → is_uint32 mtime →
  fs_files fs !! localPath = Some c → fs_close_err fs = None →
  (length (concat chunks) ≤ fs_free fs)%nat →
  (length chunks < fuel)%nat →
  rd_bytes r = sync_answer chunks mtime ++ rest →
  ∃ fs', pull_loop fuel ctx remotePath localPath overwrite true r fs = Some (fs', None) ∧
    appended localPath (concat chunks) fs fs'.
Proof.
  intros Hsm Hm. revert fuel r fs c.
  induction Hsm as [|ch chunks Hch Hsm IH]; intros fuel r fs c Hc Hcl Hfree Hfuel Hr;
    (destruct fuel as [|fuel]; [simpl in *; lia|]); cbn [pull_loop].
  - destruct (readSyncHeader_header r syncIDDONE mtime rest) as (r1 & -> & Hr1); [done..|].
    cbn. rewrite Hcl. eexists. split; [done|]. by eapply appended_nil.
  - unfold sync_answer in Hr. rewrite fmap_cons, concat_cons in Hr.
    unfold data_packet in Hr at 1. rewrite <-!app_assoc in Hr.
    destruct (readSyncHeader_header r syncIDDATA _ _ eq_refl Hch Hr) as (r1 & -> & Hr1).
    change ((syncIDDATA =? syncIDDATA)%string) with true. cbn iota.
    rewrite concat_cons, length_app in Hfree.
    destruct (io_CopyN_ok localPath r1 (Z.of_nat (length ch)) fs c) as (r2 & fs2 & E & Hr2 & Happ).
    { rewrite Hr1, length_app. lia. } { lia. } { done. }
    unfold createOut. rewrite E. rewrite Nat2Z.id, Hr1, drop_app_length in Hr2.
    rewrite Nat2Z.id, Hr1, take_app_length in Happ.
    destruct (IH fuel r2 fs2 (default [] (fs_files fs !! localPath) ++ ch)) as (fs' & -> & Happ').
    { by eapply appended_exists. }
    { destruct Happ as (_ & _ & _ & _ & ->). done. }
    { destruct Happ as (_ & Hf & _). lia. }
    { simpl in Hfuel. lia. }
    { rewrite Hr2. unfold sync_answer. by rewrite <-!app_assoc. }
    eexists. split; [done|]. cbn [concat]. by eapply appended_trans.
Qed.

(** The first DATA or DONE opens the destination. *)
Lemma pull_loop_open fuel ctx remotePath localPath overwrite r fs fs1 chunks mtime rest :
  Forall small chunks → is_uint32 mtime →
  createOut localPath overwrite false fs = (fs1, None) →
  rd_bytes r = sync_answer chunks mtime ++ rest →
  pull_loop fuel ctx remotePath localPath overwrite false r fs =
  pull_loop fuel ctx remotePath localPath overwrite true r fs1.
Proof.
  intros Hsm Hm Hc Hr. destruct fuel as [|fuel]; [done|]. cbn [pull_loop]. rewrite Hc.
  destruct Hsm as [|ch chunks Hch Hsm].
  - by destruct (readSyncHeader_header r syncIDDONE mtime rest) as (r1 & -> & Hr1).
  - unfold sync_answer in Hr. rewrite fmap_cons, concat_cons in Hr.
    unfold data_packet in Hr at 1. rewrite <-!app_assoc in Hr.
    by destruct (readSyncHeader_header r syncIDDATA _ _ eq_refl Hch Hr) as (r1 & -> & Hr1).
Qed.

(** The destination may be created. *)
Definition creatable (localPath : string) (overwrite : bool) (fs : FS) : Prop :=
  (overwrite = true ∨ fs_files fs !! localPath = None) ∧
  fs_stat_err fs localPath = None ∧ fs_open_err fs localPath = None ∧ fs_close_err fs = None.

Lemma createOut_creatable localPath overwrite fs :
  creatable localPath overwrite fs →
  createOut localPath overwrite false fs =
    (with_files (<[localPath := []]> (fs_files fs)) (fs_free fs) fs, None).
Proof.
  intros (Hov & _ & Ho & _). unfold createOut, os_OpenFile. rewrite Ho.
  destruct (fs_files fs !! localPath) as [c|]; [|done]. by destruct Hov as [->|?].
Qed.

Lemma length_sync_answer chunks mtime : (length chunks ≤ length (sync_answer chunks mtime))%nat.
Proof.
  unfold sync_answer. rewrite length_app.
  assert (length chunks ≤ length (concat (data_packet <$> chunks)))%nat; [|lia].
  induction chunks as [|c chunks IH]; [simpl; lia|].
  rewrite fmap_cons, concat_cons, length_app. cbn [length].
  unfold data_packet at 1. rewrite length_app, length_header by done. lia.
Qed.

Lemma pull_loop_answer ctx remotePath localPath overwrite r fs chunks mtime rest :
  creatable localPath overwrite fs → Forall small chunks → is_uint32 mtime →
  (length (concat chunks) ≤ fs_free fs)%nat →
  rd_bytes r = sync_answer chunks mtime ++ rest →
  ∃ fs', pull_loop (pull_fuel r) ctx remotePath localPath overwrite false r fs = Some (fs', None) ∧
    fs_files fs' = <[localPath := concat chunks]> (fs_files fs).
Proof.
  intros Hcr Hsm Hm Hfree Hr.
  rewrite (pull_loop_open _ _ _ _ _ _ _ _ _ _ _ Hsm Hm (createOut_creatable _ _ _ Hcr) Hr).
  set (fs1 := with_files _ _ fs).
  destruct (pull_loop_data (pull_fuel r) ctx remotePath localPath overwrite r fs1 [] chunks mtime rest)
    as (fs' & -> & Happ); [done|done|apply lookup_insert_eq|apply Hcr|done| |done|].
  { unfold pull_fuel. rewrite Hr, length_app. pose proof (length_sync_answer chunks mtime). lia. }
  exists fs'. split; [done|]. destruct Happ as (-> & _). unfold fs1; simpl.
  by rewrite lookup_insert_eq, insert_insert_eq.
Qed.

Lemma writeFull_accepted `{WriterOk W} (I : W → Prop) w p :
  keeps_accepting I → I w →
  ∃ w', writeFull w p = (w', None) ∧ written w' = written w ++ p ∧ I w'.
Proof.
  intros HI Hw. destruct (HI w p Hw) as [Hok HIw].
  destruct (writeFull w p) as [w1 e1] eqn:Ew. simpl in Hok, HIw. subst e1.
  apply writeFull_ok in Ew. eauto.
Qed.

Lemma writeSyncRequest_ok `{WriterOk W} (I : W → Prop) (w : W) id payload :
  keeps_accepting I → I w → small payload →
  ∃ w', writeSyncRequest w id payload = (w', None) ∧ I w' ∧
    written w' = written w ++ writeSyncHeaderTo id (Z.of_nat (length payload)) ++ payload.
Proof.
  intros HI Hw Hs. unfold writeSyncRequest. rewrite uint32_small by done.
  match goal with |- context [writeFull w ?p] =>
    destruct (writeFull_accepted I w p HI Hw) as (w1 & -> & ? & ?) end. eauto.
Qed.

(** C19: pulling from a device that answers with DATA packets and DONE, in
    whatever pieces the bytes arrive, and whatever comes behind them: when the
    destination may be created (it does not exist, or overwriting was asked
    for) and the disk has room, it holds exactly the concatenation of the
    packets afterwards, and the request was one RECV with the remote path. *)
Theorem pull_stores_what_the_device_sent `{WriterOk W} (I : W → Prop) (r : Reader) (w : W) ctx remotePath localPath
    (overwrite : bool) fs chunks mtime rest :
  ctx_entry ctx = None → remotePath ≠ "" → localPath ≠ "" → small (bytes_of remotePath) →
  creatable localPath overwrite fs →
  Forall small chunks → is_uint32 mtime → (length (concat chunks) ≤ fs_free fs)%nat →
  keeps_accepting I → I w →
  rd_bytes r = sync_answer chunks mtime ++ rest →
  ∃ fs' w', PullFileWithOptions ctx (Ok (r, w)) remotePath localPath overwrite fs = Some (fs', Some w', None) ∧
    fs_files fs' = <[localPath := concat chunks]> (fs_files fs) ∧
    written w' = written w ++ writeSyncHeaderTo syncIDRECV (Z.of_nat (String.length remotePath)) ++ bytes_of remotePath.
Proof.
  intros Hctx Hr0 Hl0 Hsmall Hcr Hchunks Hm Hfree HI Hw Hr.
  unfold PullFileWithOptions. rewrite Hctx. apply String.eqb_neq in Hr0 as ->, Hl0 as ->.
  assert (destination_error localPath overwrite fs = None) as ->.
  { unfold destination_error, os_Stat. destruct Hcr as (Hov & Hst & _).
    destruct overwrite; [done|]. destruct Hov as [?|Hn]; [done|]. by rewrite Hst, Hn. }
  destruct (writeSyncRequest_ok I w syncIDRECV (bytes_of remotePath) HI Hw Hsmall) as (w1 & -> & _ & Hw1).
  destruct (pull_loop_answer ctx remotePath localPath overwrite r fs chunks mtime rest) as (fs' & -> & Hfs); [done..|].
  exists fs', w1. by rewrite length_bytes_of in Hw1.
Qed.

(** A slow transport and a small device file. *)
Definition demo_fs : FS := mkFS ∅ 100 (λ _, None) (λ _, None) None.
Definition demo_answer : Reader :=
  mkReader [take 5 (sync_answer [bytes_of "ab"; bytes_of "c"] 7);
            drop 5 (sync_answer [bytes_of "ab"; bytes_of "c"] 7)] io_EOF.

Lemma pull_stores_what_the_device_sent_witness :
  ∃ fs' w', PullFileWithOptions Background (Ok (demo_answer, mkSlowWriter [] [2%nat])) "/sdcard/x" "x" false demo_fs
      = Some (fs', Some w', None) ∧
    fs_files fs' = <["x" := bytes_of "abc"]> ∅.
Proof.
  destruct (pull_stores_what_the_device_sent (λ _, True) demo_answer (mkSlowWriter [] [2%nat]) Background "/sdcard/x" "x"
    false demo_fs [bytes_of "ab"; bytes_of "c"] 7 []) as (fs' & w' & E & Hfs & _);
    [done | done | done | by vm_compute | | | by vm_compute | vm_compute; lia
     | apply slow_keeps_accepting | done | reflexivity |].
  - split; [by right|done].
  - repeat constructor; by vm_compute.
  - exists fs', w'. split; [exact E | exact Hfs].
Defined.

(** ** Push: what the device receives *)

(** The device's side of SEND, as the sync protocol documents it: a DATA
    packet carries at most 64 KiB, the last comma ends the path. *)
Definition SYNC_DATA_MAX : Z := 65536.

Definition recv_header (bs : list byte) : option (string * Z * list byte) :=
  if (length bs <? 8)%nat then None
  else Some (string_of (take 4 bs), Uint32 (drop 4 bs), drop 8 bs).

Fixpoint recv_data (fuel : nat) (bs : list byte) : option (list byte * Z * list byte) :=
  match fuel with
  | O => None
  | S fuel =>
      match recv_header bs with
      | Some (id, size, bs) =>
          if (id =? "DATA")%string then
            if (SYNC_DATA_MAX <? size) || (Z.of_nat (length bs) <? size) then None else
            match recv_data fuel (drop (Z.to_nat size) bs) with
            | Some (content, mtime, rest) => Some (take (Z.to_nat size) bs ++ content, mtime, rest)
            | None => None
            end
          else if (id =? "DONE")%string then Some ([], size, bs) else None
      | None => None
      end
  end.

(** Path, mode, content, modification time, and the bytes that remain. *)
Definition recv_push (bs : list byte) : option (string * string * list byte * Z * list byte) :=
  match recv_header bs with
  | Some (id, size, bs) =>
      if negb (id =? "SEND")%string || (Z.of_nat (length bs) <? size) then None else
      let spec := string_of (take (Z.to_nat size) bs) in
      match LastIndexByte spec ","%char with
      | Some i =>
          match recv_data (length bs) (drop (Z.to_nat size) bs) with
          | Some (content, mtime, rest) => Some (str_take i spec, str_drop (S i) spec, content, mtime, rest)
          | None => None
          end
      | None => None
      end
  | None => None
  end.

Lemma recv_header_header id size rest :
  String.length id = 4%nat → is_uint32 size →
  recv_header (writeSyncHeaderTo id size ++ rest) = Some (id, size, rest).
Proof.
  intros Hid Hs. unfold recv_header. rewrite length_app, length_header by done.
  change (8 + length rest <? 8)%nat with false. cbn iota.
  rewrite take_app_le by by rewrite length_header; lia.
  rewrite drop_app_le by by rewrite length_header; lia.
  rewrite header_id, header_size, string_of_bytes_of, Uint32_PutUint32, uint32_small by done.
  by rewrite drop_app_length' by by rewrite length_header.
Qed.

Lemma recv_data_packets pieces mtime rest fuel :
  Forall (λ p, (length p ≤ syncDataMax)%nat) pieces → is_uint32 mtime →
  (length pieces < fuel)%nat →
  recv_data fuel (concat (data_packet <$> pieces) ++ writeSyncHeaderTo syncIDDONE mtime ++ rest)
    = Some (concat pieces, mtime, rest).
Proof.
  intros Hp Hm. revert fuel. induction Hp as [|p pieces Hp _ IH]; intros [|fuel] Hf;
    cbn [length] in Hf; try lia.
  - cbn [fmap list_fmap concat app recv_data]. by rewrite recv_header_header.
  - rewrite fmap_cons, concat_cons. unfold data_packet at 1. rewrite <-!app_assoc. cbn [recv_data].
    assert (is_uint32 (Z.of_nat (length p))) as Hu by (unfold is_uint32, syncDataMax in *; lia).
    rewrite recv_header_header by done. change ((syncIDDATA =? "DATA")%string) with true. cbn iota.
    assert ((SYNC_DATA_MAX <? Z.of_nat (length p)) = false) as ->
      by (unfold SYNC_DATA_MAX, syncDataMax in *; lia).
    rewrite length_app, (proj2 (Z.ltb_ge _ _)) by lia.
    rewrite Nat2Z.id, drop_app_length, take_app_length. cbn [orb].
    by rewrite IH by lia.
Qed.

(** The loop over the source always ends. *)
Lemma push_loop_total `{io_Writer W} fuel localPath remotePath inp (w : W) :
  (length (rd_bytes inp) + length (rd_chunks inp) < fuel)%nat →
  ∃ out, push_loop fuel localPath remotePath inp w = Some out.
Proof.
  revert inp w. induction fuel as [|fuel IH]; intros inp w Hf; [lia|]. cbn [push_loop].
  destruct (Read inp syncDataMax) as [inp' [bs readErr]] eqn:Er.
  destruct (if (0 <? length bs)%nat then _ else _) as [w1 [e|]]; [eauto|].
  destruct readErr as [e|]; [case_bool_decide; eauto|]. apply IH. revert Er. unfold Read.
  destruct inp as [[|c cs] fin]; unfold rd_bytes in *; cbn [rd_chunks rd_end concat length] in *; [done|].
  rewrite length_app in Hf. destruct (Nat.leb_spec (length c) syncDataMax) as [|Hgt]; intros [= <- <-];
    cbn [rd_chunks concat length]; [lia|]. rewrite length_app, length_drop. unfold syncDataMax in *. lia.
Qed.

Lemma push_session_total `{io_Writer W} ctx src localPath remotePath r (w : W) :
  ∃ w' err, push_session ctx src localPath remotePath r w = Some (w', err).
Proof.
  unfold push_session. destruct (writeSyncRequest _ _ _) as [w1 [e|]]; [eauto|].
  destruct (push_loop_total (push_fuel (src_data src)) localPath remotePath (src_data src) w1)
    as [[w2 [e|]] ->]; [unfold push_fuel; lia|eauto|].
  destruct (writeSyncHeader _ _ _) as [w3 [e|]]; eauto.
Qed.

(** What the loop over the source sends. *)
Lemma push_loop_sends `{WriterOk W} (I : W → Prop) fuel localPath remotePath inp (w : W) :
  keeps_accepting I → I w → rd_end inp = Sentinel io_EOF →
  (length (rd_bytes inp) + length (rd_chunks inp) < fuel)%nat →
  ∃ w' pieces, push_loop fuel localPath remotePath inp w = Some (w', None) ∧ I w' ∧
    written w' = written w ++ concat (data_packet <$> pieces) ∧
    concat pieces = rd_bytes inp ∧ Forall (λ p, (0 < length p ≤ syncDataMax)%nat) pieces.
Proof.
  intros HI. revert inp w. induction fuel as [|fuel IH]; intros inp w Hw He Hf; [lia|].
  cbn [push_loop]. unfold Read. destruct inp as [[|c cs] fin]; unfold rd_bytes in *; simpl in *; subst fin.
  { exists w, []. split_and!; [done | done | simpl; by rewrite app_nil_r | done | constructor]. }
  rewrite length_app in Hf.
  assert (∀ bs inp', (length bs ≤ syncDataMax)%nat → rd_end inp' = Sentinel io_EOF →
    c ++ concat cs = bs ++ concat (rd_chunks inp') →
    (length (concat (rd_chunks inp')) + length (rd_chunks inp') < fuel)%nat →
    ∃ w' pieces, (let '(w0, werr) :=
        if (0 <? length bs)%nat then writeSyncRequest w syncIDDATA bs else (w, None) in
      match werr with
      | Some err => Some (w0, Some (ErrorfW "adb push %q to %q: send DATA: %w" [AStr localPath; AStr remotePath] err))
      | None => push_loop fuel localPath remotePath inp' w0
      end) = Some (w', None) ∧ I w' ∧
    written w' = written w ++ concat (data_packet <$> pieces) ∧
    concat pieces = c ++ concat cs ∧ Forall (λ p, (0 < length p ≤ syncDataMax)%nat) pieces) as Hround.
  { intros bs inp' Hbs He' Hb Hl. destruct (Nat.ltb_spec 0 (length bs)) as [Hpos|Hz].
    - destruct (writeSyncRequest_ok I w syncIDDATA bs HI Hw) as (w1 & -> & HI1 & Hw1).
      { unfold small, is_uint32, syncDataMax in *. lia. }
      destruct (IH inp' w1 HI1 He' Hl) as (w' & pieces & -> & HI' & Hw' & Hc & Hp).
      exists w', (bs :: pieces). split_and!; [done|done| | |by constructor].
      + rewrite fmap_cons, concat_cons, Hw', Hw1. unfold data_packet at 2. by rewrite <-!app_assoc.
      + by rewrite concat_cons, Hc, Hb.
    - destruct bs; [|simpl in Hz; lia]. destruct (IH inp' w Hw He' Hl) as (w' & pieces & -> & HI' & Hw' & Hc & Hp).
      exists w', pieces. by rewrite Hc, Hb. }
  destruct (Nat.leb_spec (length c) syncDataMax).
  - apply Hround; simpl; [done|done|done|lia].
  - apply Hround; simpl; [rewrite length_take; lia | done | by rewrite app_assoc, take_drop |].
    rewrite length_app, length_drop. unfold syncDataMax in *. lia.
Qed.

Lemma str_split_append (s : string) a t :
  str_take (String.length s) (s +++ String a t) = s ∧ str_drop (S (String.length s)) (s +++ String a t) = t.
Proof. split; [apply str_take_append | apply str_drop_S_append]. Qed.

(** The device reads back what a push transcript says. *)
Lemma recv_push_transcript remotePath pieces mtime rest :
  small (bytes_of (remotePath +++ "," +++ defaultRemoteMode)) → is_uint32 mtime →
  Forall (λ p, (0 < length p ≤ syncDataMax)%nat) pieces →
  recv_push (writeSyncHeaderTo syncIDSEND (Z.of_nat (length (bytes_of (remotePath +++ "," +++ defaultRemoteMode))))
    ++ bytes_of (remotePath +++ "," +++ defaultRemoteMode)
    ++ concat (data_packet <$> pieces) ++ writeSyncHeaderTo syncIDDONE mtime ++ rest)
  = Some (remotePath, defaultRemoteMode, concat pieces, mtime, rest).
Proof.
  intros Hs Hm Hp. set (spec := bytes_of (remotePath +++ "," +++ defaultRemoteMode)) in *.
  unfold recv_push. rewrite recv_header_header by done.
  change (negb (syncIDSEND =? "SEND")%string) with false. cbn [orb].
  rewrite length_app, (proj2 (Z.ltb_ge _ _)) by lia.
  rewrite Nat2Z.id, take_app_length, drop_app_length.
  cbv zeta. subst spec. rewrite !string_of_bytes_of.
  change ("," +++ defaultRemoteMode) with (String ","%char defaultRemoteMode).
  rewrite LastIndexByte_last by done.
  destruct (str_split_append remotePath ","%char defaultRemoteMode) as [-> ->].
  rewrite recv_data_packets; [done | | done |].
  - eapply Forall_impl; [exact Hp|]. simpl. lia.
  - rewrite !length_app, length_header by done.
    assert (length pieces ≤ length (concat (data_packet <$> pieces)))%nat; [|lia].
    clear. induction pieces as [|c chunks IH]; [simpl; lia|].
    rewrite fmap_cons, concat_cons, length_app. cbn [length].
    unfold data_packet at 1. rewrite length_app, length_header by done. lia.
Qed.

(** A session over a transport that accepts what is written. *)
Lemma push_session_sends `{WriterOk W} (I : W → Prop) ctx (r : Reader) (w : W) src localPath remotePath :
  rd_end (src_data src) = Sentinel io_EOF →
  small (bytes_of (remotePath +++ "," +++ defaultRemoteMode)) →
  keeps_accepting I → I w →
  ∃ w' sent, push_session ctx src localPath remotePath r w
      = Some (w', push_response ctx localPath remotePath r) ∧ I w' ∧
    written w' = written w ++ sent ∧
    recv_push sent = Some (remotePath, "420", rd_bytes (src_data src), uint32 (Z.max 0 (src_ModTime src)), []).
Proof.
  intros He Hs HI Hw. unfold push_session.
  destruct (writeSyncRequest_ok I w syncIDSEND _ HI Hw Hs) as (w1 & -> & HI1 & Hw1).
  destruct (push_loop_sends I (push_fuel (src_data src)) localPath remotePath (src_data src) w1 HI HI1 He)
    as (w2 & pieces & -> & HI2 & Hw2 & Hc & Hp); [unfold push_fuel; lia|].
  unfold writeSyncHeader. match goal with |- context [writeFull w2 ?p] =>
    destruct (writeFull_accepted I w2 p HI HI2) as (w3 & -> & E3 & HI3) end.
  eexists w3, _. split; [done|]. split; [done|].
  rewrite E3, Hw2, Hw1, <-!app_assoc. split; [done|].
  pose proof (recv_push_transcript remotePath pieces (uint32 (Z.max 0 (src_ModTime src))) [] Hs
    (uint32_range _) Hp) as Hrecv.
  rewrite app_nil_r in Hrecv. by rewrite Hrecv, Hc.
Qed.

(** C18: a push over a transport that accepts the bytes (in any pieces) ends
    with the device's verdict, and what the device receives decodes to the
    remote path (commas in it included), mode 0644, exactly the contents of
    the local file however its reads are cut up, and its modification time
    (0 when that is negative, and modulo 2^32), with nothing behind it. *)
Theorem push_sends_the_file `{WriterOk W} (I : W → Prop) ctx (r : Reader) (w : W) src localPath remotePath :
  ctx_entry ctx = None → localPath ≠ "" → remotePath ≠ "" →
  src_open_err src = None → src_stat_err src = None → src_IsDir src = false →
  rd_end (src_data src) = Sentinel io_EOF →
  small (bytes_of (remotePath +++ "," +++ defaultRemoteMode)) →
  keeps_accepting I → I w →
  ∃ w' sent, PushFile ctx (Ok (r, w)) src localPath remotePath
      = Some (Some w', push_response ctx localPath remotePath r) ∧
    written w' = written w ++ sent ∧
    recv_push sent = Some (remotePath, "420", rd_bytes (src_data src), uint32 (Z.max 0 (src_ModTime src)), []).
Proof.
  intros Hctx Hl Hr Ho Hst Hd He Hs HI Hw. unfold PushFile, push_checks. rewrite Hctx.
  apply String.eqb_neq in Hl as ->, Hr as ->. rewrite Ho, Hst, Hd.
  destruct (push_session_sends I ctx r w src localPath remotePath He Hs HI Hw)
    as (w' & sent & -> & _ & Hsent & Hrecv). eauto.
Qed.

Lemma push_sends_the_file_witness :
  ∃ w' sent, PushFile Background (Ok (of_bytes (writeSyncHeaderTo syncIDOKAY 0), mkSlowWriter [] [3%nat]))
      (mkSource None None false 42 (of_bytes (bytes_of "hello"))) "a.txt" "/sdcard/a,b.txt" = Some (Some w', None) ∧
    recv_push sent = Some ("/sdcard/a,b.txt", "420", bytes_of "hello", 42, []).
Proof.
  destruct (push_sends_the_file (λ _, True) Background (of_bytes (writeSyncHeaderTo syncIDOKAY 0)) (mkSlowWriter [] [3%nat])
    (mkSource None None false 42 (of_bytes (bytes_of "hello"))) "a.txt" "/sdcard/a,b.txt") as (w' & sent & E & _ & D);
    [done | done | done | done | done | done | done | by vm_compute | apply slow_keeps_accepting | done |].
  exists w', sent. split; [rewrite E; by vm_compute | exact D].
Defined.

(** A full DATA packet does not fit the payload size the handshake
    advertised: with its header it is 4104 bytes, more than [MaxPayload]. *)
Theorem full_data_packet_exceeds_MaxPayload (bs : list byte) :
  length bs = syncDataMax →
  Z.of_nat (length (writeSyncHeaderTo syncIDDATA (Z.of_nat (length bs)) ++ bs)) = MaxPayload + 8.
Proof. intros Hl. rewrite length_app, length_header, Hl by done. reflexivity. Qed.

Lemma full_data_packet_exceeds_MaxPayload_witness :
  Z.of_nat (length (writeSyncHeaderTo syncIDDATA 4096 ++ repeat Byte.x00 4096)) = MaxPayload + 8.
Proof. apply (full_data_packet_exceeds_MaxPayload (repeat Byte.x00 4096)). reflexivity. Defined.
