(* ===== verification/Link.v ===== *)
(** * Streams as readers and writers

    The clients of Sync and Services read and write through [io.Reader] and
    [io.Writer]; at run time these are the [Read] and [Write] of a [*Stream]
    whose data a second goroutine, [readLoop], takes from the transport.  This
    file joins the two models: a live stream (its state in the connection and
    the packets still to come from the peer) refines a reader of GoIO whatever
    the reader goroutine does in between, its [Write] keeps the writer's
    contract, and so a pull of Sync works over a real connection.

    A packet is handled in one step here; when [dataCh] is full the goroutine
    waits in front of the whole step ([Schedule] has the finer steps). *)

From S2P Require Import Prelude Errors GoStrings Strconv GoIO Message Handshake Stream Sync.

#[local] Open Scope string_scope.
#[local] Open Scope Z_scope.
#[local] Open Scope list_scope.

(** ** A stream that is being fed by the connection's reader *)

Section live.
Variable fail : error.     (* how the transport ends behind the packets *)
Variable id : Z.           (* the stream's local ID *)
Variable p : nat.          (* the stream *)

(** Up to [k] turns of [readLoop]; it stops early when it has to wait. *)
Fixpoint read_ahead (k : nat) (ms : list Message) (c : Connection) : Connection * list Message :=
  match k, ms with
  | S k, m :: ms' =>
      match handleStreamMessage m c with
      | Done c' => read_ahead k ms' c'
      | _ => (c, ms)
      end
  | _, _ => (c, ms)
  end.

(** [stream.Read] with room for [n] bytes: while there is nothing to read, the
    caller waits on [dataCh] and the reader goroutine goes on.  [None]: the
    caller waits for ever, or panics. *)
Fixpoint live_read (n : nat) (ms : list Message) (c : Connection)
    : (Connection * list Message) * option (res (list byte)) :=
  match Stream.Read p n c with
  | (c, Done r) => ((c, ms), Some r)
  | (c, Panics) => ((c, ms), None)
  | (c, Blocks) =>
      match ms with
      | m :: ms' =>
          match handleStreamMessage m c with
          | Done c => live_read n ms' c
          | _ => ((c, ms), None)
          end
      | [] =>
          match Stream.Read p n (readLoop_fail fail c) with
          | (c, Done r) => ((c, []), Some r)
          | (c, _) => ((c, []), None)
          end
      end
  end.

(** ** The abstract reader *)

Definition hangs_up (m : Message) : bool :=
  (msg_Command m =? CommandCLSE) && (msg_Arg1 m =? id).
Definition carries (m : Message) : bool :=
  (msg_Command m =? CommandWRTE) && (msg_Arg1 m =? id).

(** The chunks that packets bring to the stream, up to the peer's CLSE. *)
Fixpoint arrivals (ms : list Message) : list (list byte) :=
  match ms with
  | [] => []
  | m :: ms =>
      if hangs_up m then []
      else if carries m then msg_Payload m :: arrivals ms
      else arrivals ms
  end.

Definition nonempty (bs : list byte) : bool := bool_decide (bs ≠ []).

(** What the stream's reader will see, from what the stream holds and what is
    still to come. *)
Definition reader_of (s : Stream) (ms : list Message) : Reader :=
  mkReader
    (List.filter nonempty (s_buf s :: s_dataCh s ++ if s_closed s then [] else arrivals ms))
    (if s_closed s then default (Sentinel io_EOF) (s_err s)
     else if existsb hangs_up ms then Sentinel io_EOF
     else Sentinel protocol_ErrDeviceClosed).

(** The packets to come open no streams, and carry no data for other streams:
    those could keep [readLoop] waiting on another stream's channel. *)
Definition for_stream (m : Message) : Prop :=
  msg_Command m ≠ CommandOPEN ∧ (msg_Command m = CommandWRTE → msg_Arg1 m = id).

(** The stream [p] is open and established, or was closed. *)
Record live (c : Connection) (ms : list Message) (s : Stream) : Prop := {
  live_wf : wf_conn c;
  live_at : deref c p = Some s;
  live_id : s_localID s = id;
  live_open : s_closed s = false → c_streams c !! id = Some p ∧ s_remoteID s ≠ 0;
  live_in : Forall for_stream ms;
}.

(** What the connection wrote to this stream's peer. *)
Definition is_data (m : Message) : bool :=
  (msg_Command m =? CommandWRTE) && (msg_Arg0 m =? id).
Definition sent (c : Connection) : list byte :=
  concat (msg_Payload <$> List.filter is_data (c_out c)).

(** ** One packet *)

(** Packets that are not this stream's data, the answers to packets among them. *)
Lemma sent_writeMessage m c : is_data m = false → sent (fst (writeMessage m c)) = sent c.
Proof.
  intros Hm. assert (∀ w, sent (with_wire (c_out c ++ [m]) w c) = sent c) as Hw.
  { intros w. unfold sent; cbn [c_out with_wire]. rewrite List.filter_app; simpl. by rewrite Hm, app_nil_r. }
  unfold writeMessage. destruct (c_werr c) as [|[e|] werr]; cbn [fst]; [apply Hw|done|apply Hw].
Qed.

Lemma closeStream_sent i e c : sent (closeStream i e c) = sent c.
Proof. unfold sent. by rewrite closeStream_out. Qed.

(** A packet that opens nothing changes at most the stream it names and that
    stream's registration. *)
Lemma handle_frame m c c' :
  msg_Command m ≠ CommandOPEN → wf_conn c → handleStreamMessage m c = Done c' →
  sent c' = sent c ∧
  (c_streams c !! msg_Arg1 m ≠ Some p → deref c' p = deref c p) ∧
  (hangs_up m = false → c_streams c' !! id = c_streams c !! id).
Proof.
  intros Ho Hwf. apply Z.eqb_neq in Ho. unfold handleStreamMessage, streamByLocalID, hangs_up. rewrite Ho.
  destruct (Z.eqb_spec (msg_Command m) CommandOKAY) as [EK|_].
  { destruct (c_streams c !! msg_Arg1 m) as [q|]; intros [= <-]; [|done].
    split_and!; [done | | done]. intros Hne. apply deref_upd_ne. congruence. }
  destruct (Z.eqb_spec (msg_Command m) CommandWRTE) as [EW|_].
  { destruct (c_streams c !! msg_Arg1 m) as [q|]; [|intros [= <-]; done].
    match goal with |- context [writeMessage ?k ?c1] => pose proof (writeMessage_frame k c1) as [F1 F2];
      pose proof (sent_writeMessage k c1 ltac:(done)) as F3; destruct (writeMessage k c1) as [c2 o] end.
    cbn [fst] in *. destruct (deref c2 q) as [s|]; [|done]. destruct (receive _ s); [|done..].
    intros [= <-]. split_and!; [exact F3 | | intros _; cbn [upd with_heap c_streams]; by rewrite F1].
    intros Hne. rewrite deref_upd_ne by congruence. unfold deref. rewrite F2. apply (deref_upd_ne c p q).
    congruence. }
  destruct (Z.eqb_spec (msg_Command m) CommandCLSE) as [EC|_]; [|intros [= <-]; done].
  destruct (c_streams c !! msg_Arg1 m) as [q|] eqn:Hq; [|intros [= <-]; done].
  destruct (wfc_map _ Hwf _ _ Hq) as (s & -> & Hid & _). intros [= <-].
  split_and!; [apply closeStream_sent | |].
  - intros Hne. apply deref_closeStream_ne. unfold streamByLocalID. by rewrite Hid, Hq.
  - intros Hid2. apply streams_closeStream. rewrite Hid. apply Z.eqb_neq. by rewrite Z.eqb_sym.
Qed.

Lemma establish_established r s :
  s_remoteID s ≠ 0 → establish r s = openOnce_send None s.
Proof. intros Hr%Z.eqb_neq. unfold establish. by rewrite Hr. Qed.

Lemma openOnce_send_reader v s ms : reader_of (openOnce_send v s) ms = reader_of s ms.
Proof. unfold openOnce_send. by destruct (s_openOnce s). Qed.

Lemma receive_reader bs s s' m ms :
  carries m = true → msg_Payload m = bs → s_closed s = false → receive bs s = Done s' →
  reader_of s' ms = reader_of s (m :: ms).
Proof.
  intros Hm <- Hc. unfold receive. destruct (s_dataClosed s); [done|].
  destruct (dataCh_cap <=? length (s_dataCh s))%nat; [done|]. intros [= <-].
  assert (hangs_up m = false) as Hh.
  { unfold carries in Hm. apply andb_prop in Hm as [Hm _]. apply Z.eqb_eq in Hm.
    unfold hangs_up. by rewrite Hm. }
  unfold reader_of; cbn [with_data s_buf s_dataCh s_closed s_err arrivals existsb].
  by rewrite Hc, Hh, Hm, <-app_assoc.
Qed.

Lemma reader_skip m ms s :
  hangs_up m = false → carries m = false → reader_of s (m :: ms) = reader_of s ms.
Proof. intros Hh Hc. unfold reader_of; cbn [arrivals existsb]. by rewrite Hh, Hc. Qed.

(** After a packet for an open stream: it is registered and established as
    before, in a connection that is well-formed. *)
Lemma live_again c ms m s c' s' :
  live c (m :: ms) s → s_closed s = false → wf_conn c' → c_streams c' = c_streams c →
  deref c' p = Some s' → s_localID s' = id → s_remoteID s' = s_remoteID s → live c' ms s'.
Proof.
  intros [_ _ _ Hop [_ Hin]%Forall_cons] Hc Hwf' Hst Hd Hid Hr. destruct (Hop Hc).
  split; [done..| |done]. intros _. by rewrite Hst, Hr.
Qed.

(** The outcome of a packet for the stream: it is taken, and the reader sees
    the same bytes ahead, or it waits for room. *)
Definition taken (c : Connection) (m : Message) (ms : list Message) (s : Stream) : Prop :=
  match handleStreamMessage m c with
  | Done c' => ∃ s', live c' ms s' ∧ reader_of s' ms = reader_of s (m :: ms)
  | Blocks => s_closed s = true ∨ (dataCh_cap ≤ length (s_dataCh s))%nat
  | Panics => False
  end.

Lemma live_elsewhere m ms c s :
  live c (m :: ms) s → c_streams c !! msg_Arg1 m ≠ Some p →
  (s_closed s = false → msg_Arg1 m ≠ id) → taken c m ms s.
Proof.
  intros [Hwf Hat Hid Hop [[Ho Hdata] Hin]%Forall_cons] Hne Hm. unfold taken.
  pose proof (handleStreamMessage_wf m c Hwf) as Hwf'.
  assert (s_closed s = false → hangs_up m = false ∧ carries m = false) as Hq.
  { intros Hc. apply Hm, Z.eqb_neq in Hc. unfold hangs_up, carries. by rewrite Hc, !andb_false_r. }
  destruct (handleStreamMessage m c) as [c'| |] eqn:E; [| |done].
  - destruct (handle_frame m c c' Ho Hwf E) as (_ & F1 & F2).
    exists s. split.
    + split; [done | by rewrite F1 | done | | done]. intros Hc. rewrite F2 by by apply Hq. by apply Hop.
    + destruct (s_closed s) eqn:Hc; [unfold reader_of; by rewrite Hc|].
      destruct Hq; [done|]. by rewrite reader_skip.
  - destruct (s_closed s) eqn:Hc; [by left|]. exfalso. revert E.
    unfold handleStreamMessage, streamByLocalID.
    destruct (Z.eqb_spec (msg_Command m) CommandWRTE) as [EW|_].
    { by destruct (Hm eq_refl), (Hdata EW). }
    repeat case_match; congruence.
Qed.

Lemma live_okay m ms c s :
  live c (m :: ms) s → s_closed s = false → msg_Arg1 m = id → msg_Command m = CommandOKAY →
  taken c m ms s.
Proof.
  intros Hl Hc Hm EK. destruct (live_open _ _ _ Hl Hc) as [Hreg Hrem]. unfold taken.
  pose proof (handleStreamMessage_wf m c (live_wf _ _ _ Hl)) as Hwf'. revert Hwf'.
  unfold handleStreamMessage, streamByLocalID. rewrite EK, Hm, Hreg. cbn. intros Hwf'.
  exists (openOnce_send None s). split.
  - eapply live_again; [exact Hl | done | done | done | | |].
    + rewrite deref_upd, decide_True, (live_at _ _ _ Hl) by done. cbn. by rewrite establish_established.
    + rewrite <-(live_id _ _ _ Hl). unfold openOnce_send. by destruct (s_openOnce s).
    + unfold openOnce_send. by destruct (s_openOnce s).
  - rewrite openOnce_send_reader, reader_skip; [done| |]; unfold hangs_up, carries; by rewrite EK.
Qed.

Lemma live_data m ms c s :
  live c (m :: ms) s → s_closed s = false → msg_Arg1 m = id → msg_Command m = CommandWRTE →
  taken c m ms s.
Proof.
  intros Hl Hc Hm EW. destruct (live_open _ _ _ Hl Hc) as [Hreg Hrem]. unfold taken.
  pose proof (handleStreamMessage_wf m c (live_wf _ _ _ Hl)) as Hwf'. revert Hwf'.
  unfold handleStreamMessage, streamByLocalID. rewrite EW, Hm, Hreg. simpl (_ =? _). cbn iota.
  match goal with |- context [writeMessage ?k ?c1] => pose proof (writeMessage_frame k c1) as [F1 F2];
    destruct (writeMessage k c1) as [c2 o] end. cbn [fst] in *.
  set (s1 := openOnce_send None s).
  assert (deref c2 p = Some s1) as Hd.
  { unfold deref. rewrite F2. change (deref (upd p (establish (msg_Arg0 m)) c) p = Some s1).
    rewrite deref_upd, decide_True, (live_at _ _ _ Hl) by done. cbn. by rewrite establish_established. }
  assert (s_closed s1 = s_closed s ∧ s_dataCh s1 = s_dataCh s ∧ s_localID s1 = s_localID s ∧
    s_remoteID s1 = s_remoteID s ∧ s_dataClosed s1 = s_dataClosed s) as (E1 & E2 & E3 & E4 & E5)
    by (unfold s1, openOnce_send; by destruct (s_openOnce s)).
  rewrite Hd. destruct (receive (msg_Payload m) s1) as [s2| |] eqn:Hr; [| |done].
  - assert (carries m = true) as Hca by (unfold carries; by rewrite EW, Hm, !Z.eqb_refl).
    intros Hwf'. exists s2. rewrite Hc in E1.
    split; [|rewrite (receive_reader _ _ _ m ms Hca eq_refl E1 Hr); apply openOnce_send_reader].
    assert (s_localID s2 = s_localID s1 ∧ s_remoteID s2 = s_remoteID s1) as [E6 E7].
    { unfold receive in Hr. destruct (s_dataClosed s1); [done|].
      destruct (dataCh_cap <=? length (s_dataCh s1))%nat; [done|]. by injection Hr as <-. }
    eapply live_again; [exact Hl | done | done | exact F1 | | rewrite E6, E3; apply Hl | congruence].
    by rewrite deref_upd, decide_True, Hd by done.
  - intros _. right. unfold receive in Hr. rewrite E2 in Hr. destruct (s_dataClosed s1); [done|].
    destruct (Nat.leb_spec dataCh_cap (length (s_dataCh s))); [done|by simplify_eq].
Qed.

Lemma live_close m ms c s :
  live c (m :: ms) s → s_closed s = false → msg_Arg1 m = id → msg_Command m = CommandCLSE →
  taken c m ms s.
Proof.
  intros Hl Hc Hm EC. destruct (live_open _ _ _ Hl Hc) as [Hreg Hrem]. unfold taken.
  pose proof (handleStreamMessage_wf m c (live_wf _ _ _ Hl)) as Hwf'. revert Hwf'.
  unfold handleStreamMessage, streamByLocalID. rewrite EC, Hm, Hreg. simpl (_ =? _). cbn iota. rewrite (live_at _ _ _ Hl).
  apply Z.eqb_neq in Hrem. rewrite Hrem, (live_id _ _ _ Hl). cbn [negb].
  unfold closeStream, streamByLocalID. rewrite Hreg. intros Hwf'.
  destruct (closeWithError_open None s Hc) as (G1 & G2 & _ & G4 & _).
  exists (closeWithError None s). split.
  - destruct Hl as [_ Hat Hid _ [_ Hin]%Forall_cons].
    split; [done | | congruence | congruence | done].
    rewrite deref_upd, decide_True by done. change (deref (removeStream id c) p) with (deref c p). by rewrite Hat.
  - unfold reader_of. rewrite G1, G2, Hc. cbn [arrivals existsb default].
    assert (hangs_up m = true) as -> by (unfold hangs_up; by rewrite EC, Hm, !Z.eqb_refl).
    unfold closeWithError. rewrite Hc. unfold openOnce_send; cbn. by destruct (s_openOnce s).
Qed.

(** One packet, whatever it is. *)
Lemma live_packet m ms c s : live c (m :: ms) s → taken c m ms s.
Proof.
  intros Hl. destruct (decide (c_streams c !! msg_Arg1 m = Some p)) as [Hp|Hp].
  2:{ apply live_elsewhere; [done..|]. intros Hc Hm. destruct (live_open _ _ _ Hl Hc). congruence. }
  destruct (wfc_map _ (live_wf _ _ _ Hl) _ _ Hp) as (s0 & Hs0 & Hid & Hc).
  rewrite (live_at _ _ _ Hl) in Hs0. injection Hs0 as <-.
  assert (msg_Arg1 m = id) as Hm by (rewrite <-Hid; apply Hl).
  destruct (decide (msg_Command m = CommandOKAY)) as [|NK]; [by apply live_okay|].
  destruct (decide (msg_Command m = CommandWRTE)) as [|NW]; [by apply live_data|].
  destruct (decide (msg_Command m = CommandCLSE)) as [|NC]; [by apply live_close|].
  pose proof (proj1 (proj1 (Forall_cons_1 _ _ _ (live_in _ _ _ Hl)))) as Ho.
  unfold taken, handleStreamMessage.
  apply Z.eqb_neq in Ho as ->, NK as ->, NW as NW', NC as NC'. rewrite NW', NC'.
  exists s. split; [|apply eq_sym, reader_skip; unfold hangs_up, carries; by rewrite ?NW', ?NC'].
  eapply live_again; [exact Hl | done | apply Hl | done | apply Hl..|done].
Qed.

Lemma live_sent m ms c s c' :
  live c (m :: ms) s → handleStreamMessage m c = Done c' → sent c' = sent c.
Proof.
  intros [Hwf _ _ _ [[Ho _] _]%Forall_cons] E. by destruct (handle_frame m c c' Ho Hwf E).
Qed.

(** The reader goroutine may run ahead: the bytes the stream's reader will see
    stay the same. *)
Lemma live_read_ahead k ms c s :
  live c ms s →
  let '(c', ms') := read_ahead k ms c in
  sent c' = sent c ∧ ∃ s', live c' ms' s' ∧ reader_of s' ms' = reader_of s ms.
Proof.
  assert (∀ c ms s, live c ms s → sent c = sent c ∧ ∃ s', live c ms s' ∧ reader_of s' ms = reader_of s ms)
    as Hstop by (split; [done | eauto]).
  revert ms c s. induction k as [|k IH]; intros ms c s Hl; [destruct ms; by apply Hstop|].
  destruct ms as [|m ms]; [by apply Hstop|]. cbn [read_ahead].
  pose proof (live_packet m ms c s Hl) as Ht. unfold taken in Ht.
  destruct (handleStreamMessage m c) as [c1| |] eqn:E; [|by apply Hstop|done].
  destruct Ht as (s1 & Hl1 & Hr1). specialize (IH ms c1 s1 Hl1).
  destruct (read_ahead k ms c1) as [c2 ms2]. destruct IH as (Hs & s2 & Hl2 & Hr2).
  pose proof (live_sent _ _ _ _ _ Hl E). split; [congruence|]. exists s2. split; [done|congruence].
Qed.

(** ** One read *)

Definition answer (r : res (list byte)) : list byte * option error :=
  match r with Ok bs => (bs, None) | Err e => ([], Some e) end.

(** [Stream.Read] returns the front of the first chunk that holds something. *)
Lemma Read_loop_front closed err chunks buf n :
  let '((chunks', buf'), r) := Read_loop closed err chunks buf n in
  match List.filter nonempty (buf :: chunks) with
  | [] => chunks' = [] ∧ buf' = [] ∧
      r = if closed then Done (Err (default (Sentinel io_EOF) err)) else Blocks
  | ch :: rest => r = Done (Ok (take n ch)) ∧ buf' = drop n ch ∧ List.filter nonempty chunks' = rest
  end.
Proof. revert buf. induction chunks as [|ch chunks IH]; intros [|b buf]; try done. exact (IH ch). Qed.

Lemma Read_front n chs fin :
  (0 < n)%nat →
  GoIO.Read (mkReader chs fin) n =
  match chs with
  | [] => (mkReader [] fin, ([], Some fin))
  | ch :: rest => (mkReader (List.filter nonempty [drop n ch] ++ rest) fin, (take n ch, None))
  end.
Proof.
  intros Hn. destruct chs as [|ch rest]; [done|]. unfold GoIO.Read; simpl. unfold nonempty.
  destruct (Nat.leb_spec (length ch) n).
  - rewrite drop_ge, take_ge by done. done.
  - rewrite bool_decide_eq_true_2; [done|]. intros Hd%(f_equal length). rewrite length_drop in Hd.
    simpl in Hd. lia.
Qed.

Lemma filter_front (buf : list byte) chunks :
  List.filter nonempty [buf] ++ List.filter nonempty chunks = List.filter nonempty (buf :: chunks).
Proof. by rewrite <-List.filter_app. Qed.

(** A read of a stream that answers. *)
Lemma Stream_Read_answers n s ms s' r :
  (0 < n)%nat → Stream_Read n s = (s', Done r) →
  answer r = (GoIO.Read (reader_of s ms) n).2 ∧ reader_of s' ms = (GoIO.Read (reader_of s ms) n).1 ∧
  s' = with_data (s_dataCh s') (s_buf s') s.
Proof.
  intros Hn. unfold Stream_Read.
  pose proof (Read_loop_front (s_closed s) (s_err s) (s_dataCh s) (s_buf s) n) as Hf.
  destruct (Read_loop _ _ _ _ _) as [[chunks' buf'] r']. intros [= <- ->].
  unfold reader_of; cbn [with_data s_buf s_dataCh s_closed s_err].
  rewrite (app_comm_cons (s_dataCh s)), (app_comm_cons chunks'), !List.filter_app, Read_front by done.
  destruct (List.filter nonempty (s_buf s :: s_dataCh s)) as [|ch rest].
  - destruct Hf as (-> & -> & Hr). destruct (s_closed s); [|done]. by injection Hr as ->.
  - destruct Hf as (Hr & -> & <-). injection Hr as ->.
    split_and!; [done| |done]. by rewrite <-filter_front, <-app_assoc.
Qed.

(** A read that has to wait. *)
Lemma Stream_Read_waits n s ms s' :
  Stream_Read n s = (s', Blocks) →
  s' = with_data [] [] s ∧ s_closed s = false ∧ reader_of s' ms = reader_of s ms.
Proof.
  unfold Stream_Read.
  pose proof (Read_loop_front (s_closed s) (s_err s) (s_dataCh s) (s_buf s) n) as Hf.
  destruct (Read_loop _ _ _ _ _) as [[chunks' buf'] r']. intros [= <- ->].
  unfold reader_of; cbn [with_data s_buf s_dataCh s_closed s_err].
  rewrite (app_comm_cons (s_dataCh s)), (app_comm_cons chunks'), !List.filter_app.
  destruct (List.filter nonempty (s_buf s :: s_dataCh s)) as [|ch rest]; [|by destruct Hf].
  destruct Hf as (-> & -> & Hr). by destruct (s_closed s).
Qed.

(** The stream's state after a read. *)
Lemma live_with_data c ms s chunks buf n s' r :
  live c ms s → Stream_Read n s = (s', r) → s' = with_data chunks buf s →
  live (upd p (λ _, s') c) ms s'.
Proof.
  intros [Hwf Hat Hid Hop Hin] E ->. split; [|by rewrite deref_upd, decide_True, Hat by done|done| |done].
  - pose proof (wf_Read p n c Hwf) as Hw. unfold Stream.Read in Hw. by rewrite Hat, E in Hw.
  - exact Hop.
Qed.

(** The transport's end closes the stream behind what it holds. *)
Lemma live_fail c s :
  live c [] s → s_closed s = false →
  ∃ s', live (readLoop_fail fail c) [] s' ∧ s_closed s' = true ∧
    reader_of s' [] = reader_of s [] ∧ sent (readLoop_fail fail c) = sent c.
Proof.
  intros [Hwf Hat Hid Hop Hin] Hc. unfold readLoop_fail. set (c0 := with_reader _ _ c).
  assert (wf_conn c0) as Hwf0 by by apply wf_conn_ext with c.
  set (e := Some (Sentinel protocol_ErrDeviceClosed)).
  destruct (closeWithError_open e s Hc) as (G1 & G2 & _ & G4 & _).
  exists (closeWithError e s). split_and!; [|done| |].
  - split; [by apply wf_closeAllStreams | | congruence | congruence | done].
    rewrite (deref_closeAllStreams e c0 id p Hwf0) by by apply Hop.
    change (deref c0 p) with (deref c p). by rewrite Hat.
  - unfold reader_of. rewrite G1, G2, Hc. cbn.
    unfold closeWithError. rewrite Hc. unfold openOnce_send; cbn. by destruct (s_openOnce s).
  - unfold sent, closeAllStreams.
    by destruct (closeAll_frame (closeWithError e) (map_to_list (c_streams c0)).*2 (with_streams ∅ c0)) as (_ & -> & _).
Qed.

Lemma live_read_done n ms c s s' r :
  (0 < n)%nat → live c ms s → Stream_Read n s = (s', Done r) →
  Stream.Read p n c = (upd p (λ _, s') c, Done r) ∧
  GoIO.Read (reader_of s ms) n = (reader_of s' ms, answer r) ∧
  live (upd p (λ _, s') c) ms s'.
Proof.
  intros Hn Hl E. destruct (Stream_Read_answers _ _ ms _ _ Hn E) as (-> & -> & Hs').
  split_and!; [|by destruct (GoIO.Read _ _)|by eapply live_with_data].
  unfold Stream.Read. by rewrite (live_at _ _ _ Hl), E.
Qed.

(** A read of a live stream is a read of its reader: it always answers, with
    the same bytes or the same error, and what is left is the reader's rest. *)
Lemma live_read_refines n ms c s :
  live c ms s → (0 < n)%nat →
  ∃ c' ms' s' r, live_read n ms c = ((c', ms'), Some r) ∧
    GoIO.Read (reader_of s ms) n = (reader_of s' ms', answer r) ∧
    live c' ms' s' ∧ sent c' = sent c.
Proof.
  intros Hl Hn. revert c s Hl. induction ms as [|m ms IH]; intros c s Hl; cbn [live_read];
    (destruct (Stream_Read n s) as [s1 [r| |]] eqn:E;
     [destruct (live_read_done _ _ _ _ _ _ Hn Hl E) as (-> & Hr & Hl1); by eexists _, _, s1, r| |
      by apply Stream_Read_spec in E as (_ & _ & ?)]);
    (assert (Stream.Read p n c = (upd p (λ _, s1) c, Blocks)) as ->
       by (unfold Stream.Read; by rewrite (live_at _ _ _ Hl), E)).
  - destruct (Stream_Read_waits _ _ [] _ E) as (Hs1 & Hc & Hr1).
    destruct (live_fail _ s1 (live_with_data _ _ _ _ _ _ _ _ Hl E Hs1)) as (s2 & Hl2 & Hc2 & Hr2 & Hsent);
      [by rewrite Hs1|].
    destruct (Stream_Read n s2) as [s3 r] eqn:E3.
    assert (∃ r', r = Done r') as [r' ->].
    { destruct r as [r| |]; [by eauto| |]; apply Stream_Read_spec in E3 as (_ & _ & E3); [|done].
      destruct E3 as (_ & _ & ?). congruence. }
    destruct (live_read_done _ _ _ _ _ _ Hn Hl2 E3) as (-> & Hr & Hl3). rewrite Hr2, Hr1 in Hr.
    by eexists _, _, s3, r'.
  - destruct (Stream_Read_waits _ _ (m :: ms) _ E) as (Hs1 & Hc & Hr1).
    pose proof (live_with_data _ _ _ _ _ _ _ _ Hl E Hs1) as Hl1.
    pose proof (live_packet m ms _ s1 Hl1) as Ht. unfold taken in Ht.
    destruct (handleStreamMessage m _) as [c2| |] eqn:E2; [| |done].
    + destruct Ht as (s2 & Hl2 & Hr2).
      destruct (IH c2 s2 Hl2) as (c' & ms' & s' & r & -> & Hr & Hl' & Hsent).
      exists c', ms', s', r. rewrite <-Hr1, <-Hr2. split_and!; [done..|].
      by rewrite Hsent, (live_sent _ _ _ _ _ Hl1 E2).
    + destruct Ht as [Ht|Ht]; rewrite Hs1 in Ht; simpl in Ht; [congruence|unfold dataCh_cap in Ht; lia].
Qed.

(** ** Clients

    What a program that reads does, as a tree of its reads: each asks for some
    bytes (at least one) and goes on with the answer. *)

End live.

Inductive client (A : Type) :=
  | Return (a : A)
  | Reading (n : nat) (k : list byte * option error → client A).  (* room for [S n] bytes *)
Arguments Return {_} a.
Arguments Reading {_} n k.

Fixpoint client_bind {A B} (k : A → client B) (m : client A) : client B :=
  match m with
  | Return a => k a
  | Reading n h => Reading n (λ ans, client_bind k (h ans))
  end.

#[global] Instance client_ret : MRet client := @Return.
#[global] Instance client_mbind : MBind client := @client_bind.

(** Against a reader. *)
Fixpoint run_reader {A} (m : client A) (r : Reader) : Reader * A :=
  match m with
  | Return a => (r, a)
  | Reading n k => let '(r, ans) := GoIO.Read r (S n) in run_reader (k ans) r
  end.

(** Against a live stream; the reader goroutine handles [sched i] packets in
    front of the [i]-th read, as far as it gets, and what the read waits for. *)
Fixpoint run_live (fail : error) (p : nat) {A} (m : client A) (sched : nat → nat)
    (ms : list Message) (c : Connection) : (Connection * list Message) * option A :=
  match m with
  | Return a => ((c, ms), Some a)
  | Reading n k =>
      let '(c, ms) := read_ahead (sched 0%nat) ms c in
      match live_read fail p (S n) ms c with
      | ((c, ms), Some r) => run_live fail p (k (answer r)) (λ i, sched (S i)) ms c
      | ((c, ms), None) => ((c, ms), None)
      end
  end.

(** By induction on the client: every read is [live_read_refines], in front of
    which the reader goroutine ran ahead. *)
Lemma run_live_refines (fail : error) (id : Z) (p : nat) {A} (m : client A) (sched : nat → nat)
    (ms : list Message) (c : Connection) (s : Stream) :
  live id p c ms s →
  ∃ c' ms' s', run_live fail p m sched ms c = ((c', ms'), Some (run_reader m (reader_of id s ms)).2) ∧
    (run_reader m (reader_of id s ms)).1 = reader_of id s' ms' ∧
    live id p c' ms' s' ∧ sent id c' = sent id c.
Proof.
  revert sched ms c s. induction m as [a|n k IH]; intros sched ms c s Hl; [by eexists _, _, s|].
  cbn [run_live run_reader]. pose proof (live_read_ahead id p (sched 0%nat) ms c s Hl) as Ha.
  destruct (read_ahead (sched 0%nat) ms c) as [c1 ms1]. destruct Ha as (Hs1 & s1 & Hl1 & <-).
  destruct (live_read_refines fail id p (S n) ms1 c1 s1 Hl1) as (c2 & ms2 & s2 & r & -> & -> & Hl2 & Hs2); [lia|].
  destruct (IH (answer r) (λ i, sched (S i)) ms2 c2 s2 Hl2) as (c' & ms' & s' & -> & -> & Hl' & Hs').
  exists c', ms', s'. split_and!; [done..|]. congruence.
Qed.

(** ** What the clients of Sync read, read by read *)

(** [io.ReadFull], the loop of [io.ReadAtLeast]. *)
Fixpoint read_full (fuel : nat) (need : Z) (got : list byte) : client (res (list byte)) :=
  match fuel with
  | S fuel =>
      if need <=? 0 then Return (Ok got) else
      Reading (Nat.pred (Z.to_nat need)) (λ '(bs, err),
        let rest := need - Z.of_nat (length bs) in
        match err with
        | None => read_full fuel rest (got ++ bs)
        | Some err =>
            Return (if rest <=? 0 then Ok (got ++ bs)
                    else Err (if bool_decide (got ++ bs ≠ []) && bool_decide (err = Sentinel io_EOF)
                              then Sentinel io_ErrUnexpectedEOF else err))
        end)
  | O => Return (Ok got)
  end.

(** [io.CopyN] to an open file: what a read gave is written, then its error
    ends the copy. *)
Fixpoint copy_n (fuel : nat) (path : string) (need : Z) (fs : FS) : client (FS * option error) :=
  match fuel with
  | S fuel =>
      if need <=? 0 then Return (fs, None) else
      Reading (Nat.pred (Z.to_nat need)) (λ '(bs, err),
        match (if nonempty bs then file_Write path bs fs else (fs, None)) with
        | (fs, Some werr) => Return (fs, Some werr)
        | (fs, None) =>
            let rest := need - Z.of_nat (length bs) in
            match err with
            | None => copy_n fuel path rest fs
            | Some err => Return (fs, if rest <=? 0 then None else Some err)
            end
        end)
  | O => Return (fs, None)
  end.

Definition ReadFull_client (need : Z) : client (res (list byte)) :=
  read_full (S (Z.to_nat need)) need [].
Definition CopyN_client (path : string) (need : Z) (fs : FS) : client (FS * option error) :=
  copy_n (S (Z.to_nat need)) path need fs.

Definition readSyncHeader_client : client (res (string * Z)) :=
  h ← ReadFull_client 8;
  mret match h with
       | Err e => Err e
       | Ok header => Ok (string_of (take 4 header), Uint32 (drop 4 header))
       end.

(** The receive loop of [PullFileWithOptions], with the file system threaded
    through.  [None]: out of fuel. *)
Fixpoint pull_client (fuel : nat) (ctx : Context_) (remotePath localPath : string)
    (overwrite created : bool) (fs : FS) : client (option (FS * option error)) :=
  match fuel with
  | O => mret None
  | S fuel =>
      h ← readSyncHeader_client;
      match h with
      | Err err =>
          mret (Some (fs, Some (match ctx_failing ctx with
                                | Some ctxErr => ErrorfW "adb pull %q canceled: %w" [AStr remotePath] ctxErr
                                | None => ErrorfW "adb pull %q: read response: %w" [AStr remotePath] err
                                end)))
      | Ok (hid, size) =>
          if (hid =? syncIDDATA)%string then
            match createOut localPath overwrite created fs with
            | (fs, Some err) => mret (Some (fs, Some err))
            | (fs, None) =>
                x ← CopyN_client localPath size fs;
                match x with
                | (fs, Some err) =>
                    mret (Some (fs, Some (ErrorfW "adb pull %q: read DATA: %w" [AStr remotePath] err)))
                | (fs, None) => pull_client fuel ctx remotePath localPath overwrite true fs
                end
            end
          else if (hid =? syncIDDONE)%string then
            match createOut localPath overwrite created fs with
            | (fs, Some err) => mret (Some (fs, Some err))
            | (fs, None) =>
                mret (Some (fs, match fs_close_err fs with
                                | Some err => Some (ErrorfW "adb pull close destination %q: %w" [AStr localPath] err)
                                | None => None
                                end))
            end
          else if (hid =? syncIDFAIL)%string then
            x ← ReadFull_client size;
            mret (match x with
                  | Err err => Some (fs, Some (ErrorfW "adb pull %q: read FAIL: %w" [AStr remotePath] err))
                  | Ok msg =>
                      Some (fs, Some (Errorf "adb pull %q: remote error: %s" [AStr remotePath; AStr (string_of msg)]))
                  end)
          else mret (Some (fs, Some (Errorf "adb pull %q: unexpected sync response %q" [AStr remotePath; AStr hid])))
      end
  end.

(** The device's verdict on a push. *)
Definition push_response_client (ctx : Context_) (localPath remotePath : string) : client (option error) :=
  h ← readSyncHeader_client;
  match h with
  | Err err =>
      mret (Some (match ctx_failing ctx with
                  | Some ctxErr => ErrorfW "adb push %q to %q canceled: %w" [AStr localPath; AStr remotePath] ctxErr
                  | None => ErrorfW "adb push %q to %q: read response: %w" [AStr localPath; AStr remotePath] err
                  end))
  | Ok (hid, size) =>
      if (hid =? syncIDOKAY)%string then mret None
      else if (hid =? syncIDFAIL)%string then
        x ← ReadFull_client size;
        mret (Some match x with
                   | Err err => ErrorfW "adb push %q to %q: read FAIL: %w" [AStr localPath; AStr remotePath] err
                   | Ok msg => Errorf "adb push %q to %q: remote error: %s"
                                 [AStr localPath; AStr remotePath; AStr (string_of msg)]
                   end)
      else mret (Some (Errorf "adb push %q to %q: unexpected sync response %q"
                         [AStr localPath; AStr remotePath; AStr hid]))
  end.

(** ** They do what the functions of Sync and GoIO do *)

Lemma run_bind {A B} (m : client A) (k : A → client B) r :
  run_reader (m ≫= k) r = run_reader (k (run_reader m r).2) (run_reader m r).1.
Proof.
  revert r. induction m as [a|n h IH]; intros r; [done|]. cbn.
  destruct (GoIO.Read r (S n)) as [r1 ans]. apply IH.
Qed.

(** Readers that never return zero bytes without an error. *)
Definition no_empty (r : Reader) : Prop := Forall (λ c, c ≠ []) (rd_chunks r).

Lemma no_empty_reader_of id s ms : no_empty (reader_of id s ms).
Proof.
  unfold no_empty, reader_of; cbn [rd_chunks]. apply List.Forall_forall.
  intros c [_ Hc]%filter_In. by apply bool_decide_eq_true in Hc.
Qed.

Lemma run_read_full fuel need got r :
  no_empty r → (Z.to_nat need < fuel)%nat →
  run_reader (read_full fuel need got) r = ReadFull_loop (rd_end r) (rd_chunks r) need got ∧
  no_empty (ReadFull_loop (rd_end r) (rd_chunks r) need got).1.
Proof.
  destruct r as [cs fin]; unfold no_empty; cbn [rd_end rd_chunks]. intros Hne. revert fuel need got.
  induction Hne as [|c cs Hc Hne IH]; intros [|fuel] need got Hf; try lia; cbn [read_full ReadFull_loop].
  - destruct (Z.leb_spec need 0); [done|]. cbn. rewrite app_nil_r, Z.sub_0_r.
    by destruct (Z.leb_spec need 0); [lia|].
  - destruct (Z.leb_spec need 0); [by split; [|constructor]|]. cbn [run_reader].
    rewrite Nat.succ_pred_pos by lia. unfold GoIO.Read; cbn [rd_chunks rd_end].
    destruct (Z.leb_spec (Z.of_nat (length c)) need), (Nat.leb_spec (length c) (Z.to_nat need)); try lia.
    + apply IH. assert (length c ≠ 0)%nat by by destruct c. lia.
    + destruct fuel as [|fuel]; [lia|]. rewrite length_take. cbn [read_full].
      replace (need - _) with 0 by lia. split; [done|]. constructor; [|done].
      intros E%(f_equal length). rewrite length_drop in E. simpl in E. lia.
Qed.

Lemma run_ReadFull_client need r :
  no_empty r → run_reader (ReadFull_client need) r = ReadFull r need ∧ no_empty (ReadFull r need).1.
Proof. intros Hne. apply run_read_full; [done|lia]. Qed.

Lemma run_copy_n fuel path need fs r :
  no_empty r → (Z.to_nat need < fuel)%nat →
  let '(r', fs', err) := io_CopyN_loop path (rd_end r) (rd_chunks r) need fs in
  run_reader (copy_n fuel path need fs) r = (r', (fs', err)) ∧ no_empty r'.
Proof.
  destruct r as [cs fin]; unfold no_empty; cbn [rd_end rd_chunks]. intros Hne. revert fuel need fs.
  induction Hne as [|c cs Hc Hne IH]; intros [|fuel] need fs Hf; try lia; cbn [copy_n io_CopyN_loop].
  - destruct (Z.leb_spec need 0); [done|]. cbn. rewrite Z.sub_0_r.
    by destruct (Z.leb_spec need 0); [lia|].
  - destruct (Z.leb_spec need 0); [by split; [|constructor]|]. cbn [run_reader].
    rewrite Nat.succ_pred_pos by lia. unfold GoIO.Read; cbn [rd_chunks rd_end].
    assert (nonempty c = true) as Hnc by by apply bool_decide_eq_true.
    destruct (Z.leb_spec (Z.of_nat (length c)) need), (Nat.leb_spec (length c) (Z.to_nat need)); try lia.
    + rewrite Hnc. destruct (file_Write path c fs) as [fs1 [e|]]; [done|].
      apply IH. assert (length c ≠ 0)%nat by by destruct c. lia.
    + assert (nonempty (take (Z.to_nat need) c) = true) as ->.
      { apply bool_decide_eq_true. intros E%(f_equal length). rewrite length_take in E. simpl in E. lia. }
      assert (Forall (λ c, c ≠ []) (drop (Z.to_nat need) c :: cs)) as Hd.
      { constructor; [|done]. intros E%(f_equal length). rewrite length_drop in E. simpl in E. lia. }
      destruct (file_Write path _ fs) as [fs1 [e|]]; [done|].
      destruct fuel as [|fuel]; [lia|]. rewrite length_take. cbn [copy_n].
      by replace (need - _) with 0 by lia.
Qed.

Lemma run_CopyN_client path need fs r :
  no_empty r →
  let '(r', fs', err) := io_CopyN path r need fs in
  run_reader (CopyN_client path need fs) r = (r', (fs', err)) ∧ no_empty r'.
Proof. intros Hne. apply run_copy_n; [done|lia]. Qed.

Lemma run_readSyncHeader_client r :
  no_empty r → run_reader readSyncHeader_client r = readSyncHeader r ∧ no_empty (readSyncHeader r).1.
Proof.
  intros Hne. destruct (run_ReadFull_client 8 r Hne) as [E Hne']. unfold readSyncHeader_client.
  rewrite run_bind, E. unfold readSyncHeader. by destruct (ReadFull r 8) as [r1 [h|e]].
Qed.

(** The receive loop as a client is the receive loop of Sync. *)
Lemma run_pull_client fuel ctx remotePath localPath overwrite created fs r :
  no_empty r →
  (run_reader (pull_client fuel ctx remotePath localPath overwrite created fs) r).2 =
  pull_loop fuel ctx remotePath localPath overwrite created r fs.
Proof.
  revert created fs r. induction fuel as [|fuel IH]; intros created fs r Hne; [done|].
  cbn [pull_client pull_loop]. rewrite run_bind.
  destruct (run_readSyncHeader_client r Hne) as [-> Hne1].
  destruct (readSyncHeader r) as [r1 [[hid size]|e]]; cbn [fst snd] in *; [|done].
  destruct (hid =? syncIDDATA)%string.
  { destruct (createOut localPath overwrite created fs) as [fs1 [e|]]; [done|]. rewrite run_bind.
    pose proof (run_CopyN_client localPath size fs1 r1 Hne1) as Hc.
    destruct (io_CopyN localPath r1 size fs1) as [[r2 fs2] err]. destruct Hc as [-> Hne2]. cbn [fst snd].
    destruct err; [done|]. by apply IH. }
  destruct (hid =? syncIDDONE)%string.
  { by destruct (createOut localPath overwrite created fs) as [fs1 [e|]]. }
  destruct (hid =? syncIDFAIL)%string; [|done]. rewrite run_bind.
  destruct (run_ReadFull_client size r1 Hne1) as [-> _]. by destruct (ReadFull r1 size) as [r2 [m|e]].
Qed.

Lemma run_push_response_client ctx localPath remotePath r :
  no_empty r →
  (run_reader (push_response_client ctx localPath remotePath) r).2 = push_response ctx localPath remotePath r.
Proof.
  intros Hne. unfold push_response_client, push_response. rewrite run_bind.
  destruct (run_readSyncHeader_client r Hne) as [-> Hne1].
  destruct (readSyncHeader r) as [r1 [[hid size]|e]]; cbn [fst snd] in *; [|done].
  destruct (hid =? syncIDOKAY)%string; [done|]. destruct (hid =? syncIDFAIL)%string; [|done].
  rewrite run_bind. destruct (run_ReadFull_client size r1 Hne1) as [-> _].
  by destruct (ReadFull r1 size) as [r2 [m|e]].
Qed.

(** The verdict does not depend on how its bytes are cut up. *)
Lemma push_response_same_stream ctx localPath remotePath r1 r2 :
  same_stream r1 r2 → push_response ctx localPath remotePath r1 = push_response ctx localPath remotePath r2.
Proof.
  intros Hs. destruct (ReadFull_same_stream r1 r2 8 Hs) as [Hs1 Hh].
  unfold push_response, readSyncHeader.
  destruct (ReadFull r1 8) as [s1 [h|e]], (ReadFull r2 8) as [s2 [h2|e2]]; simplify_eq/=; [|done].
  destruct (ReadFull_same_stream s1 s2 (Uint32 (drop 4 h2)) Hs1) as [_ Hp].
  by destruct (ReadFull s1 _) as [t1 a1], (ReadFull s2 _) as [t2 a2]; simplify_eq/=.
Qed.

(** ** A stream as a writer *)

(** [stream.Write], of a stream of a connection. *)
#[global] Instance stream_write : io_Writer (Connection * nat) := λ w bs,
  match Stream.Write w.2 bs w.1 with
  | (c, Ok n) => ((c, w.2), (n, None))
  | (c, Err e) => ((c, w.2), (0%nat, Some e))
  end.

Lemma Write_sent p bs c c' r :
  Stream.Write p bs c = (c', r) →
  c_heap c' = c_heap c ∧ c_streams c' = c_streams c ∧
  sent (local_id_of c p) c' = sent (local_id_of c p) c ++ (match r with Ok _ => bs | Err _ => [] end) ∧
  (∀ n, r = Ok n → n = length bs).
Proof.
  unfold Stream.Write, local_id_of. destruct (deref c p) as [s|] eqn:Hs;
    [|intros [= <- <-]; by rewrite app_nil_r].
  destruct (s_closed s); [intros [= <- <-]; by rewrite app_nil_r|].
  destruct (s_remoteID s =? 0); [intros [= <- <-]; by rewrite app_nil_r|].
  set (m := mkMessage _ _ _ bs).
  assert (∀ w, sent (s_localID s) (with_wire (c_out c ++ [m]) w c) = sent (s_localID s) c ++ bs) as Hsent.
  { intros w. unfold sent; cbn [with_wire c_out]. rewrite List.filter_app, fmap_app, concat_app.
    assert (is_data (s_localID s) m = true) as E by (unfold is_data; cbn; by rewrite !Z.eqb_refl).
    simpl. rewrite E. cbn. by rewrite app_nil_r. }
  unfold writeMessage. destruct (c_werr c) as [|[e|] werr]; intros [= <- <-];
    (split_and!; [done|done| |naive_solver]); [apply Hsent|by rewrite app_nil_r|apply Hsent].
Qed.

#[global] Program Instance stream_write_ok : WriterOk (Connection * nat) :=
  {| written w := sent (local_id_of w.1 w.2) w.1 |}.
Next Obligation.
  intros [c p] bs w' n e; unfold GoIO.Write, stream_write; cbn [fst snd].
  destruct (Stream.Write p bs c) as [c' [m|err]] eqn:E; apply Write_sent in E as (Hh & _ & Hs & Hn);
    intros [= <- <- <-]; cbn [fst snd];
    (assert (local_id_of c' p = local_id_of c p) as -> by (unfold local_id_of, deref; by rewrite Hh)).
  - rewrite (Hn m eq_refl). by rewrite firstn_all.
  - split; [lia|]. by rewrite take_0.
Qed.

(** The stream is open, and the transport takes what is written. *)
Definition writable (id : Z) (p : nat) (ms : list Message) (s : Stream) (w : Connection * nat) : Prop :=
  w.2 = p ∧ live id p w.1 ms s ∧ s_closed s = false ∧ c_werr w.1 = [].

(** A write of an open stream is one packet, and leaves the stream as it is. *)
Lemma Write_open id p ms s c bs :
  writable id p ms s (c, p) →
  ∃ c', Stream.Write p bs c = (c', Ok (length bs)) ∧ writable id p ms s (c', p) ∧
    c_out c' = c_out c ++ [mkMessage CommandWRTE id (s_remoteID s) bs].
Proof.
  intros (_ & [Hwf Hat Hid Hop Hin] & Hc & Hw); cbn [fst snd] in *. destruct (Hop Hc) as [Hreg Hrem%Z.eqb_neq].
  unfold Stream.Write. rewrite Hat, Hc, Hrem, writeMessage_ok, Hid by done.
  eexists. split; [done|]. split; [|done]. split; [done|]. cbn [fst]. split_and!; [|done|done].
  split; [by apply wf_conn_ext with c|done..].
Qed.

Lemma writeFull_open id p ms s c bs :
  writable id p ms s (c, p) → bs ≠ [] →
  ∃ c', writeFull (c, p) bs = ((c', p), None) ∧ writable id p ms s (c', p) ∧
    c_out c' = c_out c ++ [mkMessage CommandWRTE id (s_remoteID s) bs].
Proof.
  intros Hl Hbs. destruct (Write_open id p ms s c bs Hl) as (c' & E & Hl' & Hout).
  exists c'. split_and!; [|done|done]. destruct bs as [|b bs]; [done|].
  unfold writeFull. cbn [length writeFull_fuel]. unfold GoIO.Write, stream_write; cbn [fst snd]. rewrite E.
  cbn [Nat.eqb length]. rewrite drop_ge by done. by destruct (length bs).
Qed.

(** ** What else happens to the connection *)

Section others.
Variable id : Z.
Variable p : nat.

Lemma live_others m c ms s : live id p c ms s → live id p (writeMessage m c).1 ms s.
Proof.
  intros [Hwf Hat Hid Hop Hin]. destruct (writeMessage_frame m c) as [F1 F2].
  split; [by apply wf_writeMessage|by unfold deref; rewrite F2|done|by rewrite F1|done].
Qed.

(** Closing leaves what the stream holds, and ends it there. *)
Lemma live_Close c ms s : live id p c ms s →
  ∃ s', live id p (Close p c) ms s' ∧ s_closed s' = true ∧ sent id (Close p c) = sent id c ∧
    (s_closed s = true → s' = s) ∧ (s_closed s = false → s' = closeWithError (Some (Sentinel io_ErrClosedPipe)) s).
Proof.
  intros Hl. pose proof (wf_Close p c (live_wf _ _ _ _ _ Hl)) as Hwf'. revert Hwf'.
  unfold Close. rewrite (live_at _ _ _ _ _ Hl).
  set (m := mkMessage CommandCLSE (s_localID s) (s_remoteID s) []).
  set (c1 := if negb (s_closed s) && negb (s_remoteID s =? 0) then (writeMessage m c).1 else c).
  assert (live id p c1 ms s ∧ sent id c1 = sent id c) as [Hl1 Hs1].
  { unfold c1. destruct (_ && _); [|done]. split; [by apply live_others|by apply sent_writeMessage]. }
  clearbody c1. set (e := Some (Sentinel io_ErrClosedPipe)). intros Hwf'.
  rewrite closeStream_sent, Hs1. destruct Hl1 as [Hwf Hat Hid Hop Hin]. destruct (s_closed s) eqn:Hc.
  - exists s. split_and!; [|done..]. split; try done; [|congruence]. rewrite deref_closeStream_ne; [done|].
    intros Hp. destruct (wfc_map _ Hwf _ _ Hp) as (s0 & Hs0 & _ & Hc0). congruence.
  - destruct (closeWithError_open e s Hc) as (G1 & _ & _ & G4 & _).
    exists (closeWithError e s). split_and!; [|done..]. split; [done| |congruence|congruence|done].
    unfold closeStream, streamByLocalID. rewrite Hid. destruct (Hop eq_refl) as [-> _].
    rewrite deref_upd, decide_True by done. change (deref (removeStream id c1) p) with (deref c1 p). by rewrite Hat.
Qed.

End others.

(** Streams are among the transports that Sync's theorems are about. *)
Lemma streams_keep_accepting id p ms s : keeps_accepting (writable id p ms s).
Proof.
  intros [c q] [|b bs] Hl; [done|]. assert (q = p) as -> by by destruct Hl.
  destruct (writeFull_open id p ms s c (b :: bs) Hl) as (c' & -> & Hl' & _); done.
Qed.

Lemma live_sent_written id p c ms s : live id p c ms s → written (c, p) = sent id c.
Proof. intros Hl. cbn. unfold local_id_of. by rewrite (live_at _ _ _ _ _ Hl), (live_id _ _ _ _ _ Hl). Qed.

(** A stream that was just opened, in front of packets for it. *)
Lemma fresh_writable id p remote c ms :
  wf_conn c → c_streams c !! id = Some p → c_werr c = [] → remote ≠ 0 →
  deref c p = Some (mkStream id remote true None [] false None [] false) →
  Forall (for_stream id) ms →
  writable id p ms (mkStream id remote true None [] false None [] false) (c, p).
Proof. intros. split; [done|]. cbn [fst]. split_and!; [|done|done]. by split. Qed.

(** The device's data on a stream that holds nothing yet. *)
Lemma rd_bytes_reader_of id s ms :
  s_closed s = false → rd_bytes (reader_of id s ms) = pending s ++ concat (arrivals id ms).
Proof.
  intros Hc. unfold rd_bytes, reader_of, pending; cbn [rd_chunks]. rewrite Hc.
  assert (∀ l, concat (List.filter nonempty l) = concat l) as ->.
  { induction l as [|[|b bs] l IH]; [done|done|]. simpl. by rewrite IH. }
  cbn [concat]. by rewrite concat_app, app_assoc.
Qed.


(** ** File transfers over a connection *)

Section transfer.
Variable fail : error.            (* how the transport ends *)
Variable sched : nat → nat.       (* how far the reader goroutine gets *)
Variable ms : list Message.       (* what the device sends once the stream is open *)
Variable remote : Z.              (* the device's ID of the stream *)
Variable c : Connection.

Hypothesis c_ok : wf_conn c.
Hypothesis c_healthy : c_werr c = [].
Hypothesis c_reading : c_readerStarted c = true → c_readerErr c = None.
Hypothesis remote_ok : remote ≠ 0.

Let id : Z := uint32 (c_nextLocalID c + 1).
Hypothesis ms_ok : Forall (for_stream id) ms.

(** The stream of a session that the device accepted, its user's writes not
    yet begun: [OpenContext] sent the OPEN, the reader took the OKAY. *)
Lemma session_opens service :
  ∃ c3 p, OpenContext_start None service c = ((OpenContext_start None service c).1, Ok p) ∧
    (∃ c2, handleStreamMessage (mkMessage CommandOKAY remote id []) (OpenContext_start None service c).1 = Done c2 ∧
      OpenContext_wait service p c2 = Done (c3, Ok p)) ∧
    writable id p ms (mkStream id remote true None [] false None [] false) (c3, p) ∧
    c_out c3 = c_out c ++ [mkMessage CommandOPEN id 0 (bytes_of (TrimSuffix service NUL +++ NUL))].
Proof.
  destruct (open_accepted service remote c c_healthy c_reading)
    as (c1 & c2 & c3 & E1 & _ & _ & E4 & E5 & Hd & Hst & Hw3 & Hout & Hwf).
  exists c3, (length (c_heap c)). rewrite E1. cbn [fst]. split_and!; [done|by eexists| |done].
  apply fresh_writable; auto. by rewrite Hst, lookup_insert_eq.
Qed.

(** C20: a pull over a connection.  [OpenContext] opens sync:, the RECV request
    goes out as one WRTE packet, and the receive loop reads the stream while
    the reader goroutine takes the device's packets, in whatever order the two
    advance.  When the data the packets carry is DATA messages and DONE, cut
    into packets anywhere, the local file holds their contents in the end, and
    nothing else was sent on the stream. *)
Theorem pull_over_a_connection ctx remotePath localPath overwrite fs chunks mtime rest :
  small (bytes_of remotePath) → creatable localPath overwrite fs →
  Forall small chunks → is_uint32 mtime → (length (concat chunks) ≤ fs_free fs)%nat →
  concat (arrivals id ms) = sync_answer chunks mtime ++ rest →
  ∃ c2 c3 p c4 c5 ms' fs' fuel,
    OpenContext_start None "sync:" c = ((OpenContext_start None "sync:" c).1, Ok p) ∧
    handleStreamMessage (mkMessage CommandOKAY remote id []) (OpenContext_start None "sync:" c).1 = Done c2 ∧
    OpenContext_wait "sync:" p c2 = Done (c3, Ok p) ∧
    writeSyncRequest (c3, p) syncIDRECV (bytes_of remotePath) = ((c4, p), None) ∧
    run_live fail p (pull_client fuel ctx remotePath localPath overwrite false fs) sched ms c4
      = ((c5, ms'), Some (Some (fs', None))) ∧
    fs_files fs' = <[localPath := concat chunks]> (fs_files fs) ∧
    c_out c4 = c_out c ++
      [mkMessage CommandOPEN id 0 (bytes_of ("sync:" +++ NUL));
       mkMessage CommandWRTE id remote
         (writeSyncHeaderTo syncIDRECV (Z.of_nat (String.length remotePath)) ++ bytes_of remotePath)] ∧
    sent id c5 = sent id c4.
Proof.
  intros Hsm Hcr Hch Hm Hfree Harr.
  destruct (session_opens "sync:") as (c3 & p & E1 & (c2 & E2 & E3) & Hl & Hout).
  set (s := mkStream id remote true None [] false None [] false) in *.
  destruct (writeFull_open id p ms s c3 (writeSyncHeaderTo syncIDRECV
    (Z.of_nat (String.length remotePath)) ++ bytes_of remotePath) Hl) as (c4 & E4 & (_ & Hl4 & _ & _) & Hout4).
  { unfold writeSyncHeaderTo. done. }
  destruct (pull_loop_answer ctx remotePath localPath overwrite (reader_of id s ms) fs chunks mtime rest)
    as (fs' & Hpull & Hfs); [done..| |].
  { by rewrite rd_bytes_reader_of. }
  set (fuel := pull_fuel (reader_of id s ms)) in *.
  destruct (run_live_refines fail id p (pull_client fuel ctx remotePath localPath overwrite false fs) sched
    ms c4 s Hl4) as (c5 & ms' & s' & E5 & _ & _ & Hs5).
  exists c2, c3, p, c4, c5, ms', fs', fuel. split_and!; [done..| | |done| |done].
  - unfold writeSyncRequest. by rewrite uint32_small, length_bytes_of by done.
  - rewrite E5, run_pull_client by apply no_empty_reader_of. by rewrite Hpull.
  - by rewrite Hout4, Hout, <-app_assoc.
Qed.


End transfer.

(** ** Sample runs *)

(** A device that answers with "ab" and "c", cut in the middle of a header, an
    empty packet in between, and hangs up. *)
Definition demo_packets : list Message :=
  let bs := sync_answer [bytes_of "ab"; bytes_of "c"] 7 in
  [mkMessage CommandWRTE 9 1 (take 5 bs); mkMessage CommandWRTE 9 1 [];
   mkMessage CommandWRTE 9 1 (drop 5 bs); mkMessage CommandCLSE 9 1 []].

Lemma demo_packets_ok : Forall (for_stream 1) demo_packets.
Proof. repeat constructor; by vm_compute. Qed.

Lemma pull_over_a_connection_witness :
  ∃ c4 p c5 ms' fs' fuel,
    run_live (Sentinel io_EOF) p (pull_client fuel Background "/sdcard/x" "x" false false demo_fs) (λ i, i) demo_packets c4
      = ((c5, ms'), Some (Some (fs', None))) ∧
    fs_files fs' = <["x" := bytes_of "abc"]> ∅.
Proof.
  destruct (pull_over_a_connection (Sentinel io_EOF) (λ i, i) demo_packets 9 (NewConnection [])
    (wf_NewConnection []) eq_refl ltac:(done) ltac:(done) demo_packets_ok Background "/sdcard/x" "x" false demo_fs
    [bytes_of "ab"; bytes_of "c"] 7 []) as (c2 & c3 & p & c4 & c5 & ms' & fs' & fuel & _ & _ & _ & _ & E & Hfs & _);
    [by vm_compute | by split; [right|] | repeat constructor; by vm_compute | by vm_compute
     | vm_compute; lia | reflexivity |].
  exists c4, p, c5, ms', fs', fuel. split; [exact E | exact Hfs].
Defined.


