(* ===== verification/Text.v ===== *)
(** * client: command texts and device output

    The pure functions of install.go, properties.go, reboot.go, logcat.go and
    screencap.go: shell quoting, package-manager output, [getprop] parsing,
    service names and the PNG clean-up.  [shellQuote] is compared with a reader
    of the POSIX shell's word syntax. *)

From S2P Require Import Prelude Errors GoStrings Strconv.

#[local] Open Scope string_scope.
#[local] Open Scope Z_scope.
#[local] Open Scope list_scope.

(** ** install.go *)

Definition installRemoteDir : string := "/data/local/tmp".

Definition SQUOTE : ascii := "'"%char.
Definition BACKSLASH : ascii := "\"%char.

(** ['\''] *)
Definition escaped_quote : string := String SQUOTE (String BACKSLASH (String SQUOTE (String SQUOTE ""))).

Definition shellQuote (s : string) : string :=
  String SQUOTE "" +++ ReplaceByte s SQUOTE escaped_quote +++ String SQUOTE "".

Definition pmInstallSucceeded (output : string) : bool := HasPrefix (TrimSpace output) "Success".

Definition formatPMOutput (output : string) : string :=
  let output := TrimSpace output in
  if (output =? "")%string then "package manager returned no success marker and no output" else output.

(** The length of the code point at the front of a string, 1 for an invalid
    encoding ([utf8.DecodeRuneInString]). *)
Definition cont (a : ascii) : bool := (0x80 <=? code a) && (code a <=? 0xBF).
Definition within (a : ascii) (lo hi : Z) : bool := (lo <=? code a) && (code a <=? hi).

Definition rune_len (s : string) : nat :=
  match s with
  | String a (String b rest) =>
      if within a 0xC2 0xDF && cont b then 2%nat else
      match rest with
      | String c rest =>
          if ((code a =? 0xE0) && within b 0xA0 0xBF || within a 0xE1 0xEC && cont b
              || (code a =? 0xED) && within b 0x80 0x9F || within a 0xEE 0xEF && cont b) && cont c
          then 3%nat else
          match rest with
          | String d _ =>
              if ((code a =? 0xF0) && within b 0x90 0xBF || within a 0xF1 0xF3 && cont b
                  || (code a =? 0xF4) && within b 0x80 0x8F) && cont c && cont d
              then 4%nat else 1%nat
          | "" => 1%nat
          end
      | "" => 1%nat
      end
  | _ => 1%nat
  end.

Definition safe_char (a : ascii) : bool :=
  within a 97 122 || within a 65 90 || within a 48 57 ||
  Ascii.eqb a "." || Ascii.eqb a "_" || Ascii.eqb a "-".

(** One character of the result per code point. *)
Fixpoint sanitize_loop (fuel : nat) (s : string) : string :=
  match fuel, s with
  | S fuel, String a _ =>
      String (if safe_char a then a else "_"%char) (sanitize_loop fuel (str_drop (rune_len s) s))
  | _, _ => ""
  end.

Definition sanitizeInstallBase (base : string) : string :=
  let base := TrimSpace base in
  if (base =? "")%string || (base =? ".")%string || (base =? "/")%string then "app.apk" else
  let b := sanitize_loop (String.length base) base in
  if (b =? "")%string then "app.apk" else b.

(** [filepath.Base] on Unix. *)
Fixpoint trim_slashes (fuel : nat) (s : string) : string :=
  match fuel with
  | O => s
  | S fuel => if HasSuffix s "/" then trim_slashes fuel (str_take (String.length s - 1) s) else s
  end.

Definition filepath_Base (path : string) : string :=
  if (path =? "")%string then "." else
  let path := trim_slashes (String.length path) path in
  let path := match LastIndexByte path "/"%char with
              | Some i => str_drop (S i) path
              | None => path
              end in
  if (path =? "")%string then "/" else path.

(** [defaultInstallRemotePath] with the time stamp, the process ID and the
    value of the counter. *)
Definition defaultInstallRemotePath (stamp : string) (pid counter : Z) (localPath : string) : string :=
  let base := sanitizeInstallBase (filepath_Base localPath) in
  installRemoteDir +++ "/adb-go-install-" +++ stamp +++ "-" +++ Itoa pid +++ "-" +++
  FormatUint36 counter +++ "-" +++ base.

(** ** reboot.go, logcat.go *)

Definition RebootNormal : string := "".
Definition RebootBootloader : string := "bootloader".
Definition RebootRecovery : string := "recovery".

Definition rebootService (mode : string) : res string :=
  if (mode =? RebootNormal)%string || (mode =? RebootBootloader)%string || (mode =? RebootRecovery)%string
  then Ok ("reboot:" +++ mode)
  else Err (ErrorfW "adb reboot mode %q: %w" [AStr mode] client_ErrUnsupported).

Definition rebootModeLabel (mode : string) : string :=
  if (mode =? RebootNormal)%string then "normal" else mode.

Definition logcatCommand (dump : bool) : string :=
  Join (["logcat"] ++ (if dump then ["-d"] else []))%list " ".

(** ** properties.go *)

Definition CR : ascii := ascii_of_nat 13.
Definition LF : ascii := ascii_of_nat 10.

Definition parseGetPropValue (output : string) : res string :=
  let output := TrimSuffix output (String LF "") in
  let output := TrimSuffix output (String CR "") in
  if ContainsAny output [CR; LF] then Err (Errorf "unexpected multi-line property value output" [])
  else Ok output.

Definition parseGetPropLine (line : string) : option (string * string) :=
  if negb (HasPrefix line "[") || negb (HasSuffix line "]") then None else
  let body := TrimSuffix (TrimPrefix line "[") "]" in
  match Cut body "]: [" with
  | Some (name, value) => if (name =? "")%string then None else Some (name, value)
  | None => None
  end.

(** [bufio.Scanner] with [ScanLines]: the next line without its line end and
    the text behind it; [None] at the end of the text. *)
Definition scan_line (s : string) : option (string * string) :=
  match s with
  | "" => None
  | _ => match IndexByte s LF with
         | Some i => Some (str_take i s, str_drop (S i) s)
         | None => Some (s, "")
         end
  end.

(** A line that does not fit the scanner's 64 KiB buffer. *)
Definition MaxScanTokenSize : nat := 64 * 1024.
Definition bufio_ErrTooLong : error := Errorf "bufio.Scanner: token too long" [].
Definition too_long (s : string) : bool :=
  match IndexByte s LF with
  | Some i => (MaxScanTokenSize <=? i)%nat
  | None => (MaxScanTokenSize <=? String.length s)%nat
  end.

Fixpoint parseGetProp_loop (fuel : nat) (s : string) (lineNumber : Z) (props : gmap string string)
    : res (gmap string string) :=
  match fuel with
  | O => Ok props
  | S fuel =>
      match scan_line s with
      | None => Ok props
      | Some (line, rest) =>
          if too_long s then Err (ErrorfW "read getprop output: %w" [] bufio_ErrTooLong) else
          let lineNumber := lineNumber + 1 in
          (* the scanner drops one CR, the code another *)
          let line := TrimSuffix (TrimSuffix line (String CR "")) (String CR "") in
          if (line =? "")%string then parseGetProp_loop fuel rest lineNumber props else
          match parseGetPropLine line with
          | None => Err (Errorf "malformed getprop line %d: %q" [AInt lineNumber; AStr line])
          | Some (name, value) => parseGetProp_loop fuel rest lineNumber (<[name := value]> props)
          end
      end
  end.

(** Each line takes at least one byte. *)
Definition parseGetPropOutput (output : string) : res (gmap string string) :=
  parseGetProp_loop (S (String.length output)) output 0 ∅.

(** ** screencap.go *)

Definition byte_CR : byte := Byte.x0d.
Definition byte_LF : byte := Byte.x0a.

Definition pngSignature : list byte := [Byte.x89; Byte.x50; Byte.x4e; Byte.x47; Byte.x0d; Byte.x0a; Byte.x1a; Byte.x0a].
Definition mangledSignature : list byte :=
  [Byte.x89; Byte.x50; Byte.x4e; Byte.x47; Byte.x0d; Byte.x0d; Byte.x0a; Byte.x1a; Byte.x0a].

(** [bytes.HasPrefix] *)
Definition bytes_HasPrefix (s prefix : list byte) : bool := bool_decide (take (length prefix) s = prefix).

(** The loop that drops a CR in front of an LF. *)
Fixpoint drop_cr (inp : list byte) : list byte :=
  match inp with
  | [] => []
  | a :: rest =>
      if bool_decide (a = byte_CR) && match rest with b :: _ => bool_decide (b = byte_LF) | [] => false end
      then drop_cr rest else a :: drop_cr rest
  end.

Definition normalizeScreencapPNG (inp : list byte) : list byte :=
  if bytes_HasPrefix inp pngSignature then inp
  else if negb (bytes_HasPrefix inp mangledSignature) then inp
  else drop_cr inp.

(** ** Quoting: what the device's shell reads *)

(** Characters that mean themselves outside quotes. *)
Definition plain_char (a : ascii) : bool :=
  within a 97 122 || within a 65 90 || within a 48 57 ||
  existsb (Ascii.eqb a) ["."; "_"; "-"; "/"; ":"; ","; "="; "+"; "%"; "@"]%char.

(** The words of a simple command: single quotes, backslash escapes, blanks;
    [None] for anything with another meaning to the shell. *)
Fixpoint sh_loop (s : string) (quoted : bool) (cur : option string) : option (list string) :=
  match s with
  | "" => if quoted then None else Some (match cur with Some w => [w] | None => [] end)
  | String c s =>
      if quoted then
        if Ascii.eqb c SQUOTE then sh_loop s false cur
        else sh_loop s true (Some (default "" cur +++ String c ""))
      else if Ascii.eqb c SQUOTE then sh_loop s true (Some (default "" cur))
      else if Ascii.eqb c BACKSLASH then
        match s with
        | "" => None
        | String c s => sh_loop s false (Some (default "" cur +++ String c ""))
        end
      else if Ascii.eqb c " " then
        match cur with
        | Some w => (λ ws, w :: ws) <$> sh_loop s false None
        | None => sh_loop s false None
        end
      else if plain_char c then sh_loop s false (Some (default "" cur +++ String c ""))
      else None
  end.

Definition sh_words (cmd : string) : option (list string) := sh_loop cmd false None.

Fixpoint plain (s : string) : bool :=
  match s with "" => true | String c s => plain_char c && plain s end.

Lemma plain_char_not c : plain_char c = true →
  Ascii.eqb c SQUOTE = false ∧ Ascii.eqb c BACKSLASH = false ∧ Ascii.eqb c " " = false.
Proof.
  intros H. split_and!; apply Ascii.eqb_neq; intros ->; by vm_compute in H.
Qed.

Lemma sh_loop_plain s rest cur :
  plain s = true → s ≠ "" → sh_loop (s +++ rest) false cur = sh_loop rest false (Some (default "" cur +++ s)).
Proof.
  revert cur. induction s as [|c s IH]; intros cur; [done|]. cbn [plain]. intros [Hc Hs]%andb_true_iff _.
  cbn [String.append sh_loop]. destruct (plain_char_not c Hc) as (-> & -> & ->). rewrite Hc.
  destruct (decide (s = "")) as [->|Hne]; [done|]. rewrite IH by done. change (default "" (Some ?x)) with x.
  by rewrite <-append_assoc.
Qed.

Lemma sh_loop_quoted s rest cur :
  sh_loop (ReplaceByte s SQUOTE escaped_quote +++ String SQUOTE rest) true (Some cur) =
  sh_loop rest false (Some (cur +++ s)).
Proof.
  revert cur. induction s as [|c s IH]; intros cur; cbn [ReplaceByte].
  - cbn [String.append sh_loop]. rewrite Ascii.eqb_refl. by rewrite append_nil_r.
  - destruct (Ascii.eqb_spec c SQUOTE) as [->|Hne].
    + unfold escaped_quote. cbn [String.append sh_loop].
      rewrite Ascii.eqb_refl. cbn. rewrite IH. unfold id. by rewrite <-append_assoc.
    + rewrite <-append_assoc. cbn [String.append sh_loop].
      apply Ascii.eqb_neq in Hne as ->. change (default "" (Some ?x)) with x. rewrite IH.
      by rewrite <-append_assoc.
Qed.

Lemma sh_loop_shellQuote s rest :
  sh_loop (shellQuote s +++ rest) false None = sh_loop rest false (Some s).
Proof.
  unfold shellQuote. rewrite <-!append_assoc. cbn [String.append sh_loop].
  rewrite Ascii.eqb_refl. change (default "" None) with "". by rewrite sh_loop_quoted.
Qed.

Lemma sh_loop_blank s w : sh_loop (String " " s) false (Some w) = (λ ws, w :: ws) <$> sh_loop s false None.
Proof. done. Qed.



(** ** screencap *)

(** What a pseudo-terminal does to its output: every LF becomes CR LF. *)
Definition crlf (bs : list byte) : list byte :=
  flat_map (λ b, if bool_decide (b = byte_LF) then [byte_CR; byte_LF] else [b]) bs.

Lemma drop_cr_crlf bs : drop_cr (crlf bs) = bs.
Proof.
  induction bs as [|b bs IH]; [done|]. unfold crlf. cbn [flat_map]. fold (crlf bs).
  case_bool_decide as E; cbn [app drop_cr].
  - rewrite !bool_decide_eq_true_2 by done. cbn [andb].
    rewrite bool_decide_eq_false_2 by done. cbn [andb]. by rewrite IH, E.
  - assert (match crlf bs with b :: _ => bool_decide (b = byte_LF) | [] => false end = false) as ->.
    { destruct bs as [|b' bs]; [done|]. unfold crlf. cbn [flat_map].
      case_bool_decide; cbn [app]; by apply bool_decide_eq_false_2. }
    by rewrite andb_false_r, IH.
Qed.

(** What [Screencap] does to the device's output.  A PNG passes unchanged,
    and the clean-up loop is the exact inverse of a terminal's LF to CR LF
    translation; but a PNG that went through that translation is not
    recognized, because its signature contains a second LF, and it is returned
    mangled. *)
Theorem screencap_cleanup (t : list byte) :
  normalizeScreencapPNG (pngSignature ++ t) = pngSignature ++ t ∧
  drop_cr (crlf (pngSignature ++ t)) = pngSignature ++ t ∧
  normalizeScreencapPNG (crlf (pngSignature ++ t)) = crlf (pngSignature ++ t) ∧
  crlf (pngSignature ++ t) ≠ pngSignature ++ t.
Proof.
  split_and!; [done | apply drop_cr_crlf | done | done].
Qed.

(** ** getprop *)

(** The device prints a property as ["[name]: [value]"] and a line end. *)
Definition getprop_line (p : string * string) : string := "[" +++ p.1 +++ "]: [" +++ p.2 +++ "]".

Fixpoint getprop_output (eol : string) (props : list (string * string)) : string :=
  match props with
  | [] => ""
  | p :: props => getprop_line p +++ eol +++ getprop_output eol props
  end.

Definition printable_prop (p : string * string) : Prop :=
  p.1 ≠ "" ∧ contains p.1 "]"%char = false ∧ contains p.1 LF = false ∧ contains p.2 LF = false ∧
  (String.length (getprop_line p) + 1 < MaxScanTokenSize)%nat.

Lemma Cut_spec s t sep a sep' :
  sep = String a sep' → contains s a = false → Cut (s +++ sep +++ t) sep = Some (s, t).
Proof.
  intros -> Hs. induction s as [|c s IH].
  - cbn [String.append]. assert (∀ u, Cut u (String a sep') =
      if HasPrefix u (String a sep') then Some ("", str_drop (String.length (String a sep')) u)
      else match u with "" => None | String c u => (λ '(x, y), (String c x, y)) <$> Cut u (String a sep') end) as ->
      by (by intros []).
    rewrite (proj2 (HasPrefix_spec _ _)) by by exists t.
    change (String a (sep' +++ t)) with (String a sep' +++ t). by rewrite str_drop_append.
  - rewrite contains_cons in Hs. apply orb_false_iff in Hs as [Hc Hs].
    cbn [String.append Cut]. cbn [String.append] in IH. rewrite IH by done.
    assert (HasPrefix (String c (s +++ String a (sep' +++ t))) (String a sep') = false) as ->; [|done].
    destruct (HasPrefix _ _) eqn:E; [|done]. apply HasPrefix_spec in E as [u Hu].
    simpl in Hu. injection Hu as -> _. by rewrite Ascii.eqb_refl in Hc.
Qed.

Lemma parseGetPropLine_line p :
  p.1 ≠ "" → contains p.1 "]"%char = false → parseGetPropLine (getprop_line p) = Some p.
Proof.
  intros Hne Hc. destruct p as [name value]; simpl in *. unfold parseGetPropLine, getprop_line; cbn [fst snd].
  set (s := "[" +++ name +++ "]: [" +++ value +++ "]").
  assert (HasPrefix s "[" = true) as -> by apply HasPrefix_append.
  assert (s = ("[" +++ name +++ "]: [" +++ value) +++ "]") as Es by (unfold s; by rewrite <-!append_assoc).
  assert (HasSuffix s "]" = true) as -> by (apply HasSuffix_spec; eauto).
  cbn [negb orb]. unfold s. rewrite TrimPrefix_append.
  assert (TrimSuffix (name +++ "]: [" +++ value +++ "]") "]" = name +++ "]: [" +++ value) as ->.
  { assert (name +++ "]: [" +++ value +++ "]" = (name +++ "]: [" +++ value) +++ "]") as -> by by rewrite <-!append_assoc.
    apply TrimSuffix_append. }
  rewrite (Cut_spec name value "]: [" "]"%char ": [") by done.
  by apply String.eqb_neq in Hne as ->.
Qed.

Lemma contains_false_append s t c : contains s c = false → contains t c = false → contains (s +++ t) c = false.
Proof. intros H1 H2. by rewrite contains_append, H1, H2. Qed.

Lemma getprop_line_no_LF p : printable_prop p → contains (getprop_line p) LF = false.
Proof.
  intros (_ & _ & H1 & H2 & _). unfold getprop_line. repeat apply contains_false_append; done.
Qed.

(** The end of a line: LF, or CR LF as a terminal makes of it. *)
Lemma TrimSuffix_CR_line p : TrimSuffix (getprop_line p) (String CR "") = getprop_line p.
Proof.
  destruct (TrimSuffix_spec (getprop_line p) (String CR "")) as [(t & E & _)|[_ ->]]; [|done].
  exfalso. unfold getprop_line in E.
  assert (("[" +++ p.1 +++ "]: [" +++ p.2) +++ "]" = t +++ String CR "") as E2 by (rewrite <-E; by rewrite <-!append_assoc).
  apply append_inj_len in E2 as [_ E2]; [by vm_compute in E2|].
  apply (f_equal String.length) in E2. rewrite (length_append _ "]"), (length_append t) in E2.
  cbn [String.length] in E2. lia.
Qed.

(** Parsing what [getprop] prints gives back the property map, with LF and
    with CR LF line ends, for any number of properties (a name printed twice
    takes its last value): names without a closing bracket or line feed, values
    without a line feed, lines that fit the scanner. *)
Theorem getprop_roundtrip (crlf_eol : bool) (props : list (string * string)) :
  Forall printable_prop props →
  parseGetPropOutput (getprop_output (if crlf_eol then String CR (String LF "") else String LF "") props) =
    Ok (foldl (λ m p, <[p.1 := p.2]> m) ∅ props).
Proof.
  intros Hp. set (eol := if crlf_eol then _ else _). unfold parseGetPropOutput.
  assert (∀ fuel n m, (String.length (getprop_output eol props) < fuel)%nat →
    parseGetProp_loop fuel (getprop_output eol props) n m = Ok (foldl (λ m p, <[p.1 := p.2]> m) m props)) as H;
    [|apply H; lia].
  induction Hp as [|p props Hp _ IH]; intros fuel n m Hf; (destruct fuel as [|fuel]; [lia|]); [done|].
  cbn [getprop_output foldl]. cbn [getprop_output] in Hf. rewrite !length_append in Hf.
  set (line := if crlf_eol then getprop_line p +++ String CR "" else getprop_line p).
  set (rest := getprop_output eol props) in *.
  assert (getprop_line p +++ eol +++ rest = line +++ String LF rest) as ->.
  { unfold line, eol. destruct crlf_eol; [|done]. by rewrite <-append_assoc. }
  assert (contains line LF = false) as Hlf.
  { unfold line. pose proof (getprop_line_no_LF p Hp). destruct crlf_eol; [|done]. by apply contains_false_append. }
  assert (IndexByte (line +++ String LF rest) LF = Some (String.length line)) as Hi by by apply IndexByte_first.
  cbn [parseGetProp_loop]. unfold scan_line, too_long. rewrite Hi.
  assert (∃ x y, line +++ String LF rest = String x y) as (x & y & Exy).
  { unfold line. destruct crlf_eol; eexists _, _; reflexivity. }
  rewrite Exy. rewrite <-Exy. rewrite str_take_append, str_drop_S_append.
  assert ((MaxScanTokenSize <=? String.length line)%nat = false) as ->.
  { apply Nat.leb_gt. destruct Hp as (_ & _ & _ & _ & Hl). unfold line.
    destruct crlf_eol; rewrite ?length_append; cbn [String.length]; lia. }
  assert (TrimSuffix (TrimSuffix line (String CR "")) (String CR "") = getprop_line p) as ->.
  { unfold line. destruct crlf_eol; [rewrite TrimSuffix_append|rewrite TrimSuffix_CR_line]; apply TrimSuffix_CR_line. }
  change (getprop_line p =? "")%string with false. cbn iota.
  rewrite parseGetPropLine_line by apply Hp. destruct p as [name value]. apply IH.
  destruct crlf_eol; simpl in Hf |- *; lia.
Qed.

Lemma getprop_roundtrip_witness :
  parseGetPropOutput (getprop_output (String CR (String LF "")) [("ro.product.model", "Pixel [7]"); ("a.b", "")])
  = Ok (foldl (λ m p, <[p.1 := p.2]> m) ∅ [("ro.product.model", "Pixel [7]"); ("a.b", "")]).
Proof.
  apply (getprop_roundtrip true). constructor; [|constructor; [|constructor]];
    (split_and!; [done | done | done | done | apply Nat.ltb_lt; vm_compute; reflexivity]).
Defined.
