(* ===== verification/Services.v ===== *)
(** * client: services of a connected device

    The methods of [Client] that open a service, run it to its end and close
    it: shell (client.go), logcat, reboot, getprop, screencap and install.
    A device is the list of outcomes of the next opens (each a stream: what
    will be read from it, and its writing end) and the log of the sessions so
    far.  Theorems hold of every device. *)

From S2P Require Import Prelude Errors GoStrings Strconv GoIO Message Handshake Sync Text.

#[local] Open Scope string_scope.
#[local] Open Scope Z_scope.
#[local] Open Scope list_scope.

(** ** io.Copy *)

(** [io.Copy(dst, src)] with a buffer of 32 KiB. *)
Definition copy_buffer : nat := 32 * 1024.

Definition copy_chunk `{io_Writer V} (v : V) (bs : list byte) : V * option error :=
  if (0 <? length bs)%nat then
    let '(v, (n, err)) := Write v bs in
    (v, match err with
        | Some e => Some e
        | None => if (n =? length bs)%nat then None else Some (Sentinel io_ErrShortWrite)
        end)
  else (v, None).

Fixpoint io_Copy_loop `{io_Writer V} (fuel : nat) (v : V) (r : Reader) : option (V * option error) :=
  match fuel with
  | O => None
  | S fuel =>
      let '(r, (bs, readErr)) := Read r copy_buffer in
      let '(v, werr) := copy_chunk v bs in
      match werr with
      | Some err => Some (v, Some err)
      | None =>
          match readErr with
          | Some err => Some (v, if bool_decide (err = Sentinel io_EOF) then None else Some err)
          | None => io_Copy_loop fuel v r
          end
      end
  end.

Definition io_Copy `{io_Writer V} (v : V) (r : Reader) : option (V * option error) :=
  io_Copy_loop (S (length (rd_bytes r) + length (rd_chunks r))) v r.

(** [bytes.Buffer] and [strings.Builder]. *)
Record Buffer := mkBuffer { buf_bytes : list byte }.
#[global] Instance buffer_write : io_Writer Buffer := λ b p,
  (mkBuffer (buf_bytes b ++ p), (length p, None)).
#[global] Program Instance buffer_write_ok : WriterOk Buffer := {| written := buf_bytes |}.
Next Obligation. intros b p b' n e [= <- <- <-]. simpl. split; [done|]. by rewrite firstn_all. Qed.

(** ** The device *)

Section services.
Context `{io_Writer W}.

Record Device := mkDevice {
  dev_opens : list (res (Reader * W));   (* what the next opens give *)
  dev_log : list (string * option W);    (* services opened, with what was written *)
}.

(** [c.OpenService]; a client without a connection is [None]. *)
Definition OpenService (ctx : Context_) (c : option Device) (service : string)
    : option Device * res (Reader * W) :=
  match c with
  | None => (None, Err (Sentinel protocol_ErrDeviceClosed))
  | Some d =>
      match ctx_entry ctx with
      | Some err => (c, Err err)
      | None =>
          match dev_opens d with
          | [] => (c, Err (Sentinel protocol_ErrDeviceClosed))
          | outcome :: opens =>
              (Some (mkDevice opens (dev_log d ++ [(service, None)])), outcome)
          end
      end
  end.

(** [stream.Close()] of the session opened last, with its final writing end. *)
Definition close_service (w : W) (c : option Device) : option Device :=
  match c with
  | None => None
  | Some d =>
      match reverse (dev_log d) with
      | (service, _) :: log => Some (mkDevice (dev_opens d) (reverse log ++ [(service, Some w)]))
      | [] => c
      end
  end.

(** ** client.go: Shell and ShellStream *)

(** [None] as the writer is a nil [stdout]. *)
Definition ShellStream `{io_Writer V} (ctx : Context_) (c : option Device) (cmd : string) (stdout : option V)
    : option (option Device * option V * option error) :=
  match stdout with
  | None => Some (c, None, Some (Errorf "adb shell stdout writer is nil" []))
  | Some v =>
      match OpenService ctx c ("shell:" +++ cmd) with
      | (c, Err err) => Some (c, Some v, Some err)
      | (c, Ok (r, w)) =>
          match io_Copy v r with
          | None => None
          | Some (v, err) =>
              Some (close_service w c, Some v,
                match ctx_failing ctx, err with
                | Some ctxErr, _ => Some (ErrorfW "adb shell %q canceled: %w" [AStr cmd] ctxErr)
                | None, Some err => Some (ErrorfW "adb shell %q: %w" [AStr cmd] err)
                | None, None => None
                end)
          end
      end
  end.

Definition Shell (ctx : Context_) (c : option Device) (cmd : string)
    : option (option Device * res (list byte)) :=
  match ShellStream ctx c cmd (Some (mkBuffer [])) with
  | None => None
  | Some (c, _, Some err) => Some (c, Err err)
  | Some (c, v, None) => Some (c, Ok (match v with Some b => buf_bytes b | None => [] end))
  end.

(** ** logcat.go, reboot.go, properties.go *)

Definition Logcat `{io_Writer V} (ctx : Context_) (c : option Device) (stdout : option V) (dump : bool)
    : option (option Device * option V * option error) :=
  match stdout with
  | None => Some (c, None, Some (Errorf "adb logcat stdout writer is nil" []))
  | Some _ =>
      match ShellStream ctx c (logcatCommand dump) stdout with
      | None => None
      | Some (c, v, Some err) => Some (c, v, Some (ErrorfW "adb logcat: %w" [] err))
      | Some (c, v, None) => Some (c, v, None)
      end
  end.

(** [Stream.Close] always returns nil. *)
Definition Reboot (ctx : Context_) (c : option Device) (mode : string) : option Device * option error :=
  match rebootService mode with
  | Err err => (c, Some err)
  | Ok service =>
      match OpenService ctx c service with
      | (c, Err err) => (c, Some (ErrorfW "adb reboot %s: %w" [AStr (rebootModeLabel mode)] err))
      | (c, Ok (_, w)) => (close_service w c, None)
      end
  end.

Definition GetProp (ctx : Context_) (c : option Device) (name : string)
    : option (option Device * res string) :=
  match Shell ctx c ("getprop " +++ shellQuote name) with
  | None => None
  | Some (c, Err err) => Some (c, Err (ErrorfW "adb getprop %q: %w" [AStr name] err))
  | Some (c, Ok out) =>
      Some (c, match parseGetPropValue (string_of out) with
               | Err err => Err (ErrorfW "adb getprop %q: %w" [AStr name] err)
               | Ok value => Ok value
               end)
  end.

Definition Properties (ctx : Context_) (c : option Device)
    : option (option Device * res (gmap string string)) :=
  match Shell ctx c "getprop" with
  | None => None
  | Some (c, Err err) => Some (c, Err (ErrorfW "adb getprop: %w" [] err))
  | Some (c, Ok out) =>
      Some (c, match parseGetPropOutput (string_of out) with
               | Err err => Err (ErrorfW "adb getprop: %w" [] err)
               | Ok props => Ok props
               end)
  end.

(** ** screencap.go *)

Definition Screencap (ctx : Context_) (c : option Device) : option (option Device * res (list byte)) :=
  match Shell ctx c "screencap -p" with
  | None => None
  | Some (c, Err err) => Some (c, Err (ErrorfW "adb screencap: %w" [] err))
  | Some (c, Ok out) => Some (c, Ok (normalizeScreencapPNG out))
  end.

Definition os_Remove (path : string) (fs : FS) : FS :=
  with_files (delete path (fs_files fs)) (fs_free fs) fs.

(** The deferred function removes the file unless everything went well. *)
Definition ScreencapFile (ctx : Context_) (c : option Device) (localPath : string) (fs : FS)
    : option (option Device * FS * option error) :=
  match Screencap ctx c with
  | None => None
  | Some (c, Err err) => Some (c, fs, Some err)
  | Some (c, Ok png) =>
      Some match os_OpenFile localPath false fs with
      | (fs, Some err) =>
          (c, fs, Some (ErrorfW "adb screencap destination %q: %w" [AStr localPath]
            (if errors_Is err os_ErrExist then Sentinel client_ErrDestinationExists else err)))
      | (fs, None) =>
          match file_Write localPath png fs with
          | (fs, Some err) =>
              (c, os_Remove localPath fs,
               Some (ErrorfW "write adb screencap destination %q: %w" [AStr localPath] err))
          | (fs, None) =>
              match fs_close_err fs with
              | Some err =>
                  (c, os_Remove localPath fs,
                   Some (ErrorfW "close adb screencap destination %q: %w" [AStr localPath] err))
              | None => (c, fs, None)
              end
          end
      end
  end.

(** ** install.go *)

(** [c.PushFile] over the device's sync: service. *)
Definition device_PushFile (ctx : Context_) (c : option Device) (src : Source) (localPath remotePath : string)
    : option (option Device * option error) :=
  match push_checks ctx src localPath remotePath with
  | Some err => Some (c, Some err)
  | None =>
      match OpenService ctx c "sync:" with
      | (c, Err err) => Some (c, Some err)
      | (c, Ok (r, w)) =>
          match push_session ctx src localPath remotePath r w with
          | Some (w, err) => Some (close_service w c, err)
          | None => None
          end
      end
  end.

Definition pm_command (replace : bool) (remotePath : string) : string :=
  Join (["pm"; "install"] ++ (if replace then ["-r"] else []) ++ [shellQuote remotePath]) " ".

(** Running the package manager on the pushed file, and the deferred clean-up,
    which runs in its own context. *)
Definition run_pm (ctx cleanup : Context_) (c : option Device) (localPath remotePath : string) (replace : bool)
    : option (option Device * option error) :=
  match ShellStream ctx c (pm_command replace remotePath) (Some (mkBuffer [])) with
  | None => None
  | Some (c, v, err) =>
      let output := string_of (match v with Some b => buf_bytes b | None => [] end) in
      let result :=
        match err with
        | Some err =>
            Some (if negb (TrimSpace output =? "")%string
                  then ErrorfW "adb install apk %q: run package manager: %w; output: %s"
                         [AStr localPath; AStr (formatPMOutput output)] err
                  else ErrorfW "adb install apk %q: run package manager: %w" [AStr localPath] err)
        | None =>
            if pmInstallSucceeded output then None
            else Some (Errorf "adb install apk %q: package manager failed: %s"
                         [AStr localPath; AStr (formatPMOutput output)])
        end in
      match Shell cleanup c ("rm -f -- " +++ shellQuote remotePath) with
      | None => None
      | Some (c, _) => Some (c, result)
      end
  end.

(** [remotePath] is what [makeInstallRemotePath] generated. *)
Definition InstallAPKWithOptions (ctx cleanup : Context_) (c : option Device) (src : Source)
    (localPath remotePath : string) (replace : bool) : option (option Device * option error) :=
  match ctx_entry ctx with
  | Some err => Some (c, Some err)
  | None =>
      if (localPath =? "")%string then Some (c, Some (Errorf "adb install apk local path is empty" [])) else
      match device_PushFile ctx c src localPath remotePath with
      | None => None
      | Some (c, Some err) =>
          Some (c, Some (ErrorfW "adb install apk %q: push temporary APK: %w" [AStr localPath] err))
      | Some (c, None) => run_pm ctx cleanup c localPath remotePath replace
      end
  end.

Definition InstallAPK (ctx cleanup : Context_) (c : option Device) (src : Source) (localPath remotePath : string) :=
  InstallAPKWithOptions ctx cleanup c src localPath remotePath false.
End services.
Arguments Device W : clear implicits.

(** ** Copying a stream to its end *)

(** The result of draining a stream into a buffer. *)
Definition copied (r : Reader) : option error :=
  if bool_decide (rd_end r = Sentinel io_EOF) then None else Some (rd_end r).

Lemma io_Copy_loop_buffer fuel b r :
  (length (rd_bytes r) + length (rd_chunks r) < fuel)%nat →
  io_Copy_loop fuel (mkBuffer b) r = Some (mkBuffer (b ++ rd_bytes r), copied r).
Proof.
  revert b r. induction fuel as [|fuel IH]; intros b r Hf; [lia|]. cbn [io_Copy_loop].
  assert (∀ bs, copy_chunk (mkBuffer b) bs = (mkBuffer (b ++ bs), None)) as Hwrite.
  { intros bs. unfold copy_chunk, Write, buffer_write. cbn [buf_bytes]. rewrite Nat.eqb_refl.
    destruct bs; simpl; [by rewrite app_nil_r | done]. }
  unfold Read. destruct r as [[|c cs] fin]; unfold rd_bytes, copied in *; cbn [rd_chunks rd_end concat length] in *.
  - rewrite Hwrite. by case_bool_decide.
  - rewrite length_app in Hf. destruct (Nat.leb_spec (length c) copy_buffer) as [|Hgt]; rewrite Hwrite.
    + rewrite IH; [|cbn [rd_chunks]; lia]. unfold rd_bytes, copied; cbn [rd_chunks rd_end]. by rewrite <-app_assoc.
    + rewrite IH.
      * unfold rd_bytes, copied; cbn [rd_chunks rd_end concat].
        rewrite <-(app_assoc b), (app_assoc (take copy_buffer c)), take_drop. done.
      * cbn [rd_chunks concat length]. rewrite length_app, length_drop.
        assert (0 < copy_buffer)%nat by (unfold copy_buffer; lia). lia.
Qed.

Lemma io_Copy_buffer b r : io_Copy (mkBuffer b) r = Some (mkBuffer (b ++ rd_bytes r), copied r).
Proof. apply io_Copy_loop_buffer. lia. Qed.

(** ** Sessions *)

Section sessions.
Context `{io_Writer W}.
Implicit Types d : Device W.

(** The services opened so far. *)
Definition services_of d : list string := (dev_log d).*1.

Lemma close_service_logged service opens log (w : W) :
  close_service w (Some (mkDevice opens (log ++ [(service, None)]))) =
  Some (mkDevice opens (log ++ [(service, Some w)])).
Proof. unfold close_service. cbn [dev_log dev_opens]. rewrite reverse_app. simpl. by rewrite reverse_involutive. Qed.

(** Running a shell command on a device whose next open gives [outcome]. *)
Lemma Shell_spec ctx d cmd outcome opens :
  ctx_entry ctx = None → dev_opens d = outcome :: opens →
  ∃ d', Shell ctx (Some d) cmd = Some (Some d',
      match outcome with
      | Err err => Err err
      | Ok (r, _) =>
          match ctx_failing ctx, copied r with
          | Some ctxErr, _ => Err (ErrorfW "adb shell %q canceled: %w" [AStr cmd] ctxErr)
          | None, Some err => Err (ErrorfW "adb shell %q: %w" [AStr cmd] err)
          | None, None => Ok (rd_bytes r)
          end
      end) ∧
    dev_opens d' = opens ∧ services_of d' = services_of d ++ ["shell:" +++ cmd].
Proof.
  intros Hctx Hd. unfold Shell, ShellStream, OpenService. rewrite Hctx, Hd.
  destruct outcome as [[r w]|e].
  - rewrite io_Copy_buffer, close_service_logged. cbn [app buf_bytes].
    destruct (ctx_failing ctx) as [e|]; [|destruct (copied r)]; eexists; (split; [done|]);
      (split; [done|]); unfold services_of; cbn [dev_log]; by rewrite fmap_app.
  - eexists. split; [done|]. split; [done|]. unfold services_of; cbn [dev_log]. by rewrite fmap_app.
Qed.

(** [Shell] opens one ["shell:<cmd>"] service and returns exactly the
    bytes the device sent until it closed the stream; a canceled context, a
    stream that breaks, and a service that cannot be opened are errors that
    match their cause. *)
Theorem shell_returns_the_output ctx d cmd outcome opens :
  ctx_entry ctx = None → dev_opens d = outcome :: opens →
  ∃ d' result, Shell ctx (Some d) cmd = Some (Some d', result) ∧
    services_of d' = services_of d ++ ["shell:" +++ cmd] ∧
    match outcome, ctx_failing ctx with
    | Err e, _ => result = Err e
    | Ok (r, _), Some e => ∃ err, result = Err err ∧ ∀ t, errors_Is err t = errors_Is e t
    | Ok (r, _), None =>
        if bool_decide (rd_end r = Sentinel io_EOF) then result = Ok (rd_bytes r)
        else ∃ err, result = Err err ∧ ∀ t, errors_Is err t = errors_Is (rd_end r) t
    end.
Proof.
  intros Hctx Hd. destruct (Shell_spec ctx d cmd outcome opens Hctx Hd) as (d' & -> & _ & Hs).
  do 2 eexists. split; [done|]. split; [done|]. unfold copied.
  destruct outcome as [[r w]|e]; [|done].
  destruct (ctx_failing ctx) as [e|]; [by eexists|]. case_bool_decide; [done|by eexists].
Qed.

Lemma pm_command_words (replace : bool) remotePath :
  sh_words (pm_command replace remotePath) =
  Some (["pm"; "install"] ++ (if replace then ["-r"] else []) ++ [remotePath]).
Proof.
  unfold pm_command. rewrite !app_assoc.
  assert (Forall (λ w, plain w = true ∧ w ≠ "") (["pm"; "install"] ++ (if replace then ["-r"] else []))) as Hw
    by (destruct replace; repeat constructor; done).
  revert Hw. generalize (["pm"; "install"] ++ (if replace then ["-r"] else [])) as words. intros words Hw.
  unfold sh_words. induction Hw as [|w words [Hp Hne] Hw IH]; cbn [app].
  - cbn [Join]. rewrite <-(append_nil_r (shellQuote _)). by rewrite sh_loop_shellQuote.
  - assert (Join (w :: words ++ [shellQuote remotePath]) " " = w +++ String " " (Join (words ++ [shellQuote remotePath]) " ")) as ->
      by (by destruct words).
    rewrite sh_loop_plain, sh_loop_blank by done. by rewrite IH.
Qed.

(** What the package manager's session says. *)
Definition pm_verdict ctx (outcome : res (Reader * W)) : bool :=
  match outcome with
  | Ok (r, _) =>
      match ctx_failing ctx, copied r with
      | None, None => pmInstallSucceeded (string_of (rd_bytes r))
      | _, _ => false
      end
  | Err _ => false
  end.

Lemma services_of_snoc opens log (x : string * option W) :
  services_of (mkDevice opens (log ++ [x])) = log.*1 ++ [x.1].
Proof. unfold services_of. cbn [dev_log]. by rewrite fmap_app. Qed.

Lemma run_pm_spec ctx cleanup d localPath remotePath (replace : bool) o2 o3 opens :
  ctx_entry ctx = None → ctx_entry cleanup = None → dev_opens d = o2 :: o3 :: opens →
  ∃ d' err, run_pm ctx cleanup (Some d) localPath remotePath replace = Some (Some d', err) ∧
    services_of d' = services_of d ++ ["shell:" +++ pm_command replace remotePath;
                                       "shell:rm -f -- " +++ shellQuote remotePath] ∧
    (err = None ↔ pm_verdict ctx o2 = true).
Proof.
  intros Hctx Hcl Hd. unfold run_pm, ShellStream at 1, OpenService at 1. rewrite Hctx, Hd.
  destruct o2 as [[r2 w2]|e2]; [rewrite io_Copy_buffer, close_service_logged|]; cbn [app buf_bytes];
    (match goal with |- context [Shell cleanup (Some ?d2) ?cmd] =>
      destruct (Shell_spec cleanup d2 cmd o3 opens Hcl eq_refl) as (d3 & -> & _ & Hs) end);
    rewrite services_of_snoc, <-app_assoc in Hs; do 2 eexists; (split; [done|]); (split; [exact Hs|]).
  - unfold pm_verdict. destruct (ctx_failing ctx); [by split|]. destruct (copied r2); [by split|].
    by destruct (pmInstallSucceeded _).
  - by split.
Qed.

(** An installation pushes the APK, runs [pm install] on the pushed file
    and then always removes that file, whatever the package manager said (the
    command's words are the package manager's, with the remote path as one of
    them); it succeeds exactly when the package manager's session ended
    normally with output that starts with "Success".  If the push fails no
    command is run. *)
Theorem install_cleans_up ctx cleanup d src localPath remotePath (replace : bool) o1 o2 o3 opens :
  ctx_entry ctx = None → ctx_entry cleanup = None → localPath ≠ "" →
  push_checks ctx src localPath remotePath = None →
  dev_opens d = o1 :: o2 :: o3 :: opens →
  ∃ d' err, InstallAPKWithOptions ctx cleanup (Some d) src localPath remotePath replace = Some (Some d', err) ∧
    sh_words (pm_command replace remotePath) =
      Some (["pm"; "install"] ++ (if replace then ["-r"] else []) ++ [remotePath]) ∧
    (services_of d' = services_of d ++ ["sync:"] ∧ (∃ e, err = Some e) ∨
     services_of d' = services_of d ++ ["sync:"; "shell:" +++ pm_command replace remotePath;
                                        "shell:rm -f -- " +++ shellQuote remotePath] ∧
     (err = None ↔ pm_verdict ctx o2 = true)).
Proof.
  intros Hctx Hcl Hl Hchk Hd. unfold InstallAPKWithOptions, device_PushFile. rewrite Hctx, Hchk.
  apply String.eqb_neq in Hl as ->. unfold OpenService. rewrite Hctx, Hd.
  destruct o1 as [[r w]|e].
  2: { do 2 eexists. split; [done|]. split; [apply pm_command_words|]. left.
       split; [apply services_of_snoc|by eexists]. }
  destruct (push_session_total ctx src localPath remotePath r w) as (w' & [e|] & ->); rewrite close_service_logged.
  { do 2 eexists. split; [done|]. split; [apply pm_command_words|]. left.
    split; [apply services_of_snoc|by eexists]. }
  match goal with |- context [run_pm ctx cleanup (Some ?d1)] =>
    destruct (run_pm_spec ctx cleanup d1 localPath remotePath replace o2 o3 opens Hctx Hcl eq_refl)
      as (d' & err & -> & Hs & Herr) end.
  do 2 eexists. split; [done|]. split; [apply pm_command_words|]. right.
  rewrite services_of_snoc, <-app_assoc in Hs. by split.
Qed.
End sessions.

(** [ScreencapFile] is all or nothing.  It never changes a file that was
    already there, and after an error (of the device, of the context, or of
    creating, writing or closing the file) every file is as it was before; on
    success the destination holds exactly the picture and nothing else
    changed. *)
Theorem screencap_file_all_or_nothing `{io_Writer W} ctx (d : Device W) localPath fs outcome opens :
  ctx_entry ctx = None → dev_opens d = outcome :: opens →
  ∃ d' fs' err, ScreencapFile ctx (Some d) localPath fs = Some (Some d', fs', err) ∧
  match err with
  | Some _ => fs_files fs' = fs_files fs
  | None => fs_files fs !! localPath = None ∧
      ∃ r w, outcome = Ok (r, w) ∧
        fs_files fs' = <[localPath := normalizeScreencapPNG (rd_bytes r)]> (fs_files fs)
  end.
Proof.
  intros Hctx Hd. unfold ScreencapFile, Screencap.
  destruct (Shell_spec ctx d "screencap -p" outcome opens Hctx Hd) as (d' & -> & _).
  destruct outcome as [[r w]|e]; [|by do 3 eexists].
  destruct (ctx_failing ctx); [by do 3 eexists|]. destruct (copied r); [by do 3 eexists|].
  unfold os_OpenFile. destruct (fs_open_err fs localPath); [by do 3 eexists|].
  destruct (fs_files fs !! localPath) as [c|] eqn:Hc; [by do 3 eexists|].
  set (png := normalizeScreencapPNG (rd_bytes r)). set (fs1 := with_files _ _ fs).
  destruct (file_Write localPath png fs1) as [fs2 err] eqn:Ew.
  apply file_Write_appended in Ew as (n & Happ & Herr). destruct Happ as (Hf & _ & _ & _ & Hcl).
  unfold fs1 in Hf; cbn [fs_files with_files] in Hf. rewrite lookup_insert_eq, insert_insert_eq in Hf.
  assert (delete localPath (fs_files fs2) = fs_files fs) as Hdel.
  { rewrite Hf. by apply delete_insert_id. }
  destruct err as [e|]; [by do 3 eexists|].
  destruct (fs_close_err fs2); [by do 3 eexists|].
  do 3 eexists. split; [done|]. split; [done|]. exists r, w. split; [done|].
  by rewrite Hf, Herr.
Qed.

(** ** A device for the witnesses *)

Definition answers (s : string) : res (Reader * SlowWriter) := Ok (of_bytes (bytes_of s), mkSlowWriter [] []).

Lemma shell_returns_the_output_witness :
  ∃ d', Shell Background (Some (mkDevice [answers "uid=0"] [])) "id" = Some (Some d', Ok (bytes_of "uid=0")).
Proof.
  destruct (shell_returns_the_output Background (mkDevice [answers "uid=0"] []) "id" (answers "uid=0") [] eq_refl eq_refl)
    as (d' & result & E & _ & Hr).
  exists d'. rewrite E. vm_compute in Hr. rewrite Hr. reflexivity.
Defined.

Definition demo_apk : Source := mkSource None None false 1 (of_bytes (bytes_of "apk")).
Definition demo_device : Device SlowWriter :=
  mkDevice [Ok (of_bytes (writeSyncHeaderTo syncIDOKAY 0), mkSlowWriter [] []);
            answers "Failure [INSTALL_FAILED]"; answers ""] [].

Lemma install_cleans_up_witness :
  ∃ d' err, InstallAPKWithOptions Background Background (Some demo_device) demo_apk "a.apk" "/data/local/tmp/x" true
    = Some (Some d', err) ∧ ∃ e, err = Some e.
Proof.
  destruct (install_cleans_up Background Background demo_device demo_apk "a.apk" "/data/local/tmp/x" true
    (Ok (of_bytes (writeSyncHeaderTo syncIDOKAY 0), mkSlowWriter [] []))
    (answers "Failure [INSTALL_FAILED]") (answers "") []) as (d' & err & E & _ & [[_ He]|[_ He]]);
    [done | done | done | done | done | |].
  - exists d', err. by split.
  - exists d', err. split; [exact E|]. destruct err as [e|]; [by eexists|].
    exfalso. destruct He as [He _]. specialize (He eq_refl). by vm_compute in He.
Defined.

Lemma screencap_file_all_or_nothing_witness :
  ∃ d' fs', ScreencapFile Background (Some (mkDevice [answers "png"] [])) "s.png" demo_fs
    = Some (Some d', fs', None) ∧ fs_files fs' = <["s.png" := bytes_of "png"]> ∅.
Proof.
  destruct (screencap_file_all_or_nothing Background (mkDevice [answers "png"] []) "s.png" demo_fs (answers "png") [])
    as (d' & fs' & err & E & Hf); [done | done |].
  assert (err = None) as ->.
  { vm_compute in E. injection E as _ _ <-. reflexivity. }
  destruct Hf as (_ & r & w & Hr & Hf). exists d', fs'. split; [exact E|].
  rewrite Hf. injection Hr as <- <-. reflexivity.
Defined.
