(* ===== verification/Auth.v ===== *)
(** * auth/auth.go: host credentials and the Android public-key format

    [encodeAndroidRSAPublicKey] with its Montgomery constants, the base64
    payload, and the checks of [NewCredentialWithComment], [ParsePrivateKey]
    and [LoadPrivateKey].  Big integers are [Z]; [math/big.ModInverse] and
    [base64.StdEncoding] are modelled, while PEM and X.509 parsing, key validation
    and reading a file are parameters. *)

From S2P Require Import Prelude Errors GoStrings Strconv GoIO.

#[local] Open Scope string_scope.
#[local] Open Scope Z_scope.
#[local] Open Scope list_scope.

Definition androidRSAModulusSizeWords : Z := 64.
Definition androidRSAModulusSizeBytes : Z := androidRSAModulusSizeWords * 4.
Definition defaultPublicKeyComment : string := "adb-go".

(** ** math/big *)

Definition BitLen (n : Z) : Z := if n =? 0 then 0 else Z.log2 (Z.abs n) + 1.

(** [n.Bytes()]: big-endian, without leading zeros. *)
Definition big_Bytes (n : Z) : list byte := rev (le_split (Z.to_nat ((BitLen n + 7) / 8)) n).

(** The extended Euclidean algorithm: [(g, x, y)] with [a x + b y = g]. *)
Fixpoint egcd (fuel : nat) (a b : Z) : Z * Z * Z :=
  match fuel with
  | O => (a, 1, 0)
  | S fuel =>
      if b =? 0 then (a, 1, 0) else
      let '(g, x, y) := egcd fuel b (a mod b) in (g, y, x - a / b * y)
  end.

(** [ModInverse(g, n)]: nil unless [g] and [n] are relatively prime. *)
Definition ModInverse (g n : Z) : option Z :=
  let '(d, x, _) := egcd (Z.to_nat (2 * BitLen n + 2)) g n in
  if d =? 1 then Some (x mod n) else None.

(** ** The key structure *)

Record PublicKey := mkPublicKey { pub_N : Z; pub_E : Z }.

Definition littleEndianFixed (n : Z) (size : nat) : list byte :=
  let be := big_Bytes n in
  take size (rev be) ++ repeat Byte.x00 (size - length be).

Definition montgomeryRR (n : Z) (modulusSizeBytes : nat) : list byte :=
  littleEndianFixed (Z.shiftl 1 (Z.of_nat modulusSizeBytes * 8 * 2) mod n) modulusSizeBytes.

Definition n0inv (n : Z) : res Z :=
  let mod32 := Z.shiftl 1 32 in
  match ModInverse (n mod mod32) mod32 with
  | None => Err (Errorf "adb auth RSA modulus is not invertible modulo 2^32" [])
  | Some inv => Ok (uint32 (0 - uint32 inv))
  end.

Definition encodeAndroidRSAPublicKey (key : option PublicKey) : res (list byte) :=
  match key with
  | None => Err (Errorf "adb auth RSA public key is nil" [])
  | Some key =>
      if negb (BitLen (pub_N key) =? androidRSAModulusSizeBytes * 8)
      then Err (Errorf "adb auth RSA key must be %d bits, got %d"
                  [AInt (androidRSAModulusSizeBytes * 8); AInt (BitLen (pub_N key))])
      else
        let modulus := littleEndianFixed (pub_N key) (Z.to_nat androidRSAModulusSizeBytes) in
        let rr := montgomeryRR (pub_N key) (Z.to_nat androidRSAModulusSizeBytes) in
        match n0inv (pub_N key) with
        | Err err => Err err
        | Ok n0 =>
            Ok (PutUint32 androidRSAModulusSizeWords ++ PutUint32 n0 ++ modulus ++ rr ++
                PutUint32 (uint32 (pub_E key)))
        end
  end.

(** ** base64.StdEncoding *)

Definition base64_alphabet : string := "ABCDEFGHIJKLMNOPQRSTUVWXYZabcdefghijklmnopqrstuvwxyz0123456789+/".
Definition base64_char (i : Z) : byte := byte_of_ascii (default "A"%char (String.get (Z.to_nat i) base64_alphabet)).

Definition byte_Z (b : byte) : Z := byte.unsigned b.

Fixpoint EncodeToString (bs : list byte) : list byte :=
  match bs with
  | a :: b :: c :: rest =>
      let v := byte_Z a * 65536 + byte_Z b * 256 + byte_Z c in
      base64_char (v / 262144) :: base64_char (v / 4096 mod 64) :: base64_char (v / 64 mod 64)
        :: base64_char (v mod 64) :: EncodeToString rest
  | [a; b] =>
      let v := byte_Z a * 65536 + byte_Z b * 256 in
      [base64_char (v / 262144); base64_char (v / 4096 mod 64); base64_char (v / 64 mod 64); Byte.x3d]
  | [a] =>
      let v := byte_Z a * 65536 in
      [base64_char (v / 262144); base64_char (v / 4096 mod 64); Byte.x3d; Byte.x3d]
  | [] => []
  end.

Definition encodePublicKeyPayload (key : option PublicKey) (comment : string) : res (list byte) :=
  match encodeAndroidRSAPublicKey key with
  | Err err => Err err
  | Ok adbKey => Ok (EncodeToString adbKey ++ bytes_of " " ++ bytes_of comment ++ [Byte.x00])
  end.

(** ** Credentials *)

(** [*rsa.PrivateKey], with what its [Validate] method returns. *)
Record PrivateKey := mkPrivateKey { key_Public : PublicKey; key_Validate : option error }.

Record Credential := mkCredential { cred_privateKey : PrivateKey; cred_publicKeyPayload : list byte }.

Definition control_chars : list ascii := [ascii_of_nat 0; ascii_of_nat 13; ascii_of_nat 10].

Definition NewCredentialWithComment (key : option PrivateKey) (comment : string) : res Credential :=
  match key with
  | None => Err (Errorf "adb auth RSA private key is nil" [])
  | Some key =>
      match key_Validate key with
      | Some err => Err (ErrorfW "adb auth RSA private key is invalid: %w" [] err)
      | None =>
          let pub := key_Public key in
          if negb (BitLen (pub_N pub) =? androidRSAModulusSizeBytes * 8)
          then Err (Errorf "adb auth RSA key must be %d bits, got %d"
                      [AInt (androidRSAModulusSizeBytes * 8); AInt (BitLen (pub_N pub))])
          else if pub_E pub <=? 0 then Err (Errorf "adb auth RSA public exponent must be positive" [])
          else if ContainsAny comment control_chars
          then Err (Errorf "adb auth public key comment contains an invalid control character" [])
          else
            let comment := TrimSpace comment in
            let comment := if (comment =? "")%string then defaultPublicKeyComment else comment in
            match encodePublicKeyPayload (Some pub) comment with
            | Err err => Err err
            | Ok payload => Ok (mkCredential key payload)
            end
      end
  end.

Definition NewCredential (key : option PrivateKey) : res Credential :=
  NewCredentialWithComment key defaultPublicKeyComment.

(** What [x509.ParsePKCS8PrivateKey] may return. *)
Inductive pkcs8_key := PKCS8_RSA (key : PrivateKey) | PKCS8_Other (type : string).

Section parsing.
(** [pem.Decode(bytes.TrimSpace(data))]: the block's type and contents. *)
Context (pem_Decode : list byte → option (string * list byte)).
Context (ParsePKCS1PrivateKey : list byte → res PrivateKey).
Context (ParsePKCS8PrivateKey : list byte → res pkcs8_key).
Context (os_ReadFile : string → res (list byte)).

(** [strings.Contains(s, "ENCRYPTED")] *)
Fixpoint string_contains (s sub : string) : bool :=
  HasPrefix s sub || match s with "" => false | String _ s => string_contains s sub end.

Definition ParsePrivateKey (data : list byte) : res Credential :=
  match pem_Decode data with
  | None => Err (Errorf "adb auth private key is not PEM encoded" [])
  | Some (type, block) =>
      if string_contains type "ENCRYPTED"
      then Err (Errorf "adb auth encrypted private keys are not supported" [])
      else if (type =? "RSA PRIVATE KEY")%string then
        match ParsePKCS1PrivateKey block with
        | Err err => Err (ErrorfW "parse PKCS#1 RSA private key: %w" [] err)
        | Ok key => NewCredential (Some key)
        end
      else if (type =? "PRIVATE KEY")%string then
        match ParsePKCS8PrivateKey block with
        | Err err => Err (ErrorfW "parse PKCS#8 private key: %w" [] err)
        | Ok (PKCS8_Other t) => Err (Errorf "adb auth private key is %T, not *rsa.PrivateKey" [AStr t])
        | Ok (PKCS8_RSA key) => NewCredential (Some key)
        end
      else Err (Errorf "adb auth unsupported PEM block type %q" [AStr type])
  end.

Definition LoadPrivateKey (path : string) : res Credential :=
  let path := TrimSpace path in
  if (path =? "")%string then Err (Errorf "adb auth private key path is empty" []) else
  match os_ReadFile path with
  | Err err => Err (ErrorfW "read adb auth private key %q: %w" [AStr path] err)
  | Ok data =>
      match ParsePrivateKey data with
      | Err err => Err (ErrorfW "parse adb auth private key %q: %w" [AStr path] err)
      | Ok cred => Ok cred
      end
  end.
End parsing.

(** [PublicKeyPayload] of a nil credential is nil. *)
Definition PublicKeyPayload (c : option Credential) : list byte :=
  match c with Some c => cred_publicKeyPayload c | None => [] end.

(** ** Modular inverses *)

Lemma egcd_bezout fuel a b :
  let '(g, x, y) := egcd fuel a b in a * x + b * y = g.
Proof.
  revert a b. induction fuel as [|fuel IH]; intros a b; simpl; [lia|].
  destruct (Z.eqb_spec b 0); [lia|]. specialize (IH b (a mod b)).
  destruct (egcd fuel b (a mod b)) as [[g x] y].
  pose proof (Z.div_mod a b n). nia.
Qed.

(** Two rounds halve the second argument. *)
Lemma egcd_gcd k a b :
  0 <= a → 0 <= b < 2 ^ Z.of_nat k →
  ∀ fuel, (2 * k + 1 ≤ fuel)%nat → (egcd fuel a b).1.1 = Z.gcd a b.
Proof.
  revert a b. induction k as [|k IH]; intros a b Ha Hb fuel Hf.
  - assert (b = 0) as -> by (simpl in Hb; lia). destruct fuel; [lia|]. simpl. rewrite Z.gcd_0_r. lia.
  - destruct fuel as [|[|fuel]]; [lia..|]. cbn [egcd].
    destruct (Z.eqb_spec b 0) as [->|Hb0]; [simpl; rewrite Z.gcd_0_r; lia|].
    pose proof (Z.mod_pos_bound a b ltac:(lia)) as Hm.
    assert (Z.gcd a b = Z.gcd b (a mod b)) as Hg by (rewrite (Z.gcd_comm b), Z.gcd_mod by lia; apply Z.gcd_comm).
    destruct (Z.eqb_spec (a mod b) 0) as [Hz|Hz].
    { simpl. rewrite Hg, Hz, Z.gcd_0_r. lia. }
    pose proof (Z.mod_pos_bound b (a mod b) ltac:(lia)) as Hm2.
    assert (Z.gcd b (a mod b) = Z.gcd (a mod b) (b mod (a mod b))) as Hg2
      by (rewrite (Z.gcd_comm (a mod b)), Z.gcd_mod by lia; apply Z.gcd_comm).
    assert (2 * (b mod (a mod b)) < b) as Hhalf.
    { pose proof (Z.div_mod b (a mod b) ltac:(lia)). 
      assert (1 <= b / (a mod b)) by (apply Z.div_le_lower_bound; lia). nia. }
    specialize (IH (a mod b) (b mod (a mod b)) ltac:(lia)).
    rewrite Nat2Z.inj_succ, Z.pow_succ_r in Hb by lia.
    specialize (IH ltac:(lia) fuel ltac:(lia)).
    destruct (egcd fuel (a mod b) (b mod (a mod b))) as [[g x] y]. simpl in *. congruence.
Qed.

Lemma BitLen_bound n : 0 <= n → n < 2 ^ BitLen n.
Proof.
  intros Hn. unfold BitLen. destruct (Z.eqb_spec n 0) as [->|]; [done|].
  rewrite Z.abs_eq by done. apply Z.log2_spec. lia.
Qed.

Lemma BitLen_nonneg n : 0 <= BitLen n.
Proof. unfold BitLen. destruct (n =? 0); [done|]. pose proof (Z.log2_nonneg (Z.abs n)). lia. Qed.

Lemma ModInverse_spec g n :
  0 <= g → 0 < n →
  match ModInverse g n with
  | Some x => 0 <= x < n ∧ (g * x) mod n = 1 mod n
  | None => Z.gcd g n ≠ 1
  end.
Proof.
  intros Hg Hn. unfold ModInverse.
  pose proof (egcd_bezout (Z.to_nat (2 * BitLen n + 2)) g n) as Hb.
  pose proof (egcd_gcd (Z.to_nat (BitLen n)) g n Hg) as Hgcd.
  rewrite Z2Nat.id in Hgcd by apply BitLen_nonneg.
  specialize (Hgcd ltac:(split; [lia|apply BitLen_bound; lia]) (Z.to_nat (2 * BitLen n + 2)) ltac:(pose proof (BitLen_nonneg n); lia)).
  destruct (egcd _ g n) as [[d x] y]. simpl in Hgcd. destruct (Z.eqb_spec d 1); [|congruence].
  split; [by apply Z.mod_pos_bound|]. rewrite Z.mul_mod_idemp_r by lia.
  replace (g * x) with (1 + (- y) * n) by lia. by rewrite Z.mod_add by lia.
Qed.

(** ** The number fields *)

Lemma length_big_Bytes n : length (big_Bytes n) = Z.to_nat ((BitLen n + 7) / 8).
Proof. unfold big_Bytes. by rewrite length_rev, length_le_split. Qed.

Lemma littleEndianFixed_spec n size :
  0 <= n < 2 ^ (8 * Z.of_nat size) →
  length (littleEndianFixed n size) = size ∧ le_combine (littleEndianFixed n size) = n.
Proof.
  intros Hn.
  assert (BitLen n <= 8 * Z.of_nat size) as Hbl.
  { unfold BitLen. destruct (Z.eqb_spec n 0); [lia|]. rewrite Z.abs_eq by lia.
    assert (Z.log2 n < 8 * Z.of_nat size); [|lia]. apply Z.log2_lt_pow2; lia. }
  assert (n < 2 ^ (8 * ((BitLen n + 7) / 8))) as Hfit.
  { eapply Z.lt_le_trans; [apply BitLen_bound; lia|]. apply Z.pow_le_mono_r; [lia|].
    pose proof (Z.div_mod (BitLen n + 7) 8 ltac:(lia)).
    pose proof (Z.mod_pos_bound (BitLen n + 7) 8 ltac:(lia)). lia. }
  assert (0 <= (BitLen n + 7) / 8 <= Z.of_nat size) as Hk.
  { split; [apply Z.div_pos; [pose proof (BitLen_nonneg n)|]; lia|].
    apply Z.lt_succ_r, Z.div_lt_upper_bound; lia. }
  unfold littleEndianFixed. rewrite length_big_Bytes. unfold big_Bytes. rewrite rev_involutive.
  rewrite firstn_all2 by (rewrite length_le_split; lia). split.
  - rewrite length_app, length_le_split, repeat_length. lia.
  - rewrite le_combine_app_0, le_combine_split, Z.mod_small; [done|].
    rewrite Z2Nat.id by lia. rewrite Z.mul_comm. lia.
Qed.

(** How a device reads the key: [ANDROID_PUBKEY_ENCODED_SIZE] is 524 bytes. *)
Record AndroidKey := mkAndroidKey {
  ak_words : Z; ak_n0inv : Z; ak_modulus : Z; ak_rr : Z; ak_exponent : Z;
}.

Definition decode_android_key (bs : list byte) : option AndroidKey :=
  if negb (length bs =? 524)%nat then None else
  Some (mkAndroidKey (Uint32 bs) (Uint32 (drop 4 bs)) (le_combine (take 256 (drop 8 bs)))
          (le_combine (take 256 (drop 264 bs))) (Uint32 (drop 520 bs))).

Lemma n0inv_spec n :
  match n0inv n with
  | Ok v => is_uint32 v ∧ (n * v) mod 2 ^ 32 = 2 ^ 32 - 1
  | Err _ => Z.gcd (n mod 2 ^ 32) (2 ^ 32) ≠ 1
  end.
Proof.
  unfold n0inv. change (Z.shiftl 1 32) with (2 ^ 32).
  pose proof (Z.mod_pos_bound n (2 ^ 32) ltac:(lia)) as Hm.
  pose proof (ModInverse_spec (n mod 2 ^ 32) (2 ^ 32) ltac:(lia) ltac:(lia)) as Hi.
  destruct (ModInverse (n mod 2 ^ 32) (2 ^ 32)) as [x|]; [|done]. destruct Hi as [Hx Hi].
  split; [apply uint32_range|]. unfold uint32.
  rewrite (Z.mod_small x) by lia. rewrite Z.mul_mod_idemp_r by lia.
  rewrite Z.mul_mod_idemp_l in Hi by lia.
  replace (n * (0 - x)) with (- (n * x)) by lia. rewrite Z.mod_opp_l_nz; rewrite ?Hi; done || lia.
Qed.

Lemma odd_coprime n : Z.gcd (n mod 2 ^ 32) (2 ^ 32) = 1 ↔ Z.odd n = true.
Proof.
  rewrite Z.gcd_mod, Z.gcd_comm by lia. split.
  - intros Hg. destruct (Z.odd n) eqn:Ho; [done|]. exfalso.
    assert (2 | Z.gcd n (2 ^ 32)) as [k Hk]; [|lia].
    apply Z.gcd_greatest; [|by exists (2 ^ 31)].
    apply Z.mod_divide; [lia|]. rewrite Zmod_odd, Ho. done.
  - intros Ho. change (2 ^ 32) with (2 ^ (Z.of_nat 32)). generalize 32%nat as k. intros k.
    induction k as [|k IH]; [apply Z.gcd_1_r|].
    rewrite Nat2Z.inj_succ, Z.pow_succ_r by lia. apply Z.coprime_mul_r; [|done].
    unfold Z.coprime.
    rewrite Z.gcd_comm, <-Z.gcd_mod by lia. by rewrite Zmod_odd, Ho.
Qed.

Lemma skip_take_app {A} (l k : list A) n : length l = n → drop n (l ++ k) = k ∧ take n (l ++ k) = l.
Proof. intros <-. by rewrite drop_app_length, take_app_length. Qed.

(** The device's reader on the five fields. *)
Lemma decode_fields w x (m rr : list byte) e :
  length m = 256%nat → length rr = 256%nat →
  decode_android_key (PutUint32 w ++ PutUint32 x ++ m ++ rr ++ PutUint32 e) =
  Some (mkAndroidKey (uint32 w) (uint32 x) (le_combine m) (le_combine rr) (uint32 e)).
Proof.
  intros Lm Lr. unfold decode_android_key.
  set (W := PutUint32 w). set (X := PutUint32 x). set (E := PutUint32 e).
  assert (length W = 4%nat ∧ length X = 4%nat ∧ length E = 4%nat) as (Lw & Lx & Le)
    by (split_and!; apply length_PutUint32).
  rewrite !length_app, Lw, Lx, Lm, Lr, Le.
  destruct (skip_take_app W (X ++ m ++ rr ++ E) 4 Lw) as [D1 _].
  assert (drop 8 (W ++ X ++ m ++ rr ++ E) = m ++ rr ++ E) as D2.
  { rewrite app_assoc. apply (skip_take_app (W ++ X) _ 8). by rewrite length_app, Lw, Lx. }
  assert (drop 264 (W ++ X ++ m ++ rr ++ E) = rr ++ E) as D3.
  { rewrite !app_assoc, <-(app_assoc _ rr E). apply (skip_take_app ((W ++ X) ++ m) _ 264).
    by rewrite !length_app, Lw, Lx, Lm. }
  assert (drop 520 (W ++ X ++ m ++ rr ++ E) = E) as D4.
  { rewrite !app_assoc. apply (skip_take_app (((W ++ X) ++ m) ++ rr) E 520).
    by rewrite !length_app, Lw, Lx, Lm, Lr. }
  rewrite D1, D2, D3, D4. unfold W, X.
  destruct (skip_take_app m (rr ++ E) 256 Lm) as [_ ->].
  destruct (skip_take_app rr E 256 Lr) as [_ ->].
  rewrite <-(app_nil_r E). unfold E. by rewrite !Uint32_PutUint32.
Qed.

Lemma encode_decodes (key : PublicKey) :
  0 < pub_N key →
  match encodeAndroidRSAPublicKey (Some key) with
  | Ok bs => BitLen (pub_N key) = 2048 ∧ Z.odd (pub_N key) = true ∧
      ∃ k, decode_android_key bs = Some k ∧ ak_words k = 64 ∧ ak_modulus k = pub_N key ∧
        (pub_N key * ak_n0inv k) mod 2 ^ 32 = 2 ^ 32 - 1 ∧
        ak_rr k = 2 ^ 4096 mod pub_N key ∧ ak_exponent k = pub_E key mod 2 ^ 32
  | Err _ => BitLen (pub_N key) ≠ 2048 ∨ Z.odd (pub_N key) = false
  end.
Proof.
  intros HN. unfold encodeAndroidRSAPublicKey.
  change (androidRSAModulusSizeBytes * 8) with 2048.
  destruct (Z.eqb_spec (BitLen (pub_N key)) 2048) as [Hb|Hb]; cbn [negb]; [|by left].
  pose proof (n0inv_spec (pub_N key)) as Hn0. pose proof (odd_coprime (pub_N key)) as Hodd.
  destruct (n0inv (pub_N key)) as [v|e].
  2: { right. destruct (Z.odd (pub_N key)); [|done]. tauto. }
  destruct Hn0 as [Hv Hn0]. split; [done|].
  assert (Z.odd (pub_N key) = true) as Ho.
  { destruct (Z.odd (pub_N key)) eqn:E; [done|]. exfalso.
    apply (f_equal Z.odd) in Hn0. rewrite <-!Z.bit0_odd, Z.mod_pow2_bits_low, Z.bit0_odd, Z.odd_mul, E in Hn0 by lia.
    done. }
  split; [done|]. change (Z.to_nat androidRSAModulusSizeBytes) with 256%nat.
  destruct (littleEndianFixed_spec (pub_N key) 256) as [Lm Vm].
  { split; [lia|]. change (8 * Z.of_nat 256) with 2048. rewrite <-Hb. apply BitLen_bound. lia. }
  assert (0 <= 2 ^ 4096 mod pub_N key < pub_N key) as Hrr by by apply Z.mod_pos_bound.
  assert (montgomeryRR (pub_N key) 256 = littleEndianFixed (2 ^ 4096 mod pub_N key) 256) as -> by done.
  destruct (littleEndianFixed_spec (2 ^ 4096 mod pub_N key) 256) as [Lr Vr].
  { split; [lia|]. change (8 * Z.of_nat 256) with 2048. rewrite <-Hb.
    pose proof (BitLen_bound (pub_N key)). lia. }
  eexists. split; [by apply decode_fields|]. cbn [ak_words ak_n0inv ak_modulus ak_rr ak_exponent].
  rewrite (uint32_small v) by done. split_and!; [done | done | done | done |].
  unfold uint32. by rewrite Z.mod_mod.
Qed.

(** C40: the Android public-key structure.  A key is encodable exactly when its
    modulus has 2048 bits and is odd; the device then reads back, from exactly
    524 bytes, 64 words, the modulus itself, the constant [n0inv] with
    [n * n0inv = -1] modulo 2^32, the constant [rr = 2^4096] modulo [n], and
    the exponent modulo 2^32. *)
Theorem android_key_decodes (key : PublicKey) :
  0 < pub_N key →
  match encodeAndroidRSAPublicKey (Some key) with
  | Ok bs => BitLen (pub_N key) = 2048 ∧ Z.odd (pub_N key) = true ∧
      ∃ k, decode_android_key bs = Some k ∧ ak_words k = 64 ∧ ak_modulus k = pub_N key ∧
        (pub_N key * ak_n0inv k) mod 2 ^ 32 = 2 ^ 32 - 1 ∧
        ak_rr k = 2 ^ 4096 mod pub_N key ∧ ak_exponent k = pub_E key mod 2 ^ 32
  | Err _ => BitLen (pub_N key) ≠ 2048 ∨ Z.odd (pub_N key) = false
  end.
Proof. apply encode_decodes. Qed.

Definition demo_key : PublicKey := mkPublicKey (2 ^ 2047 + 1) 65537.

Lemma android_key_decodes_witness :
  ∃ bs k, encodeAndroidRSAPublicKey (Some demo_key) = Ok bs ∧ decode_android_key bs = Some k ∧
    ak_modulus k = 2 ^ 2047 + 1 ∧ ak_exponent k = 65537 mod 2 ^ 32.
Proof.
  pose proof (android_key_decodes demo_key eq_refl) as H.
  destruct (encodeAndroidRSAPublicKey (Some demo_key)) as [bs|e].
  - destruct H as (_ & _ & k & Hk & _ & Hm & _ & _ & He). exists bs, k. by split_and!.
  - exfalso. destruct H as [H|H]; [apply H; by vm_compute | by vm_compute in H].
Defined.

(** ** base64 *)

(** The inverse of the alphabet. *)
Fixpoint base64_index (c : ascii) (s : string) (i : Z) : option Z :=
  match s with
  | "" => None
  | String a s => if Ascii.eqb a c then Some i else base64_index c s (i + 1)
  end.
Definition base64_value (b : byte) : option Z := base64_index (ascii_of_byte b) base64_alphabet 0.

(** A decoder of groups of four characters, with padding in the last one. *)
Fixpoint DecodeString (cs : list byte) : option (list byte) :=
  match cs with
  | [] => Some []
  | p :: q :: r :: s :: rest =>
      a ← base64_value p; b ← base64_value q;
      if bool_decide (r = Byte.x3d) then
        if bool_decide (s = Byte.x3d) && bool_decide (rest = []) then
          Some [byte.of_Z ((a * 64 + b) / 16)]
        else None
      else
        c ← base64_value r;
        if bool_decide (s = Byte.x3d) then
          if bool_decide (rest = []) then
            let v := a * 4096 + b * 64 + c in
            Some [byte.of_Z (v / 1024); byte.of_Z (v / 4 mod 256)]
          else None
        else
          d ← base64_value s; tl ← DecodeString rest;
          let v := a * 262144 + b * 4096 + c * 64 + d in
          Some (byte.of_Z (v / 65536) :: byte.of_Z (v / 256 mod 256) :: byte.of_Z (v mod 256) :: tl)
  | _ => None
  end.

Lemma base64_value_char i : 0 <= i < 64 → base64_value (base64_char i) = Some i ∧ base64_char i ≠ Byte.x3d.
Proof.
  intros Hi.
  assert (Forall (λ n, base64_value (base64_char (Z.of_nat n)) = Some (Z.of_nat n) ∧
    base64_char (Z.of_nat n) ≠ Byte.x3d) (seq 0 64)) as H by (repeat constructor; by vm_compute).
  rewrite Forall_forall in H. specialize (H (Z.to_nat i)). rewrite Z2Nat.id in H by lia.
  apply H, elem_of_seq. lia.
Qed.

Lemma byte_Z_range b : 0 <= byte_Z b < 256.
Proof. unfold byte_Z. pose proof (byte.unsigned_range b). lia. Qed.

Lemma of_byte_Z b z : z = byte_Z b → byte.of_Z z = b.
Proof. intros ->. apply byte.of_Z_unsigned. Qed.

(** One group of 24 bits. *)
Lemma sextets v : 0 <= v < 16777216 →
  0 <= v / 262144 < 64 ∧ 0 <= v / 4096 mod 64 < 64 ∧ 0 <= v / 64 mod 64 < 64 ∧ 0 <= v mod 64 < 64 ∧
  v / 262144 * 262144 + v / 4096 mod 64 * 4096 + v / 64 mod 64 * 64 + v mod 64 = v.
Proof. intros Hv. Z.to_euclidean_division_equations. lia. Qed.

Ltac base64_bytes := apply of_byte_Z; Z.to_euclidean_division_equations; lia.

Lemma base64_group_1 a : DecodeString (EncodeToString [a]) = Some [a].
Proof.
  pose proof (byte_Z_range a). cbn [EncodeToString].
  destruct (sextets (byte_Z a * 65536)) as (H1 & H2 & H3 & H4 & Hv); [lia|]. cbn [DecodeString].
  destruct (base64_value_char _ H1) as [-> N1], (base64_value_char _ H2) as [-> N2].
  simpl. do 2 f_equal. clear -H. base64_bytes.
Qed.

Lemma base64_group_2 a b : DecodeString (EncodeToString [a; b]) = Some [a; b].
Proof.
  pose proof (byte_Z_range a) as Ha. pose proof (byte_Z_range b) as Hb. cbn [EncodeToString].
  destruct (sextets (byte_Z a * 65536 + byte_Z b * 256)) as (H1 & H2 & H3 & H4 & Hv); [lia|]. cbn [DecodeString].
  destruct (base64_value_char _ H1) as [-> N1], (base64_value_char _ H2) as [-> N2],
    (base64_value_char _ H3) as [-> N3].
  cbn [mbind option_bind]. rewrite bool_decide_eq_false_2 by done. simpl. clear -Ha Hb.
  do 2 f_equal; [base64_bytes|]. f_equal. base64_bytes.
Qed.

Lemma base64_group_3 a b c rest tl :
  DecodeString (EncodeToString rest) = Some tl →
  DecodeString (EncodeToString (a :: b :: c :: rest)) = Some (a :: b :: c :: tl).
Proof.
  intros Htl. pose proof (byte_Z_range a) as Ha. pose proof (byte_Z_range b) as Hb.
  pose proof (byte_Z_range c) as Hc. cbn [EncodeToString].
  destruct (sextets (byte_Z a * 65536 + byte_Z b * 256 + byte_Z c)) as (H1 & H2 & H3 & H4 & Hv); [lia|].
  cbn [DecodeString].
  destruct (base64_value_char _ H1) as [-> N1], (base64_value_char _ H2) as [-> N2],
    (base64_value_char _ H3) as [-> N3], (base64_value_char _ H4) as [-> N4].
  cbn [mbind option_bind]. rewrite !bool_decide_eq_false_2 by done. rewrite Htl. cbn [mbind option_bind].
  rewrite Hv. clear -Ha Hb Hc. do 2 f_equal; [base64_bytes|]. f_equal; [base64_bytes|]. f_equal. base64_bytes.
Qed.

Lemma base64_roundtrip bs : DecodeString (EncodeToString bs) = Some bs.
Proof.
  assert (∀ n bs, (length bs ≤ n)%nat → DecodeString (EncodeToString bs) = Some bs) as H; [|by eapply H].
  clear bs. induction n as [|n IH]; intros bs Hl; [by destruct bs; [|simpl in Hl; lia]|].
  destruct bs as [|a [|b [|c bs]]]; [done | apply base64_group_1 | apply base64_group_2 |].
  apply base64_group_3, IH. simpl in Hl. lia.
Qed.

(** Credentials.  One is built exactly when the key is valid, has an odd
    modulus of 2048 bits and a positive exponent, and the comment has no NUL,
    CR or LF.  Its payload is, up to the one NUL that ends it, a base64 field
    that decodes to the Android structure of that key, a space, and the
    trimmed comment, or [adb-go] when nothing is left of it. *)
Theorem credential_payload (key : PrivateKey) (comment : string) :
  0 < pub_N (key_Public key) →
  match NewCredentialWithComment (Some key) comment with
  | Ok cred =>
      key_Validate key = None ∧ 0 < pub_E (key_Public key) ∧ ContainsAny comment control_chars = false ∧
      cred_privateKey cred = key ∧
      ∃ encoded bs k text, PublicKeyPayload (Some cred) = encoded ++ bytes_of (" " +++ text) ++ [Byte.x00] ∧
        DecodeString encoded = Some bs ∧ decode_android_key bs = Some k ∧
        ak_modulus k = pub_N (key_Public key) ∧
        text = (if (TrimSpace comment =? "")%string then "adb-go" else TrimSpace comment)
  | Err _ =>
      key_Validate key ≠ None ∨ BitLen (pub_N (key_Public key)) ≠ 2048 ∨
      Z.odd (pub_N (key_Public key)) = false ∨ pub_E (key_Public key) <= 0 ∨
      ContainsAny comment control_chars = true
  end.
Proof.
  intros HN. unfold NewCredentialWithComment.
  destruct (key_Validate key) as [e|]; [by left|].
  change (androidRSAModulusSizeBytes * 8) with 2048.
  destruct (Z.eqb_spec (BitLen (pub_N (key_Public key))) 2048) as [Hb|Hb]; cbn [negb]; [|auto].
  destruct (Z.leb_spec (pub_E (key_Public key)) 0); [auto|].
  destruct (ContainsAny comment control_chars); [auto|].
  set (text := if (TrimSpace comment =? "")%string then _ else _).
  unfold encodePublicKeyPayload. pose proof (encode_decodes (key_Public key) HN) as Hk.
  destruct (encodeAndroidRSAPublicKey (Some (key_Public key))) as [bs|e].
  - destruct Hk as (_ & _ & k & Hd & _ & Hm & _). split_and!; [done..|].
    exists (EncodeToString bs), bs, k, text. split_and!; [|apply base64_roundtrip|done..].
    cbn [PublicKeyPayload cred_publicKeyPayload]. by rewrite bytes_of_append, <-!app_assoc.
  - destruct Hk as [?|?]; [done|]. auto.
Qed.

Lemma credential_payload_witness :
  ∃ cred encoded, NewCredentialWithComment (Some (mkPrivateKey demo_key None)) " me@host " = Ok cred ∧
    PublicKeyPayload (Some cred) = encoded ++ bytes_of (" me@host") ++ [Byte.x00].
Proof.
  pose proof (credential_payload (mkPrivateKey demo_key None) " me@host " eq_refl) as H.
  destruct (NewCredentialWithComment (Some (mkPrivateKey demo_key None)) " me@host ") as [cred|e].
  - destruct H as (_ & _ & _ & _ & encoded & bs & k & text & Hp & _ & _ & _ & Ht).
    exists cred, encoded. split; [done|]. rewrite Hp, Ht. reflexivity.
  - exfalso. vm_compute in H. repeat destruct H as [H|H]; done.
Defined.
