(* ===== verification/Usb.v ===== *)
(** * internal/usb and client/usb.go: discovery, selection and bulk transport

    The parser of USB descriptors, discovery over a directory walk, the
    selection of one candidate by [USBOptions], and the state of the Linux
    bulk transport over an [ioctl] that may fail.  Bytes of a descriptor are
    kept as [byte]; numbers read from them as [Z]. *)

From S2P Require Import Prelude Errors GoStrings Strconv GoIO.

#[local] Open Scope string_scope.
#[local] Open Scope Z_scope.
#[local] Open Scope list_scope.

(** ** types.go *)

Definition ADBInterfaceClass : Z := 0xff.
Definition ADBInterfaceSubClass : Z := 0x42.
Definition ADBInterfaceProtocol : Z := 0x01.
Definition EndpointDirectionIn : Z := 0x80.
Definition EndpointTransferMask : Z := 0x03.
Definition EndpointTransferBulk : Z := 0x02.

Record Candidate := mkCandidate {
  cand_DevicePath : string;
  cand_BusNumber : Z;
  cand_DeviceNumber : Z;
  cand_VendorID : Z;
  cand_ProductID : Z;
  cand_InterfaceNumber : Z;
  cand_BulkInEndpoint : Z;
  cand_BulkOutEndpoint : Z;
}.

(** ** descriptor.go *)

Definition descriptorTypeDevice : Z := 0x01.
Definition descriptorTypeConfiguration : Z := 0x02.
Definition descriptorTypeInterface : Z := 0x04.
Definition descriptorTypeEndpoint : Z := 0x05.

Record interfaceDescriptor := mkInterface { if_number : Z; if_class : Z; if_subclass : Z; if_protocol : Z }.
Record endpointDescriptor := mkEndpoint { ep_address : Z; ep_attributes : Z }.
Record candidateBuilder := mkBuilder { cb_iface : interfaceDescriptor; cb_bulkIn : Z; cb_bulkOut : Z }.

(** [desc[i]] as a number, where [i] is in range. *)
Definition at_byte (desc : list byte) (i : nat) : Z := byte.unsigned (nth i desc Byte.x00).

Definition parseInterfaceDescriptor (desc : list byte) : option interfaceDescriptor :=
  if (length desc <? 9)%nat then None
  else Some (mkInterface (at_byte desc 2) (at_byte desc 5) (at_byte desc 6) (at_byte desc 7)).

Definition parseEndpointDescriptor (desc : list byte) : option endpointDescriptor :=
  if (length desc <? 7)%nat then None
  else Some (mkEndpoint (at_byte desc 2) (at_byte desc 3)).

Definition isADBInterface (iface : interfaceDescriptor) : bool :=
  (if_class iface =? ADBInterfaceClass) && (if_subclass iface =? ADBInterfaceSubClass) &&
  (if_protocol iface =? ADBInterfaceProtocol).

Definition isBulkEndpoint (ep : endpointDescriptor) : bool :=
  Z.land (ep_attributes ep) EndpointTransferMask =? EndpointTransferBulk.

(** The variables of [ParseADBCandidates]. *)
Record scan_state := mkScan {
  sc_vendorID : Z; sc_productID : Z; sc_active : option candidateBuilder; sc_candidates : list Candidate;
}.

Section parser.
Context (devicePath : string) (busNumber deviceNumber : Z).

Definition flush (st : scan_state) : scan_state :=
  match sc_active st with
  | None => st
  | Some active =>
      mkScan (sc_vendorID st) (sc_productID st) None
        (if negb (cb_bulkIn active =? 0) && negb (cb_bulkOut active =? 0)
         then sc_candidates st ++
              [mkCandidate devicePath busNumber deviceNumber (sc_vendorID st) (sc_productID st)
                 (if_number (cb_iface active)) (cb_bulkIn active) (cb_bulkOut active)]
         else sc_candidates st)
  end.

(** One descriptor of at least two bytes; [desc] starts at [offset]. *)
Definition scan_descriptor (offset : Z) (desc : list byte) (st : scan_state) : res scan_state :=
  let typ := at_byte desc 1 in
  if typ =? descriptorTypeDevice then
    if (length desc <? 18)%nat
    then Err (Errorf "usb device descriptor at offset %d length %d too short"
                [AInt offset; AInt (Z.of_nat (length desc))])
    else Ok (mkScan (Uint16 (drop 8 desc)) (Uint16 (drop 10 desc)) (sc_active st) (sc_candidates st))
  else if typ =? descriptorTypeConfiguration then Ok (flush st)
  else if typ =? descriptorTypeInterface then
    let st := flush st in
    Ok match parseInterfaceDescriptor desc with
       | Some iface =>
           if isADBInterface iface
           then mkScan (sc_vendorID st) (sc_productID st) (Some (mkBuilder iface 0 0)) (sc_candidates st)
           else st
       | None => st
       end
  else if typ =? descriptorTypeEndpoint then
    Ok match sc_active st with
       | Some active =>
           match parseEndpointDescriptor desc with
           | Some ep =>
               if isBulkEndpoint ep then
                 let active :=
                   if negb (Z.land (ep_address ep) EndpointDirectionIn =? 0)
                   then mkBuilder (cb_iface active) (ep_address ep) (cb_bulkOut active)
                   else mkBuilder (cb_iface active) (cb_bulkIn active) (ep_address ep) in
                 mkScan (sc_vendorID st) (sc_productID st) (Some active) (sc_candidates st)
               else st
           | None => st
           end
       | None => st
       end
  else Ok st.

(** The loop from [offset] on: [data] is what remains.  [None] is a panic:
    [desc[1]] of a descriptor of length 1. *)
Fixpoint scan_loop (fuel : nat) (total offset : Z) (data : list byte) (st : scan_state)
    : option (res scan_state) :=
  match fuel, data with
  | _, [] | O, _ => Some (Ok st)
  | S fuel, b :: _ =>
      let len := byte.unsigned b in
      if len =? 0 then Some (Err (Errorf "usb descriptor at offset %d has zero length" [AInt offset]))
      else if Z.of_nat (length data) <? len
      then Some (Err (Errorf "usb descriptor at offset %d length %d exceeds data length %d"
                        [AInt offset; AInt len; AInt total]))
      else if len =? 1 then None
      else
        match scan_descriptor offset (take (Z.to_nat len) data) st with
        | Err err => Some (Err err)
        | Ok st => scan_loop fuel total (offset + len) (drop (Z.to_nat len) data) st
        end
  end.

Definition ParseADBCandidates (data : list byte) : option (res (list Candidate)) :=
  if (length data <? 2)%nat then Some (Err (Errorf "usb descriptor data too short" [])) else
  match scan_loop (length data) (Z.of_nat (length data)) 0 data (mkScan 0 0 None []) with
  | None => None
  | Some (Err err) => Some (Err err)
  | Some (Ok st) => Some (Ok (sc_candidates (flush st)))
  end.
End parser.

(** ** discovery_linux.go *)

(** An entry of the directory walk: its path, [filepath.Rel(root, path)], and
    what reading it gives. *)
Record walk_entry := mkWalk {
  we_path : string; we_err : option error; we_dir : bool; we_rel : res string; we_read : res (list byte);
}.

(** [filepath.Dir] of a clean relative path, and [filepath.Base]. *)
Definition rel_Dir (rel : string) : string :=
  match LastIndexByte rel "/"%char with Some i => str_take i rel | None => "." end.
Definition rel_Base (rel : string) : string :=
  match LastIndexByte rel "/"%char with Some i => str_drop (S i) rel | None => rel end.

Definition parseLinuxDevicePath (rel : res string) : option (Z * Z) :=
  match rel with
  | Err _ => None
  | Ok rel =>
      let busText := rel_Dir rel in
      let devText := rel_Base rel in
      if (busText =? ".")%string || (busText =? "/")%string || (devText =? ".")%string then None else
      match Atoi busText, Atoi devText with
      | Ok bus, Ok dev => Some (bus, dev)
      | _, _ => None
      end
  end.

Fixpoint walk_loop (ctx_err : option error) (entries : list walk_entry) (found : list Candidate)
    : option (res (list Candidate)) :=
  match entries with
  | [] => Some (Ok found)
  | e :: entries =>
      match we_err e, ctx_err with
      | Some err, _ | None, Some err => Some (Err err)
      | None, None =>
          if we_dir e then walk_loop ctx_err entries found else
          match parseLinuxDevicePath (we_rel e) with
          | None => walk_loop ctx_err entries found
          | Some (bus, dev) =>
              match we_read e with
              | Err err => Some (Err (ErrorfW "adb usb read descriptors %s: %w" [AStr (we_path e)] err))
              | Ok data =>
                  match ParseADBCandidates (we_path e) bus dev data with
                  | None => None
                  | Some (Err err) => Some (Err (ErrorfW "adb usb parse descriptors %s: %w" [AStr (we_path e)] err))
                  | Some (Ok cs) => walk_loop ctx_err entries (found ++ cs)
                  end
              end
          end
      end
  end.

(** [ctx_err] is the context's error during the walk. *)
Definition DiscoverADBInRoot (ctx_entry ctx_err : option error) (root : string) (entries : list walk_entry)
    : option (res (list Candidate)) :=
  match ctx_entry with
  | Some err => Some (Err err)
  | None =>
      match walk_loop ctx_err entries [] with
      | None => None
      | Some (Err err) => Some (Err (ErrorfW "adb usb discover %s: %w" [AStr root] err))
      | Some (Ok cs) => Some (Ok cs)
      end
  end.

Definition defaultDeviceRoot : string := "/dev/bus/usb".
Definition DiscoverADB (ctx_entry ctx_err : option error) := DiscoverADBInRoot ctx_entry ctx_err defaultDeviceRoot.

(** ** client/usb.go *)

Record USBDevice := mkUSBDevice {
  ud_DevicePath : string; ud_BusNumber : Z; ud_DeviceNumber : Z; ud_VendorID : Z; ud_ProductID : Z;
  ud_InterfaceNumber : Z; ud_BulkInEndpoint : Z; ud_BulkOutEndpoint : Z;
}.

Record USBOptions := mkUSBOptions {
  uo_DevicePath : string; uo_BusNumber : Z; uo_DeviceNumber : Z; uo_VendorID : Z; uo_ProductID : Z;
  uo_Serial : string;
}.

Definition usbDeviceFromCandidate (c : Candidate) : USBDevice :=
  mkUSBDevice (cand_DevicePath c) (cand_BusNumber c) (cand_DeviceNumber c) (cand_VendorID c)
    (cand_ProductID c) (cand_InterfaceNumber c) (cand_BulkInEndpoint c) (cand_BulkOutEndpoint c).

Definition unsupported (err : error) : error :=
  if errors_Is err usb_ErrUnsupported then Sentinel client_ErrUnsupported else err.

Definition ListUSBDevices (ctx_err : option error) (discovered : res (list Candidate)) : res (list USBDevice) :=
  match ctx_err with
  | Some err => Err err
  | None =>
      match discovered with
      | Err err => Err (unsupported err)
      | Ok candidates => Ok (usbDeviceFromCandidate <$> candidates)
      end
  end.

Definition validateUSBOptions (opts : USBOptions) : option error :=
  if negb (uo_Serial opts =? "")%string
  then Some (ErrorfW "adb usb serial selection %q: %w" [AStr (uo_Serial opts)] client_ErrUnsupported)
  else if negb (Bool.eqb (uo_BusNumber opts =? 0) (uo_DeviceNumber opts =? 0))
  then Some (Errorf "adb usb selection requires both BusNumber and DeviceNumber" [])
  else if negb (Bool.eqb (uo_VendorID opts =? 0) (uo_ProductID opts =? 0))
  then Some (Errorf "adb usb selection requires both VendorID and ProductID" [])
  else None.

Definition usbCandidateMatches (c : Candidate) (opts : USBOptions) : bool :=
  if negb (uo_DevicePath opts =? "")%string && negb (cand_DevicePath c =? uo_DevicePath opts)%string then false
  else if negb (uo_BusNumber opts =? 0) &&
    (negb (cand_BusNumber c =? uo_BusNumber opts) || negb (cand_DeviceNumber c =? uo_DeviceNumber opts)) then false
  else if negb (uo_VendorID opts =? 0) &&
    (negb (cand_VendorID c =? uo_VendorID opts) || negb (cand_ProductID c =? uo_ProductID opts)) then false
  else true.

Definition selectUSBCandidate (opts : USBOptions) (discovered : res (list Candidate)) : res Candidate :=
  match validateUSBOptions opts with
  | Some err => Err err
  | None =>
      match discovered with
      | Err err => Err (unsupported err)
      | Ok candidates =>
          match List.filter (λ c, usbCandidateMatches c opts) candidates with
          | [] => Err (Errorf "adb usb: no matching ADB USB device found" [])
          | [c] => Ok c
          | matches =>
              Err (Errorf "adb usb: %d matching ADB USB devices found; specify DevicePath, BusNumber/DeviceNumber, or VendorID/ProductID"
                     [AInt (Z.of_nat (length matches))])
          end
      end
  end.

(** [DialTransport] of the USB dialer; [open] is [usb.OpenBulkTransport]. *)
Definition usb_DialTransport {T} (open : Candidate → res T) (opts : USBOptions)
    (discovered : res (list Candidate)) : res T :=
  match selectUSBCandidate opts discovered with
  | Err err => Err err
  | Ok candidate =>
      match open candidate with
      | Err err => Err (unsupported err)
      | Ok transport => Ok transport
      end
  end.

(** ** bulk_linux.go *)

(** [_IOC]: direction, type, number and size in their bit fields. *)
Definition ioctl (dir typ nr size : Z) : Z :=
  Z.lor (Z.lor (Z.lor (Z.shiftl dir 30) (Z.shiftl typ 8)) (Z.shiftl nr 0)) (Z.shiftl size 16).

(** On a 64-bit system the transfer structure has 24 bytes. *)
Definition usbdevfsBulk : Z := ioctl 3 85 2 24.
Definition usbdevfsClaimInterface : Z := ioctl 2 85 15 4.
Definition usbdevfsReleaseInterface : Z := ioctl 2 85 16 4.

Definition validateBulkCandidate (c : Candidate) : option error :=
  if (cand_DevicePath c =? "")%string then Some (Errorf "adb usb open: device path is empty" [])
  else if Z.land (cand_BulkInEndpoint c) EndpointDirectionIn =? 0
  then Some (Errorf "adb usb open %s: bulk IN endpoint %#02x is not an IN endpoint"
               [AStr (cand_DevicePath c); AInt (cand_BulkInEndpoint c)])
  else if negb (Z.land (cand_BulkOutEndpoint c) EndpointDirectionIn =? 0)
  then Some (Errorf "adb usb open %s: bulk OUT endpoint %#02x is not an OUT endpoint"
               [AStr (cand_DevicePath c); AInt (cand_BulkOutEndpoint c)])
  else None.

(** What the kernel is asked to do: an ioctl with the interface or endpoint
    (and the length of a transfer), or closing the file. *)
Inductive usb_call :=
  | Ioctl (request arg length : Z)
  | CloseFile.

Record linuxBulkTransport := mkBulk {
  bt_path : string; bt_iface : Z; bt_inEndpoint : Z; bt_outEndpoint : Z;
  bt_closeDone : bool;                    (* closeOnce has run *)
  bt_closeErr : option error;
  bt_claimed : bool;
  bt_calls : list usb_call;
}.

(** The kernel: the outcome of each call. *)
Definition kernel : Type := usb_call → nat → res Z.

Section bulk.
Context (usbfs : kernel).

(** The outcome of the next call depends on the calls made so far. *)
Definition call (c : usb_call) (t : linuxBulkTransport) : linuxBulkTransport * res Z :=
  (mkBulk (bt_path t) (bt_iface t) (bt_inEndpoint t) (bt_outEndpoint t) (bt_closeDone t) (bt_closeErr t)
     (bt_claimed t) (bt_calls t ++ [c]), usbfs c (length (bt_calls t))).

Definition with_close (done : bool) (err : option error) (claimed : bool) (t : linuxBulkTransport) : linuxBulkTransport :=
  mkBulk (bt_path t) (bt_iface t) (bt_inEndpoint t) (bt_outEndpoint t) done err claimed (bt_calls t).

Definition claimInterface (t : linuxBulkTransport) : linuxBulkTransport * option error :=
  match call (Ioctl usbdevfsClaimInterface (bt_iface t) 0) t with
  | (t, Err err) =>
      (t, Some (ErrorfW "adb usb claim interface %d on %s: %w" [AInt (bt_iface t); AStr (bt_path t)] err))
  | (t, Ok _) => (with_close (bt_closeDone t) (bt_closeErr t) true t, None)
  end.

(** [open] is the outcome of [os.OpenFile]. *)
Definition OpenBulkTransport (ctx_err open : option error) (c : Candidate)
    : linuxBulkTransport * option error :=
  let t := mkBulk (cand_DevicePath c) (cand_InterfaceNumber c) (cand_BulkInEndpoint c)
             (cand_BulkOutEndpoint c) false None false [] in
  match ctx_err with
  | Some err => (t, Some err)
  | None =>
      match validateBulkCandidate c with
      | Some err => (t, Some err)
      | None =>
          match open with
          | Some err => (t, Some (ErrorfW "adb usb open %s: %w" [AStr (cand_DevicePath c)] err))
          | None =>
              match claimInterface t with
              | (t, Some err) => (fst (call CloseFile t), Some err)
              | (t, None) => (t, None)
              end
          end
      end
  end.

Definition bulk (endpoint n : Z) (t : linuxBulkTransport) : linuxBulkTransport * res Z :=
  match call (Ioctl usbdevfsBulk endpoint n) t with
  | (t, Err err) =>
      (t, Err (ErrorfW "adb usb bulk endpoint %#02x on %s: %w" [AInt endpoint; AStr (bt_path t)] err))
  | (t, Ok n) => (t, Ok n)
  end.

(** [Read] and [Write] with a buffer of [n] bytes. *)
Definition bulk_Read (n : Z) (t : linuxBulkTransport) : linuxBulkTransport * res Z :=
  if n =? 0 then (t, Ok 0) else bulk (bt_inEndpoint t) n t.
Definition bulk_Write (n : Z) (t : linuxBulkTransport) : linuxBulkTransport * res Z :=
  if n =? 0 then (t, Ok 0) else bulk (bt_outEndpoint t) n t.

Definition bulk_Close (t : linuxBulkTransport) : linuxBulkTransport * option error :=
  if bt_closeDone t then (t, bt_closeErr t) else
  let t :=
    if bt_claimed t then
      match call (Ioctl usbdevfsReleaseInterface (bt_iface t) 0) t with
      | (t, Err err) =>
          with_close true (Some (ErrorfW "adb usb release interface %d on %s: %w"
                                   [AInt (bt_iface t); AStr (bt_path t)] err)) false t
      | (t, Ok _) => with_close true (bt_closeErr t) false t
      end
    else with_close true (bt_closeErr t) (bt_claimed t) t in
  match call CloseFile t with
  | (t, Err err) =>
      let err' := match bt_closeErr t with
                  | None => Some (ErrorfW "adb usb close %s: %w" [AStr (bt_path t)] err)
                  | Some e => Some e
                  end in
      (with_close true err' (bt_claimed t) t, err')
  | (t, Ok _) => (t, bt_closeErr t)
  end.

Inductive bulk_op := OpRead (n : Z) | OpWrite (n : Z) | OpClose.

Definition bulk_step (op : bulk_op) (t : linuxBulkTransport) : linuxBulkTransport :=
  match op with
  | OpRead n => fst (bulk_Read n t)
  | OpWrite n => fst (bulk_Write n t)
  | OpClose => fst (bulk_Close t)
  end.
End bulk.

(** ** Descriptors of a device, and what is found in them *)

Record Endpoint := mkEp { e_address : byte; e_attributes : byte }.
Record Interface := mkIf {
  i_number : byte; i_class : byte; i_subclass : byte; i_protocol : byte; i_endpoints : list Endpoint;
}.

(** The wire format: sizes 18, 9, 9 and 7, types 1, 2, 4 and 5. *)
Definition device_descriptor (head : list byte) (vid pid : list byte) (tail : list byte) : list byte :=
  [Byte.x12; Byte.x01] ++ head ++ vid ++ pid ++ tail.
Definition configuration_descriptor (body : list byte) : list byte := [Byte.x09; Byte.x02] ++ body.
Definition interface_descriptor (i : Interface) : list byte :=
  [Byte.x09; Byte.x04; i_number i; Byte.x00; Byte.x00; i_class i; i_subclass i; i_protocol i; Byte.x00].
Definition endpoint_descriptor (e : Endpoint) : list byte :=
  [Byte.x07; Byte.x05; e_address e; e_attributes e; Byte.x00; Byte.x00; Byte.x00].

Definition interface_bytes (i : Interface) : list byte :=
  interface_descriptor i ++ concat (endpoint_descriptor <$> i_endpoints i).

Definition ub (b : byte) : Z := byte.unsigned b.

(** The bulk endpoints of an interface: the last of each direction. *)
Definition is_bulk (e : Endpoint) : bool := Z.land (ub (e_attributes e)) 3 =? 2.
Definition is_in (e : Endpoint) : bool := negb (Z.land (ub (e_address e)) 128 =? 0).
Definition last_address (es : list Endpoint) : Z :=
  match last es with Some e => ub (e_address e) | None => 0 end.
Definition bulk_in (i : Interface) : Z := last_address (List.filter (λ e, is_bulk e && is_in e) (i_endpoints i)).
Definition bulk_out (i : Interface) : Z := last_address (List.filter (λ e, is_bulk e && negb (is_in e)) (i_endpoints i)).

Definition is_adb (i : Interface) : bool :=
  (ub (i_class i) =? 0xff) && (ub (i_subclass i) =? 0x42) && (ub (i_protocol i) =? 0x01).

Definition candidate_of (path : string) (bus dev vid pid : Z) (i : Interface) : option Candidate :=
  if is_adb i && negb (bulk_in i =? 0) && negb (bulk_out i =? 0)
  then Some (mkCandidate path bus dev vid pid (ub (i_number i)) (bulk_in i) (bulk_out i)) else None.

Section scanning.
Context (path : string) (bus dev : Z).

Abbreviation scan := (scan_loop path bus dev).
Abbreviation flushed := (flush path bus dev).

(** One well-formed descriptor. *)
Lemma scan_cons fuel total offset d rest st st' :
  (2 ≤ length d)%nat → Z.of_nat (length d) = at_byte d 0 →
  scan_descriptor path bus dev offset d st = Ok st' →
  scan (S fuel) total offset (d ++ rest) st = scan fuel total (offset + at_byte d 0) rest st'.
Proof.
  intros Hl Hd Hs. destruct d as [|b d]; [cbn [length] in Hl; lia|].
  change (at_byte (b :: d) 0) with (byte.unsigned b) in *. cbn [app scan_loop].
  assert ((byte.unsigned b =? 0) = false) as -> by (apply Z.eqb_neq; lia).
  change (b :: d ++ rest) with ((b :: d) ++ rest).
  rewrite (proj2 (Z.ltb_ge _ _)) by (rewrite length_app; lia).
  assert ((byte.unsigned b =? 1) = false) as -> by (apply Z.eqb_neq; lia).
  assert (Z.to_nat (byte.unsigned b) = length (b :: d)) as -> by lia.
  rewrite take_app_length, drop_app_length. by rewrite Hs.
Qed.

Definition endpoint_step (b : candidateBuilder) (e : Endpoint) : candidateBuilder :=
  if is_bulk e then
    if is_in e then mkBuilder (cb_iface b) (ub (e_address e)) (cb_bulkOut b)
    else mkBuilder (cb_iface b) (cb_bulkIn b) (ub (e_address e))
  else b.

Definition with_active (a : option candidateBuilder) (st : scan_state) : scan_state :=
  mkScan (sc_vendorID st) (sc_productID st) a (sc_candidates st).

Lemma flush_active b st :
  sc_candidates (flushed (with_active (Some b) st)) =
    if negb (cb_bulkIn b =? 0) && negb (cb_bulkOut b =? 0)
    then sc_candidates st ++ [mkCandidate path bus dev (sc_vendorID st) (sc_productID st)
           (if_number (cb_iface b)) (cb_bulkIn b) (cb_bulkOut b)]
    else sc_candidates st.
Proof. done. Qed.

Lemma scan_endpoint offset e st :
  scan_descriptor path bus dev offset (endpoint_descriptor e) st =
  Ok (with_active ((λ b, endpoint_step b e) <$> sc_active st) st).
Proof.
  unfold scan_descriptor. change (at_byte (endpoint_descriptor e) 1) with 5.
  cbn [Z.eqb descriptorTypeDevice descriptorTypeConfiguration descriptorTypeInterface descriptorTypeEndpoint Pos.eqb].
  destruct st as [v p [b|] cs]; [|done]. unfold with_active. cbn [sc_active sc_vendorID sc_productID sc_candidates].
  change (parseEndpointDescriptor (endpoint_descriptor e)) with
    (Some (mkEndpoint (ub (e_address e)) (ub (e_attributes e)))).
  unfold isBulkEndpoint, endpoint_step, is_bulk, is_in. cbn [ep_address ep_attributes fmap option_fmap option_map].
  change EndpointTransferMask with 3. change EndpointTransferBulk with 2. change EndpointDirectionIn with 128.
  destruct (Z.land (ub (e_attributes e)) 3 =? 2); [|done].
  by destruct (negb (Z.land (ub (e_address e)) 128 =? 0)).
Qed.

Lemma scan_endpoints es : ∀ fuel total offset rest st,
  (length (concat (endpoint_descriptor <$> es) ++ rest) ≤ fuel)%nat →
  ∃ fuel' offset', (length rest ≤ fuel')%nat ∧
    scan fuel total offset (concat (endpoint_descriptor <$> es) ++ rest) st =
    scan fuel' total offset' rest (with_active ((λ b, foldl endpoint_step b es) <$> sc_active st) st).
Proof.
  induction es as [|e es IH]; intros fuel total offset rest st Hf.
  - exists fuel, offset. split; [done|]. f_equal. unfold with_active. destruct st as [v p [b|] cs]; done.
  - rewrite fmap_cons, concat_cons, <-app_assoc in *. rewrite length_app in Hf.
    change (length (endpoint_descriptor e)) with 7%nat in Hf. destruct fuel as [|fuel]; [lia|].
    rewrite (scan_cons _ _ _ (endpoint_descriptor e) _ _ _) by (apply scan_endpoint || done || (simpl; lia)).
    destruct (IH fuel total (offset + at_byte (endpoint_descriptor e) 0) rest
      (with_active ((λ b, endpoint_step b e) <$> sc_active st) st)) as (f' & o' & Hf' & ->); [lia|].
    exists f', o'. split; [done|]. f_equal. unfold with_active. cbn. by destruct (sc_active st).
Qed.

Lemma endpoints_found es b :
  cb_iface (foldl endpoint_step b es) = cb_iface b ∧
  cb_bulkIn (foldl endpoint_step b es) =
    match last (List.filter (λ e, is_bulk e && is_in e) es) with Some e => ub (e_address e) | None => cb_bulkIn b end ∧
  cb_bulkOut (foldl endpoint_step b es) =
    match last (List.filter (λ e, is_bulk e && negb (is_in e)) es) with Some e => ub (e_address e) | None => cb_bulkOut b end.
Proof.
  revert b. induction es as [|e es IH]; intros b; [done|]. cbn [foldl List.filter].
  destruct (IH (endpoint_step b e)) as (H1 & H2 & H3). rewrite H1, H2, H3. clear IH H1 H2 H3.
  unfold endpoint_step. destruct (is_bulk e); cbn [andb]; [|done].
  destruct (is_in e); cbn [andb negb cb_iface cb_bulkIn cb_bulkOut]; rewrite last_cons;
    (split; [done|]); (split; [by destruct (last _)|by destruct (last _)]).
Qed.

(** An interface with its endpoints adds its candidate when it is flushed. *)
Lemma scan_interface i : ∀ fuel total offset rest st,
  (length (interface_bytes i ++ rest) ≤ fuel)%nat →
  ∃ fuel' offset' st', (length rest ≤ fuel')%nat ∧
    scan fuel total offset (interface_bytes i ++ rest) st = scan fuel' total offset' rest st' ∧
    sc_vendorID st' = sc_vendorID st ∧ sc_productID st' = sc_productID st ∧
    sc_candidates (flushed st') = sc_candidates (flushed st) ++
      option_list (candidate_of path bus dev (sc_vendorID st) (sc_productID st) i).
Proof.
  intros fuel total offset rest st Hf. unfold interface_bytes in *. rewrite <-app_assoc in *.
  rewrite length_app in Hf. change (length (interface_descriptor i)) with 9%nat in Hf.
  destruct fuel as [|fuel]; [lia|].
  set (st1 := if is_adb i then with_active (Some (mkBuilder (mkInterface (ub (i_number i)) (ub (i_class i))
      (ub (i_subclass i)) (ub (i_protocol i))) 0 0)) (flushed st) else flushed st).
  assert (scan_descriptor path bus dev offset (interface_descriptor i) st = Ok st1) as Hi.
  { unfold scan_descriptor. change (at_byte (interface_descriptor i) 1) with 4.
    change (parseInterfaceDescriptor (interface_descriptor i)) with
      (Some (mkInterface (ub (i_number i)) (ub (i_class i)) (ub (i_subclass i)) (ub (i_protocol i)))).
    reflexivity. }
  rewrite (scan_cons _ _ _ (interface_descriptor i) _ _ _) by (exact Hi || done || (simpl; lia)).
  destruct (scan_endpoints (i_endpoints i) fuel total (offset + at_byte (interface_descriptor i) 0) rest st1)
    as (f' & o' & Hf' & ->); [lia|].
  do 3 eexists. split; [exact Hf'|]. split; [done|].
  assert (∀ st, sc_vendorID (flushed st) = sc_vendorID st ∧ sc_productID (flushed st) = sc_productID st) as Hfl.
  { intros s. unfold flush. by destruct (sc_active s). }
  destruct (Hfl st) as [V P]. unfold candidate_of, st1.
  assert (sc_active (flushed st) = None) as Ha.
  { unfold flush. by destruct (sc_active st) eqn:E; [|rewrite E]. }
  destruct (is_adb i); cbn [andb].
  - cbn [with_active sc_active fmap option_fmap option_map].
    split_and!; [done..|]. rewrite flush_active.
    destruct (endpoints_found (i_endpoints i) (mkBuilder (mkInterface (ub (i_number i)) (ub (i_class i))
      (ub (i_subclass i)) (ub (i_protocol i))) 0 0)) as (E1 & E2 & E3).
    rewrite E1, E2, E3. cbn [cb_bulkIn cb_bulkOut cb_iface if_number].
    change (match last (List.filter (λ e, is_bulk e && is_in e) (i_endpoints i)) with
            | Some e => ub (e_address e) | None => 0 end) with (bulk_in i).
    change (match last (List.filter (λ e, is_bulk e && negb (is_in e)) (i_endpoints i)) with
            | Some e => ub (e_address e) | None => 0 end) with (bulk_out i).
    cbn [with_active sc_vendorID sc_productID sc_candidates]. rewrite V, P.
    by destruct (_ && _)%bool; [|rewrite app_nil_r].
  - rewrite Ha. unfold with_active. cbn [fmap option_fmap option_map sc_vendorID sc_productID sc_candidates].
    split_and!; [done..|]. simpl. by rewrite app_nil_r.
Qed.

Lemma scan_interfaces ifs : ∀ fuel total offset st,
  (length (concat (interface_bytes <$> ifs)) ≤ fuel)%nat →
  ∃ st', scan fuel total offset (concat (interface_bytes <$> ifs)) st = Some (Ok st') ∧
    sc_candidates (flushed st') = sc_candidates (flushed st) ++
      omap (candidate_of path bus dev (sc_vendorID st) (sc_productID st)) ifs.
Proof.
  induction ifs as [|i ifs IH]; intros fuel total offset st Hf.
  - exists st. split; [by destruct fuel|]. by rewrite app_nil_r.
  - rewrite fmap_cons, concat_cons in *.
    destruct (scan_interface i fuel total offset (concat (interface_bytes <$> ifs)) st Hf)
      as (f' & o' & st1 & Hf' & -> & V & P & Hc).
    destruct (IH f' total o' st1 Hf') as (st2 & -> & Hc2). exists st2. split; [done|].
    rewrite Hc2, Hc, V, P, <-app_assoc. f_equal.
    cbn [omap list_omap]. by destruct (candidate_of _ _ _ _ _ i).
Qed.
End scanning.



(** ** What the parser returns on arbitrary bytes *)

Lemma byte_range b : 0 ≤ byte.unsigned b < 256.
Proof. apply (byte.unsigned_range b). Qed.
Lemma at_byte_range d i : 0 ≤ at_byte d i < 256.
Proof. apply byte_range. Qed.

(** Endpoint addresses of a candidate under construction. *)
Definition in_ok (a : Z) : Prop := 0 ≤ a < 256 ∧ (a = 0 ∨ Z.land a EndpointDirectionIn ≠ 0).
Definition out_ok (a : Z) : Prop := 0 ≤ a < 256 ∧ Z.land a EndpointDirectionIn = 0.
Definition builder_ok (b : candidateBuilder) : Prop := in_ok (cb_bulkIn b) ∧ out_ok (cb_bulkOut b).

(** A candidate the transport accepts, at the path and address given. *)
Definition candidate_ok (path : string) (bus dev : Z) (c : Candidate) : Prop :=
  cand_DevicePath c = path ∧ cand_BusNumber c = bus ∧ cand_DeviceNumber c = dev ∧
  0 < cand_BulkInEndpoint c < 256 ∧ Z.land (cand_BulkInEndpoint c) EndpointDirectionIn ≠ 0 ∧
  0 < cand_BulkOutEndpoint c < 256 ∧ Z.land (cand_BulkOutEndpoint c) EndpointDirectionIn = 0.

Definition scan_ok (path : string) (bus dev : Z) (st : scan_state) : Prop :=
  (∀ b, sc_active st = Some b → builder_ok b) ∧ Forall (candidate_ok path bus dev) (sc_candidates st).

Section arbitrary.
Context (path : string) (bus dev : Z).

Lemma flush_ok st : scan_ok path bus dev st → scan_ok path bus dev (flush path bus dev st).
Proof.
  intros [Hb Hc]. unfold flush. destruct (sc_active st) as [b|] eqn:E; [|by split; [rewrite E|]].
  destruct (Hb b eq_refl) as [[Ri [Hi|Hi]] [Ro Ho]]; (split; [done|]); cbn [sc_candidates].
  - by rewrite Hi.
  - destruct (_ && _)%bool eqn:F; [|done]. bool_to_prop.
    apply Forall_app_2; [done|]. apply Forall_singleton. unfold candidate_ok. cbn. split_and!; done || lia.
Qed.

Lemma scan_descriptor_ok offset d st st' :
  scan_ok path bus dev st → scan_descriptor path bus dev offset d st = Ok st' → scan_ok path bus dev st'.
Proof.
  intros Hok. unfold scan_descriptor. destruct (_ =? descriptorTypeDevice).
  { destruct (_ <? _)%nat; [done|]. intros [= <-]. exact Hok. }
  destruct (_ =? descriptorTypeConfiguration); [intros [= <-]; by apply flush_ok|].
  destruct (_ =? descriptorTypeInterface).
  { intros [= <-]. pose proof (flush_ok _ Hok) as Hf. destruct (parseInterfaceDescriptor d) as [i|]; [|done].
    destruct (isADBInterface i); [|done]. split; [|apply Hf]. intros b [= <-].
    split; split; cbn; lia || auto. }
  destruct (_ =? descriptorTypeEndpoint); intros [= <-]; [|done]. destruct Hok as [Hb Hc].
  destruct (sc_active st) as [b|] eqn:E; [|by split; [rewrite E|]].
  unfold parseEndpointDescriptor. destruct (_ <? _)%nat; [split; [by rewrite E|done]|].
  destruct (isBulkEndpoint _); [|split; [by rewrite E|done]]. split; [|done].
  cbn [sc_active ep_address]. intros b' [= <-]. destruct (Hb b eq_refl) as [Hi Ho].
  destruct (negb _) eqn:F; bool_to_prop; split; cbn; try done; (split; [apply at_byte_range|]); auto.
Qed.

Lemma scan_loop_ok fuel : ∀ total offset data st st',
  scan_ok path bus dev st → scan_loop path bus dev fuel total offset data st = Some (Ok st') → scan_ok path bus dev st'.
Proof.
  induction fuel as [|fuel IH]; intros total offset [|b data] st st' Hok; cbn [scan_loop];
    try (intros H; injection H as <-; exact Hok).
  destruct (_ =? 0); [done|]. destruct (_ <? _); [done|]. destruct (_ =? 1); [done|].
  destruct (scan_descriptor _ _ _ _ _ _) as [st1|] eqn:E; [|done].
  apply IH. by eapply scan_descriptor_ok.
Qed.

Lemma parsed_candidates_ok data cs :
  ParseADBCandidates path bus dev data = Some (Ok cs) → Forall (candidate_ok path bus dev) cs.
Proof.
  unfold ParseADBCandidates. destruct (_ <? _)%nat; [done|].
  destruct (scan_loop _ _ _ _ _ _ _ _) as [[st|]|] eqn:E; [|done|done]. intros H.
  assert (cs = sc_candidates (flush path bus dev st)) as -> by congruence.
  apply flush_ok. eapply scan_loop_ok; [|exact E]. by split.
Qed.
End arbitrary.

(** A descriptor of length 1 makes the parser index past its end. *)
Example one_byte_descriptor_panics : ParseADBCandidates "/dev/bus/usb/001/004" 1 4 [Byte.x01; Byte.x00] = None.
Proof. reflexivity. Qed.

(** ** The life of a transport *)

(** The calls to the kernel that a sequence of operations makes. *)
Fixpoint transport_calls (c : Candidate) (closed : bool) (ops : list bulk_op) : list usb_call :=
  match ops with
  | [] => []
  | OpRead n :: ops =>
      (if n =? 0 then [] else [Ioctl usbdevfsBulk (cand_BulkInEndpoint c) n]) ++ transport_calls c closed ops
  | OpWrite n :: ops =>
      (if n =? 0 then [] else [Ioctl usbdevfsBulk (cand_BulkOutEndpoint c) n]) ++ transport_calls c closed ops
  | OpClose :: ops =>
      (if closed then [] else [Ioctl usbdevfsReleaseInterface (cand_InterfaceNumber c) 0; CloseFile]) ++
      transport_calls c true ops
  end.

Definition transport_of (c : Candidate) (closed : bool) (t : linuxBulkTransport) : Prop :=
  bt_path t = cand_DevicePath c ∧ bt_iface t = cand_InterfaceNumber c ∧
  bt_inEndpoint t = cand_BulkInEndpoint c ∧ bt_outEndpoint t = cand_BulkOutEndpoint c ∧
  bt_closeDone t = closed ∧ bt_claimed t = negb closed.

Section life.
Context (usbfs : kernel) (c : Candidate).

Lemma bulk_calls e n t : ∃ r,
  bulk usbfs e n t = (fst (call usbfs (Ioctl usbdevfsBulk e n) t), r).
Proof. unfold bulk, call. destruct (usbfs _ _); eauto. Qed.

Lemma step_calls op t closed :
  transport_of c closed t →
  transport_of c (closed || (if op is OpClose then true else false)) (bulk_step usbfs op t) ∧
  bt_calls (bulk_step usbfs op t) = bt_calls t ++ transport_calls c closed [op] ∧
  (closed = true → bt_closeErr (bulk_step usbfs op t) = bt_closeErr t).
Proof.
  intros (Hp & Hi & Hin & Hout & Hd & Hc). destruct op as [n|n|]; cbn [bulk_step transport_calls].
  - unfold bulk_Read. rewrite orb_false_r, app_nil_r. destruct (n =? 0); [by rewrite app_nil_r|].
    destruct (bulk_calls (bt_inEndpoint t) n t) as [r ->]. rewrite <-Hin. done.
  - unfold bulk_Write. rewrite orb_false_r, app_nil_r. destruct (n =? 0); [by rewrite app_nil_r|].
    destruct (bulk_calls (bt_outEndpoint t) n t) as [r ->]. rewrite <-Hout. done.
  - unfold bulk_Close. rewrite orb_true_r, app_nil_r, Hd. destruct closed; [by rewrite app_nil_r|].
    rewrite Hc. cbn [negb]. unfold call. rewrite Hi.
    destruct (usbfs _ _); cbn; destruct (usbfs _ _); cbn; rewrite <-?app_assoc; done.
Qed.

Lemma run_calls ops t closed :
  transport_of c closed t →
  bt_calls (foldl (λ t op, bulk_step usbfs op t) t ops) = bt_calls t ++ transport_calls c closed ops.
Proof.
  revert t closed. induction ops as [|op ops IH]; intros t closed Ht; [by rewrite app_nil_r|].
  cbn [foldl]. destruct (step_calls op t closed Ht) as (Ht' & Hc & _).
  rewrite (IH _ _ Ht'), Hc, <-app_assoc. f_equal.
  destruct op; cbn [transport_calls]; by rewrite app_nil_r, ?orb_false_r, ?orb_true_r.
Qed.
End life.

(** Whatever bytes a device's descriptors are, every candidate the parser
    returns can be opened: its endpoints are a non-zero IN and a non-zero OUT
    address, and where the node opens and the interface can be claimed
    [OpenBulkTransport] succeeds.  Whatever is then done with the transport and
    however its calls fail, it asks the kernel for one claim, for the
    transfers of the non-empty reads (IN endpoint) and writes (OUT endpoint)
    in order, and at the first [Close], once, for the release of the
    interface and then the close of the file. *)
Theorem transport_life (usbfs : kernel) (path : string) (bus dev : Z) (data : list byte)
    (cs : list Candidate) (c : Candidate) (claimed : Z) (ops : list bulk_op) :
  path ≠ "" →
  ParseADBCandidates path bus dev data = Some (Ok cs) →
  c ∈ cs →
  usbfs (Ioctl usbdevfsClaimInterface (cand_InterfaceNumber c) 0) 0%nat = Ok claimed →
  validateBulkCandidate c = None ∧
  ∃ t, OpenBulkTransport usbfs None None c = (t, None) ∧
    bt_calls (foldl (λ t op, bulk_step usbfs op t) t ops) =
      Ioctl usbdevfsClaimInterface (cand_InterfaceNumber c) 0 :: transport_calls c false ops.
Proof.
  intros Hne Hp Hin Hk. pose proof (parsed_candidates_ok _ _ _ _ _ Hp) as HF.
  rewrite Forall_forall in HF. destruct (HF c Hin) as (P & _ & _ & _ & I & _ & O).
  assert (validateBulkCandidate c = None) as Hv.
  { unfold validateBulkCandidate. rewrite P, (proj2 (String.eqb_neq _ _) Hne), (proj2 (Z.eqb_neq _ _) I).
    by rewrite (proj2 (Z.eqb_eq _ _) O). }
  split; [done|]. unfold OpenBulkTransport, claimInterface, call. rewrite Hv. cbn [bt_iface bt_calls length].
  rewrite Hk. eexists. split; [done|]. by rewrite (run_calls usbfs c _ _ false).
Qed.

Lemma transport_life_witness :
  let i := mkIf Byte.x02 Byte.xff Byte.x42 Byte.x01 [mkEp Byte.x81 Byte.x02; mkEp Byte.x02 Byte.x02] in
  let z n := replicate n Byte.x00 in
  let data := device_descriptor (z 6%nat) [Byte.xd1; Byte.x18] [Byte.xe7; Byte.x4e] (z 6%nat) ++
     configuration_descriptor (z 7%nat) ++ concat (interface_bytes <$> [i]) in
  let c := mkCandidate "/dev/bus/usb/001/004" 1 4 0x18d1 0x4ee7 2 0x81 0x02 in
  ∃ t, OpenBulkTransport (λ _ _, Ok 0) None None c = (t, None) ∧
    bt_calls (foldl (λ t op, bulk_step (λ _ _, Ok 0) op t) t [OpWrite 24; OpClose; OpRead 0; OpClose]) =
      [Ioctl usbdevfsClaimInterface 2 0; Ioctl usbdevfsBulk 2 24; Ioctl usbdevfsReleaseInterface 2 0; CloseFile].
Proof.
  intros i z data c.
  apply (transport_life (λ _ _, Ok 0) "/dev/bus/usb/001/004" 1 4 data [c] c 0 [OpWrite 24; OpClose; OpRead 0; OpClose]);
    [done|by vm_compute|by apply list_elem_of_singleton|done].
Defined.

(** ** The lock of a transport

    [bulk] holds [t.mu] from before the [ioctl] until it returns, and a
    transfer has no timeout ([defaultUSBFSBulkTimeoutMillis] is 0), so a read
    ends only when the device sends something. *)

Definition defaultUSBFSBulkTimeoutMillis : Z := 0.

Inductive bulk_pc :=
  | Outside                       (* not in bulk *)
  | Locking                       (* at t.mu.Lock() *)
  | Transferring.                 (* in the ioctl, with the lock *)

(** One goroutine reads and one writes; the device has [ls_pending] packets for
    the host. *)
Record lock_state := mkLock { ls_reader : bulk_pc; ls_writer : bulk_pc; ls_pending : nat }.

(** A device that speaks when it is spoken to, as adbd does after the
    handshake: only a finished write makes it send packets, any number. *)
Inductive lock_step : lock_state → lock_state → Prop :=
  | read_enters w n : lock_step (mkLock Outside w n) (mkLock Locking w n)
  | write_enters r n : lock_step (mkLock r Outside n) (mkLock r Locking n)
  | read_locks w n : w ≠ Transferring → lock_step (mkLock Locking w n) (mkLock Transferring w n)
  | write_locks r n : r ≠ Transferring → lock_step (mkLock r Locking n) (mkLock r Transferring n)
  | read_ends w n : lock_step (mkLock Transferring w (S n)) (mkLock Outside w n)
  | write_ends r n k : lock_step (mkLock r Transferring n) (mkLock r Outside (k + n)).

Definition lock_reach : relation lock_state := rtc lock_step.

Lemma blocked_forever st st' :
  lock_reach st st' → ls_reader st = Transferring ∧ ls_writer st ≠ Transferring ∧ ls_pending st = 0%nat →
  ls_reader st' = Transferring ∧ ls_writer st' ≠ Transferring ∧ ls_pending st' = 0%nat.
Proof.
  induction 1 as [|st st1 st2 Hs _ IH]; [done|]. intros (R & W & P). apply IH.
  destruct Hs; cbn in *; try done; split_and!; congruence.
Qed.

(** Once the connection's reader waits in [Read] for a device that has
    nothing to send, no [Write] gets to the kernel any more, so the device is
    never asked anything, however the goroutines are scheduled: the situation
    is reachable from the start, and it stays. *)
Theorem blocked_read_starves_writes :
  ∃ st, lock_reach (mkLock Outside Outside 0) st ∧ ls_writer st = Locking ∧
    ∀ st', lock_reach st st' → ls_reader st' = Transferring ∧ ls_writer st' ≠ Transferring.
Proof.
  exists (mkLock Transferring Locking 0). split_and!; [|done|].
  - eapply rtc_l; [apply read_enters|]. eapply rtc_l; [by apply read_locks|].
    eapply rtc_l; [apply write_enters|]. apply rtc_refl.
  - intros st' H. destruct (blocked_forever _ _ H) as (? & ? & _); done.
Qed.
