(* ===== verification/ServerProtocol.v ===== *)
(** * internal/server: requests, endpoints and devices

    The control protocol's error values, the forward, reverse and device
    parameters with their decoders and validators (protocol.go, forward.go,
    reverse.go, device.go), the loopback test on hosts with the address parser
    of [net.ParseIP], and the device registry.  [json.Unmarshal] is an argument
    of the decoders: what it makes of the raw parameters, which is given in
    Wired.v. *)

From S2P Require Import Prelude Errors GoStrings Strconv.

#[local] Open Scope string_scope.
#[local] Open Scope Z_scope.
#[local] Open Scope list_scope.

(** ** protocol.go *)

Definition ProtocolVersion : Z := 1.

Definition CommandPing : string := "ping".
Definition CommandStatus : string := "status".
Definition CommandShutdown : string := "shutdown".
Definition ErrorBadRequest : string := "bad_request".
Definition ErrorUnsupportedVersion : string := "unsupported_version".
Definition ErrorUnknownCommand : string := "unknown_command".

(** A message is kept as the format and arguments it is printed from. *)
Record Error := mkError { Code : string; ErrorMessage : error }.
Definition Sprintf : string → list arg → error := Errorf.

#[global] Instance Error_eq_dec : EqDecision Error.
Proof. solve_decision. Defined.

Inductive result (A : Type) := Good (a : A) | Bad (e : Error).
Arguments Good {_} a.
Arguments Bad {_} e.

Definition bad_request (message : string) : Error := mkError ErrorBadRequest (Sprintf message []).

(** ** forward.go *)

Definition CommandForwardCreate : string := "forward_create".
Definition CommandForwardList : string := "forward_list".
Definition CommandForwardRemove : string := "forward_remove".
Definition CommandForwardRemoveAll : string := "forward_remove_all".
Definition ErrorAddressInUse : string := "address_in_use".
Definition ErrorUnsupportedEndpoint : string := "unsupported_endpoint".
Definition ErrorBadTarget : string := "bad_target".
Definition ErrorRebindDisallowed : string := "rebind_disallowed".
Definition ErrorForwardNotFound : string := "forward_not_found".

(** [ForwardStateListening], [ForwardStateDegraded], [ForwardStateStopped] and
    the same three of a reverse. *)
Inductive State := Listening | Degraded | Stopped.
#[global] Instance State_eq_dec : EqDecision State.
Proof. solve_decision. Defined.

Record ForwardLocalEndpoint := mkLocal { fl_Network : string; fl_Address : string }.
Record ForwardTarget := mkTarget { tg_Transport : string; tg_Address : string }.

#[global] Instance ForwardLocalEndpoint_eq_dec : EqDecision ForwardLocalEndpoint.
Proof. solve_decision. Defined.

Record ForwardCreateParams := mkForwardCreate {
  fc_Local : ForwardLocalEndpoint; fc_Remote : string; fc_Target : ForwardTarget; fc_Norebind : bool;
}.
Record ForwardRemoveParams := mkForwardRemove { fr_ID : string; fr_Local : option ForwardLocalEndpoint }.

(** ** Hosts: net.ParseIP, IsLoopback and strings.EqualFold *)

Definition codes (s : string) : list Z := code <$> list_ascii_of_string s.
Definition is_digit (c : Z) : bool := (48 <=? c) && (c <=? 57).
Definition hexval (c : Z) : option Z :=
  if is_digit c then Some (c - 48)
  else if (97 <=? c) && (c <=? 102) then Some (c - 97 + 10)
  else if (65 <=? c) && (c <=? 70) then Some (c - 65 + 10)
  else None.

(** [netip.parseIPv4Fields]: [val] is the octet read so far, of [digLen] digits. *)
Fixpoint ipv4_loop (s : list Z) (first after_dot : bool) (val digLen : Z) (fields : list Z) : option (list Z) :=
  match s with
  | [] => if (length fields <? 3)%nat then None else Some (fields ++ [val])
  | c :: s =>
      if is_digit c then
        if (digLen =? 1) && (val =? 0) then None else
        let val := val * 10 + (c - 48) in
        if 255 <? val then None else ipv4_loop s false false val (digLen + 1) fields
      else if c =? 46 then
        if first || (match s with [] => true | _ => false end) || after_dot then None
        else if (length fields =? 3)%nat then None
        else ipv4_loop s false true 0 0 (fields ++ [val])
      else None
  end.
Definition parseIPv4Fields (s : list Z) : option (list Z) := ipv4_loop s true false 0 0 [].

(** One group of at most four hexadecimal digits: their number, the value, the rest. *)
Fixpoint hex_group (s : list Z) (off : nat) (acc : Z) : option (nat * Z * list Z) :=
  match s with
  | [] => Some (off, acc, [])
  | c :: s' =>
      match hexval c with
      | None => Some (off, acc, s)
      | Some d =>
          let acc := acc * 16 + d in
          if (3 <? off)%nat || (65535 <? acc) then None else hex_group s' (S off) acc
      end
  end.

(** The loop of [netip.parseIPv6]: the rest of the text, the bytes so far and
    the place of the ellipsis. *)
Fixpoint ipv6_loop (fuel : nat) (s ip : list Z) (ellipsis : option nat) : option (list Z * list Z * option nat) :=
  match fuel with
  | O => Some (s, ip, ellipsis)
  | S fuel =>
      if (16 <=? length ip)%nat then Some (s, ip, ellipsis) else
      match hex_group s 0 0 with
      | None => None
      | Some (off, acc, rest) =>
          if (off =? 0)%nat then None else
          if (match rest with c :: _ => c =? 46 | [] => false end) then
            if (match ellipsis with None => negb (length ip =? 12)%nat | Some _ => false end) then None
            else if (16 <? length ip + 4)%nat then None
            else match parseIPv4Fields s with
                 | None => None
                 | Some fields => Some ([], ip ++ fields, ellipsis)
                 end
          else
            let ip := ip ++ [acc / 256; acc mod 256] in
            match rest with
            | [] => Some ([], ip, ellipsis)
            | c :: rest =>
                if negb (c =? 58) then None else
                match rest with
                | [] => None
                | c2 :: rest2 =>
                    if c2 =? 58 then
                      match ellipsis with
                      | Some _ => None
                      | None =>
                          match rest2 with
                          | [] => Some ([], ip, Some (length ip))
                          | _ => ipv6_loop fuel rest2 ip (Some (length ip))
                          end
                      end
                    else ipv6_loop fuel rest ip ellipsis
                end
            end
      end
  end.

(** Behind the loop.  A zone ([%eth0]) makes [net.ParseIP] fail either way. *)
Definition parseIPv6 (s : list Z) : option (list Z) :=
  if existsb (λ c, c =? 37) s then None else
  let '(s, ellipsis) :=
    match s with
    | c1 :: c2 :: s' => if (c1 =? 58) && (c2 =? 58) then (s', Some 0%nat) else (s, None)
    | _ => (s, None)
    end in
  match s, ellipsis with
  | [], Some _ => Some (replicate 16 0)
  | _, _ =>
      match ipv6_loop 9 s [] ellipsis with
      | Some ([], ip, ellipsis) =>
          if (length ip <? 16)%nat then
            match ellipsis with
            | None => None
            | Some e => Some (take e ip ++ replicate (16 - length ip) 0 ++ drop e ip)
            end
          else match ellipsis with Some _ => None | None => Some ip end
      | _ => None
      end
  end.

(** The first of [.], [:] and [%] decides the family. *)
Fixpoint family (s : list Z) : option Z :=
  match s with
  | [] => None
  | c :: s => if (c =? 46) || (c =? 58) || (c =? 37) then Some c else family s
  end.

(** The address in 16 bytes; an IPv4 address is mapped into [::ffff:0:0/96]. *)
Definition v4_prefix : list Z := replicate 10 0 ++ [255; 255].
Definition ParseIP (host : string) : option (list Z) :=
  let s := codes host in
  match family s with
  | Some c =>
      if c =? 46 then (λ fields, v4_prefix ++ fields) <$> parseIPv4Fields s
      else if c =? 58 then parseIPv6 s
      else None
  | None => None
  end.

Definition IsLoopback (ip : list Z) : bool :=
  if bool_decide (take 12 ip = v4_prefix) then nth 12 ip 0 =? 127
  else bool_decide (ip = replicate 15 0 ++ [1]).

(** [strings.EqualFold(s, t)] for an ASCII [t]: letters of either case, and the
    two other runes that fold to ASCII letters, U+017F (s) and U+212A (k). *)
Definition to_lower (c : Z) : Z := if (65 <=? c) && (c <=? 90) then c + 32 else c.
Fixpoint fold_eq (s t : list Z) : bool :=
  match t with
  | [] => match s with [] => true | _ => false end
  | b :: t =>
      match s with
      | [] => false
      | a :: s1 =>
          if to_lower a =? to_lower b then fold_eq s1 t
          else match s with
               | 0xc5 :: 0xbf :: s2 => (to_lower b =? 115) && fold_eq s2 t
               | 0xe2 :: 0x84 :: 0xaa :: s3 => (to_lower b =? 107) && fold_eq s3 t
               | _ => false
               end
      end
  end.
Definition EqualFold (s t : string) : bool := fold_eq (codes s) (codes t).

Definition isLoopbackHost (host : string) : bool :=
  if EqualFold host "localhost" then true else
  match ParseIP host with Some ip => IsLoopback ip | None => false end.

Definition splitHostPort (address : string) : res (string * Z) :=
  '(host, portText) ← SplitHostPort address;
  port ← Atoi portText;
  Ok (host, port).

Definition unsupported_endpoint (format : string) (args : list arg) : Error :=
  mkError ErrorUnsupportedEndpoint (Sprintf format args).

Definition validateForwardLocal (local : ForwardLocalEndpoint) : option Error :=
  if negb (fl_Network local =? "tcp")%string
  then Some (unsupported_endpoint "unsupported local endpoint network %q" [AStr (fl_Network local)]) else
  match splitHostPort (fl_Address local) with
  | Err _ => Some (unsupported_endpoint "invalid local tcp address %q" [AStr (fl_Address local)])
  | Ok (host, port) =>
      if (port <? 0) || (65535 <? port)
      then Some (unsupported_endpoint "invalid local tcp port %d" [AInt port])
      else if (host =? "")%string
      then Some (unsupported_endpoint "local tcp address must include a host" [])
      else if negb (isLoopbackHost host)
      then Some (unsupported_endpoint "local tcp address %q is not loopback" [AStr (fl_Address local)])
      else None
  end.

Definition validateForwardRemote (service : string) : option Error :=
  let '(portText, ok) := CutPrefix service "tcp:" in
  if negb ok then Some (unsupported_endpoint "unsupported remote service %q" [AStr service]) else
  let invalid := Some (unsupported_endpoint "invalid remote tcp service %q" [AStr service]) in
  match Atoi portText with
  | Err _ => invalid
  | Ok port => if (port <? 1) || (65535 <? port) then invalid else None
  end.

Definition validateForwardTarget (target : ForwardTarget) : option Error :=
  if negb (tg_Transport target =? "tcp")%string
  then Some (mkError ErrorBadTarget (Sprintf "unsupported target transport %q" [AStr (tg_Transport target)])) else
  let invalid := Some (mkError ErrorBadTarget (Sprintf "invalid tcp target address %q" [AStr (tg_Address target)])) in
  match splitHostPort (tg_Address target) with
  | Err _ => invalid
  | Ok (host, port) =>
      if (host =? "")%string || (port <? 1) || (65535 <? port) then invalid else None
  end.

(** The first error of a list of checks. *)
Definition first_error (checks : list (option Error)) : option Error := head (omap id checks).

Definition validateForwardCreateParams (params : ForwardCreateParams) : option Error :=
  first_error [validateForwardLocal (fc_Local params); validateForwardRemote (fc_Remote params);
               validateForwardTarget (fc_Target params)].

(** ** reverse.go *)

Definition CommandReverseCreate : string := "reverse_create".
Definition CommandReverseList : string := "reverse_list".
Definition CommandReverseRemove : string := "reverse_remove".
Definition CommandReverseRemoveAll : string := "reverse_remove_all".
Definition ErrorReverseNotFound : string := "reverse_not_found".
Definition ErrorRegistrationFailed : string := "registration_failed".

(** The remote and local endpoints of a reverse are records of one service. *)
Record ReverseCreateParams := mkReverseCreate {
  rc_Remote : string; rc_Local : string; rc_Target : ForwardTarget; rc_Norebind : bool;
}.
Record ReverseRemoveParams := mkReverseRemove { rr_ID : string; rr_Remote : option string }.

Definition validateTCPService (kind service : string) : option Error :=
  let '(portText, ok) := CutPrefix (TrimSpace service) "tcp:" in
  if negb ok then Some (unsupported_endpoint "unsupported reverse %s endpoint %q" [AStr kind; AStr service]) else
  let invalid := Some (unsupported_endpoint "invalid reverse %s tcp endpoint %q" [AStr kind; AStr service]) in
  match Atoi portText with
  | Err _ => invalid
  | Ok port => if (port <? 1) || (65535 <? port) then invalid else None
  end.

Definition validateReverseRemote (remote : string) : option Error := validateTCPService "remote" remote.
Definition validateReverseLocal (local : string) : option Error := validateTCPService "local" local.

Definition validateReverseCreateParams (params : ReverseCreateParams) : option Error :=
  first_error [validateReverseRemote (rc_Remote params); validateReverseLocal (rc_Local params);
               validateForwardTarget (rc_Target params)].

(** ** device.go: parameters *)

Definition CommandDeviceList : string := "device_list".
Definition CommandDeviceRegister : string := "device_register".
Definition DeviceStateDevice : string := "device".
Definition DeviceStateOffline : string := "offline".

Record Device := mkDevice { Serial : string; dv_State : string; dv_Transport : string; dv_Address : string }.
Record DeviceRegisterParams := mkDeviceRegister {
  dp_Serial : string; dp_Transport : string; dp_Address : string; dp_State : string;
}.

Definition validateDeviceRegisterParams (params : DeviceRegisterParams) : result Device :=
  let bad format args := Bad (mkError ErrorBadRequest (Sprintf format args)) in
  if negb (dp_Transport params =? "tcp")%string
  then bad "unsupported device transport %q" [AStr (dp_Transport params)]
  else if (dp_Address params =? "")%string
  then bad "device_register tcp transport requires address" []
  else match SplitHostPort (dp_Address params) with
  | Err _ => bad "invalid tcp device address %q" [AStr (dp_Address params)]
  | Ok _ =>
      let state := if (dp_State params =? "")%string then DeviceStateDevice else dp_State params in
      if negb (state =? DeviceStateDevice)%string && negb (state =? DeviceStateOffline)%string
      then bad "unsupported device state %q" [AStr state]
      else
        let serial := if (dp_Serial params =? "")%string then dp_Address params else dp_Serial params in
        Good (mkDevice serial state (dp_Transport params) (dp_Address params))
  end.

(** ** Decoders

    The raw parameters are the JSON text of the request, empty where the
    request has none. *)
Section decoders.
Context (unmarshal_forward_create : string → res ForwardCreateParams).
Context (unmarshal_forward_remove : string → res ForwardRemoveParams).
Context (unmarshal_reverse_create : string → res ReverseCreateParams).
Context (unmarshal_reverse_remove : string → res ReverseRemoveParams).
Context (unmarshal_device_register : string → res DeviceRegisterParams).

Definition decodeForwardCreateParams (raw : string) : result ForwardCreateParams :=
  if (raw =? "")%string then Bad (bad_request "missing forward_create params") else
  match unmarshal_forward_create raw with
  | Err _ => Bad (bad_request "malformed forward_create params")
  | Ok params =>
      match validateForwardCreateParams params with Some e => Bad e | None => Good params end
  end.

Definition decodeForwardRemoveParams (raw : string) : result ForwardRemoveParams :=
  if (raw =? "")%string then Bad (bad_request "missing forward_remove params") else
  match unmarshal_forward_remove raw with
  | Err _ => Bad (bad_request "malformed forward_remove params")
  | Ok params =>
      let idSet := negb (TrimSpace (fr_ID params) =? "")%string in
      match fr_Local params with
      | None => if idSet then Good params
                else Bad (bad_request "forward_remove requires exactly one of id or local")
      | Some local =>
          if idSet then Bad (bad_request "forward_remove requires exactly one of id or local") else
          match validateForwardLocal local with Some e => Bad e | None => Good params end
      end
  end.

Definition decodeReverseCreateParams (raw : string) : result ReverseCreateParams :=
  if (raw =? "")%string then Bad (bad_request "missing reverse_create params") else
  match unmarshal_reverse_create raw with
  | Err _ => Bad (bad_request "malformed reverse_create params")
  | Ok params =>
      match validateReverseCreateParams params with Some e => Bad e | None => Good params end
  end.

Definition decodeReverseRemoveParams (raw : string) : result ReverseRemoveParams :=
  if (raw =? "")%string then Bad (bad_request "missing reverse_remove params") else
  match unmarshal_reverse_remove raw with
  | Err _ => Bad (bad_request "malformed reverse_remove params")
  | Ok params =>
      let idSet := negb (TrimSpace (rr_ID params) =? "")%string in
      match rr_Remote params with
      | None => if idSet then Good params
                else Bad (bad_request "reverse_remove requires exactly one of id or remote")
      | Some remote =>
          if idSet then Bad (bad_request "reverse_remove requires exactly one of id or remote") else
          match validateReverseRemote remote with Some e => Bad e | None => Good params end
      end
  end.

Definition decodeDeviceRegisterParams (raw : string) : result DeviceRegisterParams :=
  if (raw =? "")%string then Bad (bad_request "device_register requires params") else
  match unmarshal_device_register raw with
  | Err err => Bad (mkError ErrorBadRequest (ErrorfV "invalid device_register params: %v" [] err))
  | Ok params => Good params
  end.
End decoders.

(** ** device.go: the registry *)

Record deviceRegistry := mkDevices { bySerial : gmap string Device }.
Definition newDeviceRegistry : deviceRegistry := mkDevices ∅.

Definition deviceRegistry_register (params : DeviceRegisterParams) (r : deviceRegistry) : deviceRegistry * result Device :=
  match validateDeviceRegisterParams params with
  | Bad e => (r, Bad e)
  | Good device => (mkDevices (<[Serial device := device]> (bySerial r)), Good device)
  end.

Definition serial_le (d1 d2 : Device) : Prop := String.le (Serial d1) (Serial d2).
#[global] Instance serial_le_dec : RelDecision serial_le.
Proof. intros d1 d2. unfold serial_le. apply _. Defined.

(** [order] is the order in which the range over the map gives the devices. *)
Definition deviceRegistry_list (order : list Device) : list Device := merge_sort serial_le order.

(** ** Loopback hosts *)

Definition is_octet (z : Z) : Prop := 0 ≤ z < 256.

(** A dotted quad, as [net.IP.String] prints it. *)
Definition quad (a b c d : Z) : string :=
  Itoa a +++ "." +++ Itoa b +++ "." +++ Itoa c +++ "." +++ Itoa d.

Lemma codes_append s t : codes (s +++ t) = codes s ++ codes t.
Proof. unfold codes. induction s as [|a s IH]; [done|]. cbn. by rewrite <-IH. Qed.

(** The digits of an octet are read as one field. *)
Definition octet_digits (z : Z) : list Z :=
  if z <? 10 then [48 + z]
  else if z <? 100 then [48 + z / 10; 48 + z mod 10]
  else [48 + z / 100; 48 + (z / 10) mod 10; 48 + z mod 10].

Lemma codes_octet z : is_octet z → codes (Itoa z) = octet_digits z.
Proof.
  intros [H0 H1].
  assert (forallb (λ n, bool_decide (codes (Itoa (Z.of_nat n)) = octet_digits (Z.of_nat n))) (seq 0 256) = true) as H
    by (vm_compute; reflexivity).
  rewrite forallb_forall in H. specialize (H (Z.to_nat z)). rewrite Z2Nat.id in H by done.
  apply bool_decide_eq_true in H; [done|]. apply in_seq. lia.
Qed.

Lemma ipv4_octet z rest first dot fields :
  is_octet z → ∃ len,
  ipv4_loop (octet_digits z ++ rest) first dot 0 0 fields = ipv4_loop rest false false z len fields.
Proof.
  intros Hz. unfold is_octet in Hz. assert (∀ d, 0 ≤ d < 10 → is_digit (48 + d) = true) as Hd
    by (intros d ?; unfold is_digit; apply andb_true_iff; split; apply Z.leb_le; lia).
  unfold octet_digits. destruct (Z.ltb_spec z 10); [|destruct (Z.ltb_spec z 100)]; cbn [app ipv4_loop];
    rewrite !Hd by (Z.to_euclidean_division_equations; lia).
  - exists 1. cbn [Z.eqb andb]. replace (0 * 10 + (48 + z - 48)) with z by lia.
    by rewrite (proj2 (Z.ltb_ge 255 z)) by lia.
  - exists 2. cbn [Z.eqb andb Z.add Pos.eqb].
    rewrite (proj2 (Z.ltb_ge 255 _)) by (Z.to_euclidean_division_equations; lia).
    rewrite (proj2 (Z.eqb_neq _ 0)) by (Z.to_euclidean_division_equations; lia).
    replace ((0 * 10 + (48 + z / 10 - 48)) * 10 + (48 + z mod 10 - 48)) with z by (pose proof (Z_div_mod_eq_full z 10); lia).
    by rewrite (proj2 (Z.ltb_ge 255 z)) by lia.
  - exists 3. cbn [Z.eqb andb Z.add Pos.eqb Pos.add Pos.succ].
    rewrite (proj2 (Z.ltb_ge 255 (0 * 10 + _))) by (Z.to_euclidean_division_equations; lia).
    rewrite (proj2 (Z.eqb_neq _ 0)) by (Z.to_euclidean_division_equations; lia).
    assert ((0 * 10 + (48 + z / 100 - 48)) * 10 + (48 + (z / 10) mod 10 - 48) = z / 10) as ->
      by (Z.to_euclidean_division_equations; lia).
    rewrite (proj2 (Z.ltb_ge 255 (z / 10))) by (Z.to_euclidean_division_equations; lia).
    replace (z / 10 * 10 + (48 + z mod 10 - 48)) with z by (pose proof (Z_div_mod_eq_full z 10); lia).
    by rewrite (proj2 (Z.ltb_ge 255 z)) by lia.
Qed.

Lemma octet_digits_cons z rest : ∃ c l, octet_digits z ++ rest = c :: l.
Proof. unfold octet_digits. destruct (_ <? _); [|destruct (_ <? _)]; cbn; eauto. Qed.

Lemma ipv4_dot s val len fields :
  s ≠ [] → (length fields < 3)%nat →
  ipv4_loop (46 :: s) false false val len fields = ipv4_loop s false true 0 0 (fields ++ [val]).
Proof.
  intros Hs Hf. cbn [ipv4_loop is_digit Z.leb Z.eqb Pos.eqb andb orb Z.compare Pos.compare Pos.compare_cont].
  change (is_digit 46) with false. cbn iota.
  rewrite (proj2 (Nat.eqb_neq _ _)) by lia. by destruct s.
Qed.

Lemma parseIPv4_quad a b c d :
  is_octet a → is_octet b → is_octet c → is_octet d →
  parseIPv4Fields (codes (quad a b c d)) = Some [a; b; c; d].
Proof.
  intros Ha Hb Hc Hd. unfold quad, parseIPv4Fields. rewrite !codes_append, !codes_octet by done.
  change (codes ".") with [46]. cbn [app].
  assert (∀ z r, octet_digits z ++ r ≠ []) as Hne
    by (intros z r; by destruct (octet_digits_cons z r) as (? & ? & ->)).
  destruct (ipv4_octet a (46 :: octet_digits b ++ 46 :: octet_digits c ++ 46 :: octet_digits d) true false [] Ha) as [? ->].
  rewrite ipv4_dot by (apply Hne || cbn; lia).
  destruct (ipv4_octet b (46 :: octet_digits c ++ 46 :: octet_digits d) false true ([] ++ [a]) Hb) as [? ->].
  rewrite ipv4_dot by (apply Hne || cbn; lia).
  destruct (ipv4_octet c (46 :: octet_digits d) false true (([] ++ [a]) ++ [b]) Hc) as [? ->].
  rewrite ipv4_dot; [|specialize (Hne d []); by rewrite app_nil_r in Hne|cbn; lia].
  destruct (ipv4_octet d [] false true ((([] ++ [a]) ++ [b]) ++ [c]) Hd) as [? E]. rewrite app_nil_r in E.
  by rewrite E.
Qed.

Lemma family_digits z rest : is_octet z → family (octet_digits z ++ 46 :: rest) = Some 46.
Proof.
  intros Hz. unfold is_octet in Hz.
  assert (∀ d l, 0 ≤ d < 10 → family ((48 + d) :: l) = family l) as H.
  { intros d l Hd. cbn [family]. by rewrite !(proj2 (Z.eqb_neq _ _)) by lia. }
  unfold octet_digits. destruct (Z.ltb_spec z 10); [|destruct (Z.ltb_spec z 100)]; cbn [app];
    rewrite !H by (Z.to_euclidean_division_equations; lia); done.
Qed.

Lemma fold_digit c l t : is_digit c = true → fold_eq (c :: l) (108 :: t) = false.
Proof.
  unfold is_digit. intros H. bool_to_prop.
  assert (c = 48 ∨ c = 49 ∨ c = 50 ∨ c = 51 ∨ c = 52 ∨ c = 53 ∨ c = 54 ∨ c = 55 ∨ c = 56 ∨ c = 57) as E by lia.
  by destruct E as [->|[->|[->|[->|[->|[->|[->|[->|[->| ->]]]]]]]]].
Qed.

Lemma isLoopbackHost_quad a b c d :
  is_octet a → is_octet b → is_octet c → is_octet d → isLoopbackHost (quad a b c d) = (a =? 127).
Proof.
  intros Ha Hb Hc Hd. unfold isLoopbackHost, EqualFold, ParseIP. rewrite parseIPv4_quad by done.
  unfold quad. rewrite codes_append, codes_octet, codes_append by done. change (codes ".") with [46].
  cbn [app]. rewrite family_digits by done. change (46 =? 46) with true. cbn iota.
  change (codes "localhost") with ([108; 111; 99; 97; 108; 104; 111; 115; 116]).
  assert (fold_eq (octet_digits a ++ 46 :: codes (Itoa b +++ "." +++ Itoa c +++ "." +++ Itoa d))
    [108; 111; 99; 97; 108; 104; 111; 115; 116] = false) as ->.
  { unfold is_octet in Ha. assert (∀ d, 0 ≤ d < 10 → is_digit (48 + d) = true) as H
      by (intros x ?; unfold is_digit; apply andb_true_iff; split; apply Z.leb_le; lia).
    unfold octet_digits. destruct (Z.ltb_spec a 10); [|destruct (Z.ltb_spec a 100)];
      apply fold_digit, H; Z.to_euclidean_division_equations; lia. }
  reflexivity.
Qed.

Lemma fold_eq_lower s t : (to_lower <$> s) = (to_lower <$> t) → fold_eq s t = true.
Proof.
  revert s. induction t as [|b t IH]; intros [|a s] H; try done. rewrite !fmap_cons in H.
  injection H as Hab Hst. cbn [fold_eq]. rewrite (proj2 (Z.eqb_eq _ _) Hab). by apply IH.
Qed.

Lemma fold_eq_ascii s t : Forall (λ c, c < 128) s → fold_eq s t = true → (to_lower <$> s) = (to_lower <$> t).
Proof.
  revert s. induction t as [|b t IH]; intros [|a s] HF H; try done. apply Forall_cons in HF as [Ha HF].
  cbn [fold_eq] in H. rewrite !fmap_cons. destruct (Z.eqb_spec (to_lower a) (to_lower b)) as [E|E].
  - f_equal; [done|]. by apply IH.
  - exfalso. assert (a ≠ 0xc5 ∧ a ≠ 0xe2) as [N1 N2] by lia. clear -H N1 N2.
    repeat (case_match; try done).
Qed.

Lemma family_none s : Forall (λ c, c ≠ 46 ∧ c ≠ 58) s → family s = None ∨ family s = Some 37.
Proof.
  induction 1 as [|c s [H1 H2] _ IH]; [by left|]. cbn [family].
  rewrite (proj2 (Z.eqb_neq _ _) H1), (proj2 (Z.eqb_neq _ _) H2). cbn [orb].
  destruct (Z.eqb_spec c 37) as [->|]; [by right|done].
Qed.

Lemma splitHostPort_join h port :
  clean_host h → contains h COLON = false → 0 ≤ port < 2 ^ 63 →
  splitHostPort (h +++ ":" +++ Itoa port) = Ok (h, port).
Proof.
  intros Hh Hc Hp. unfold splitHostPort.
  assert (h +++ ":" +++ Itoa port = JoinHostPort h (Itoa port)) as -> by (unfold JoinHostPort; by rewrite Hc).
  rewrite SplitHostPort_JoinHostPort by (done || apply Itoa_clean; lia). cbn. by rewrite Atoi_Itoa.
Qed.

Lemma quad_clean a b c d :
  is_octet a → is_octet b → is_octet c → is_octet d →
  clean_host (quad a b c d) ∧ contains (quad a b c d) COLON = false ∧ quad a b c d ≠ "".
Proof.
  intros [Ha _] [Hb _] [Hc _] [Hd _].
  destruct (Itoa_clean a Ha) as (A1 & A2 & A3), (Itoa_clean b Hb) as (B1 & B2 & B3),
    (Itoa_clean c Hc) as (C1 & C2 & C3), (Itoa_clean d Hd) as (D1 & D2 & D3).
  unfold clean_host, quad. rewrite !contains_append, A1, A2, A3, B1, B2, B3, C1, C2, C3, D1, D2, D3.
  split_and!; [done..|]. pose proof (Itoa_not_empty a Ha). by destruct (Itoa a).
Qed.



(** ** The device registry *)

Definition registrations (ps : list DeviceRegisterParams) : deviceRegistry :=
  foldl (λ r p, fst (deviceRegistry_register p r)) newDeviceRegistry ps.

(** [d] is the last device accepted under its serial. *)
Definition last_registered (ps : list DeviceRegisterParams) (d : Device) : Prop :=
  ∃ pre p post, ps = pre ++ p :: post ∧ validateDeviceRegisterParams p = Good d ∧
    ∀ q d', q ∈ post → validateDeviceRegisterParams q = Good d' → Serial d' ≠ Serial d.

Lemma last_registered_snoc ps p d :
  last_registered (ps ++ [p]) d ↔
  validateDeviceRegisterParams p = Good d ∨
  (last_registered ps d ∧ ∀ d', validateDeviceRegisterParams p = Good d' → Serial d' ≠ Serial d).
Proof.
  split.
  - intros (pre & q & post & E & Hq & Hpost). destruct (decide (post = [])) as [->|Hne].
    + apply app_inj_tail in E as [_ ->]. by left.
    + right. destruct (exists_last Hne) as (post' & x & ->).
      rewrite app_comm_cons, app_assoc in E. apply app_inj_tail in E as [-> ->]. split.
      * exists pre, q, post'. split_and!; [done..|]. intros r d' Hr. apply Hpost. apply elem_of_app. by left.
      * intros d'. apply Hpost. apply elem_of_app. right. by apply list_elem_of_singleton.
  - intros [Hp|[(pre & q & post & -> & Hq & Hpost) Hlast]].
    + exists ps, p, []. split_and!; [done..|]. intros q d' Hq. by apply not_elem_of_nil in Hq.
    + exists pre, q, (post ++ [p]). split_and!; [by rewrite <-app_assoc|done|].
      intros r d' Hr. apply elem_of_app in Hr as [Hr|Hr]; [by apply Hpost|].
      apply list_elem_of_singleton in Hr as ->. apply Hlast.
Qed.

Lemma registrations_lookup ps s d :
  bySerial (registrations ps) !! s = Some d ↔ Serial d = s ∧ last_registered ps d.
Proof.
  revert s d. induction ps as [|p ps IH] using rev_ind; intros s d.
  - split; [done|]. intros [_ (pre & q & post & E & _)]. by destruct pre.
  - unfold registrations in *. rewrite foldl_app, last_registered_snoc. cbn [foldl].
    set (r := foldl _ _ ps) in *. unfold deviceRegistry_register.
    destruct (validateDeviceRegisterParams p) as [x|e]; cbn [fst bySerial].
    + destruct (decide (Serial x = s)) as [<-|Hne].
      * rewrite lookup_insert, decide_True by done. split.
        { intros [= <-]. split; [done|]. by left. }
        intros [Hs [Hx|[_ Hx]]]; [congruence|]. by destruct (Hx x eq_refl).
      * rewrite lookup_insert_ne, IH by done. split.
        { intros [<- Hl]. split; [done|]. right. split; [done|]. intros d' [= <-]. done. }
        intros [Hs [Hx|[Hl _]]]; [congruence|done].
    + rewrite IH. split; intros [Hs H]; (split; [done|]); [by right|].
      by destruct H as [H|[H _]].
Qed.

#[global] Instance serial_le_total : Total serial_le.
Proof. intros d1 d2. unfold serial_le. apply (total String.le). Qed.
#[global] Instance serial_le_trans : Transitive serial_le.
Proof. intros d1 d2 d3. unfold serial_le. apply transitivity. Qed.

(** Sorting by a key that is unique in the list leaves no freedom. *)
Lemma sorted_by_serial_unique l k :
  StronglySorted serial_le l → StronglySorted serial_le k → l ≡ₚ k → NoDup (Serial <$> l) → l = k.
Proof.
  revert k. induction l as [|d l IH]; intros k Hl Hk Hp Hn.
  - apply Permutation_nil in Hp. by subst.
  - destruct k as [|e k]; [by apply Permutation_sym, Permutation_nil in Hp|].
    apply StronglySorted_inv in Hl as [Hl Hdl]. apply StronglySorted_inv in Hk as [Hk Hek].
    rewrite Forall_forall in Hdl, Hek. rewrite fmap_cons in Hn. apply NoDup_cons in Hn as [Hd Hn].
    assert (d = e) as ->.
    { assert (d ∈ e :: k) as H1 by (rewrite <-Hp; by apply list_elem_of_here).
      assert (e ∈ d :: l) as H2 by (rewrite Hp; by apply list_elem_of_here).
      apply elem_of_cons in H1 as [?|H1]; [done|]. apply elem_of_cons in H2 as [?|H2]; [done|].
      pose proof (Hdl e H2) as L1. pose proof (Hek d H1) as L2. unfold serial_le in *.
      exfalso. apply Hd. rewrite (anti_symm String.le _ _ L1 L2). apply list_elem_of_fmap. eauto. }
    f_equal. apply IH; [done..| |done]. by apply Permutation_cons_inv in Hp.
Qed.

(** Whatever was registered, and in whatever order the map is ranged over,
    the device list has one entry for each serial, the last registration that
    was accepted under it, and is in the order of the serials: it is the same
    for every order. *)
Theorem device_list_spec (ps : list DeviceRegisterParams) (order order' : list Device) :
  order ≡ₚ snd <$> map_to_list (bySerial (registrations ps)) →
  order' ≡ₚ snd <$> map_to_list (bySerial (registrations ps)) →
  (∀ d, d ∈ deviceRegistry_list order ↔ last_registered ps d) ∧
  StronglySorted serial_le (deviceRegistry_list order) ∧
  NoDup (Serial <$> deviceRegistry_list order) ∧
  deviceRegistry_list order' = deviceRegistry_list order.
Proof.
  intros Ho Ho'. unfold deviceRegistry_list.
  assert (∀ o, StronglySorted serial_le (merge_sort serial_le o)) as HS
    by (intros o; by apply (StronglySorted_merge_sort serial_le o)).
  pose proof (merge_sort_Permutation serial_le order) as P.
  pose proof (merge_sort_Permutation serial_le order') as P'.
  assert (NoDup (Serial <$> merge_sort serial_le order)) as Hn.
  { rewrite P, Ho, <-list_fmap_compose.
    assert ((Serial ∘ snd) <$> map_to_list (bySerial (registrations ps)) = fst <$> map_to_list (bySerial (registrations ps))) as ->.
    { apply list_fmap_ext. intros i [s d] Hi. apply list_elem_of_lookup_2, elem_of_map_to_list in Hi.
      apply registrations_lookup in Hi. apply Hi. }
    apply NoDup_fst_map_to_list. }
  split_and!; [|done..|].
  - intros d. rewrite P, Ho, list_elem_of_fmap. split.
    + intros ([s d'] & -> & Hd). apply elem_of_map_to_list, registrations_lookup in Hd. apply Hd.
    + intros Hd. exists (Serial d, d). split; [done|]. by apply elem_of_map_to_list, registrations_lookup.
  - symmetry. apply sorted_by_serial_unique; [done..| |done]. by rewrite P, P', Ho, Ho'.
Qed.

Lemma device_list_spec_witness :
  let p s a st := mkDeviceRegister s "tcp" a st in
  let ps := [p "" "10.0.0.2:5555" ""; p "b" "10.0.0.3:5555" ""; p "" "nowhere" ""; p "b" "10.0.0.4:5555" "offline"] in
  let d1 := mkDevice "10.0.0.2:5555" "device" "tcp" "10.0.0.2:5555" in
  let d2 := mkDevice "b" "offline" "tcp" "10.0.0.4:5555" in
  deviceRegistry_list [d2; d1] = [d1; d2] ∧ last_registered ps d1.
Proof.
  intros p ps d1 d2. split; [by vm_compute|].
  apply (device_list_spec ps (snd <$> map_to_list (bySerial (registrations ps))) (snd <$> map_to_list (bySerial (registrations ps))));
    [done..|]. apply list_elem_of_In. vm_compute. tauto.
Defined.
