(* ===== verification/Json.v ===== *)
(** * encoding/json

    What Go's [encoding/json] does with the documents of the control protocol
    and of the command line's [--json]: texts as runes, string literals with
    their escapes, the scanner and parser, [Marshal], [MarshalIndent] and
    [Unmarshal] into [any].  A text is taken apart into its runes first
    ([glyphs]), and a document is printed as runes, so that printing and
    parsing meet on lists.  The round trips are proved for every document, with
    the invalid bytes of its strings replaced as the package replaces them. *)

From S2P Require Import Prelude Errors GoStrings Strconv Text ServerProtocol.

#[local] Open Scope string_scope.
#[local] Open Scope Z_scope.
#[local] Open Scope list_scope.

(** ** Runes of a text *)

(** An ASCII character, a valid encoding of several bytes, or a byte that is in
    no valid encoding ([utf8.RuneError] of width 1). *)
Inductive glyph := Asc (a : ascii) | Utf (s : string) | Inv (a : ascii).

Definition glyph_text (g : glyph) : string :=
  match g with Asc a | Inv a => String a "" | Utf s => s end.
Fixpoint glyphs_text (l : list glyph) : string :=
  match l with [] => "" | g :: l => glyph_text g +++ glyphs_text l end.

Definition first_glyph (s : string) : glyph :=
  match s with
  | "" => Utf ""
  | String a _ =>
      if (rune_len s =? 1)%nat then (if code a <? 128 then Asc a else Inv a) else Utf (str_take (rune_len s) s)
  end.
Fixpoint glyphs_loop (fuel : nat) (s : string) : list glyph :=
  match fuel, s with
  | S fuel, String _ _ => first_glyph s :: glyphs_loop fuel (str_drop (rune_len s) s)
  | _, _ => []
  end.
Definition glyphs (s : string) : list glyph := glyphs_loop (String.length s) s.
#[global] Arguments glyphs : simpl never.
#[local] Arguments rune_len : simpl never.
#[global] Arguments first_glyph : simpl never.
#[local] Arguments str_drop : simpl never.
#[local] Arguments code : simpl never.

(** A glyph that the front of no text can be mistaken for another. *)
Definition glyph_ok (g : glyph) : bool :=
  match g with
  | Asc a => code a <? 128
  | Utf s => (1 <? String.length s)%nat && (rune_len s =? String.length s)%nat
  | Inv _ => false
  end.

(** [utf8.ValidString] *)
Definition ValidString (s : string) : bool := forallb glyph_ok (glyphs s).

Definition REPLACEMENT : glyph := Utf (String "239" (String "191" (String "189" ""))).
Definition coerce_glyph (g : glyph) : glyph := match g with Inv _ => REPLACEMENT | _ => g end.
(** Every byte outside valid encodings replaced by U+FFFD. *)
Definition coerce (s : string) : string := glyphs_text (coerce_glyph <$> glyphs s).

Lemma rune_len_pos s : (1 ≤ rune_len s ≤ 4)%nat.
Proof.
  unfold rune_len. destruct s as [|a [|b [|c [|d s]]]]; cbn -[code within cont];
    repeat case_match; lia.
Qed.

Lemma rune_len_fits s : s ≠ "" → (rune_len s ≤ String.length s)%nat.
Proof.
  destruct s as [|a [|b [|c [|d s]]]]; [done|..]; intros _; unfold rune_len;
    repeat case_match; cbn; lia.
Qed.

Lemma first_glyph_text a s : glyph_text (first_glyph (String a s)) = str_take (rune_len (String a s)) (String a s).
Proof.
  unfold first_glyph. destruct (Nat.eqb_spec (rune_len (String a s)) 1) as [->|]; [|done].
  by destruct (code a <? 128).
Qed.

Lemma glyphs_loop_text fuel s : (String.length s ≤ fuel)%nat → glyphs_text (glyphs_loop fuel s) = s.
Proof.
  revert s. induction fuel as [|fuel IH]; intros [|a s] Hl; cbn -[first_glyph rune_len str_drop] in *; [done|lia|done|].
  rewrite IH, first_glyph_text; [apply str_take_drop|].
  rewrite length_str_drop. pose proof (rune_len_pos (String a s)). cbn [String.length]. lia.
Qed.

Lemma glyphs_text_glyphs s : glyphs_text (glyphs s) = s.
Proof. by apply glyphs_loop_text. Qed.

Lemma glyphs_text_app l k : glyphs_text (l ++ k) = glyphs_text l +++ glyphs_text k.
Proof. induction l as [|g l IH]; cbn; [done|]. by rewrite IH, append_assoc. Qed.

(** The length of a valid encoding does not depend on what follows it. *)
Lemma rune_len_more s t : (1 < rune_len s)%nat → rune_len s = String.length s → rune_len (s +++ t) = rune_len s.
Proof.
  destruct s as [|a [|b [|c [|d [|e s]]]]]; cbn; unfold rune_len;
    repeat case_match; lia || (try congruence); destruct t; cbn; try congruence.
Qed.

Lemma rune_len_ascii a t : code a <? 128 = true → rune_len (String a t) = 1%nat.
Proof.
  intros Ha%Z.ltb_lt.
  assert (∀ lo hi, 128 <= lo → within a lo hi = false) as Hw by (intros; unfold within; apply andb_false_intro1, Z.leb_gt; lia).
  assert (∀ z, 128 <= z → (code a =? z) = false) as He by (intros; apply Z.eqb_neq; lia).
  unfold rune_len. by destruct t as [|b [|c [|d t]]]; rewrite ?Hw, ?He by lia.
Qed.

Lemma glyph_ok_front g t : glyph_ok g = true →
  ∃ a s, glyph_text g +++ t = String a s ∧ first_glyph (String a s) = g ∧
    str_drop (rune_len (String a s)) (String a s) = t ∧ (String.length (glyph_text g) = rune_len (String a s)).
Proof.
  destruct g as [a|s|a]; cbn -[rune_len first_glyph str_drop code Nat.ltb Nat.eqb]; [| |done].
  - intros Ha. exists a, t. assert (rune_len (String a t) = 1%nat) as E by (by apply rune_len_ascii).
    unfold first_glyph. rewrite E. cbn -[code]. by rewrite Ha.
  - intros [Hl Hr]%andb_true_iff. apply Nat.ltb_lt in Hl. apply Nat.eqb_eq in Hr.
    destruct s as [|a s]; [cbn in Hl; lia|]. exists a, (s +++ t). split; [done|].
    change (String a (s +++ t)) with (String a s +++ t).
    assert (rune_len (String a s +++ t) = String.length (String a s)) as E by (rewrite rune_len_more; lia).
    rewrite E, str_drop_append. split_and!; [|done..]. unfold first_glyph.
    change (String a s +++ t) with (String a (s +++ t)) in *. rewrite E.
    destruct (Nat.eqb_spec (String.length (String a s)) 1); [lia|]. f_equal. apply (str_take_append (String a s)).
Qed.

Lemma glyphs_loop_enough n m s : (String.length s ≤ n)%nat → (String.length s ≤ m)%nat → glyphs_loop n s = glyphs_loop m s.
Proof.
  revert m s. induction n as [|n IH]; intros [|m] [|a s] Hn Hm; cbn -[first_glyph rune_len str_drop] in *; [done|lia|done|lia|done|lia|done|].
  f_equal. pose proof (rune_len_pos (String a s)).
  apply IH; rewrite length_str_drop; cbn [String.length]; lia.
Qed.

Lemma glyphs_cons g t : glyph_ok g = true → glyphs (glyph_text g +++ t) = g :: glyphs t.
Proof.
  intros Hg. destruct (glyph_ok_front g t Hg) as (a & s & E & Hf & Hd & _).
  unfold glyphs at 1. rewrite E. cbn -[first_glyph rune_len str_drop]. rewrite Hf, Hd. f_equal.
  apply glyphs_loop_enough; [|done]. rewrite <-Hd, length_str_drop. cbn [String.length].
  pose proof (rune_len_pos (String a s)). lia.
Qed.

Lemma glyphs_append l t : forallb glyph_ok l = true → glyphs (glyphs_text l +++ t) = l ++ glyphs t.
Proof.
  induction l as [|g l IH]; cbn; [done|]. intros [Hg Hl]%andb_true_iff.
  rewrite <-append_assoc, glyphs_cons by done. by rewrite IH.
Qed.

Lemma glyphs_of_text l : forallb glyph_ok l = true → glyphs (glyphs_text l) = l.
Proof. intros Hl. by rewrite <-(append_nil_r (glyphs_text l)), glyphs_append, app_nil_r. Qed.

(** What [glyphs] gives is a glyph of its own or a single invalid byte. *)
Lemma first_glyph_ok a s : glyph_ok (first_glyph (String a s)) = true ∨ ∃ b, first_glyph (String a s) = Inv b.
Proof.
  unfold first_glyph. destruct (Nat.eqb_spec (rune_len (String a s)) 1) as [E|E].
  - destruct (code a <? 128) eqn:Ha; [left|right; eauto]. exact Ha.
  - left. pose proof (rune_len_pos (String a s)). pose proof (rune_len_fits (String a s) ltac:(done)) as Hfit.
    cbn -[rune_len str_take Nat.ltb Nat.eqb]. rewrite length_str_take by done.
    apply andb_true_iff; split; [apply Nat.ltb_lt; lia|]. apply Nat.eqb_eq.
    generalize dependent (String a s). clear a s. intros s E ? ?.
    destruct s as [|a [|b [|c [|d s]]]]; revert E; unfold rune_len; cbn;
      repeat (case_match; cbn in *; try congruence); by intros.
Qed.

Lemma coerce_ok a s : glyph_ok (coerce_glyph (first_glyph (String a s))) = true.
Proof. destruct (first_glyph_ok a s) as [H|[b ->]]; [|done]. by destruct (first_glyph (String a s)). Qed.

Lemma coerced_ok s : forallb glyph_ok (coerce_glyph <$> glyphs s) = true.
Proof.
  unfold glyphs. generalize (String.length s) as n. intros n. revert s.
  induction n as [|n IH]; intros [|a s]; cbn -[first_glyph rune_len str_drop]; [done..|].
  by rewrite coerce_ok, IH.
Qed.

Lemma coerce_valid s : ValidString s = true → coerce s = s.
Proof.
  unfold ValidString, coerce. intros Hs. rewrite <-(glyphs_text_glyphs s) at 2. f_equal.
  induction (glyphs s) as [|g l IH]; cbn in *; [done|]. apply andb_true_iff in Hs as [Hg Hl].
  rewrite IH by done. by destruct g.
Qed.

Lemma ValidString_coerce s : ValidString (coerce s) = true.
Proof. unfold ValidString, coerce. by rewrite glyphs_of_text, coerced_ok by apply coerced_ok. Qed.

Lemma ValidString_text l : forallb glyph_ok l = true → ValidString (glyphs_text l) = true.
Proof. intros Hl. unfold ValidString. by rewrite glyphs_of_text. Qed.

(** ASCII texts are valid. *)
Fixpoint is_ascii (s : string) : bool := match s with "" => true | String a s => (code a <? 128) && is_ascii s end.
Fixpoint ascii_glyphs (s : string) : list glyph := match s with "" => [] | String a s => Asc a :: ascii_glyphs s end.

Lemma glyphs_ascii s t : is_ascii s = true → glyphs (s +++ t) = ascii_glyphs s ++ glyphs t.
Proof.
  induction s as [|a s IH]; cbn -[code]; [done|]. intros [Ha Hs]%andb_true_iff.
  by rewrite <-IH, <-(glyphs_cons (Asc a)).
Qed.

Lemma ValidString_ascii s : is_ascii s = true → ValidString s = true.
Proof.
  intros Hs. unfold ValidString. rewrite <-(append_nil_r s), glyphs_ascii by done. cbn. rewrite app_nil_r.
  induction s as [|a s IH]; cbn -[code] in *; [done|]. apply andb_true_iff in Hs as [-> Hs]. by apply IH.
Qed.

(** ** String literals *)

Definition QUOTE : ascii := "034"%char.
Definition BACKSLASH : ascii := "\"%char.
Definition is_char (g : glyph) (a : ascii) : bool := match g with Asc b => Ascii.eqb a b | _ => false end.

Definition hex_digit (n : Z) : ascii := default "0"%char (String.get (Z.to_nat n) "0123456789abcdef").
(** [\u] and four digits. *)
Definition u_escape (r : Z) : list glyph :=
  Asc BACKSLASH :: Asc "u" ::
  ((λ n, Asc (hex_digit n)) <$> [r / 4096 mod 16; r / 256 mod 16; r / 16 mod 16; r mod 16]).

(** [htmlSafeSet] *)
Definition html_safe (a : ascii) : bool :=
  (32 <=? code a) && negb (existsb (Ascii.eqb a) [QUOTE; BACKSLASH; "<"; ">"; "&"]%char).
Definition LINE_SEPARATOR : string := String "226" (String "128" (String "168" "")).
Definition PARAGRAPH_SEPARATOR : string := String "226" (String "128" (String "169" "")).

(** [appendString] with [escapeHTML], one rune. *)
Definition escape_ascii (a : ascii) : list glyph :=
  if html_safe a then [Asc a] else
  if Ascii.eqb a QUOTE || Ascii.eqb a BACKSLASH then [Asc BACKSLASH; Asc a] else
  if code a =? 8 then [Asc BACKSLASH; Asc "b"] else
  if code a =? 12 then [Asc BACKSLASH; Asc "f"] else
  if code a =? 10 then [Asc BACKSLASH; Asc "n"] else
  if code a =? 13 then [Asc BACKSLASH; Asc "r"] else
  if code a =? 9 then [Asc BACKSLASH; Asc "t"] else u_escape (code a).
Definition escape_glyph (g : glyph) : list glyph :=
  match g with
  | Asc a => escape_ascii a
  | Inv _ => u_escape 0xFFFD
  | Utf s =>
      if (s =? LINE_SEPARATOR)%string then u_escape 0x2028
      else if (s =? PARAGRAPH_SEPARATOR)%string then u_escape 0x2029 else [Utf s]
  end.
Definition print_string (s : string) : list glyph :=
  Asc QUOTE :: concat (escape_glyph <$> glyphs s) ++ [Asc QUOTE].

(** [utf8.AppendRune] of a rune that is no surrogate. *)
Definition chr (n : Z) : ascii := ascii_of_N (Z.to_N n).
Definition encode_rune (r : Z) : glyph :=
  if r <? 0x80 then Asc (chr r)
  else if r <? 0x800 then Utf (String (chr (0xC0 + r / 64)) (String (chr (0x80 + r mod 64)) ""))
  else if r <? 0x10000
  then Utf (String (chr (0xE0 + r / 4096)) (String (chr (0x80 + r / 64 mod 64)) (String (chr (0x80 + r mod 64)) "")))
  else Utf (String (chr (0xF0 + r / 262144)) (String (chr (0x80 + r / 4096 mod 64))
             (String (chr (0x80 + r / 64 mod 64)) (String (chr (0x80 + r mod 64)) "")))).

Definition hex_of (g : glyph) : option Z := match g with Asc a => hexval (code a) | _ => None end.
(** [getu4], behind [\u] *)
Definition hex4 (a b c d : glyph) : option Z :=
  h ← hex_of a; i ← hex_of b; j ← hex_of c; k ← hex_of d; Some (((h * 16 + i) * 16 + j) * 16 + k).
Definition high_surrogate (r : Z) : bool := (0xD800 <=? r) && (r <? 0xDC00).
Definition low_surrogate (r : Z) : bool := (0xDC00 <=? r) && (r <? 0xE000).

(** The character a backslash and [a] stand for. *)
Definition simple_escape (a : ascii) : option ascii :=
  if existsb (Ascii.eqb a) [QUOTE; BACKSLASH; "/"%char] then Some a
  else if Ascii.eqb a "b" then Some "008"%char
  else if Ascii.eqb a "f" then Some "012"%char
  else if Ascii.eqb a "n" then Some "010"%char
  else if Ascii.eqb a "r" then Some "013"%char
  else if Ascii.eqb a "t" then Some "009"%char
  else None.

(** The scanner's states of a literal and [unquote] in one: behind the opening
    quote, what the literal stands for and what follows it. *)
Definition prepend (g : glyph) (r : option (list glyph * list glyph)) : option (list glyph * list glyph) :=
  '(s, rest) ← r; Some (g :: s, rest).
Fixpoint scan_string (l : list glyph) : option (list glyph * list glyph) :=
  match l with
  | [] => None
  | Inv _ :: l => prepend REPLACEMENT (scan_string l)
  | Utf s :: l => prepend (Utf s) (scan_string l)
  | Asc c :: l =>
      if Ascii.eqb c QUOTE then Some ([], l)
      else if code c <? 32 then None
      else if negb (Ascii.eqb c BACKSLASH) then prepend (Asc c) (scan_string l)
      else match l with
           | e :: l =>
               if negb (is_char e "u") then
                 match e with
                 | Asc a => a ← simple_escape a; prepend (Asc a) (scan_string l)
                 | _ => None
                 end
               else match l with
                    | h1 :: h2 :: h3 :: h4 :: l =>
                        match hex4 h1 h2 h3 h4 with
                        | None => None
                        | Some r =>
                            if negb (high_surrogate r || low_surrogate r) then prepend (encode_rune r) (scan_string l)
                            else match l with
                                 | b :: u :: k1 :: k2 :: k3 :: k4 :: l' =>
                                     match (if high_surrogate r && is_char b BACKSLASH && is_char u "u" then hex4 k1 k2 k3 k4 else None) with
                                     | Some r2 =>
                                         if low_surrogate r2
                                         then prepend (encode_rune (0x10000 + (r - 0xD800) * 1024 + (r2 - 0xDC00))) (scan_string l')
                                         else prepend REPLACEMENT (scan_string l)
                                     | None => prepend REPLACEMENT (scan_string l)
                                     end
                                 | _ => prepend REPLACEMENT (scan_string l)
                                 end
                        end
                    | _ => None
                    end
           | [] => None
           end
  end.

(** A literal with its quotes. *)
Definition parse_string (l : list glyph) : option (string * list glyph) :=
  match l with
  | q :: l => if is_char q QUOTE then '(s, rest) ← scan_string l; Some (glyphs_text s, rest) else None
  | [] => None
  end.

Lemma scan_escape_ascii a l : code a < 128 → scan_string (escape_ascii a ++ l) = prepend (Asc a) (scan_string l).
Proof.
  destruct a as [[] [] [] [] [] [] [] []]; intros Ha; (exfalso; vm_compute in Ha; discriminate) || reflexivity.
Qed.

Lemma scan_escape g l : glyph_ok (coerce_glyph g) = true →
  scan_string (escape_glyph g ++ l) = prepend (coerce_glyph g) (scan_string l).
Proof.
  destruct g as [a|s|b]; cbn [escape_glyph coerce_glyph].
  - intros Ha%Z.ltb_lt. by apply scan_escape_ascii.
  - intros _. destruct (String.eqb_spec s LINE_SEPARATOR) as [->|]; [reflexivity|].
    by destruct (String.eqb_spec s PARAGRAPH_SEPARATOR) as [->|].
  - reflexivity.
Qed.

Lemma scan_escaped l rest : forallb glyph_ok (coerce_glyph <$> l) = true →
  scan_string (concat (escape_glyph <$> l) ++ Asc QUOTE :: rest) = Some (coerce_glyph <$> l, rest).
Proof.
  induction l as [|g l IH]; [done|]. cbn [fmap list_fmap concat forallb]. intros [Hg Hl]%andb_true_iff.
  rewrite <-app_assoc, scan_escape by done. change (list_fmap _ _ coerce_glyph l) with (coerce_glyph <$> l) in Hl.
  change (list_fmap _ _ escape_glyph l) with (escape_glyph <$> l). by rewrite IH.
Qed.

Lemma parse_print_string s rest : parse_string (print_string s ++ rest) = Some (coerce s, rest).
Proof.
  unfold parse_string, print_string. cbn. rewrite <-app_assoc. cbn [app].
  by rewrite scan_escaped by apply coerced_ok.
Qed.

Lemma u_escape_ok r : forallb glyph_ok (u_escape r) = true.
Proof.
  unfold u_escape. cbn -[Z.modulo Z.div Z.ltb hex_digit].
  assert (∀ n, code (hex_digit n) <? 128 = true) as H; [|by rewrite !H].
  intros n. unfold hex_digit. destruct (String.get _ _) as [a|] eqn:E; [|reflexivity].
  assert (∃ k, (k < 16)%nat ∧ String.get k "0123456789abcdef" = Some a) as (k & Hk & Ek).
  { exists (Z.to_nat n). split; [|done]. generalize (Z.to_nat n) E. clear.
    intros k. do 16 (destruct k as [|k]; [lia|]). by destruct k. }
  do 16 (destruct k as [|k]; [by injection Ek as <-|]). lia.
Qed.

Lemma escape_ok g : glyph_ok (coerce_glyph g) = true → forallb glyph_ok (escape_glyph g) = true.
Proof.
  destruct g as [a|s|b]; cbn [escape_glyph coerce_glyph]; intros Hg; [| |apply u_escape_ok].
  - unfold escape_ascii. destruct (html_safe a); [cbn [forallb]; by rewrite Hg|].
    destruct (_ || _); [cbn [forallb]; by rewrite Hg|]. repeat case_match; try done. apply u_escape_ok.
  - repeat case_match; try apply u_escape_ok. cbn [forallb]. by rewrite Hg.
Qed.

Lemma print_string_ok s : forallb glyph_ok (print_string s) = true.
Proof.
  unfold print_string. cbn [forallb]. rewrite forallb_app. apply andb_true_iff; split; [done|].
  apply andb_true_iff; split; [|done].
  pose proof (coerced_ok s) as H. induction (glyphs s) as [|g l IH]; [done|]. cbn in *.
  apply andb_true_iff in H as [Hg Hl]. rewrite forallb_app, escape_ok by done. by apply IH.
Qed.

(** ** Number literals *)

Definition digit_of (g : glyph) : option ascii :=
  match g with Asc a => if is_digit (code a) then Some a else None | _ => None end.
Fixpoint scan_digits (l : list glyph) : string * list glyph :=
  match l with
  | g :: l' => match digit_of g with
               | Some a => let '(ds, rest) := scan_digits l' in (String a ds, rest)
               | None => ("", l)
               end
  | [] => ("", [])
  end.
(** At least one digit. *)
Definition scan_digits1 (l : list glyph) : option (string * list glyph) :=
  let '(ds, rest) := scan_digits l in if (ds =? "")%string then None else Some (ds, rest).

(** One character of [cs], if it comes next. *)
Definition scan_char (cs : list ascii) (l : list glyph) : option (string * list glyph) :=
  match l with
  | Asc a :: l => if existsb (Ascii.eqb a) cs then Some (String a "", l) else None
  | _ => None
  end.
Definition maybe (r : option (string * list glyph)) (l : list glyph) : string * list glyph := default ("", l) r.

Definition scan_integer (l : list glyph) : option (string * list glyph) :=
  match scan_char ["0"%char] l with Some r => Some r | None => scan_digits1 l end.
Definition scan_fraction (l : list glyph) : option (string * list glyph) :=
  match scan_char ["."%char] l with
  | Some (dot, l) => '(ds, rest) ← scan_digits1 l; Some (dot +++ ds, rest)
  | None => Some ("", l)
  end.
Definition scan_exponent (l : list glyph) : option (string * list glyph) :=
  match scan_char ["e"; "E"]%char l with
  | Some (e, l) =>
      let '(sign, l) := maybe (scan_char ["+"; "-"]%char l) l in
      '(ds, rest) ← scan_digits1 l; Some (e +++ sign +++ ds, rest)
  | None => Some ("", l)
  end.
(** A sign, an integer without leading zeros, a fraction, an exponent. *)
Definition scan_number (l : list glyph) : option (string * list glyph) :=
  let '(sign, l) := maybe (scan_char ["-"%char] l) l in
  '(int, l) ← scan_integer l;
  '(frac, l) ← scan_fraction l;
  '(exp, l) ← scan_exponent l;
  Some (sign +++ int +++ frac +++ exp, l).

(** A text that is a literal of its own. *)
Definition is_number (s : string) : bool :=
  is_ascii s && match scan_number (ascii_glyphs s) with Some (t, []) => (t =? s)%string | _ => false end.

(** A character that can be part of a number. *)
Definition in_number (g : glyph) : bool :=
  match g with Asc a => is_digit (code a) || existsb (Ascii.eqb a) ["-"; "+"; "."; "e"; "E"]%char | _ => false end.
Definition ends_number (l : list glyph) : Prop := match l with g :: _ => in_number g = false | [] => True end.

Lemma scan_char_app cs l t rest : scan_char cs l = Some (t, rest) → ∀ k, scan_char cs (l ++ k) = Some (t, rest ++ k).
Proof. destruct l as [|[a|s|a] l]; cbn; try done. case_match; [|done]. by intros [= <- <-]. Qed.

Lemma scan_char_none cs l k : scan_char cs l = None → ends_number k →
  Forall (λ a, in_number (Asc a) = true) cs → scan_char cs (l ++ k) = None.
Proof.
  destruct l as [|[a|s|a] l]; cbn; [|by case_match|done..]. intros _ Hk Hcs.
  destruct k as [|[a|s|a] k]; [done| |done..]. cbn in *.
  destruct (existsb (Ascii.eqb a) cs) eqn:E; [|done]. apply existsb_exists in E as (b & Hb & ->%Ascii.eqb_eq).
  rewrite List.Forall_forall in Hcs. by rewrite (Hcs b Hb) in Hk.
Qed.

Lemma scan_digits_app l k : ends_number k → ∀ ds rest, scan_digits l = (ds, rest) → scan_digits (l ++ k) = (ds, rest ++ k).
Proof.
  intros Hk. induction l as [|g l IH]; cbn.
  - intros ds rest [= <- <-]. destruct k as [|g k]; [done|]. cbn in *. destruct g as [a|s|a]; cbn in *; [|done..].
    apply orb_false_iff in Hk as [-> _]. done.
  - destruct (digit_of g) as [a|]; [|by intros ds rest [= <- <-]].
    destruct (scan_digits l) as [ds rest]. rewrite (IH ds rest eq_refl). by intros ? ? [= <- <-].
Qed.

Lemma scan_digits1_app l k ds rest : ends_number k → scan_digits1 l = Some (ds, rest) →
  scan_digits1 (l ++ k) = Some (ds, rest ++ k).
Proof.
  intros Hk. unfold scan_digits1. destruct (scan_digits l) as [ds' rest'] eqn:E.
  rewrite (scan_digits_app l k Hk _ _ E). case_match; [done|]. by intros [= <- <-].
Qed.

Ltac in_number_chars := repeat constructor.

Lemma scan_number_app l k t rest : ends_number k → scan_number l = Some (t, rest) → scan_number (l ++ k) = Some (t, rest ++ k).
Proof.
  intros Hk. unfold scan_number.
  assert (∀ cs l, Forall (λ a, in_number (Asc a) = true) cs →
    maybe (scan_char cs (l ++ k)) (l ++ k) = (fst (maybe (scan_char cs l) l), snd (maybe (scan_char cs l) l) ++ k)) as Hmaybe.
  { intros cs l0 Hcs. destruct (scan_char cs l0) as [[a l1]|] eqn:E.
    - by rewrite (scan_char_app _ _ _ _ E).
    - by rewrite (scan_char_none _ _ _ E). }
  rewrite Hmaybe by in_number_chars. destruct (maybe _ l) as [sign l1]. cbn [fst snd].
  intros H. apply bind_Some in H as ([int l2] & E2 & H). apply bind_Some in H as ([frac l3] & E3 & H).
  apply bind_Some in H as ([exp l4] & E4 & [= <- <-]).
  assert (scan_integer (l1 ++ k) = Some (int, l2 ++ k)) as ->.
  { unfold scan_integer in *. destruct (scan_char _ l1) as [[a l']|] eqn:E.
    - rewrite (scan_char_app _ _ _ _ E). by injection E2 as <- <-.
    - rewrite (scan_char_none _ _ _ E) by (done || in_number_chars). by apply scan_digits1_app. }
  cbn [mbind option_bind]. assert (scan_fraction (l2 ++ k) = Some (frac, l3 ++ k)) as ->.
  { unfold scan_fraction in *. destruct (scan_char _ l2) as [[a l']|] eqn:E.
    - rewrite (scan_char_app _ _ _ _ E). apply bind_Some in E3 as ([ds r] & Ed & [= <- <-]).
      by rewrite (scan_digits1_app _ _ _ _ Hk Ed).
    - rewrite (scan_char_none _ _ _ E) by (done || in_number_chars). by injection E3 as <- <-. }
  cbn [mbind option_bind]. assert (scan_exponent (l3 ++ k) = Some (exp, l4 ++ k)) as ->; [|done].
  unfold scan_exponent in *. destruct (scan_char _ l3) as [[a l']|] eqn:E.
  - rewrite (scan_char_app _ _ _ _ E), Hmaybe by in_number_chars. destruct (maybe _ l') as [sg l'']. cbn [fst snd].
    apply bind_Some in E4 as ([ds r] & Ed & [= <- <-]). by rewrite (scan_digits1_app _ _ _ _ Hk Ed).
  - rewrite (scan_char_none _ _ _ E) by (done || in_number_chars). by injection E4 as <- <-.
Qed.

(** Integers are printed as literals. *)
Lemma scan_digits_uint u : scan_digits (ascii_glyphs (DecimalString.NilEmpty.string_of_uint u)) =
  (DecimalString.NilEmpty.string_of_uint u, []).
Proof. induction u as [|u IH|u IH|u IH|u IH|u IH|u IH|u IH|u IH|u IH|u IH]; [done|..]; cbn; by rewrite IH. Qed.

Lemma is_ascii_uint u : is_ascii (DecimalString.NilEmpty.string_of_uint u) = true.
Proof. induction u as [|u IH|u IH|u IH|u IH|u IH|u IH|u IH|u IH|u IH|u IH]; [done|..]; cbn; by rewrite IH. Qed.

Lemma is_ascii_Itoa n : is_ascii (Itoa n) = true.
Proof.
  destruct n as [|p|p]; [done| |].
  - rewrite Itoa_pos. destruct (Pos.to_uint p) eqn:E; [by apply DecimalPos.Unsigned.to_uint_nonnil in E|..];
      apply is_ascii_uint.
  - change (Itoa (Z.neg p)) with (String "-" (DecimalString.NilZero.string_of_uint (Pos.to_uint p))).
    destruct (Pos.to_uint p) eqn:E; [by apply DecimalPos.Unsigned.to_uint_nonnil in E|..]; apply (is_ascii_uint _).
Qed.

Definition no_leading_zero (u : Decimal.uint) : bool :=
  match u with Decimal.D0 Decimal.Nil => true | Decimal.D0 _ | Decimal.Nil => false | _ => true end.

Lemma no_leading_zero_pos p : no_leading_zero (Pos.to_uint p) = true.
Proof.
  pose proof (DecimalPos.Unsigned.to_uint_nonnil p) as Hn.
  pose proof (DecimalPos.Unsigned.to_of (Pos.to_uint p)) as H. rewrite DecimalPos.Unsigned.of_to in H.
  cbn [N.to_uint] in H. destruct (Pos.to_uint p) as [|u|u|u|u|u|u|u|u|u|u] eqn:E; try done.
  unfold Decimal.unorm in H. exfalso.
  destruct (Decimal.nzhead (Decimal.D0 u)) eqn:En; try discriminate H.
  - injection H as ->. by apply (DecimalPos.Unsigned.to_uint_nonzero p).
  - by apply (DecimalFacts.nzhead_nonzero (Decimal.D0 u) u0).
Qed.

Lemma scan_uint u : no_leading_zero u = true →
  scan_integer (ascii_glyphs (DecimalString.NilEmpty.string_of_uint u)) = Some (DecimalString.NilEmpty.string_of_uint u, []).
Proof.
  intros Hu. unfold scan_integer, scan_digits1.
  destruct u as [|u|u|u|u|u|u|u|u|u|u]; [done|by destruct u|..]; cbn; by rewrite scan_digits_uint.
Qed.

Lemma is_number_Itoa n : is_number (Itoa n) = true.
Proof.
  unfold is_number. rewrite is_ascii_Itoa. assert (scan_number (ascii_glyphs (Itoa n)) = Some (Itoa n, [])) as ->; [|apply String.eqb_refl].
  destruct n as [|p|p]; [done| |].
  - rewrite Itoa_pos. pose proof (no_leading_zero_pos p) as Hu. pose proof (scan_uint _ Hu) as E. revert E Hu.
    destruct (Pos.to_uint p) as [|u|u|u|u|u|u|u|u|u|u]; [done|destruct u; intros _ Hu; reflexivity || discriminate Hu|..];
      unfold scan_number; intros E _; cbn in *; rewrite E; cbn; by rewrite append_nil_r.
  - change (Itoa (Z.neg p)) with (String "-" (DecimalString.NilZero.string_of_uint (Pos.to_uint p))).
    pose proof (no_leading_zero_pos p) as Hu. pose proof (scan_uint _ Hu) as E. revert E Hu.
    destruct (Pos.to_uint p) as [|u|u|u|u|u|u|u|u|u|u]; [done|destruct u; intros _ Hu; reflexivity || discriminate Hu|..];
      unfold scan_number; intros E _; cbn in *; rewrite E; cbn; by rewrite append_nil_r.
Qed.

(** ** Documents *)

Unset Elimination Schemes.
Inductive json :=
  | JNull
  | JBool (b : bool)
  | JNumber (literal : string)
  | JString (s : string)
  | JArray (l : list json)
  | JObject (l : list (string * json)).
Set Elimination Schemes.

Section json_ind.
Context (P : json → Prop).
Context (Pnull : P JNull) (Pbool : ∀ b, P (JBool b)) (Pnumber : ∀ s, P (JNumber s)) (Pstring : ∀ s, P (JString s)).
Context (Parray : ∀ l, Forall P l → P (JArray l)) (Pobject : ∀ l, Forall (P ∘ snd) l → P (JObject l)).
Fixpoint json_ind (j : json) : P j :=
  match j with
  | JNull => Pnull | JBool b => Pbool b | JNumber s => Pnumber s | JString s => Pstring s
  | JArray l => Parray l ((fix go l : Forall P l :=
      match l with [] => List.Forall_nil _ | j :: l => List.Forall_cons _ _ _ (json_ind j) (go l) end) l)
  | JObject l => Pobject l ((fix go l : Forall (P ∘ snd) l :=
      match l with [] => List.Forall_nil _ | kv :: l => List.Forall_cons _ _ _ (json_ind kv.2) (go l) end) l)
  end.
End json_ind.

(** [Marshal], as runes. *)
Fixpoint separated (sep : list glyph) (l : list (list glyph)) : list glyph :=
  match l with [] => [] | [x] => x | x :: l => x ++ sep ++ separated sep l end.
Section printing.
(** The space in front of an element and of the closing bracket, by depth, and
    behind a colon. *)
Context (line : nat → list glyph) (gap : list glyph).

Definition bracketed (open close : ascii) (depth : nat) (l : list (list glyph)) : list glyph :=
  match l with
  | [] => [Asc open; Asc close]
  | _ => Asc open :: line (S depth) ++ separated (Asc "," :: line (S depth)) l ++ line depth ++ [Asc close]
  end.

Fixpoint pretty (depth : nat) (j : json) : list glyph :=
  match j with
  | JNull => ascii_glyphs "null"
  | JBool b => ascii_glyphs (if b then "true" else "false")
  | JNumber s => ascii_glyphs s
  | JString s => print_string s
  | JArray l => bracketed "[" "]" depth (pretty (S depth) <$> l)
  | JObject l => bracketed "{" "}" depth ((λ kv, print_string kv.1 ++ Asc ":" :: gap ++ pretty (S depth) kv.2) <$> l)
  end.
End printing.

Definition print : json → list glyph := pretty (λ _, []) [] 0.
Definition Marshal (j : json) : string := glyphs_text (print j).

(** [MarshalIndent(v, "", indent)] for an indent of two spaces. *)
Definition indent_line (depth : nat) : list glyph := Asc "010" :: concat (replicate depth [Asc " "; Asc " "]).
Definition print_indent : json → list glyph := pretty indent_line [Asc " "] 0.
Definition MarshalIndent (j : json) : string := glyphs_text (print_indent j).

(** The parser.  [NoFuel] is a run that was cut short; [parse_total] excludes it. *)
Inductive parsed (A : Type) := Got (a : A) (rest : list glyph) | Malformed | NoFuel.
Arguments Got {A} a rest.
Arguments Malformed {A}.
Arguments NoFuel {A}.
#[global] Instance parsed_eq_dec_fuel {A} (r : parsed A) : Decision (r = NoFuel).
Proof. destruct r; [right|right|left]; done. Defined.

Definition is_space (g : glyph) : bool := existsb (is_char g) ["032"; "009"; "010"; "013"]%char.
Fixpoint skip_space (l : list glyph) : list glyph :=
  match l with g :: l' => if is_space g then skip_space l' else l | [] => [] end.

(** The word, if it comes next. *)
Fixpoint scan_word (w : string) (l : list glyph) : option (list glyph) :=
  match w, l with
  | "", l => Some l
  | String a w, g :: l => if is_char g a then scan_word w l else None
  | _, [] => None
  end.

Definition bindp {A B} (r : parsed A) (k : A → list glyph → parsed B) : parsed B :=
  match r with Got a rest => k a rest | Malformed => Malformed | NoFuel => NoFuel end.
Definition of_option {A} (r : option (A * list glyph)) : parsed A :=
  match r with Some (a, rest) => Got a rest | None => Malformed end.

Definition parse_scalar (l : list glyph) : parsed json :=
  match l with
  | [] => Malformed
  | g :: _ =>
      if is_char g QUOTE then bindp (of_option (parse_string l)) (λ s rest, Got (JString s) rest)
      else if is_char g "n" then match scan_word "null" l with Some rest => Got JNull rest | None => Malformed end
      else if is_char g "t" then match scan_word "true" l with Some rest => Got (JBool true) rest | None => Malformed end
      else if is_char g "f" then match scan_word "false" l with Some rest => Got (JBool false) rest | None => Malformed end
      else bindp (of_option (scan_number l)) (λ s rest, Got (JNumber s) rest)
  end.

(** [maxNestingDepth] *)
Definition maxNestingDepth : nat := 10000.

Fixpoint parse_value (fuel depth : nat) (l : list glyph) : parsed json :=
  match fuel with
  | O => NoFuel
  | S fuel =>
      match skip_space l with
      | [] => Malformed
      | g :: l =>
          if is_char g "{" then
            match depth with
            | O => Malformed
            | S depth =>
                if (match skip_space l with g :: _ => is_char g "}" | [] => false end)
                then Got (JObject []) (tail (skip_space l))
                else bindp (parse_members fuel depth l) (λ ms rest, Got (JObject ms) rest)
            end
          else if is_char g "[" then
            match depth with
            | O => Malformed
            | S depth =>
                if (match skip_space l with g :: _ => is_char g "]" | [] => false end)
                then Got (JArray []) (tail (skip_space l))
                else bindp (parse_elements fuel depth l) (λ js rest, Got (JArray js) rest)
            end
          else parse_scalar (g :: l)
      end
  end
with parse_members (fuel depth : nat) (l : list glyph) : parsed (list (string * json)) :=
  match fuel with
  | O => NoFuel
  | S fuel =>
      bindp (of_option (parse_string (skip_space l))) (λ key rest,
        match skip_space rest with
        | c :: rest =>
            if negb (is_char c ":") then Malformed else
            bindp (parse_value fuel depth rest) (λ v rest,
              match skip_space rest with
              | c :: rest =>
                  if is_char c "," then bindp (parse_members fuel depth rest) (λ ms rest, Got ((key, v) :: ms) rest)
                  else if is_char c "}" then Got [(key, v)] rest
                  else Malformed
              | [] => Malformed
              end)
        | [] => Malformed
        end)
  end
with parse_elements (fuel depth : nat) (l : list glyph) : parsed (list json) :=
  match fuel with
  | O => NoFuel
  | S fuel =>
      bindp (parse_value fuel depth l) (λ v rest,
        match skip_space rest with
        | c :: rest =>
            if is_char c "," then bindp (parse_elements fuel depth rest) (λ js rest, Got (v :: js) rest)
            else if is_char c "]" then Got [v] rest
            else Malformed
        | [] => Malformed
        end)
  end.

(** A first document and the text behind it ([Decoder.Decode]), and a document
    with nothing but space behind it ([Unmarshal]). *)
Definition parse (l : list glyph) : parsed json := parse_value (S (2 * length l)) maxNestingDepth l.
Definition decode_first (text : string) : option (json * list glyph) :=
  match parse (glyphs text) with Got j rest => Some (j, rest) | _ => None end.
Definition decode_whole (text : string) : option json :=
  match decode_first text with
  | Some (j, rest) => match skip_space rest with [] => Some j | _ => None end
  | None => None
  end.

(** *** The parser ends *)

Lemma skip_space_length l : (length (skip_space l) ≤ length l)%nat.
Proof. induction l as [|g l IH]; cbn -[is_space]; [done|]. destruct (is_space g); cbn; lia. Qed.

Lemma scan_string_length_fuel n l s rest : (length l ≤ n)%nat → scan_string l = Some (s, rest) → (length rest < length l)%nat.
Proof.
  revert l s rest. induction n as [|n IH]; intros l s rest Hl H; [destruct l; [done|cbn in Hl; lia]|].
  assert (∀ g k, (length k ≤ n)%nat → (length k < length l)%nat → prepend g (scan_string k) = Some (s, rest) →
    (length rest < length l)%nat) as Hk.
  { intros g k Hlk Hlt Hp. unfold prepend in Hp. apply bind_Some in Hp as ([s' rest'] & E & [= _ ->]).
    specialize (IH k s' rest Hlk E). lia. }
  destruct l as [|g l]; [done|]. cbn [scan_string] in H.
  repeat first [discriminate H | injection H as <- <-; cbn; lia | eapply Hk; [| |exact H]; cbn in *; lia
    | apply bind_Some in H as (? & _ & H) | case_hyp H; subst].
Qed.
Lemma scan_string_length l s rest : scan_string l = Some (s, rest) → (length rest < length l)%nat.
Proof. by apply (scan_string_length_fuel (length l)). Qed.

Lemma parse_string_length l s rest : parse_string l = Some (s, rest) → (length rest < length l)%nat.
Proof.
  unfold parse_string. destruct l as [|q l]; [done|]. destruct (is_char q QUOTE); [|done].
  intros H. apply bind_Some in H as ([g r] & E & [= _ ->]). apply scan_string_length in E. cbn. lia.
Qed.

Lemma scan_digits_length l ds rest : scan_digits l = (ds, rest) → (length rest + String.length ds = length l)%nat.
Proof.
  revert ds rest. induction l as [|g l IH]; intros ds rest; cbn; [by intros [= <- <-]|].
  destruct (digit_of g); [|by intros [= <- <-]]. destruct (scan_digits l) as [ds' rest'].
  intros [= <- <-]. cbn. specialize (IH _ _ eq_refl). lia.
Qed.
Lemma scan_digits1_length l ds rest : scan_digits1 l = Some (ds, rest) → (length rest < length l)%nat.
Proof.
  unfold scan_digits1. destruct (scan_digits l) as [ds' rest'] eqn:E. apply scan_digits_length in E.
  destruct ds'; [done|]. intros [= <- <-]. cbn in E. lia.
Qed.
Lemma scan_char_length cs l t rest : scan_char cs l = Some (t, rest) → length l = S (length rest).
Proof. destruct l as [|[a|s|a] l]; cbn; try done. case_match; [|done]. by intros [= _ <-]. Qed.
Lemma maybe_length cs l t rest : maybe (scan_char cs l) l = (t, rest) → (length rest ≤ length l)%nat.
Proof.
  unfold maybe. destruct (scan_char cs l) as [[a k]|] eqn:E; cbn; intros [= <- <-]; [|done].
  apply scan_char_length in E. lia.
Qed.

Lemma scan_number_length l t rest : scan_number l = Some (t, rest) → (length rest < length l)%nat.
Proof.
  unfold scan_number. destruct (maybe _ l) as [sign l1] eqn:E1. apply maybe_length in E1.
  intros H. apply bind_Some in H as ([int l2] & E2 & H). apply bind_Some in H as ([frac l3] & E3 & H).
  apply bind_Some in H as ([exp l4] & E4 & [= <- <-]).
  assert (length l2 < length l1)%nat.
  { unfold scan_integer in E2. destruct (scan_char _ l1) as [[a k]|] eqn:E; [|by apply scan_digits1_length in E2].
    injection E2 as <- <-. apply scan_char_length in E. lia. }
  assert (length l3 ≤ length l2)%nat.
  { unfold scan_fraction in E3. destruct (scan_char _ l2) as [[a k]|] eqn:E; [|by injection E3 as _ <-].
    apply bind_Some in E3 as ([ds r] & Ed & [= _ <-]). apply scan_digits1_length in Ed. apply scan_char_length in E. lia. }
  assert (length l4 ≤ length l3)%nat; [|lia].
  unfold scan_exponent in E4. destruct (scan_char _ l3) as [[a k]|] eqn:E; [|by injection E4 as _ <-].
  destruct (maybe _ k) as [sg k'] eqn:Em. apply maybe_length in Em.
  apply bind_Some in E4 as ([ds r] & Ed & [= _ <-]). apply scan_digits1_length in Ed. apply scan_char_length in E. lia.
Qed.

Lemma scan_word_length w l rest : scan_word w l = Some rest → length l = (String.length w + length rest)%nat.
Proof.
  revert l. induction w as [|a w IH]; intros l; cbn -[is_char]; [by destruct l; intros [= <-]|].
  destruct l as [|g l]; [done|]. destruct (is_char g a); [|done]. intros H%IH. cbn. lia.
Qed.

(** A parser that has fuel left over ends, nearer to the end of the text. *)
Definition ends {A} (l : list glyph) (r : parsed A) : Prop :=
  match r with Got _ rest => (length rest < length l)%nat | Malformed => True | NoFuel => False end.

Lemma ends_bind {A B} l (r : parsed A) (k : A → list glyph → parsed B) :
  ends l r → (∀ a rest, (length rest < length l)%nat → ends l (k a rest)) → ends l (bindp r k).
Proof. destruct r; cbn; auto. Qed.

Lemma ends_shorter {A} l k (r : parsed A) : ends k r → (length k ≤ length l)%nat → ends l r.
Proof. destruct r; cbn; lia || done. Qed.

Lemma ends_option {A} l (r : option (A * list glyph)) :
  (∀ a rest, r = Some (a, rest) → (length rest < length l)%nat) → ends l (of_option r).
Proof. destruct r as [[a rest]|]; cbn; [|done]. eauto. Qed.

Lemma ends_word {A} w (j : A) l : w ≠ "" → ends l (match scan_word w l with Some rest => Got j rest | None => Malformed end).
Proof.
  intros Hw. destruct (scan_word w l) as [rest|] eqn:E; [|done]. apply scan_word_length in E.
  destruct w; [done|]. cbn in *. lia.
Qed.

Lemma parse_scalar_ends l : ends l (parse_scalar l).
Proof.
  unfold parse_scalar. destruct l as [|g l]; [done|]. destruct (is_char g QUOTE); [|destruct (is_char g "n");
    [by apply ends_word|destruct (is_char g "t"); [by apply ends_word|destruct (is_char g "f"); [by apply ends_word|]]]];
    (apply ends_bind; [apply ends_option; intros a rest H|done]).
  - by eapply parse_string_length.
  - by eapply scan_number_length.
Qed.

Lemma parse_total_fuel fuel :
  (∀ depth l, (2 * length l < fuel)%nat → ends l (parse_value fuel depth l)) ∧
  (∀ depth l, (2 * length l < fuel)%nat → ends l (parse_members fuel depth l)) ∧
  (∀ depth l, (S (2 * length l) < fuel)%nat → ends l (parse_elements fuel depth l)).
Proof.
  induction fuel as [|fuel (IHv & IHm & IHe)]; [split_and!; intros; lia|]. split_and!; intros depth l Hl.
  - cbn [parse_value]. pose proof (skip_space_length l) as Hs. destruct (skip_space l) as [|g k]; [done|]. cbn in Hs.
    pose proof (skip_space_length k) as Hs'.
    assert (∀ c j, ends l (if (match skip_space k with g :: _ => is_char g c | [] => false end)
      then Got (A:=json) j (tail (skip_space k)) else Malformed)) as Hclose.
    { intros c j. destruct (skip_space k); [done|]. case_match; cbn in *; [lia|done]. }
    destruct (is_char g "{"); [destruct depth as [|depth]; [done|]; specialize (Hclose "}"%char (JObject []))|
      destruct (is_char g "["); [destruct depth as [|depth]; [done|]; specialize (Hclose "]"%char (JArray []))|]].
    + case_match; [done|]. apply ends_bind; [|done]. eapply ends_shorter; [apply IHm|]; lia.
    + case_match; [done|]. apply ends_bind; [|done]. eapply ends_shorter; [apply IHe|]; lia.
    + eapply ends_shorter; [apply parse_scalar_ends|]. done.
  - cbn [parse_members]. pose proof (skip_space_length l) as Hs. apply ends_bind.
    { apply ends_option. intros s rest H%parse_string_length. lia. }
    intros key rest Hk. pose proof (skip_space_length rest) as Hs2. destruct (skip_space rest) as [|c k]; [done|]. cbn in Hs2.
    destruct (negb _); [done|]. apply ends_bind; [eapply ends_shorter; [apply IHv|]; lia|].
    intros v rest3 Hv. pose proof (skip_space_length rest3) as Hs3. destruct (skip_space rest3) as [|c' k']; [done|]. cbn in Hs3.
    destruct (is_char c' ","); [|destruct (is_char c' "}"); cbn; [lia|done]].
    apply ends_bind; [eapply ends_shorter; [apply IHm|]; lia|]. cbn. lia.
  - cbn [parse_elements]. apply ends_bind; [eapply ends_shorter; [apply IHv|]; lia|].
    intros v rest Hv. pose proof (skip_space_length rest) as Hs. destruct (skip_space rest) as [|c k]; [done|]. cbn in Hs.
    destruct (is_char c ","); [|destruct (is_char c "]"); cbn; [lia|done]].
    apply ends_bind; [eapply ends_shorter; [apply IHe|]; lia|]. cbn. lia.
Qed.

Lemma parse_total l : parse l ≠ NoFuel.
Proof.
  destruct (parse_total_fuel (S (2 * length l))) as (Hv & _ & _). specialize (Hv maxNestingDepth l ltac:(lia)).
  unfold parse. by destruct (parse_value _ _ _).
Qed.

(** *** The texts of a document

    [writes n j l]: [l] is a text of [j], with any space between its tokens
    and nesting of at most [n]; the texts of elements and members end with the
    closing bracket.  The parser reads every such text. *)

Notation spaces s := (Forall (λ g, is_space g = true) s).

Definition writes_scalar (j : json) (l : list glyph) : Prop :=
  match j with
  | JNull => l = ascii_glyphs "null"
  | JBool b => l = ascii_glyphs (if b then "true" else "false")
  | JNumber s => is_number s = true ∧ l = ascii_glyphs s
  | JString s => ∃ t, s = coerce t ∧ l = print_string t
  | _ => False
  end.

Inductive writes : nat → json → list glyph → Prop :=
  | w_scalar n j l : writes_scalar j l → writes n j l
  | w_array_empty n s : spaces s → writes (S n) (JArray []) (Asc "[" :: s ++ [Asc "]"])
  | w_array n js l : writes_elements n js l → writes (S n) (JArray js) (Asc "[" :: l)
  | w_object_empty n s : spaces s → writes (S n) (JObject []) (Asc "{" :: s ++ [Asc "}"])
  | w_object n ms l : writes_members n ms l → writes (S n) (JObject ms) (Asc "{" :: l)
with writes_elements : nat → list json → list glyph → Prop :=
  | we_last n j l s1 s2 : spaces s1 → writes n j l → spaces s2 → writes_elements n [j] (s1 ++ l ++ s2 ++ [Asc "]"])
  | we_next n j js l k s1 s2 : spaces s1 → writes n j l → spaces s2 → writes_elements n js k →
      writes_elements n (j :: js) (s1 ++ l ++ s2 ++ Asc "," :: k)
with writes_members : nat → list (string * json) → list glyph → Prop :=
  | wm_last n t j l s1 s2 s3 s4 : spaces s1 → spaces s2 → spaces s3 → writes n j l → spaces s4 →
      writes_members n [(coerce t, j)] (s1 ++ print_string t ++ s2 ++ Asc ":" :: s3 ++ l ++ s4 ++ [Asc "}"])
  | wm_next n t j ms l k s1 s2 s3 s4 : spaces s1 → spaces s2 → spaces s3 → writes n j l → spaces s4 → writes_members n ms k →
      writes_members n ((coerce t, j) :: ms) (s1 ++ print_string t ++ s2 ++ Asc ":" :: s3 ++ l ++ s4 ++ Asc "," :: k).

Scheme writes_mut := Induction for writes Sort Prop
  with writes_elements_mut := Induction for writes_elements Sort Prop
  with writes_members_mut := Induction for writes_members Sort Prop.
Combined Scheme writes_ind_all from writes_mut, writes_elements_mut, writes_members_mut.

Lemma skip_spaces s l : spaces s → skip_space (s ++ l) = skip_space l.
Proof. induction 1 as [|g s Hg _ IH]; cbn -[is_space]; [done|]. by rewrite Hg. Qed.

Lemma skip_space_stop g l : is_space g = false → skip_space (g :: l) = g :: l.
Proof. intros Hg. cbn -[is_space]. by rewrite Hg. Qed.

Lemma ends_number_spaces s g l : spaces s → in_number g = false → ends_number (s ++ g :: l).
Proof.
  intros [|g' s' Hg' _] Hg; cbn -[in_number]; [done|]. destruct g' as [a|b|a]; [|done..].
  revert Hg'. destruct a as [[] [] [] [] [] [] [] []]; vm_compute; done.
Qed.

(** The first rune of a text tells what it is. *)
Definition opens (g : glyph) : Prop :=
  is_space g = false ∧ is_char g "]" = false ∧ is_char g "}" = false.

Lemma scan_number_front l t rest : scan_number l = Some (t, rest) →
  ∃ a l', l = Asc a :: l' ∧ in_number (Asc a) = true.
Proof.
  destruct l as [|[a|s|a] l]; [done| |done..]. intros H. exists a, l. split; [done|].
  destruct (in_number (Asc a)) eqn:E; [done|]. exfalso.
  assert (scan_char ["-"%char] (Asc a :: l) = None ∧ scan_char ["0"%char] (Asc a :: l) = None ∧ digit_of (Asc a) = None)
    as (H1 & H2 & H3).
  { cbn in E. apply orb_false_iff in E as [E1 E2]. cbn in E2. repeat (apply orb_false_iff in E2 as [? E2]).
    cbn. rewrite E1. destruct (Ascii.eqb a "-"), (Ascii.eqb a "0") eqn:E0; try done.
    apply Ascii.eqb_eq in E0 as ->. done. }
  unfold scan_number in H. rewrite H1 in H. cbn [maybe default] in H.
  unfold scan_integer, scan_digits1 in H. rewrite H2 in H. cbn [scan_digits] in H. rewrite H3 in H. done.
Qed.

Lemma is_number_front s : is_number s = true → ∃ a l, ascii_glyphs s = Asc a :: l ∧ in_number (Asc a) = true.
Proof.
  unfold is_number. intros [_ H]%andb_true_iff. destruct (scan_number _) as [[t rest]|] eqn:E; [|done].
  by destruct (scan_number_front _ _ _ E) as (a & l & ? & ?); eauto.
Qed.

Lemma in_number_opens a : in_number (Asc a) = true →
  opens (Asc a) ∧ is_char (Asc a) "{" = false ∧ is_char (Asc a) "[" = false ∧ is_char (Asc a) QUOTE = false ∧
  is_char (Asc a) "n" = false ∧ is_char (Asc a) "t" = false ∧ is_char (Asc a) "f" = false.
Proof. destruct a as [[] [] [] [] [] [] [] []]; vm_compute; intros; (discriminate || done). Qed.

Lemma writes_front n j l : writes n j l → ∃ g l', l = g :: l' ∧ opens g.
Proof.
  destruct 1 as [n j l H|n s _|n js l _|n s _|n ms l _]; eauto 6; [|by repeat eexists..].
  destruct j as [|b|s|s|js|ms]; cbn in H; [subst; by repeat eexists| | | |done..].
  - subst. destruct b; by repeat eexists.
  - destruct H as [Hs ->]. destruct (is_number_front s Hs) as (a & l' & -> & Ha). exists (Asc a), l'. split; [done|].
    by apply in_number_opens.
  - destruct H as (t & -> & ->). unfold print_string. by repeat eexists.
Qed.

Lemma scan_word_front w l : scan_word w (ascii_glyphs w ++ l) = Some l.
Proof. induction w as [|a w IH]; cbn; [done|]. by rewrite Ascii.eqb_refl. Qed.

Lemma ascii_number s : is_number s = true → scan_number (ascii_glyphs s) = Some (s, []).
Proof.
  unfold is_number. intros [_ H]%andb_true_iff. destruct (scan_number _) as [[t [|g k]]|]; try done.
  by apply String.eqb_eq in H as ->.
Qed.

Lemma parse_scalar_writes j l rest : writes_scalar j l → ends_number rest → parse_scalar (l ++ rest) = Got j rest.
Proof.
  intros H Hr. destruct j as [|b|s|s|js|ms]; cbn in H; [| | | |done..].
  - subst. reflexivity.
  - subst. destruct b; reflexivity.
  - destruct H as [Hs ->]. destruct (is_number_front s Hs) as (a & l' & E & Ha).
    destruct (in_number_opens a Ha) as (_ & _ & _ & Hq & Hn & Ht & Hf).
    unfold parse_scalar. rewrite E. cbn [app]. rewrite Hq, Hn, Ht, Hf.
    change (Asc a :: l' ++ rest) with ((Asc a :: l') ++ rest). rewrite <-E.
    by rewrite (scan_number_app _ _ _ _ Hr (ascii_number s Hs)).
  - destruct H as (t & -> & ->). unfold parse_scalar. cbn [print_string app].
    change (is_char (Asc QUOTE) QUOTE) with true. cbn iota.
    change (Asc QUOTE :: (concat (escape_glyph <$> glyphs t) ++ [Asc QUOTE]) ++ rest) with (print_string t ++ rest).
    by rewrite parse_print_string.
Qed.

Lemma scalar_no_bracket j l rest : writes_scalar j l →
  ∃ g k, l ++ rest = g :: k ∧ is_space g = false ∧ is_char g "{" = false ∧ is_char g "[" = false.
Proof.
  intros H. destruct j as [|b|s|s|js|ms]; cbn in H; [| | | |done..].
  - subst. by repeat eexists.
  - subst. destruct b; by repeat eexists.
  - destruct H as [Hs ->]. destruct (is_number_front s Hs) as (a & l' & -> & Ha).
    destruct (in_number_opens a Ha) as ((? & _ & _) & ? & ? & _). cbn. eauto 10.
  - destruct H as (t & -> & ->). by repeat eexists.
Qed.

Definition reads_value (n : nat) (j : json) (l : list glyph) : Prop := ∀ fuel depth s rest,
  (n ≤ depth)%nat → (2 * length l < fuel)%nat → spaces s → ends_number rest →
  parse_value fuel depth (s ++ l ++ rest) = Got j rest.

Lemma parse_bracketed {A} close (parser : nat → nat → list glyph → parsed A) (l rest : list glyph) (a : A)
    (k : A → list glyph → parsed json) (empty : json) :
  (∃ s g l', l = s ++ g :: l' ∧ spaces s ∧ is_space g = false ∧ is_char g close = false) →
  ∀ fuel depth, parser fuel depth (l ++ rest) = Got a rest →
  (if match skip_space (l ++ rest) with g :: _ => is_char g close | [] => false end
   then Got empty (tail (skip_space (l ++ rest))) else bindp (parser fuel depth (l ++ rest)) k) = k a rest.
Proof.
  intros (s & g & l' & -> & Hs & Hg & Hc) fuel depth Hp. rewrite Hp, <-app_assoc, skip_spaces by done.
  cbn [app]. rewrite skip_space_stop by done. by rewrite Hc.
Qed.

Lemma elements_front n js l : writes_elements n js l →
  ∃ s g l', l = s ++ g :: l' ∧ spaces s ∧ is_space g = false ∧ is_char g "]" = false.
Proof.
  destruct 1 as [n j l s1 s2 Hs H|n j js l k s1 s2 Hs H]; destruct (writes_front _ _ _ H) as (g & l' & -> & Hg & Hc & _);
    exists s1, g; cbn; eauto.
Qed.

Lemma members_front n ms l : writes_members n ms l →
  ∃ s g l', l = s ++ g :: l' ∧ spaces s ∧ is_space g = false ∧ is_char g "}" = false.
Proof. destruct 1; exists s1, (Asc QUOTE); cbn; eauto. Qed.

Lemma parse_empty close (s rest : list glyph) : spaces s → is_space (Asc close) = false →
  skip_space ((s ++ [Asc close]) ++ rest) = Asc close :: rest.
Proof. intros Hs Hc. rewrite <-app_assoc, skip_spaces by done. by apply skip_space_stop. Qed.

Lemma ends_number_char g l : in_number g = false → ends_number (g :: l).
Proof. done. Qed.

Lemma skip_to s g l : spaces s → is_space g = false → skip_space (s ++ g :: l) = g :: l.
Proof. intros Hs Hg. rewrite skip_spaces by done. by apply skip_space_stop. Qed.

Lemma read_key s t l : spaces s → parse_string (skip_space (s ++ print_string t ++ l)) = Some (coerce t, l).
Proof.
  intros Hs. rewrite skip_spaces by done. unfold print_string at 1. cbn [app]. rewrite skip_space_stop by done.
  apply (parse_print_string t l).
Qed.

Lemma parse_writes_all :
  (∀ n j l, writes n j l → reads_value n j l) ∧
  (∀ n js l, writes_elements n js l → ∀ fuel depth rest, (n ≤ depth)%nat → (S (2 * length l) < fuel)%nat →
    parse_elements fuel depth (l ++ rest) = Got js rest) ∧
  (∀ n ms l, writes_members n ms l → ∀ fuel depth rest, (n ≤ depth)%nat → (2 * length l < fuel)%nat →
    parse_members fuel depth (l ++ rest) = Got ms rest).
Proof.
  apply writes_ind_all; unfold reads_value.
  - intros n j l H fuel depth s rest _ Hf Hs Hr. destruct fuel as [|fuel]; [lia|]. cbn [parse_value].
    rewrite skip_spaces by done. destruct (scalar_no_bracket j l rest H) as (g & k & E & Hg & Ho & Ha).
    rewrite E, skip_space_stop, Ho, Ha by done. rewrite <-E. by apply parse_scalar_writes.
  - intros n s Hs fuel depth s' rest Hd Hf Hs' _. destruct fuel as [|fuel], depth as [|depth]; [lia..|]. cbn [parse_value].
    rewrite skip_spaces by done. cbn [app]. rewrite skip_space_stop by done.
    by rewrite (parse_empty "]"%char s rest) by done.
  - intros n js l H IH fuel depth s rest Hd Hf Hs _. destruct fuel as [|fuel], depth as [|depth]; [lia..|]. cbn [parse_value].
    rewrite skip_spaces by done. cbn [app length] in *. rewrite skip_space_stop by done.
    apply (parse_bracketed "]"%char parse_elements l rest js (λ js rest, Got (JArray js) rest) (JArray []));
      [by eapply elements_front|apply IH; lia].
  - intros n s Hs fuel depth s' rest Hd Hf Hs' _. destruct fuel as [|fuel], depth as [|depth]; [lia..|]. cbn [parse_value].
    rewrite skip_spaces by done. cbn [app]. rewrite skip_space_stop by done.
    by rewrite (parse_empty "}"%char s rest) by done.
  - intros n ms l H IH fuel depth s rest Hd Hf Hs _. destruct fuel as [|fuel], depth as [|depth]; [lia..|]. cbn [parse_value].
    rewrite skip_spaces by done. cbn [app length] in *. rewrite skip_space_stop by done.
    apply (parse_bracketed "}"%char parse_members l rest ms (λ ms rest, Got (JObject ms) rest) (JObject []));
      [by eapply members_front|apply IH; lia].
  - intros n j l s1 s2 Hs1 _ IH Hs2 fuel depth rest Hd Hf. destruct fuel as [|fuel]; [lia|]. cbn [parse_elements].
    rewrite !length_app in Hf. cbn in Hf. rewrite <-!app_assoc, IH by (lia || done || by apply ends_number_spaces).
    cbn [bindp app]. by rewrite skip_to.
  - intros n j js l k s1 s2 Hs1 _ IH Hs2 _ IHk fuel depth rest Hd Hf. destruct fuel as [|fuel]; [lia|]. cbn [parse_elements].
    rewrite !length_app in Hf. cbn in Hf. rewrite <-!app_assoc, IH by (lia || done || by apply ends_number_spaces).
    cbn [bindp app]. rewrite skip_to by done. cbn -[parse_elements]. by rewrite IHk by lia.
  - intros n t j l s1 s2 s3 s4 Hs1 Hs2 Hs3 _ IH Hs4 fuel depth rest Hd Hf. destruct fuel as [|fuel]; [lia|]. cbn [parse_members].
    repeat (rewrite length_app in Hf; cbn [length] in Hf). repeat (rewrite <-app_assoc; cbn [app]).
    rewrite read_key by done. cbn [of_option bindp]. rewrite skip_to by done. cbn -[parse_value app].
    rewrite IH by (lia || done || by apply ends_number_spaces). cbn [bindp]. by rewrite skip_to.
  - intros n t j ms l k s1 s2 s3 s4 Hs1 Hs2 Hs3 _ IH Hs4 _ IHk fuel depth rest Hd Hf. destruct fuel as [|fuel]; [lia|].
    cbn [parse_members]. repeat (rewrite length_app in Hf; cbn [length] in Hf). repeat (rewrite <-app_assoc; cbn [app]).
    rewrite read_key by done. cbn [of_option bindp]. rewrite skip_to by done. cbn -[parse_value parse_members app].
    rewrite IH by (lia || done || by apply ends_number_spaces). cbn [bindp]. rewrite skip_to by done.
    cbn -[parse_members]. by rewrite IHk by lia.
Qed.

(** ** Round trips *)

(** The document as it comes back: its strings without invalid bytes. *)
Fixpoint norm (j : json) : json :=
  match j with
  | JString s => JString (coerce s)
  | JArray l => JArray (norm <$> l)
  | JObject l => JObject ((λ kv, (coerce kv.1, norm kv.2)) <$> l)
  | _ => j
  end.
Fixpoint numbers_ok (j : json) : bool :=
  match j with
  | JNumber s => is_number s
  | JArray l => forallb numbers_ok l
  | JObject l => forallb (λ kv, numbers_ok kv.2) l
  | _ => true
  end.
Fixpoint height (j : json) : nat :=
  match j with
  | JArray l => S (max_list (height <$> l))
  | JObject l => S (max_list ((λ kv, height kv.2) <$> l))
  | _ => 0
  end.

Lemma separated_more sep x y l : separated sep (x :: y :: l) = x ++ sep ++ separated sep (y :: l).
Proof. done. Qed.

Section pretty.
Context (line : nat → list glyph) (gap : list glyph).
Hypothesis line_spaces : ∀ d, spaces (line d).
Hypothesis gap_spaces : spaces gap.

Lemma elements_written n d js : js ≠ [] →
  Forall (λ j, writes n (norm j) (pretty line gap (S d) j)) js →
  writes_elements n (norm <$> js) (line (S d) ++ separated (Asc "," :: line (S d)) (pretty line gap (S d) <$> js) ++ line d ++ [Asc "]"]).
Proof.
  induction js as [|j js IH]; [done|]. intros _ [Hj Hjs]%Forall_cons. destruct js as [|j2 js]; [by apply we_last|].
  specialize (IH ltac:(done) Hjs). cbn [fmap list_fmap] in *. rewrite separated_more.
  repeat (rewrite <-app_assoc; cbn [app]).
  by apply (we_next n (norm j) _ _ _ (line (S d)) []).
Qed.

Lemma members_written n d ms : ms ≠ [] →
  Forall (λ kv, writes n (norm kv.2) (pretty line gap (S d) kv.2)) ms →
  writes_members n ((λ kv, (coerce kv.1, norm kv.2)) <$> ms) (line (S d) ++ separated (Asc "," :: line (S d))
    ((λ kv, print_string kv.1 ++ Asc ":" :: gap ++ pretty line gap (S d) kv.2) <$> ms) ++ line d ++ [Asc "}"]).
Proof.
  induction ms as [|[k j] ms IH]; [done|]. intros _ [Hj Hms]%Forall_cons. destruct ms as [|m2 ms].
  - cbn [fmap list_fmap separated fst snd]. repeat (rewrite <-app_assoc; cbn [app]).
    by apply (wm_last n k (norm j) _ (line (S d)) []).
  - specialize (IH ltac:(done) Hms). cbn [fmap list_fmap fst snd] in *. rewrite separated_more.
    repeat (rewrite <-app_assoc; cbn [app]).
    by apply (wm_next n k (norm j) _ _ _ (line (S d)) [] gap []).
Qed.

Lemma pretty_writes j : ∀ n d, numbers_ok j = true → (height j ≤ n)%nat → writes n (norm j) (pretty line gap d j).
Proof.
  induction j as [|b|s|s|l IH|l IH] using json_ind; intros n d Hn Hh; try (by apply w_scalar; cbn; eauto).
  - destruct n as [|n]; [cbn in Hh; lia|]. destruct l as [|j l]; [by apply (w_array_empty n [])|].
    apply w_array, elements_written; [done|]. apply List.Forall_forall. intros x Hx.
    rewrite List.Forall_forall in IH. apply IH; [done|..].
    + cbn in Hn. by eapply (proj1 (forallb_forall numbers_ok (j :: l))) in Hn.
    + cbn in Hh. assert (height x ≤ max_list (height <$> (j :: l)))%nat; [|cbn in *; lia].
      by apply max_list_elem_of_le, list_elem_of_fmap_2, list_elem_of_In.
  - destruct n as [|n]; [cbn in Hh; lia|]. destruct l as [|j l]; [by apply (w_object_empty n [])|].
    apply w_object, members_written; [done|]. apply List.Forall_forall. intros x Hx.
    rewrite List.Forall_forall in IH. apply (IH x Hx).
    + cbn in Hn. by eapply (proj1 (forallb_forall (λ kv, numbers_ok kv.2) (j :: l))) in Hn.
    + cbn in Hh. assert (height x.2 ≤ max_list ((λ kv, height kv.2) <$> (j :: l)))%nat; [|cbn in *; lia].
      apply max_list_elem_of_le. apply (list_elem_of_fmap_2 (λ kv : string * json, height kv.2)). by apply list_elem_of_In.
Qed.
End pretty.

(** What is printed is a text of its own runes. *)
Lemma ascii_glyphs_ok s : is_ascii s = true → forallb glyph_ok (ascii_glyphs s) = true.
Proof. induction s as [|a s IH]; cbn; [done|]. intros [Ha Hs]%andb_true_iff. by rewrite Ha, IH. Qed.

Lemma separated_ok sep l : forallb glyph_ok sep = true → Forall (λ x, forallb glyph_ok x = true) l →
  forallb glyph_ok (separated sep l) = true.
Proof.
  intros Hs. induction 1 as [|x l Hx Hl IH]; [done|]. destruct l as [|y l]; [done|].
  by rewrite separated_more, !forallb_app, Hx, Hs, IH.
Qed.

Section pretty_ok.
Context (line : nat → list glyph) (gap : list glyph).
Hypothesis line_ok : ∀ d, forallb glyph_ok (line d) = true.
Hypothesis gap_ok : forallb glyph_ok gap = true.

Lemma bracketed_ok open close d l : glyph_ok (Asc open) = true → glyph_ok (Asc close) = true →
  Forall (λ x, forallb glyph_ok x = true) l → forallb glyph_ok (bracketed line open close d l) = true.
Proof.
  intros Ho Hc Hl. unfold bracketed. destruct l as [|x l]; cbn [forallb]; [by rewrite Ho, Hc|].
  rewrite !forallb_app, !line_ok, separated_ok; [cbn [forallb]; by rewrite Ho, Hc|cbn [forallb]; by rewrite line_ok|done].
Qed.

Lemma pretty_ok j : ∀ d, numbers_ok j = true → forallb glyph_ok (pretty line gap d j) = true.
Proof.
  induction j as [|b|s|s|l IH|l IH] using json_ind; intros d Hn; cbn [pretty] in *.
  - done.
  - by destruct b.
  - apply ascii_glyphs_ok. by apply andb_true_iff in Hn as [? _].
  - apply print_string_ok.
  - apply bracketed_ok; [done..|]. apply Forall_fmap. cbn in Hn.
    induction IH as [|j l Hj _ IHl]; [done|]. cbn in Hn. apply andb_true_iff in Hn as [? ?]. constructor; cbn; auto.
  - apply bracketed_ok; [done..|]. apply Forall_fmap. cbn in Hn.
    induction IH as [|j l Hj _ IHl]; [done|]. cbn in Hn. apply andb_true_iff in Hn as [? ?]. constructor; [|by apply IHl].
    unfold compose. rewrite forallb_app, print_string_ok. cbn [forallb andb]. by rewrite forallb_app, gap_ok, (Hj (S d)).
Qed.
End pretty_ok.

Lemma spaces_ok s : spaces s → forallb glyph_ok s = true.
Proof.
  induction 1 as [|g s Hg _ IH]; [done|]. cbn. rewrite IH, andb_true_r. destruct g as [a|b|b]; [|done..].
  revert Hg. destruct a as [[] [] [] [] [] [] [] []]; vm_compute; intros; (discriminate || done).
Qed.

(** A printed document is read back, whatever follows it in the stream. *)
Lemma decode_pretty line gap j t : (∀ d, spaces (line d)) → spaces gap →
  numbers_ok j = true → (height j ≤ maxNestingDepth)%nat → ends_number (glyphs t) →
  decode_first (glyphs_text (pretty line gap 0 j) +++ t) = Some (norm j, glyphs t).
Proof.
  intros Hl Hg Hn Hh Ht. unfold decode_first, parse.
  rewrite glyphs_append by (apply pretty_ok; [intros; by apply spaces_ok|by apply spaces_ok|done]).
  destruct parse_writes_all as (H & _ & _).
  rewrite (H _ _ _ (pretty_writes line gap Hl Hg j _ 0%nat Hn Hh) _ maxNestingDepth [] (glyphs t)); [done|done| |done..].
  rewrite length_app. lia.
Qed.

Lemma decode_pretty_whole line gap j : (∀ d, spaces (line d)) → spaces gap →
  numbers_ok j = true → (height j ≤ maxNestingDepth)%nat → decode_whole (glyphs_text (pretty line gap 0 j)) = Some (norm j).
Proof.
  intros Hl Hg Hn Hh. unfold decode_whole.
  rewrite <-(append_nil_r (glyphs_text _)), decode_pretty by done. done.
Qed.

Lemma indent_spaces d : spaces (indent_line d).
Proof. unfold indent_line. constructor; [done|]. induction d as [|d IH]; cbn; [done|]. by repeat constructor. Qed.

Lemma decode_Marshal j t : numbers_ok j = true → (height j ≤ maxNestingDepth)%nat → ends_number (glyphs t) →
  decode_first (Marshal j +++ t) = Some (norm j, glyphs t).
Proof. by apply decode_pretty. Qed.
Lemma Unmarshal_Marshal j : numbers_ok j = true → (height j ≤ maxNestingDepth)%nat → decode_whole (Marshal j) = Some (norm j).
Proof. by apply decode_pretty_whole. Qed.
Lemma Unmarshal_MarshalIndent j : numbers_ok j = true → (height j ≤ maxNestingDepth)%nat →
  decode_whole (MarshalIndent j) = Some (norm j).
Proof. apply decode_pretty_whole; [apply indent_spaces|by constructor]. Qed.
