(* ===== verification/Codec.v ===== *)
(** * encoding/json between documents and Go values

    Numbers as [float64], which is what a number becomes in an [any] and is
    printed from again; [Unmarshal] into [any]; and the decoding of a document
    into the fields of a struct.  [DecodeResult] of cliserver.go marshals an
    [any] and decodes it again: [similar] relates a document to what is left of
    it, and a decoder must not see the difference. *)

From S2P Require Import Prelude Errors GoStrings Strconv Text ServerProtocol Json.

#[local] Open Scope string_scope.
#[local] Open Scope Z_scope.
#[local] Open Scope list_scope.

(** ** float64

    A positive number is a ratio; a [float64] is a mantissa below 2^53 and an
    exponent of 2. *)

Definition round_even (n d : Z) : Z :=
  let q := n / d in
  match 2 * (n mod d) ?= d with Lt => q | Gt => q + 1 | Eq => if Z.even q then q else q + 1 end.

(** The ratio divided by 2^e. *)
Definition scale (n d e : Z) : Z * Z := if 0 <=? e then (n, d * 2 ^ e) else (n * 2 ^ (- e), d).

(** The nearest [float64] of n/d, ties to even. *)
Definition to_float (n d : Z) : Z * Z :=
  let e := Z.log2 n - Z.log2 d - 52 in
  let '(n1, d1) := scale n d e in
  let e := Z.max (if n1 <? 2 ^ 52 * d1 then e - 1 else e) (-1074) in
  let '(n1, d1) := scale n d e in
  let q := round_even n1 d1 in
  if q =? 2 ^ 53 then (2 ^ 52, e + 1) else (q, e).

(** The exponent of ten of the leading digit of n/d: [p] is below it. *)
Definition ratio_ten (n d p : Z) : Z * Z := if 0 <=? p then (n, d * 10 ^ p) else (n * 10 ^ (- p), d).
Definition at_least_ten (n d p : Z) : bool := let '(n, d) := ratio_ten n d p in d <=? n.
Fixpoint climb (fuel : nat) (n d p : Z) : Z :=
  match fuel with O => p | S fuel => if at_least_ten n d (p + 1) then climb fuel n d (p + 1) else p end.
Definition leading (n d : Z) : Z := climb 4 n d ((Z.log2 n - Z.log2 d - 1) * 30103 / 100000 - 1).

(** [k] digits of n/d, and the exponent of the last one; rounding up may carry
    into a digit more. *)
Definition digits_of (n d : Z) (k : nat) : Z * Z :=
  let p := leading n d - Z.of_nat k + 1 in
  let '(n1, d1) := ratio_ten n d p in
  let D := round_even n1 d1 in
  if D =? 10 ^ Z.of_nat k then (10 ^ (Z.of_nat k - 1), p + 1) else (D, p).
Definition of_digits (dp : Z * Z) : Z * Z := let '(D, p) := dp in if 0 <=? p then (D * 10 ^ p, 1) else (D, 10 ^ (- p)).

(** The fewest digits that are read back as the same [float64]; 17 always are. *)
Fixpoint shortest_from (fuel k : nat) (n d : Z) : Z * Z :=
  match fuel with
  | O => digits_of n d k
  | S fuel =>
      let dp := digits_of n d k in
      let '(n1, d1) := of_digits dp in
      if bool_decide (to_float n1 d1 = to_float n d) then dp else shortest_from fuel (S k) n d
  end.
Definition shortest (n d : Z) : Z * Z := shortest_from 16 1 n d.

Definition zeros (n : nat) : string := string_of_list_ascii (replicate n "0"%char).

(** The ['f'] format, and the ['e'] format with its exponent cleaned, of
    [floatEncoder]. *)
Definition format_f (dp : Z * Z) : string :=
  let '(D, p) := dp in
  if 0 <=? p then Itoa (D * 10 ^ p) else
  let ds := Itoa D in
  let point := Z.of_nat (String.length ds) + p in
  if 0 <? point then str_take (Z.to_nat point) ds +++ "." +++ str_drop (Z.to_nat point) ds
  else "0." +++ zeros (Z.to_nat (- point)) +++ ds.
Definition format_e (dp : Z * Z) : string :=
  let '(D, p) := dp in
  let ds := Itoa D in
  let x := Z.of_nat (String.length ds) - 1 + p in
  str_take 1 ds +++ (if (String.length ds =? 1)%nat then "" else "." +++ str_drop 1 ds)
    +++ "e" +++ (if x <? 0 then "-" else "+") +++ Itoa (Z.abs x).

(** The parts of a literal. *)
Definition digits_value (s : string) : Z :=
  match DecimalString.NilZero.uint_of_string s with Some u => Z.of_uint u | None => 0 end.
Record decimal := mkDecimal { dc_neg : bool; dc_digits : Z; dc_exp : Z }.
Definition read_decimal (s : string) : option decimal :=
  let '(sign, l) := maybe (scan_char ["-"%char] (ascii_glyphs s)) (ascii_glyphs s) in
  '(int, l) ← scan_integer l;
  '(frac, l) ← scan_fraction l;
  '(exp, l) ← scan_exponent l;
  let frac := str_drop 1 frac in
  let exp_neg := HasPrefix (str_drop 1 exp) "-" in
  let exp_digits := digits_value (if exp_neg || HasPrefix (str_drop 1 exp) "+" then str_drop 2 exp else str_drop 1 exp) in
  Some (mkDecimal (sign =? "-")%string (digits_value (int +++ frac))
          ((if exp_neg then - exp_digits else exp_digits) - Z.of_nat (String.length frac))).

(** The [float64] of a literal: its sign and, unless it is zero, the ratio it
    is.  [None]: it is out of range. *)
Definition read_float (s : string) : option (string * option (Z * Z)) :=
  dec ← read_decimal s;
  let sign := if dc_neg dec then "-" else "" in
  if dc_digits dec =? 0 then Some (sign, None) else
  let '(n, d) := of_digits (dc_digits dec, dc_exp dec) in
  let '(q, e) := to_float n d in
  if q =? 0 then Some (sign, None) else
  if 1024 <? e + Z.log2 q + 1 then None else Some (sign, Some (scale q 1 (- e))).

(** The literal a number is printed as once it was a [float64]. *)
Definition float64_text (s : string) : option string :=
  '(sign, v) ← read_float s;
  match v with
  | None => Some (sign +++ "0")
  | Some (n, d) =>
      let '(qs, es) := to_float 1 (10 ^ 6) in
      let '(ns, ds) := scale qs 1 (- es) in
      let small := n * ds <? ns * d in
      let large := 10 ^ 21 * d <=? n in
      Some (sign +++ (if small || large then format_e (shortest n d) else format_f (shortest n d)))
  end.

(** What [%v] prints of the [float64] of a literal, the ['g'] format: an exponent
    of two digits or more for 10^6 and above, and below 10^-4. *)
Definition format_e2 (dp : Z * Z) : string :=
  let '(D, p) := dp in
  let ds := Itoa D in
  let x := Z.of_nat (String.length ds) - 1 + p in
  str_take 1 ds +++ (if (String.length ds =? 1)%nat then "" else "." +++ str_drop 1 ds)
    +++ "e" +++ (if x <? 0 then "-" else "+") +++ (if Z.abs x <? 10 then "0" else "") +++ Itoa (Z.abs x).
Definition float64_v (s : string) : option string :=
  '(sign, v) ← read_float s;
  match v with
  | None => Some (sign +++ "0")
  | Some (n, d) =>
      let dp := shortest n d in
      let '(nd, dd) := of_digits dp in
      Some (sign +++ (if (10 ^ 6 * dd <=? nd) || (nd * 10 ^ 4 <? dd) then format_e2 dp else format_f dp))
  end.

Example floats :
  (float64_text <$> ["0"; "-0"; "1"; "120"; "4242"; "12.50"; "1e3"; "0.000001"; "1.5e-7"; "123456789012345678"; "1e21"; "1e400"; "0.1"; "5e-324"; "1e-400";"-9007199254740993"]) =
  [Some "0"; Some "-0"; Some "1"; Some "120"; Some "4242"; Some "12.5"; Some "1000"; Some "0.000001"; Some "1.5e-7"; Some "123456789012345680"; Some "1e+21"; None; Some "0.1"; Some "5e-324"; Some "0"; Some "-9007199254740992"].
Proof. vm_compute. reflexivity. Qed.

(** *** Integers of up to 15 digits stay as they are *)

Lemma round_even_mul x y s : 0 < s → 0 < y → round_even (x * s) (y * s) = round_even x y.
Proof.
  intros Hs Hy. unfold round_even. rewrite Z.div_mul_cancel_r, Z.mul_mod_distr_r by lia.
  assert ((2 * (x mod y * s) ?= y * s) = (2 * (x mod y) ?= y)) as ->; [|done].
  destruct (Z.compare_spec (2 * (x mod y)) y); [apply Z.compare_eq_iff|apply Z.compare_lt_iff|apply Z.compare_gt_iff]; nia.
Qed.

Lemma round_even_exact q d : 0 < d → round_even (q * d) d = q.
Proof.
  intros Hd. unfold round_even. rewrite Z.div_mul, Z.mod_mul by lia.
  by rewrite (proj2 (Z.compare_lt_iff _ _)) by lia.
Qed.

Lemma round_even_le x y : 0 ≤ x → 0 < y → round_even x y * y ≤ x + y.
Proof.
  intros Hx Hy. unfold round_even. pose proof (Z.div_mod x y ltac:(lia)). pose proof (Z.mod_pos_bound x y Hy).
  destruct (_ ?= _); [destruct (Z.even _)| |]; nia.
Qed.

(** An integer below 2^53 is a [float64]; so is its ratio with a power of two. *)
Definition exactly (n : Z) : Z * Z := (n * 2 ^ (52 - Z.log2 n), Z.log2 n - 52).

Lemma log2_small n : 0 < n < 2 ^ 53 → 0 ≤ Z.log2 n ≤ 52.
Proof.
  intros Hn. split; [apply Z.log2_nonneg|]. assert (Z.log2 n < 53); [|lia]. apply Z.log2_lt_pow2; lia.
Qed.

Lemma exactly_bound n : 0 < n < 2 ^ 53 → 2 ^ 52 ≤ n * 2 ^ (52 - Z.log2 n) < 2 ^ 53.
Proof.
  intros Hn. pose proof (log2_small n Hn). destruct (Z.log2_spec n ltac:(lia)) as [Hl Hu].
  assert (2 ^ 52 = 2 ^ Z.log2 n * 2 ^ (52 - Z.log2 n)) as -> by (rewrite <-Z.pow_add_r by lia; f_equal; lia).
  assert (2 ^ 53 = 2 ^ Z.succ (Z.log2 n) * 2 ^ (52 - Z.log2 n)) as -> by (rewrite <-Z.pow_add_r by lia; f_equal; lia).
  pose proof (Z.pow_pos_nonneg 2 (52 - Z.log2 n)). nia.
Qed.

Lemma to_float_exact n k : 0 < n < 2 ^ 53 → 0 ≤ k → to_float (n * 2 ^ k) (2 ^ k) = exactly n.
Proof.
  intros Hn Hk. unfold to_float. rewrite Z.log2_mul_pow2, Z.log2_pow2 by lia.
  pose proof (log2_small n Hn). pose proof (exactly_bound n Hn) as Hb. pose proof (Z.pow_pos_nonneg 2 k).
  replace (k + Z.log2 n - k - 52) with (Z.log2 n - 52) by lia. set (s := 2 ^ (52 - Z.log2 n)) in *.
  assert (scale (n * 2 ^ k) (2 ^ k) (Z.log2 n - 52) = (n * s * 2 ^ k, 2 ^ k)) as E.
  { unfold scale. destruct (Z.leb_spec 0 (Z.log2 n - 52)) as [Hz|Hz].
    - assert (Z.log2 n = 52) as Hl by lia. unfold s. rewrite Hl. change (52 - 52) with 0. rewrite Z.pow_0_r. f_equal; lia.
    - unfold s. replace (- (Z.log2 n - 52)) with (52 - Z.log2 n) by lia. f_equal. ring. }
  rewrite E. destruct (Z.ltb_spec (n * s * 2 ^ k) (2 ^ 52 * 2 ^ k)) as [Hlt|_]; [nia|].
  rewrite Z.max_l by lia. rewrite E, round_even_exact by lia. destruct (Z.eqb_spec (n * s) (2 ^ 53)); [lia|done].
Qed.

Lemma exactly_inj n m : 0 < n < 2 ^ 53 → 0 < m < 2 ^ 53 → exactly n = exactly m → n = m.
Proof.
  intros Hn Hm [= E1 E2]. assert (Z.log2 n = Z.log2 m) as El by lia. rewrite El in E1.
  pose proof (log2_small m Hm). pose proof (Z.pow_pos_nonneg 2 (52 - Z.log2 m)). nia.
Qed.

Section integer.
(** The integer as the ratio that a [float64] is taken apart into. *)
Context (n k : Z).
Hypothesis Hn : 0 < n < 10 ^ 15.
Hypothesis Hk : 0 ≤ k.

Lemma below_2_53 : n < 2 ^ 53.
Proof. lia. Qed.

Lemma at_least_ten_int p : 0 ≤ p → at_least_ten (n * 2 ^ k) (2 ^ k) p = (10 ^ p <=? n).
Proof.
  intros Hp. unfold at_least_ten, ratio_ten. rewrite (proj2 (Z.leb_le _ _) Hp), Z.mul_comm.
  apply eq_true_iff_eq. rewrite !Z.leb_le. symmetry. apply Z.mul_le_mono_pos_r, Z.pow_pos_nonneg; lia.
Qed.
Lemma at_least_ten_neg p : p ≤ 0 → at_least_ten (n * 2 ^ k) (2 ^ k) p = true.
Proof.
  intros Hp. unfold at_least_ten, ratio_ten. pose proof (Z.pow_pos_nonneg 2 k ltac:(lia) ltac:(lia)).
  destruct (Z.leb_spec 0 p); apply Z.leb_le.
  - assert (p = 0) as -> by lia. rewrite Z.pow_0_r. nia.
  - pose proof (Z.pow_pos_nonneg 10 (- p) ltac:(lia) ltac:(lia)). assert (1 ≤ n * 10 ^ (- p)) by nia. nia.
Qed.

Lemma climb_spec fuel p : - Z.of_nat fuel ≤ p → (0 ≤ p → 10 ^ p ≤ n) →
  0 ≤ climb fuel (n * 2 ^ k) (2 ^ k) p ∧ 10 ^ climb fuel (n * 2 ^ k) (2 ^ k) p ≤ n.
Proof.
  revert p. induction fuel as [|fuel IH]; intros p Hp H; cbn [climb]; [split; [lia|apply H; lia]|].
  destruct (Z.leb_spec (p + 1) 0) as [Hz|Hz].
  - rewrite at_least_ten_neg by done. apply IH; [lia|]. intros. assert (p + 1 = 0) as -> by lia. lia.
  - rewrite at_least_ten_int by lia. destruct (Z.leb_spec (10 ^ (p + 1)) n).
    + apply IH; [lia|done].
    + split; [lia|apply H; lia].
Qed.

Definition guess (l : Z) : Z := (l - 1) * 30103 / 100000 - 1.
Lemma guesses : forallb (λ l, let l := Z.of_nat l in (-4 <=? guess l) && ((guess l <? 0) || (10 ^ guess l <=? 2 ^ l))) (seq 0 54) = true.
Proof. vm_compute. reflexivity. Qed.

Lemma leading_spec : 0 ≤ leading (n * 2 ^ k) (2 ^ k) ∧ 10 ^ leading (n * 2 ^ k) (2 ^ k) ≤ n.
Proof.
  unfold leading. rewrite Z.log2_mul_pow2, Z.log2_pow2 by lia.
  replace (k + Z.log2 n - k - 1) with (Z.log2 n - 1) by lia. pose proof (log2_small n ltac:(lia)) as Hl.
  change ((Z.log2 n - 1) * 30103 / 100000 - 1) with (guess (Z.log2 n)).
  pose proof (proj1 (forallb_forall _ _) guesses (Z.to_nat (Z.log2 n)) ltac:(apply in_seq; lia)) as H. cbv beta zeta in H.
  rewrite Z2Nat.id in H by lia. apply andb_true_iff in H as [H1%Z.leb_le H2]. apply climb_spec; [lia|].
  intros Hg. apply orb_true_iff in H2 as [H2|H2]; bool_to_prop; [lia|]. destruct (Z.log2_spec n); lia.
Qed.

(** Fewer digits give an integer that is not mistaken for this one. *)
Lemma digits_of_int (i : nat) : (1 ≤ i)%nat → Z.of_nat i ≤ leading (n * 2 ^ k) (2 ^ k) + 1 →
  ∃ m p, digits_of (n * 2 ^ k) (2 ^ k) i = (m, p) ∧ 0 ≤ p ∧ 0 ≤ m ∧ m * 10 ^ p ≤ 2 * n ∧
    (Z.of_nat i = leading (n * 2 ^ k) (2 ^ k) + 1 → m * 10 ^ p = n).
Proof.
  intros Hi Hl. destruct leading_spec as [Hp Hle]. set (P := leading (n * 2 ^ k) (2 ^ k)) in *. unfold digits_of. fold P.
  set (p := P - Z.of_nat i + 1). unfold ratio_ten. rewrite (proj2 (Z.leb_le 0 p)) by lia. rewrite (Z.mul_comm (2 ^ k)).
  pose proof (Z.pow_pos_nonneg 2 k ltac:(lia) Hk). pose proof (Z.pow_pos_nonneg 10 p ltac:(lia) ltac:(lia)).
  rewrite round_even_mul by lia. set (m := round_even n (10 ^ p)).
  assert (m * 10 ^ p ≤ 2 * n) as Hm.
  { pose proof (round_even_le n (10 ^ p) ltac:(lia) ltac:(lia)). fold m in H1.
    assert (10 ^ p ≤ 10 ^ P) by (apply Z.pow_le_mono_r; lia). lia. }
  assert (Z.of_nat i = P + 1 → m * 10 ^ p = n) as Hlast.
  { intros. unfold m. assert (p = 0) as -> by lia. rewrite Z.pow_0_r, Z.mul_1_r.
    rewrite <-(Z.mul_1_r n) at 1. by apply round_even_exact. }
  assert (0 ≤ m). { unfold m, round_even. pose proof (Z.div_pos n (10 ^ p)). destruct (_ ?= _); [destruct (Z.even _)| |]; lia. }
  destruct (Z.eqb_spec m (10 ^ Z.of_nat i)) as [E|_]; [|exists m, p; split_and!; (done || lia)].
  exists (10 ^ (Z.of_nat i - 1)), (p + 1).
  assert (10 ^ (Z.of_nat i - 1) * 10 ^ (p + 1) = m * 10 ^ p) as Eq.
  { rewrite E, <-!Z.pow_add_r by lia. f_equal. lia. }
  rewrite Eq. split_and!; [done|lia|apply Z.pow_nonneg; lia|done|done].
Qed.

Lemma shortest_spec fuel (i : nat) : (1 ≤ i)%nat → Z.of_nat i ≤ leading (n * 2 ^ k) (2 ^ k) + 1 →
  leading (n * 2 ^ k) (2 ^ k) + 1 ≤ Z.of_nat (i + fuel) →
  ∃ m p, shortest_from fuel i (n * 2 ^ k) (2 ^ k) = (m, p) ∧ 0 ≤ p ∧ m * 10 ^ p = n.
Proof.
  revert i. induction fuel as [|fuel IH]; intros i Hi Hl Hf; cbn [shortest_from];
    destruct (digits_of_int i Hi Hl) as (m & p & E & Hp & Hm & Hle & Hlast); rewrite E.
  - exists m, p. split_and!; [done..|]. apply Hlast. lia.
  - cbn [of_digits]. rewrite (proj2 (Z.leb_le _ _) Hp). case_bool_decide as Ht; [exists m, p|].
    + split_and!; [done..|]. rewrite to_float_exact in Ht by (lia || done).
      destruct (Z.eq_dec (m * 10 ^ p) 0) as [Ez|].
      * rewrite Ez in Ht. exfalso. assert (to_float 0 1 = (0, -53)) as E0 by reflexivity. rewrite E0 in Ht.
        injection Ht as Ht _. pose proof (exactly_bound n ltac:(lia)). lia.
      * apply exactly_inj; [nia|lia|]. rewrite <-Ht. rewrite <-(to_float_exact (m * 10 ^ p) 0) by nia.
        by rewrite Z.pow_0_r, Z.mul_1_r.
    + apply IH; [lia| |lia]. destruct (Z.eq_dec (Z.of_nat i) (leading (n * 2 ^ k) (2 ^ k) + 1)) as [Ei|]; [|lia].
      exfalso. apply Ht. rewrite (Hlast Ei), to_float_exact by (lia || done).
      rewrite <-(to_float_exact n 0) by lia. by rewrite Z.pow_0_r, Z.mul_1_r.
Qed.

Lemma format_shortest : format_f (shortest (n * 2 ^ k) (2 ^ k)) = Itoa n.
Proof.
  destruct leading_spec as [Hp Hle]. set (P := leading (n * 2 ^ k) (2 ^ k)) in *.
  assert (P < 15). { apply (Z.pow_lt_mono_r_iff 10); lia. }
  destruct (shortest_spec 16 1) as (m & p & E & H0 & Em); [lia..|].
  unfold shortest. rewrite E. cbn [format_f]. by rewrite (proj2 (Z.leb_le _ _) H0), Em.
Qed.
End integer.

Lemma digits_value_Itoa n : 0 ≤ n → digits_value (Itoa n) = n.
Proof.
  intros Hn. destruct (Itoa_nonneg n Hn) as (u & Hu & -> & Hv). unfold digits_value.
  by rewrite DecimalString.NilZero.usu.
Qed.

Lemma scan_integer_Itoa n : 0 ≤ n → scan_integer (ascii_glyphs (Itoa n)) = Some (Itoa n, []).
Proof.
  intros Hn. destruct n as [|p|p]; [done| |lia]. rewrite Itoa_pos.
  pose proof (scan_uint _ (no_leading_zero_pos p)) as E. revert E. destruct (Pos.to_uint p) eqn:Eu; [|done..].
  by apply DecimalPos.Unsigned.to_uint_nonnil in Eu.
Qed.

Lemma Itoa_no_sign n : 0 ≤ n → scan_char ["-"%char] (ascii_glyphs (Itoa n)) = None.
Proof.
  intros Hn. destruct n as [|p|p]; [done| |lia]. rewrite Itoa_pos.
  by destruct (Pos.to_uint p).
Qed.

Lemma read_decimal_Itoa n : 0 ≤ n → read_decimal (Itoa n) = Some (mkDecimal false n 0).
Proof.
  intros Hn. unfold read_decimal. rewrite Itoa_no_sign by done. cbn [maybe default from_option].
  rewrite scan_integer_Itoa by done. cbn. by rewrite append_nil_r, digits_value_Itoa.
Qed.

Lemma read_float_Itoa n : 0 < n < 10 ^ 15 → ∃ k, 0 ≤ k ∧ read_float (Itoa n) = Some ("", Some (n * 2 ^ k, 2 ^ k)).
Proof.
  intros Hn. unfold read_float. rewrite read_decimal_Itoa by lia. cbn [mbind option_bind dc_digits dc_exp dc_neg].
  destruct (Z.eqb_spec n 0) as [->|_]; [lia|].
  cbn [of_digits]. rewrite (proj2 (Z.leb_le 0 0)), Z.pow_0_r, Z.mul_1_r by done.
  pose proof (to_float_exact n 0 ltac:(lia) ltac:(lia)) as E. rewrite Z.pow_0_r, Z.mul_1_r in E. rewrite E.
  unfold exactly. pose proof (exactly_bound n ltac:(lia)) as Hb. pose proof (log2_small n ltac:(lia)) as Hl.
  set (k := 52 - Z.log2 n) in *. destruct (Z.eqb_spec (n * 2 ^ k) 0); [lia|].
  rewrite Z.log2_mul_pow2 by lia. destruct (Z.ltb_spec 1024 (Z.log2 n - 52 + (k + Z.log2 n) + 1)); [lia|].
  exists k. split; [lia|]. do 3 f_equal. unfold scale. rewrite (proj2 (Z.leb_le _ _)) by lia. f_equal. rewrite Z.mul_1_l. f_equal. lia.
Qed.

Lemma float64_text_Itoa n : 0 ≤ n < 10 ^ 15 → float64_text (Itoa n) = Some (Itoa n).
Proof.
  intros Hn. destruct (Z.eq_dec n 0) as [->|Hn0]; [done|]. assert (0 < n < 10 ^ 15) as Hp by lia. clear Hn0 Hn.
  destruct (read_float_Itoa n Hp) as (k & Hk & E). unfold float64_text. rewrite E. cbn [mbind option_bind].
  destruct (to_float 1 (10 ^ 6)) as [qs es] eqn:Es. vm_compute in Es. injection Es as <- <-.
  destruct (scale _ 1 _) as [ns ds] eqn:Es. vm_compute in Es. injection Es as <- <-.
  pose proof (Z.pow_pos_nonneg 2 k ltac:(lia) ltac:(lia)).
  destruct (Z.ltb_spec (n * 2 ^ k * 4722366482869645213696) (4722366482869645 * 2 ^ k)); [nia|].
  destruct (Z.leb_spec (10 ^ 21 * 2 ^ k) (n * 2 ^ k)); [nia|].
  cbn [orb String.append]. f_equal. apply format_shortest; lia.
Qed.

(** [%v] prints the integers below a million as they are, the others with an
    exponent. *)
Fixpoint has_char (c : ascii) (s : string) : bool := match s with "" => false | String a s => Ascii.eqb a c || has_char c s end.
Lemma has_char_app c s t : has_char c (s +++ t) = has_char c s || has_char c t.
Proof. induction s as [|a s IH]; cbn; [done|]. by rewrite IH, orb_assoc. Qed.
Lemma has_char_uint u : has_char "e" (DecimalString.NilEmpty.string_of_uint u) = false.
Proof. by induction u. Qed.
Lemma has_char_Itoa n : has_char "e" (Itoa n) = false.
Proof.
  destruct n as [|p|p]; [done| |].
  - rewrite Itoa_pos. destruct (Pos.to_uint p) eqn:E; [by apply DecimalPos.Unsigned.to_uint_nonnil in E|..];
      apply has_char_uint.
  - change (Itoa (Z.neg p)) with (String "-" (DecimalString.NilZero.string_of_uint (Pos.to_uint p))).
    destruct (Pos.to_uint p) eqn:E; [by apply DecimalPos.Unsigned.to_uint_nonnil in E|..]; apply (has_char_uint _).
Qed.

Lemma float64_v_Itoa n : 0 ≤ n < 10 ^ 15 →
  if n <? 10 ^ 6 then float64_v (Itoa n) = Some (Itoa n) else ∃ s, float64_v (Itoa n) = Some s ∧ s ≠ Itoa n.
Proof.
  intros Hn. destruct (Z.eq_dec n 0) as [->|Hn0]; [done|]. assert (0 < n < 10 ^ 15) as Hp by lia. clear Hn0 Hn.
  destruct (read_float_Itoa n Hp) as (k & Hk & E). unfold float64_v. rewrite E. cbn [mbind option_bind].
  destruct (leading_spec n k Hp Hk) as [Hl Hle].
  assert (leading (n * 2 ^ k) (2 ^ k) < 15) by (apply (Z.pow_lt_mono_r_iff 10); lia).
  destruct (shortest_spec n k Hp Hk 16 1) as (m & p & Es & H0 & Em); [lia..|].
  fold (shortest (n * 2 ^ k) (2 ^ k)) in Es. pose proof (format_shortest n k Hp Hk) as Hf. rewrite Es in *.
  cbn [of_digits]. rewrite (proj2 (Z.leb_le _ _) H0), Em. rewrite Z.mul_1_r.
  rewrite (proj2 (Z.ltb_ge (n * 10 ^ 4) 1)) by lia. rewrite orb_false_r. cbn [String.append].
  destruct (Z.ltb_spec n (10 ^ 6)); [rewrite (proj2 (Z.leb_gt _ _)) by lia; by rewrite Hf|].
  rewrite (proj2 (Z.leb_le _ _)) by lia. eexists. split; [done|]. intros Heq.
  pose proof (has_char_Itoa n) as Hc. rewrite <-Heq in Hc. unfold format_e2 in Hc. rewrite !has_char_app in Hc.
  cbn [has_char Ascii.eqb Bool.eqb] in Hc. rewrite !orb_true_r in Hc. discriminate Hc.
Qed.

Example floats_v :
  (float64_v <$> ["0"; "-1"; "120"; "999999"; "1000000"; "1234567"; "123456789"; "0.5"; "0.0001"; "0.00001"; "1e21"; "2500000"]) =
  [Some "0"; Some "-1"; Some "120"; Some "999999"; Some "1e+06"; Some "1.234567e+06"; Some "1.23456789e+08"; Some "0.5"; Some "0.0001"; Some "1e-05"; Some "1e+21"; Some "2.5e+06"].
Proof. vm_compute. reflexivity. Qed.

(** ** Unmarshal into any, and Marshal of it

    An [any] is kept as a document again: numbers as the literals their
    [float64] is printed as, objects with one member for each key, in the order
    of the keys, as [Marshal] writes a map. *)

Fixpoint insert_key {A} (k : string) (v : A) (l : list (string * A)) : list (string * A) :=
  match l with
  | [] => [(k, v)]
  | (k', v') :: l' =>
      match String.compare k k' with
      | Lt => (k, v) :: l
      | Eq => (k, v) :: l'
      | Gt => (k', v') :: insert_key k v l'
      end
  end.
Definition map_of {A} (l : list (string * A)) : list (string * A) := foldl (λ m kv, insert_key kv.1 kv.2 m) [] l.

Fixpoint to_any (j : json) : option json :=
  match j with
  | JNumber s => JNumber <$> float64_text s
  | JArray l => JArray <$> (fix go l := match l with [] => Some [] | j :: l => j' ← to_any j; l' ← go l; Some (j' :: l') end) l
  | JObject l =>
      (λ l, JObject (map_of l)) <$>
      (fix go l := match l with [] => Some [] | (k, j) :: l => j' ← to_any j; l' ← go l; Some ((k, j') :: l') end) l
  | _ => Some j
  end.

Fixpoint any_members (l : list (string * json)) : option (list (string * json)) :=
  match l with [] => Some [] | (k, j) :: l => j' ← to_any j; l' ← any_members l; Some ((k, j') :: l') end.
Lemma to_any_object l : to_any (JObject l) = (λ l, JObject (map_of l)) <$> any_members l.
Proof. reflexivity. Qed.

(** ** Fields of a struct

    A decoder is given the value a variable has and the document for it: [null]
    leaves a variable alone, and a member that comes twice is decoded into what
    the first one left.  Members find their field by [strings.EqualFold]. *)

Definition decoder (A : Type) := A → json → option A.

Definition matches (name : string) (kv : string * json) : bool := EqualFold kv.1 name.
Definition field {A} (name : string) (dec : decoder A) (zero : A) (ms : list (string * json)) : option A :=
  foldl (λ acc kv, a ← acc; dec a kv.2) (Some zero) (List.filter (matches name) ms).

(** The members of a struct's document; [None]: it is of another type. *)
Definition members (j : json) : option (list (string * json)) :=
  match j with JObject ms => Some ms | JNull => Some [] | _ => None end.

Definition dec_string : decoder string := λ old j,
  match j with JString s => Some s | JNull => Some old | _ => None end.
Definition dec_bool : decoder bool := λ old j,
  match j with JBool b => Some b | JNull => Some old | _ => None end.
Definition dec_int : decoder Z := λ old j,
  match j with
  | JNumber s => match Atoi s with Ok n => Some n | Err _ => None end
  | JNull => Some old
  | _ => None
  end.
(** A slice is filled anew (here always a variable of zero value), a pointer is
    allocated where it is nil. *)
Fixpoint dec_all {A} (dec : decoder A) (zero : A) (l : list json) : option (list A) :=
  match l with [] => Some [] | j :: l => a ← dec zero j; l' ← dec_all dec zero l; Some (a :: l') end.
Definition dec_slice {A} (dec : decoder A) (zero : A) : decoder (list A) := λ old j,
  match j with JArray l => dec_all dec zero l | JNull => Some [] | _ => None end.
Definition dec_pointer {A} (dec : decoder A) (zero : A) : decoder (option A) := λ old j,
  match j with JNull => Some None | _ => Some <$> dec (default zero old) j end.

(** *** What an any leaves of a document *)

(** Keys that name the same field have the same canonical form. *)
Fixpoint canon (s : list Z) : list Z :=
  match s with
  | [] => []
  | a :: s1 =>
      match s with
      | 0xc5 :: 0xbf :: s2 => 115 :: canon s2
      | 0xe2 :: 0x84 :: 0xaa :: s3 => 107 :: canon s3
      | _ => to_lower a :: canon s1
      end
  end.
Definition canon_key (k : string) : list Z := canon (codes k).
Definition unique {A} (ms : list (string * A)) : Prop := NoDup ((λ kv, canon_key kv.1) <$> ms).

Lemma to_lower_ascii b : 0 ≤ b < 128 → 0 ≤ to_lower b < 128.
Proof. unfold to_lower. destruct (_ && _) eqn:E; bool_to_prop; lia. Qed.

Lemma canon_ascii a s : a < 128 → canon (a :: s) = to_lower a :: canon s.
Proof. intros Ha. cbn [canon]. repeat (case_match; subst; try done; try lia). Qed.

Lemma fold_eq_canon t : ∀ s, Forall (λ b, 0 ≤ b < 128) t → fold_eq s t = true → canon s = to_lower <$> t.
Proof.
  induction t as [|b t IH]; intros s Ht; cbn; [by destruct s|]. apply Forall_cons in Ht as [Hb Ht].
  pose proof (to_lower_ascii b Hb) as Hlb. destruct s as [|a s1]; [done|].
  cbn [fold_eq]. destruct (to_lower a =? to_lower b) eqn:E.
  - apply Z.eqb_eq in E. intros H. apply IH in H; [|done]. rewrite canon_ascii, H, E; [done|].
    rewrite <-E in Hlb. unfold to_lower in Hlb. destruct (_ && _) eqn:Ea; bool_to_prop; lia.
  - repeat (case_match; subst; try done); intros [E2%Z.eqb_eq H]%andb_true_iff; apply IH in H; try done; cbn; by rewrite H, E2.
Qed.

Lemma codes_ascii s : is_ascii s = true → Forall (λ b, 0 ≤ b < 128) (codes s).
Proof.
  unfold codes. induction s as [|a s IH]; cbn [is_ascii]; [constructor|]. intros [Ha%Z.ltb_lt Hs]%andb_true_iff.
  constructor; [|by apply IH]. split; [apply N2Z.is_nonneg|done].
Qed.

Lemma EqualFold_canon k name : is_ascii name = true → EqualFold k name = true → canon_key k = to_lower <$> codes name.
Proof. intros Hn. apply fold_eq_canon. by apply codes_ascii. Qed.

(** A field has one member in an object with unique keys, wherever it stands. *)
Lemma matching_one {A} name (ms : list (string * A)) : is_ascii name = true → unique ms →
  (length (List.filter (λ kv, EqualFold kv.1 name) ms) ≤ 1)%nat.
Proof.
  intros Hn. unfold unique. induction ms as [|kv ms IH]; cbn; [lia|]. intros [Hk Hu]%NoDup_cons.
  specialize (IH Hu). destruct (EqualFold kv.1 name) eqn:E; [|done]. cbn.
  assert (List.filter (λ kv, EqualFold kv.1 name) ms = []) as ->; [|cbn; lia].
  destruct (List.filter _ ms) as [|x l] eqn:Ef; [done|]. exfalso. apply Hk.
  assert (List.In x (List.filter (λ kv, EqualFold kv.1 name) ms)) as Hx by (rewrite Ef; by left).
  apply filter_In in Hx as [Hx Ex]. rewrite (EqualFold_canon _ _ Hn E), <-(EqualFold_canon _ _ Hn Ex).
  apply (list_elem_of_fmap_2 (λ kv : string * A, canon_key kv.1)). by apply list_elem_of_In.
Qed.

(** [similar j j']: the same document, its members in any order. *)
Unset Elimination Schemes.
Inductive similar : json → json → Prop :=
  | sim_refl j : similar j j
  | sim_array l l' : Forall2 similar l l' → similar (JArray l) (JArray l')
  | sim_object l l' l'' : unique l → Forall2 (λ x y, x.1 = y.1 ∧ similar x.2 y.2) l l' → l' ≡ₚ l'' →
      similar (JObject l) (JObject l'').
Set Elimination Schemes.

(** A decoder that takes similar documents for the same value. *)
Class Respectful {A} (dec : decoder A) : Prop := respectful old : Proper (similar ==> eq) (dec old).

Lemma unique_keys {A B} (l : list (string * A)) (l' : list (string * B)) :
  fst <$> l = fst <$> l' → unique l → unique l'.
Proof.
  unfold unique. assert (∀ C (m : list (string * C)), (λ kv, canon_key kv.1) <$> m = canon_key <$> (fst <$> m)) as H
    by (intros; by rewrite <-list_fmap_compose).
  intros E. by rewrite !H, E.
Qed.

Lemma filter_perm_one {A} (P : A → bool) l l' : (length (List.filter P l) ≤ 1)%nat → l ≡ₚ l' → List.filter P l = List.filter P l'.
Proof.
  intros Hl Hp. assert (List.filter P l ≡ₚ List.filter P l') as H.
  { clear Hl. induction Hp as [|x l l' _ IH|x y l|l1 l2 l3 _ IH1 _ IH2]; cbn; [done| | |by etrans].
    - destruct (P x); [by constructor|done].
    - destruct (P x), (P y); (done || constructor). }
  destruct (List.filter P l) as [|x [|y k]]; cbn in Hl; [|  |lia].
  - by apply Permutation_nil in H as ->.
  - by apply Permutation_singleton_l in H as ->.
Qed.

Lemma field_similar {A} name (dec : decoder A) `{!Respectful dec} zero l l'' : is_ascii name = true →
  similar (JObject l) (JObject l'') → field name dec zero l = field name dec zero l''.
Proof.
  intros Hn H. inversion H as [|?|? l' ? Hu Hl Hp]; subst; [done|]. unfold field.
  assert (fst <$> l = fst <$> l') as Ek. { clear -Hl. induction Hl as [|x y l l' [E _] _ IH]; cbn; [done|]. by rewrite E, IH. }
  rewrite <-(filter_perm_one (matches name) l' l''); [|apply (matching_one name l'); [done|by eapply unique_keys]|done].
  generalize (Some zero). clear -Hl Respectful0. induction Hl as [|x y l l' [Ex Es] _ IH]; intros acc; [done|].
  cbn [List.filter]. assert (matches name y = matches name x) as -> by (unfold matches; by rewrite Ex).
  destruct (matches name x); [|done]. cbn [foldl]. rewrite IH. f_equal.
  destruct acc as [a|]; [|done]. cbn [mbind option_bind]. by apply respectful.
Qed.

(** *** Documents that survive an any

    Valid strings, numbers that a [float64] prints as they are, and keys that
    are not mistaken for each other: what the program's own values are encoded
    as. *)
#[global] Instance unique_dec {A} (l : list (string * A)) : Decision (unique l).
Proof. apply _. Defined.

Fixpoint clean (j : json) : bool :=
  match j with
  | JNull | JBool _ => true
  | JNumber s => is_number s && bool_decide (float64_text s = Some s)
  | JString s => ValidString s
  | JArray l => forallb clean l
  | JObject l => bool_decide (unique l) && forallb (λ kv, ValidString kv.1 && clean kv.2) l
  end.

Lemma clean_norm j : clean j = true → numbers_ok j = true ∧ norm j = j.
Proof.
  induction j as [|b|s|s|l IH|l IH] using json_ind; cbn; intros H; [done|done| | | |].
  - by apply andb_true_iff in H as [-> _].
  - by rewrite coerce_valid.
  - enough (forallb numbers_ok l = true ∧ norm <$> l = l) as [H1 H2] by (by rewrite H2).
    induction IH as [|j l Hj _ IHl]; [done|]. cbn in *. apply andb_true_iff in H as [Hc Hl].
    destruct (Hj Hc) as [-> ->], (IHl Hl) as [-> E]. by rewrite E.
  - apply andb_true_iff in H as [_ H].
    enough (forallb (λ kv, numbers_ok kv.2) l = true ∧ (λ kv, (coerce kv.1, norm kv.2)) <$> l = l) as [H1 H2] by (by rewrite H2).
    induction IH as [|[k j] l Hj _ IHl]; [done|]. cbn in *. apply andb_true_iff in H as [Hc Hl].
    apply andb_true_iff in Hc as [Hk Hc]. destruct (Hj Hc) as [-> E1], (IHl Hl) as [-> E2].
    by rewrite coerce_valid, E1, E2.
Qed.

Lemma insert_key_perm {A} k (v : A) l : k ∉ fst <$> l → insert_key k v l ≡ₚ (k, v) :: l.
Proof.
  induction l as [|[k' v'] l IH]; cbn; [done|]. intros [Hne Hk]%not_elem_of_cons.
  destruct (String.compare k k') eqn:E; [|done|].
  - by apply String.compare_eq_iff in E.
  - rewrite IH by done. constructor.
Qed.

Lemma map_of_perm {A} (l : list (string * A)) : NoDup (fst <$> l) → map_of l ≡ₚ l.
Proof.
  unfold map_of. intros Hl.
  enough (∀ m, NoDup (fst <$> (m ++ l)) → foldl (λ m kv, insert_key kv.1 kv.2 m) m l ≡ₚ m ++ l) as H by (by apply (H [])).
  clear Hl. induction l as [|[k v] l IH]; intros m Hm; cbn; [by rewrite app_nil_r|].
  assert (insert_key k v m ≡ₚ (k, v) :: m) as E.
  { apply insert_key_perm. rewrite fmap_app, fmap_cons in Hm. apply NoDup_app in Hm as (_ & H & _).
    intros Hk. apply (H k Hk). by left. }
  rewrite IH.
  - rewrite E. by rewrite <-Permutation_middle.
  - rewrite E. cbn. by rewrite <-Permutation_middle in Hm.
Qed.

Lemma unique_NoDup {A} (l : list (string * A)) : unique l → NoDup (fst <$> l).
Proof.
  unfold unique. intros H. apply (NoDup_fmap_1 canon_key). by rewrite <-list_fmap_compose.
Qed.

Lemma max_list_perm l k : l ≡ₚ k → max_list l = max_list k.
Proof. induction 1; cbn; lia. Qed.

Lemma forallb_perm {A} (P : A → bool) l k : l ≡ₚ k → forallb P l = forallb P k.
Proof. induction 1 as [|x l k _ IH|x y l|l1 l2 l3 _ IH1 _ IH2]; cbn; [done|by rewrite IH| |congruence]. by destruct (P x), (P y). Qed.

Lemma to_any_clean j : clean j = true → ∃ j', to_any j = Some j' ∧ similar j j' ∧ clean j' = true ∧ height j' = height j.
Proof.
  induction j as [|b|s|s|l IH|l IH] using json_ind; cbn; intros H; try (by eexists; eauto using sim_refl).
  - apply andb_true_iff in H as [Hn Hs%bool_decide_eq_true]. rewrite Hs. exists (JNumber s). cbn.
    split_and!; [done|apply sim_refl|by rewrite Hn, bool_decide_eq_true_2|done].
  - set (go := fix go l := match l with [] => Some [] | j :: l => j' ← to_any j; l' ← go l; Some (j' :: l') end).
    enough (∃ l', go l = Some l' ∧ Forall2 similar l l' ∧ forallb clean l' = true ∧ height <$> l' = height <$> l)
      as (l' & -> & Hs & Hc & Hh).
    { exists (JArray l'). cbn. rewrite Hh. eauto using sim_array. }
    induction IH as [|j l Hj _ IHl]; [by exists []|]. cbn in *. apply andb_true_iff in H as [Hc Hl].
    destruct (Hj Hc) as (j' & -> & ? & Hc' & Hh'), (IHl Hl) as (l' & -> & ? & Hcl & Hhl). exists (j' :: l').
    cbn. rewrite Hc', Hcl, Hh', Hhl. eauto.
  - apply andb_true_iff in H as [Hu%bool_decide_eq_true H].
    set (go := fix go l := match l with [] => Some [] | (k, j) :: l => j' ← to_any j; l' ← go l; Some ((k, j') :: l') end).
    enough (∃ l', go l = Some l' ∧ Forall2 (λ x y, x.1 = y.1 ∧ similar x.2 y.2) l l' ∧
      forallb (λ kv, ValidString kv.1 && clean kv.2) l' = true ∧ (λ kv, height kv.2) <$> l' = (λ kv, height kv.2) <$> l ∧
      fst <$> l = fst <$> l') as (l' & -> & Hs & Hc & Hh & Hk).
    { pose proof (unique_keys _ _ Hk Hu) as Hu'. pose proof (map_of_perm l' (unique_NoDup _ Hu')) as Hp.
      exists (JObject (map_of l')). cbn. split_and!; [done|by eapply sim_object| |].
      - apply andb_true_iff; split; [|by rewrite (forallb_perm _ _ _ Hp)].
        apply bool_decide_eq_true. unfold unique. by rewrite Hp.
      - f_equal. rewrite <-Hh. apply max_list_perm. by rewrite Hp. }
    clear Hu. induction IH as [|[k j] l Hj _ IHl]; [by exists []|]. cbn in *. apply andb_true_iff in H as [Hc Hl].
    apply andb_true_iff in Hc as [Hk Hc].
    destruct (Hj Hc) as (j' & -> & ? & Hc' & Hh'), (IHl Hl) as (l' & -> & ? & Hcl & Hhl & Hkl). exists ((k, j') :: l').
    cbn. rewrite Hc', Hcl, Hh', Hhl, Hk, Hkl. split_and!; eauto.
Qed.

(** Through an [any] and its text. *)
Lemma through_any j : clean j = true → (height j ≤ maxNestingDepth)%nat →
  ∃ j', to_any j = Some j' ∧ similar j j' ∧ decode_whole (Marshal j') = Some j'.
Proof.
  intros Hc Hh. destruct (to_any_clean j Hc) as (j' & E & Hs & Hc' & Eh). exists j'. split_and!; [done..|].
  destruct (clean_norm j' Hc') as [Hn E']. rewrite <-E' at 2. apply Unmarshal_Marshal; [done|lia].
Qed.

Lemma members_similar j j' : similar j j' →
  members j = None ∧ members j' = None ∨
  ∃ ms ms', members j = Some ms ∧ members j' = Some ms' ∧ similar (JObject ms) (JObject ms').
Proof.
  intros H. inversion H as [?|l l' Hl|l l' l'' Hu Hl Hp]; subst; [|by left|right; by exists l, l''].
  destruct (members j') as [ms|] eqn:E; [right|by left]. exists ms, ms. eauto using sim_refl.
Qed.

#[export] Instance dec_slice_respectful {A} (dec : decoder A) zero : Respectful dec → Respectful (dec_slice dec zero).
Proof.
  intros Hd old j j' H. destruct H as [|l l' Hl|? ? ? ? ? ?]; [done| |done]. cbn.
  induction Hl as [|x y l l' Hxy _ IH]; [done|]. cbn. rewrite (respectful (dec:=dec) zero _ _ Hxy). by rewrite IH.
Qed.

#[export] Instance dec_pointer_respectful {A} (dec : decoder A) zero : Respectful dec → Respectful (dec_pointer dec zero).
Proof.
  intros Hd old j j' H. destruct H as [|l l' Hl|l l' l'' Hu Hl Hp]; cbn; [done|..]; f_equal; apply respectful; by econstructor.
Qed.
