(* ===== verification/Forwards.v ===== *)
(** * internal/server/forward_registry.go: the registry of forwards

    Every critical section of the registry is a function on its state, and a
    goroutine that holds no lock in between ([create], the accept loop, the
    bridges) is cut into these sections by a step relation in which they
    interleave in any way.  Entries, connections and the things a connection
    closes are references (numbers); an entry has the number of its listener.
    [None] is a nil dereference. *)

From S2P Require Import Prelude Errors GoStrings Strconv ServerProtocol.

#[local] Open Scope string_scope.
#[local] Open Scope Z_scope.
#[local] Open Scope list_scope.

(** ** Data *)

(** [fw_LastError] is [None] for the empty string. *)
Record Forward := mkForward {
  fw_ID : string; fw_State : State; fw_Local : ForwardLocalEndpoint; fw_Remote : string;
  fw_Target : ForwardTarget; fw_Norebind : bool; fw_CreatedAt : string;
  fw_ActiveConnections : nat; fw_LastError : option error;
}.

Record forwardEntry := mkEntry { fe_forward : Forward; fe_active : gset nat }.

(** What [forwardConn.close] closes: the host connection, and the client and
    the stream once they are set. *)
Record forwardConn := mkConn { fc_host : nat; fc_client : option nat; fc_stream : option nat }.

Record forwardRegistry := mkRegistry {
  nextID : Z;
  byID : gmap string nat;
  byLocal : gmap string string;
  entries : gmap nat forwardEntry;
  conns : gmap nat forwardConn;
  listening : gmap nat string;            (* the open listeners and their addresses *)
  closed : gset nat;                      (* the closed connections, clients and streams *)
}.

Definition newForwardRegistry : forwardRegistry := mkRegistry 0 ∅ ∅ ∅ ∅ ∅ ∅.

Definition key (e : ForwardLocalEndpoint) : string := fl_Network e +++ ":" +++ fl_Address e.

(** ** forwardConn *)

Definition conn_resources (c : forwardConn) : gset nat :=
  list_to_set (fc_host c :: option_list (fc_client c) ++ option_list (fc_stream c)).

Definition close_conn (c : nat) (r : forwardRegistry) : forwardRegistry :=
  match conns r !! c with
  | None => r
  | Some fc => mkRegistry (nextID r) (byID r) (byLocal r) (entries r) (conns r) (listening r)
                 (conn_resources fc ∪ closed r)
  end.

Definition with_conns (f : gmap nat forwardConn → gmap nat forwardConn) (r : forwardRegistry) : forwardRegistry :=
  mkRegistry (nextID r) (byID r) (byLocal r) (entries r) (f (conns r)) (listening r) (closed r).

Definition setClient (c x : nat) : forwardRegistry → forwardRegistry :=
  with_conns (alter (λ fc, mkConn (fc_host fc) (Some x) (fc_stream fc)) c).
Definition setStream (c x : nat) : forwardRegistry → forwardRegistry :=
  with_conns (alter (λ fc, mkConn (fc_host fc) (fc_client fc) (Some x)) c).

(** ** Entries *)

Definition with_entries (f : gmap nat forwardEntry → gmap nat forwardEntry) (r : forwardRegistry) : forwardRegistry :=
  mkRegistry (nextID r) (byID r) (byLocal r) (f (entries r)) (conns r) (listening r) (closed r).

Definition set_status (state : State) (lastError : option error) (en : forwardEntry) : forwardEntry :=
  let f := fe_forward en in
  mkEntry (mkForward (fw_ID f) state (fw_Local f) (fw_Remote f) (fw_Target f) (fw_Norebind f)
             (fw_CreatedAt f) (fw_ActiveConnections f) lastError) (fe_active en).

Definition set_active (active : gset nat) (en : forwardEntry) : forwardEntry :=
  let f := fe_forward en in
  mkEntry (mkForward (fw_ID f) (fw_State f) (fw_Local f) (fw_Remote f) (fw_Target f) (fw_Norebind f)
             (fw_CreatedAt f) (size active) (fw_LastError f)) active.

Definition addActive (e c : nat) : forwardRegistry → forwardRegistry :=
  with_entries (alter (λ en, set_active ({[c]} ∪ fe_active en) en) e).
Definition removeActive (e c : nat) : forwardRegistry → forwardRegistry :=
  with_entries (alter (λ en, set_active (fe_active en ∖ {[c]}) en) e).
Definition recordForwardError (e : nat) (message : error) : forwardRegistry → forwardRegistry :=
  with_entries (alter (set_status Degraded (Some message)) e).
Definition recordForwardSuccess (e : nat) : forwardRegistry → forwardRegistry :=
  with_entries (alter (set_status Listening None) e).

(** ** The registry *)

(** [removeLocked] of a pointer that may be nil. *)
Definition removeLocked (entry : option nat) (r : forwardRegistry) : option forwardRegistry :=
  e ← entry;
  en ← entries r !! e;
  let f := fe_forward en in
  let r := mkRegistry (nextID r) (delete (fw_ID f) (byID r)) (delete (key (fw_Local f)) (byLocal r))
             (alter (set_status Stopped (fw_LastError f)) e (entries r)) (conns r)
             (delete e (listening r)) (closed r) in
  Some (set_fold close_conn r (fe_active en)).

(** The first critical section of [create]: the error, if it returns here. *)
Definition create_check (params : ForwardCreateParams) (r : forwardRegistry)
    : option (forwardRegistry * option Error) :=
  match validateForwardCreateParams params with
  | Some e => Some (r, Some e)
  | None =>
      match byLocal r !! key (fc_Local params) with
      | None => Some (r, None)
      | Some existingID =>
          if fc_Norebind params then
            Some (r, Some (mkError ErrorRebindDisallowed
                             (Sprintf "forward for local endpoint %s already exists" [AStr (key (fc_Local params))])))
          else r ← removeLocked (byID r !! existingID) r; Some (r, None)
      end
  end.

(** [listenError]: is the error a [*net.OpError]? *)
Definition listenError (is_op : bool) (local : ForwardLocalEndpoint) (err : error) : Error :=
  mkError (if is_op then ErrorAddressInUse else ErrorUnsupportedEndpoint)
    (ErrorfV "listen on local endpoint %s: %v" [AStr (key local)] err).

Definition nextForwardID (r : forwardRegistry) : forwardRegistry * string :=
  let n := (nextID r + 1) mod 2 ^ 64 in
  (mkRegistry n (byID r) (byLocal r) (entries r) (conns r) (listening r) (closed r), "fwd_" +++ Itoa n).

Definition close_listener (ln : nat) (r : forwardRegistry) : forwardRegistry :=
  mkRegistry (nextID r) (byID r) (byLocal r) (entries r) (conns r) (delete ln (listening r)) (closed r).

(** The entry [create] builds for listener [ln], bound to [addr]. *)
Definition new_forward (params : ForwardCreateParams) (addr id now : string) : Forward :=
  mkForward id Listening (mkLocal (fl_Network (fc_Local params)) addr) (fc_Remote params)
    (fc_Target params) (fc_Norebind params) now 0 None.

(** The last critical section. *)
Definition create_commit (params : ForwardCreateParams) (ln : nat) (addr id now : string) (r : forwardRegistry)
    : option (forwardRegistry * result Forward) :=
  let f := new_forward params addr id now in
  let insert_entry (r : forwardRegistry) :=
    mkRegistry (nextID r) (<[id := ln]> (byID r)) (<[key (fw_Local f) := id]> (byLocal r))
      (<[ln := mkEntry f ∅]> (entries r)) (conns r) (listening r) (closed r) in
  match byLocal r !! key (fw_Local f) with
  | Some existingID =>
      let r := close_listener ln r in
      if fc_Norebind params then
        Some (r, Bad (mkError ErrorRebindDisallowed
                        (Sprintf "forward for local endpoint %s already exists" [AStr (key (fw_Local f))])))
      else r ← removeLocked (byID r !! existingID) r; Some (insert_entry r, Good f)
  | None => Some (insert_entry r, Good f)
  end.

(** The forwards in the order of the map's iteration; [map_to_list] gives one. *)
Definition forwards_of (r : forwardRegistry) : list Forward :=
  omap (λ p, fe_forward <$> entries r !! (p.2)) (map_to_list (byID r)).

Record ForwardDiagnostics := mkDiagnostics { Total : nat; dg_Listening : nat; dg_Degraded : nat; dg_Active : nat }.

Definition count_state (s : State) (fs : list Forward) : nat :=
  length (List.filter (λ f, bool_decide (fw_State f = s)) fs).

Definition diagnostics (r : forwardRegistry) : ForwardDiagnostics :=
  let fs := forwards_of r in
  mkDiagnostics (size (byID r)) (count_state Listening fs) (count_state Degraded fs)
    (sum_list (fw_ActiveConnections <$> fs)).

Definition remove (params : ForwardRemoveParams) (r : forwardRegistry)
    : option (forwardRegistry * result nat) :=
  let no_id := (fr_ID params =? "")%string in
  match fr_Local params with
  | None =>
      if no_id then Some (r, Bad (bad_request "forward_remove requires exactly one of id or local")) else
      match byID r !! fr_ID params with
      | None => Some (r, Bad (mkError ErrorForwardNotFound (Sprintf "forward not found" [])))
      | Some e => r ← removeLocked (Some e) r; Some (r, Good 1%nat)
      end
  | Some local =>
      if negb no_id then Some (r, Bad (bad_request "forward_remove requires exactly one of id or local")) else
      match validateForwardLocal local with
      | Some e => Some (r, Bad e)
      | None =>
          let id := default "" (byLocal r !! key local) in
          match byID r !! id with
          | None => Some (r, Bad (mkError ErrorForwardNotFound (Sprintf "forward not found" [])))
          | Some e => r ← removeLocked (Some e) r; Some (r, Good 1%nat)
          end
      end
  end.

Fixpoint remove_each (es : list nat) (r : forwardRegistry) : option forwardRegistry :=
  match es with
  | [] => Some r
  | e :: es => r ← removeLocked (Some e) r; remove_each es r
  end.

(** Ranging over the map while deleting from it visits every entry once. *)
Definition removeAll (r : forwardRegistry) : option (forwardRegistry * nat) :=
  r' ← remove_each ((map_to_list (byID r)).*2) r; Some (r', size (byID r)).

(** ** The goroutines

    A call of [create] between its critical sections. *)
Inductive create_pc :=
  | CListen (params : ForwardCreateParams)
  | CBound (params : ForwardCreateParams) (ln : nat) (addr : string)
  | CNamed (params : ForwardCreateParams) (ln : nat) (addr id : string).

Definition pc_listener (pc : create_pc) : option (ForwardCreateParams * nat * string) :=
  match pc with
  | CListen _ => None
  | CBound params ln addr | CNamed params ln addr _ => Some (params, ln, addr)
  end.
Definition pc_id (pc : create_pc) : option string :=
  match pc with CNamed _ _ _ id => Some id | _ => None end.

(** [accepted] are the connections between [Accept] and [addActive], with
    their entry; references are handed out in order. *)
Record world := mkWorld {
  reg : forwardRegistry; creating : gmap nat create_pc; accepted : gmap nat nat; fresh_ref : nat;
}.

Definition set_reg (r : forwardRegistry) (w : world) : world :=
  mkWorld r (creating w) (accepted w) (fresh_ref w).
Definition open_listener (ln : nat) (addr : string) (r : forwardRegistry) : forwardRegistry :=
  mkRegistry (nextID r) (byID r) (byLocal r) (entries r) (conns r) (<[ln := addr]> (listening r)) (closed r).

(** The operating system hands out an address only while no listener is open on
    it; nothing else is assumed of [net.Listen]. *)
Inductive fstep : world → world → Prop :=
  | s_create w t params r' :
      creating w !! t = None → create_check params (reg w) = Some (r', None) →
      fstep w (mkWorld r' (<[t := CListen params]> (creating w)) (accepted w) (fresh_ref w))
  | s_create_refused w params r' e :
      create_check params (reg w) = Some (r', Some e) → fstep w (set_reg r' w)
  | s_listen w t params addr :
      creating w !! t = Some (CListen params) →
      (∀ ln, listening (reg w) !! ln ≠ Some addr) →
      fstep w (mkWorld (open_listener (fresh_ref w) addr (reg w))
                 (<[t := CBound params (fresh_ref w) addr]> (creating w)) (accepted w) (S (fresh_ref w)))
  | s_listen_fails w t params :
      creating w !! t = Some (CListen params) →
      fstep w (mkWorld (reg w) (delete t (creating w)) (accepted w) (fresh_ref w))
  | s_name w t params ln addr :
      creating w !! t = Some (CBound params ln addr) →
      fstep w (mkWorld (fst (nextForwardID (reg w)))
                 (<[t := CNamed params ln addr (snd (nextForwardID (reg w)))]> (creating w))
                 (accepted w) (fresh_ref w))
  | s_commit w t params ln addr id now r' res :
      creating w !! t = Some (CNamed params ln addr id) →
      create_commit params ln addr id now (reg w) = Some (r', res) →
      fstep w (mkWorld r' (delete t (creating w)) (accepted w) (fresh_ref w))
  | s_remove w params r' res : remove params (reg w) = Some (r', res) → fstep w (set_reg r' w)
  | s_removeAll w r' n : removeAll (reg w) = Some (r', n) → fstep w (set_reg r' w)
  | s_accept w e en addr :
      entries (reg w) !! e = Some en → listening (reg w) !! e = Some addr →
      fstep w (mkWorld (with_conns <[fresh_ref w := mkConn (S (fresh_ref w)) None None]> (reg w))
                 (creating w) (<[fresh_ref w := e]> (accepted w)) (S (S (fresh_ref w))))
  | s_add w c e :
      accepted w !! c = Some e →
      fstep w (mkWorld (addActive e c (reg w)) (creating w) (delete c (accepted w)) (fresh_ref w))
  | s_client w c : fstep w (mkWorld (setClient c (fresh_ref w) (reg w)) (creating w) (accepted w) (S (fresh_ref w)))
  | s_stream w c : fstep w (mkWorld (setStream c (fresh_ref w) (reg w)) (creating w) (accepted w) (S (fresh_ref w)))
  | s_error w e msg : fstep w (set_reg (recordForwardError e msg (reg w)) w)
  | s_success w e : fstep w (set_reg (recordForwardSuccess e (reg w)) w)
  | s_close w c : fstep w (set_reg (close_conn c (reg w)) w)
  | s_leave w c e : fstep w (set_reg (removeActive e c (reg w)) w).

Definition start : world := mkWorld newForwardRegistry ∅ ∅ 0.

(** Some goroutine is about to dereference nil. *)
Definition panics (w : world) : Prop :=
  (∃ params, create_check params (reg w) = None) ∨
  (∃ t params ln addr id now, creating w !! t = Some (CNamed params ln addr id) ∧
     create_commit params ln addr id now (reg w) = None) ∨
  (∃ params, remove params (reg w) = None) ∨ removeAll (reg w) = None.

(** ** The invariant *)

(** A registered entry is listening on its own address and found under it. *)
Definition entry_ok (r : forwardRegistry) (id : string) (e : nat) (en : forwardEntry) : Prop :=
  let f := fe_forward en in
  fw_ID f = id ∧ fw_State f ≠ Stopped ∧ fl_Network (fw_Local f) = "tcp" ∧
  fw_ActiveConnections f = size (fe_active en) ∧
  listening r !! e = Some (fl_Address (fw_Local f)) ∧ byLocal r !! key (fw_Local f) = Some id.

Record registry_ok (r : forwardRegistry) : Prop := {
  ok_byID id e : byID r !! id = Some e → ∃ en, entries r !! e = Some en ∧ entry_ok r id e en;
  ok_byLocal k id : byLocal r !! k = Some id →
    ∃ e en, byID r !! id = Some e ∧ entries r !! e = Some en ∧ key (fw_Local (fe_forward en)) = k;
  ok_addresses l1 l2 a : listening r !! l1 = Some a → listening r !! l2 = Some a → l1 = l2;
}.

Definition forward_id (n : Z) : string := "fwd_" +++ Itoa n.

(** A pending creation owns an open listener that is no entry yet, and its ID. *)
Record world_ok (w : world) : Prop := {
  ok_reg : registry_ok (reg w);
  ok_pending t pc params ln addr : creating w !! t = Some pc → pc_listener pc = Some (params, ln, addr) →
    fl_Network (fc_Local params) = "tcp" ∧ listening (reg w) !! ln = Some addr ∧ entries (reg w) !! ln = None;
  ok_params t params : creating w !! t = Some (CListen params) → fl_Network (fc_Local params) = "tcp";
  ok_owner t t' pc pc' p p' ln addr addr' :
    creating w !! t = Some pc → creating w !! t' = Some pc' →
    pc_listener pc = Some (p, ln, addr) → pc_listener pc' = Some (p', ln, addr') → t = t';
  ok_listening ln addr : listening (reg w) !! ln = Some addr →
    (∃ id, byID (reg w) !! id = Some ln) ∨
    (∃ t pc params, creating w !! t = Some pc ∧ pc_listener pc = Some (params, ln, addr));
  ok_ids id e : byID (reg w) !! id = Some e → ∃ n, 1 ≤ n ≤ nextID (reg w) ∧ id = forward_id n;
  ok_pending_ids t pc id : creating w !! t = Some pc → pc_id pc = Some id →
    (∃ n, 1 ≤ n ≤ nextID (reg w) ∧ id = forward_id n) ∧ byID (reg w) !! id = None;
  ok_unique_ids t t' pc pc' id :
    creating w !! t = Some pc → creating w !! t' = Some pc' → pc_id pc = Some id → pc_id pc' = Some id → t = t';
  ok_fresh e : (fresh_ref w ≤ e)%nat → entries (reg w) !! e = None ∧ listening (reg w) !! e = None;
}.

Lemma forward_id_inj n m : 0 ≤ n → 0 ≤ m → forward_id n = forward_id m → n = m.
Proof. intros Hn Hm E. apply Itoa_inj; [done..|]. unfold forward_id in E. by apply append_inj_l in E. Qed.

Lemma key_inj a b : fl_Network a = "tcp" → fl_Network b = "tcp" → key a = key b → fl_Address a = fl_Address b.
Proof. unfold key. intros -> -> E. apply append_inj_l in E. by apply append_inj_l in E. Qed.

(** Closing connections touches nothing but the set of closed things. *)
Lemma close_conns r (X : gset nat) : ∃ cl : gset nat,
  set_fold close_conn r X = mkRegistry (nextID r) (byID r) (byLocal r) (entries r) (conns r) (listening r) cl ∧
  closed r ⊆ cl ∧ ∀ c fc, c ∈ X → conns r !! c = Some fc → conn_resources fc ⊆ cl.
Proof.
  unfold set_fold. cbn.
  assert (∀ l : list nat, ∃ cl : gset nat,
    foldr close_conn r l = mkRegistry (nextID r) (byID r) (byLocal r) (entries r) (conns r) (listening r) cl ∧
    closed r ⊆ cl ∧ ∀ c fc, c ∈ l → conns r !! c = Some fc → conn_resources fc ⊆ cl) as H.
  { induction l as [|c l (cl & E & Hcl & Hc)].
    - exists (closed r). split_and!; [by destruct r|done|]. intros c fc Hc. by apply not_elem_of_nil in Hc.
    - cbn [foldr]. rewrite E. unfold close_conn. cbn. destruct (conns r !! c) as [fc|] eqn:Ec.
      + exists (conn_resources fc ∪ cl). split_and!; [done|set_solver|].
        intros c' fc' Hc' E'. apply elem_of_cons in Hc' as [->|Hc']; [|specialize (Hc _ _ Hc' E'); set_solver].
        assert (fc' = fc) as -> by congruence. set_solver.
      + exists cl. split_and!; [done..|]. intros c' fc' Hc' E'.
        apply elem_of_cons in Hc' as [->|Hc']; [congruence|by eapply Hc]. }
  destruct (H (elements X)) as (cl & E & Hcl & Hc). exists cl. split_and!; [exact E|done|].
  intros c fc Hin. apply Hc. by apply elem_of_elements.
Qed.

Lemma byID_inj r id id' e : registry_ok r → byID r !! id = Some e → byID r !! id' = Some e → id = id'.
Proof.
  intros Hr H H'. destruct (ok_byID r Hr _ _ H) as (en & E & O), (ok_byID r Hr _ _ H') as (en' & E' & O').
  destruct O as [O _], O' as [O' _]. congruence.
Qed.

(** The registry without entry [e] of ID [id]. *)
Definition removed (id : string) (e : nat) (en : forwardEntry) (cl : gset nat) (r : forwardRegistry) : forwardRegistry :=
  mkRegistry (nextID r) (delete id (byID r)) (delete (key (fw_Local (fe_forward en))) (byLocal r))
    (alter (set_status Stopped (fw_LastError (fe_forward en))) e (entries r)) (conns r)
    (delete e (listening r)) cl.

Lemma removeLocked_registered r id e :
  registry_ok r → byID r !! id = Some e →
  ∃ en cl, entries r !! e = Some en ∧ removeLocked (Some e) r = Some (removed id e en cl r) ∧
    closed r ⊆ cl ∧ (∀ c fc, c ∈ fe_active en → conns r !! c = Some fc → conn_resources fc ⊆ cl) ∧
    registry_ok (removed id e en cl r).
Proof.
  intros Hr Hid. destruct (ok_byID r Hr _ _ Hid) as (en & He & Hen). pose proof Hen as (HI & HS & HN & HA & HL & HB).
  unfold removeLocked. cbn [mbind option_bind]. rewrite He. cbn [mbind option_bind]. rewrite HI.
  match goal with |- context [set_fold close_conn ?r1 ?X] => destruct (close_conns r1 X) as (cl & -> & Hcl & Hc) end.
  cbn in *. exists en, cl. split_and!; [done..|]. split; cbn.
  - intros id' e' H. apply lookup_delete_Some in H as [Hne H].
    destruct (ok_byID r Hr _ _ H) as (en' & He' & O). exists en'.
    assert (e ≠ e') as Hee by (intros ->; apply Hne; by eapply byID_inj). rewrite lookup_alter_ne by done.
    split; [done|]. destruct O as (OI & OS & ON & OA & OL & OB). split_and!; try done; cbn.
    + by rewrite lookup_delete_ne.
    + rewrite lookup_delete_ne; [done|]. intros E. rewrite E in HB. congruence.
  - intros k id' H. apply lookup_delete_Some in H as [Hk H].
    destruct (ok_byLocal r Hr _ _ H) as (e' & en' & B & He' & K). exists e', en'.
    assert (e ≠ e') as Hee by (intros ->; congruence).
    rewrite lookup_alter_ne by done. split_and!; [|done..].
    rewrite lookup_delete_ne; [done|]. intros ->. congruence.
  - intros l1 l2 a H1 H2. apply lookup_delete_Some in H1 as [_ H1], H2 as [_ H2]. by eapply (ok_addresses r Hr).
Qed.

(** *** Steps that leave the maps alone *)

Definition kept (en en' : forwardEntry) : Prop :=
  fw_ID (fe_forward en') = fw_ID (fe_forward en) ∧ fw_Local (fe_forward en') = fw_Local (fe_forward en) ∧
  (fw_State (fe_forward en) ≠ Stopped → fw_State (fe_forward en') ≠ Stopped) ∧
  (fw_ActiveConnections (fe_forward en) = size (fe_active en) →
   fw_ActiveConnections (fe_forward en') = size (fe_active en')).

Record neutral (r r' : forwardRegistry) : Prop := {
  nt_nextID : nextID r' = nextID r;
  nt_byID : byID r' = byID r;
  nt_byLocal : byLocal r' = byLocal r;
  nt_listening : listening r' = listening r;
  nt_some e en : entries r !! e = Some en → ∃ en', entries r' !! e = Some en' ∧ kept en en';
  nt_none e : entries r !! e = None → entries r' !! e = None;
}.

Lemma neutral_registry_ok r r' : neutral r r' → registry_ok r → registry_ok r'.
Proof.
  intros N Hr. split.
  - intros id e. rewrite (nt_byID _ _ N). intros H. destruct (ok_byID r Hr _ _ H) as (en & He & O).
    destruct (nt_some _ _ N _ _ He) as (en' & He' & KI & KL & KS & KA). exists en'. split; [done|].
    destruct O as (OI & OS & ON & OA & OL & OB). unfold entry_ok.
    rewrite KI, KL, (nt_listening _ _ N), (nt_byLocal _ _ N). auto 10.
  - intros k id. rewrite (nt_byLocal _ _ N), (nt_byID _ _ N). intros H.
    destruct (ok_byLocal r Hr _ _ H) as (e & en & B & He & K).
    destruct (nt_some _ _ N _ _ He) as (en' & He' & _ & KL & _). exists e, en'. by rewrite KL.
  - rewrite (nt_listening _ _ N). apply (ok_addresses r Hr).
Qed.

Lemma neutral_world_ok w r' acc fresh' :
  neutral (reg w) r' → (fresh_ref w ≤ fresh')%nat → world_ok w → world_ok (mkWorld r' (creating w) acc fresh').
Proof.
  intros N Hf Hw. destruct Hw. split; cbn; try done.
  - by eapply neutral_registry_ok.
  - intros t pc p ln addr H1 H2. rewrite (nt_listening _ _ N). destruct (ok_pending0 _ _ _ _ _ H1 H2) as (? & ? & ?).
    split_and!; [done..|]. by apply (nt_none _ _ N).
  - rewrite (nt_listening _ _ N), (nt_byID _ _ N). done.
  - rewrite (nt_byID _ _ N), (nt_nextID _ _ N). done.
  - rewrite (nt_byID _ _ N), (nt_nextID _ _ N). done.
  - intros e He. rewrite (nt_listening _ _ N). destruct (ok_fresh0 e) as [? ?]; [lia|].
    split; [by apply (nt_none _ _ N)|done].
Qed.

Lemma kept_refl en : kept en en.
Proof. by split_and!. Qed.

Lemma neutral_conns r f cl : neutral r (mkRegistry (nextID r) (byID r) (byLocal r) (entries r) f (listening r) cl).
Proof. split; try done. intros e en H. exists en. split; [done|apply kept_refl]. Qed.

Lemma neutral_alter r f e : (∀ en, kept en (f en)) → neutral r (with_entries (alter f e) r).
Proof.
  intros Hf. split; try done; cbn.
  - intros e' en H. destruct (decide (e = e')) as [<-|].
    + rewrite lookup_alter_eq, H. cbn. eauto.
    + rewrite lookup_alter_ne by done. exists en. split; [done|apply kept_refl].
  - intros e' H. destruct (decide (e = e')) as [<-|]; [by rewrite lookup_alter_eq, H|by rewrite lookup_alter_ne].
Qed.

Lemma kept_status s m en : s ≠ Stopped → kept en (set_status s m en).
Proof. intros Hs. by split_and!. Qed.
Lemma kept_active X en : kept en (set_active X en).
Proof. by split_and!. Qed.

Lemma neutral_close c r : neutral r (close_conn c r).
Proof.
  unfold close_conn. destruct (conns r !! c); [apply neutral_conns|].
  destruct r. apply (neutral_conns (mkRegistry _ _ _ _ _ _ _)).
Qed.

(** *** Steps of a creation *)

Lemma removed_world_ok w id e en cl :
  world_ok w → byID (reg w) !! id = Some e → entries (reg w) !! e = Some en →
  registry_ok (removed id e en cl (reg w)) → world_ok (set_reg (removed id e en cl (reg w)) w).
Proof.
  intros Hw Hid He Hok. destruct Hw. split; cbn; try done.
  - intros t pc p ln addr H1 H2. destruct (ok_pending0 _ _ _ _ _ H1 H2) as (? & Hl & Hn).
    assert (e ≠ ln) by congruence. by rewrite lookup_delete_ne, lookup_alter_ne.
  - intros ln addr H. apply lookup_delete_Some in H as [Hne H].
    destruct (ok_listening0 _ _ H) as [[id' Hid']|?]; [|by right]. left. exists id'.
    rewrite lookup_delete_ne; [done|]. intros ->. congruence.
  - intros id' e' H. apply lookup_delete_Some in H as [_ H]. by eapply ok_ids0.
  - intros t pc id' H1 H2. destruct (ok_pending_ids0 _ _ _ H1 H2) as [? Hn]. split; [done|].
    apply lookup_delete_None. by right.
  - intros e' Hf. destruct (ok_fresh0 e' Hf) as [Hn Hl]. split; [|by apply lookup_delete_None; right].
    destruct (decide (e = e')) as [<-|]; [congruence|by rewrite lookup_alter_ne].
Qed.

(** Removing a registered entry succeeds and keeps the invariant. *)
Lemma removeLocked_world_ok w id e :
  world_ok w → byID (reg w) !! id = Some e →
  ∃ r', removeLocked (Some e) (reg w) = Some r' ∧ world_ok (set_reg r' w) ∧ nextID r' = nextID (reg w) ∧
    byID r' = delete id (byID (reg w)).
Proof.
  intros Hw Hid. destruct (removeLocked_registered _ _ _ (ok_reg w Hw) Hid) as (en & cl & He & E & _ & _ & Hok).
  exists (removed id e en cl (reg w)). split_and!; [done|by apply removed_world_ok|done..].
Qed.

Lemma add_CListen w t params :
  world_ok w → creating w !! t = None → fl_Network (fc_Local params) = "tcp" →
  world_ok (mkWorld (reg w) (<[t := CListen params]> (creating w)) (accepted w) (fresh_ref w)).
Proof.
  intros Hw Ht Hp. destruct Hw. split; cbn; try done.
  - intros t' pc p ln addr H1 H2. apply lookup_insert_Some in H1 as [[<- <-]|[_ H1]]; [done|by eapply ok_pending0].
  - intros t' p H. apply lookup_insert_Some in H as [[<- [= <-]]|[_ H]]; [done|by eapply ok_params0].
  - intros t1 t2 pc pc' p p' ln a a' H1 H2 L1 L2.
    apply lookup_insert_Some in H1 as [[<- <-]|[_ H1]]; [done|].
    apply lookup_insert_Some in H2 as [[<- <-]|[_ H2]]; [done|]. by eapply (ok_owner0 t1 t2).
  - intros ln addr H. destruct (ok_listening0 _ _ H) as [?|(t' & pc & p & H1 & H2)]; [by left|]. right.
    exists t', pc, p. rewrite lookup_insert_ne by congruence. done.
  - intros t' pc id H1 H2. apply lookup_insert_Some in H1 as [[<- <-]|[_ H1]]; [done|by eapply ok_pending_ids0].
  - intros t1 t2 pc pc' id H1 H2 L1 L2.
    apply lookup_insert_Some in H1 as [[<- <-]|[_ H1]]; [done|].
    apply lookup_insert_Some in H2 as [[<- <-]|[_ H2]]; [done|]. by eapply (ok_unique_ids0 t1 t2).
Qed.

Lemma validated_tcp params : validateForwardCreateParams params = None → fl_Network (fc_Local params) = "tcp".
Proof.
  unfold validateForwardCreateParams, first_error. intros H.
  assert (validateForwardLocal (fc_Local params) = None) as Hl by (destruct (validateForwardLocal _); [done|done]).
  unfold validateForwardLocal in Hl. destruct (fl_Network _ =? "tcp")%string eqn:E; [|done]. by apply String.eqb_eq.
Qed.

Lemma create_check_ok w params : world_ok w →
  ∃ r' e, create_check params (reg w) = Some (r', e) ∧ world_ok (set_reg r' w) ∧ nextID r' = nextID (reg w) ∧
    (e = None → fl_Network (fc_Local params) = "tcp").
Proof.
  intros Hw. unfold create_check. assert (world_ok (set_reg (reg w) w)) as Hw' by (by destruct w).
  destruct (validateForwardCreateParams params) as [e|] eqn:V; [by exists (reg w), (Some e)|].
  apply validated_tcp in V. destruct (byLocal (reg w) !! _) as [id|] eqn:B; [|by exists (reg w), None].
  destruct (fc_Norebind params); [by eexists _, (Some _)|].
  destruct (ok_byLocal _ (ok_reg w Hw) _ _ B) as (e & en & Hid & _).
  rewrite Hid. destruct (removeLocked_world_ok w id e Hw Hid) as (r' & E & Hok & HN & _). rewrite E. cbn.
  by exists r', None.
Qed.

Lemma listen_world_ok w t params addr :
  world_ok w → creating w !! t = Some (CListen params) → (∀ ln, listening (reg w) !! ln ≠ Some addr) →
  world_ok (mkWorld (open_listener (fresh_ref w) addr (reg w))
              (<[t := CBound params (fresh_ref w) addr]> (creating w)) (accepted w) (S (fresh_ref w))).
Proof.
  intros Hw Ht Ha. destruct (ok_fresh w Hw (fresh_ref w)) as [Fe Fl]; [done|].
  assert (∀ ln a, listening (reg w) !! ln = Some a → ln ≠ fresh_ref w) as Hne by congruence.
  destruct Hw. split; cbn; try done.
  - destruct ok_reg0 as [B L A]. split; cbn.
    + intros id e H. destruct (B _ _ H) as (en & He & O). exists en. split; [done|].
      destruct O as (? & ? & ? & ? & OL & ?). split_and!; try done. cbn. rewrite lookup_insert_ne; [done|].
      intros <-. congruence.
    + done.
    + intros l1 l2 a H1 H2. apply lookup_insert_Some in H1 as [[<- <-]|[_ H1]], H2 as [[<- E2]|[_ H2]];
        [done|by destruct (Ha l2)|subst; by destruct (Ha l1)|by eapply A].
  - intros t' pc p ln a H1 H2. apply lookup_insert_Some in H1 as [[<- <-]|[_ H1]].
    + injection H2 as <- <- <-. split_and!; [by apply (ok_params0 t)|by rewrite lookup_insert, decide_True|done].
    + destruct (ok_pending0 _ _ _ _ _ H1 H2) as (? & Hl & ?).
      split_and!; [done| |done]. rewrite lookup_insert_ne; [done|]. intros <-. congruence.
  - intros t' p H. apply lookup_insert_Some in H as [[_ H]|[_ H]]; [done|by eapply ok_params0].
  - intros t1 t2 pc pc' p p' ln a a' H1 H2 L1 L2.
    apply lookup_insert_Some in H1 as [[<- <-]|[_ H1]]; apply lookup_insert_Some in H2 as [[<- <-]|[_ H2]]; [done|..].
    + injection L1 as <- <- <-. destruct (ok_pending0 _ _ _ _ _ H2 L2) as (_ & Hl & _). congruence.
    + injection L2 as <- <- <-. destruct (ok_pending0 _ _ _ _ _ H1 L1) as (_ & Hl & _). congruence.
    + by eapply (ok_owner0 t1 t2).
  - intros ln a H. apply lookup_insert_Some in H as [[<- <-]|[_ H]].
    + right. exists t, (CBound params (fresh_ref w) addr), params. by rewrite lookup_insert, decide_True.
    + destruct (ok_listening0 _ _ H) as [?|(t' & pc & p & H1 & H2)]; [by left|]. right.
      exists t', pc, p. rewrite lookup_insert_ne; [done|]. intros <-. assert (pc = CListen params) as -> by congruence. done.
  - intros t' pc id H1 H2. apply lookup_insert_Some in H1 as [[<- <-]|[_ H1]]; [done|by eapply ok_pending_ids0].
  - intros t1 t2 pc pc' id H1 H2 L1 L2.
    apply lookup_insert_Some in H1 as [[<- <-]|[_ H1]]; [done|].
    apply lookup_insert_Some in H2 as [[<- <-]|[_ H2]]; [done|]. by eapply (ok_unique_ids0 t1 t2).
  - intros e He. destruct (ok_fresh0 e) as [? ?]; [lia|]. split; [done|]. rewrite lookup_insert_ne by lia. done.
Qed.

Lemma drop_creation w t :
  world_ok w →
  (∀ pc p ln a, creating w !! t = Some pc → pc_listener pc = Some (p, ln, a) →
     listening (reg w) !! ln = None ∨ ∃ id, byID (reg w) !! id = Some ln) →
  world_ok (mkWorld (reg w) (delete t (creating w)) (accepted w) (fresh_ref w)).
Proof.
  intros Hw Hln. destruct Hw. split; cbn; try done.
  - intros t' pc p ln a H1 H2. apply lookup_delete_Some in H1 as [_ H1]. by eapply ok_pending0.
  - intros t' p H. apply lookup_delete_Some in H as [_ H]. by eapply ok_params0.
  - intros t1 t2 pc pc' p p' ln a a' H1 H2. apply lookup_delete_Some in H1 as [_ H1], H2 as [_ H2].
    by eapply (ok_owner0 t1 t2).
  - intros ln a H. destruct (ok_listening0 _ _ H) as [?|(t' & pc & p & H1 & H2)]; [by left|].
    destruct (decide (t' = t)) as [->|Hne].
    + destruct (Hln _ _ _ _ H1 H2) as [?|?]; [congruence|by left].
    + right. exists t', pc, p. by rewrite lookup_delete_ne.
  - intros t' pc id H1. apply lookup_delete_Some in H1 as [_ H1]. by apply (ok_pending_ids0 t').
  - intros t1 t2 pc pc' id H1 H2. apply lookup_delete_Some in H1 as [_ H1], H2 as [_ H2]. by eapply (ok_unique_ids0 t1 t2).
Qed.

Lemma name_world_ok w t params ln addr :
  world_ok w → 0 ≤ nextID (reg w) → nextID (reg w) + 1 < 2 ^ 64 →
  creating w !! t = Some (CBound params ln addr) →
  world_ok (mkWorld (fst (nextForwardID (reg w)))
    (<[t := CNamed params ln addr (snd (nextForwardID (reg w)))]> (creating w)) (accepted w) (fresh_ref w)).
Proof.
  intros Hw H0 Hn Ht. unfold nextForwardID. rewrite Z.mod_small by lia. cbn [fst snd].
  set (n := nextID (reg w) + 1). change ("fwd_" +++ Itoa n) with (forward_id n).
  assert (∀ k, 1 ≤ k ≤ nextID (reg w) → forward_id k ≠ forward_id n) as Hnew.
  { intros k Hk E. apply forward_id_inj in E; lia. }
  assert (byID (reg w) !! forward_id n = None) as HB.
  { apply eq_None_not_Some. intros [e He]. destruct (ok_ids w Hw _ _ He) as (k & Hk & E). by apply (Hnew k). }
  assert (∀ t' pc, <[t := CNamed params ln addr (forward_id n)]> (creating w) !! t' = Some pc →
     ∃ pc0, creating w !! t' = Some pc0 ∧ pc_listener pc = pc_listener pc0) as Hold.
  { intros t' pc H. apply lookup_insert_Some in H as [[<- <-]|[_ H]]; eauto. }
  destruct Hw. split; cbn; try done.
  - destruct ok_reg0 as [B L A]. by split.
  - intros t' pc p l a H1 H2. destruct (Hold _ _ H1) as (pc0 & H1' & E). rewrite E in H2. by eapply ok_pending0.
  - intros t' p H. apply lookup_insert_Some in H as [[_ H]|[_ H]]; [done|by eapply ok_params0].
  - intros t1 t2 pc pc' p p' l a a' H1 H2 L1 L2.
    destruct (Hold _ _ H1) as (q1 & H1' & E1), (Hold _ _ H2) as (q2 & H2' & E2). rewrite E1 in L1. rewrite E2 in L2.
    by eapply (ok_owner0 t1 t2).
  - intros l a H. destruct (ok_listening0 _ _ H) as [?|(t' & pc & p & H1 & H2)]; [by left|]. right.
    destruct (decide (t = t')) as [<-|Hne].
    + exists t, (CNamed params ln addr (forward_id n)), p. rewrite lookup_insert, decide_True by done. split; [done|].
      assert (pc = CBound params ln addr) as -> by congruence. done.
    + exists t', pc, p. by rewrite lookup_insert_ne.
  - intros id e H. destruct (ok_ids0 _ _ H) as (k & Hk & ->). exists k. split; [lia|done].
  - intros t' pc id H1 H2. apply lookup_insert_Some in H1 as [[<- <-]|[_ H1]].
    + injection H2 as <-. split; [|done]. exists n. split; [lia|done].
    + destruct (ok_pending_ids0 _ _ _ H1 H2) as [(k & Hk & ->) ?]. split; [|done]. exists k. split; [lia|done].
  - intros t1 t2 pc pc' id H1 H2 L1 L2.
    apply lookup_insert_Some in H1 as [[<- <-]|[_ H1]]; apply lookup_insert_Some in H2 as [[<- <-]|[_ H2]]; [done|..].
    + injection L1 as <-. destruct (ok_pending_ids0 _ _ _ H2 L2) as [(k & Hk & E) _]. by destruct (Hnew k Hk).
    + injection L2 as <-. destruct (ok_pending_ids0 _ _ _ H1 L1) as [(k & Hk & E) _]. by destruct (Hnew k Hk).
    + by eapply (ok_unique_ids0 t1 t2).
Qed.

(** The second check of [create] never finds an entry. *)
Lemma commit_finds_nothing w t params ln addr id :
  world_ok w → creating w !! t = Some (CNamed params ln addr id) →
  byLocal (reg w) !! key (mkLocal (fl_Network (fc_Local params)) addr) = None.
Proof.
  intros Hw Ht. destruct (ok_pending w Hw _ _ _ _ _ Ht eq_refl) as (HN & HL & HE).
  apply eq_None_not_Some. intros [id' B].
  destruct (ok_byLocal _ (ok_reg w Hw) _ _ B) as (e & en & Hid & He & K).
  destruct (ok_byID _ (ok_reg w Hw) _ _ Hid) as (en' & He' & _ & _ & ON & _ & OL & _).
  assert (en' = en) as -> by congruence. apply key_inj in K; [|done|done]. cbn in K. rewrite K in OL.
  assert (ln = e) as -> by (by eapply (ok_addresses _ (ok_reg w Hw))). congruence.
Qed.

Lemma commit_world_ok w t params ln addr id now :
  world_ok w → creating w !! t = Some (CNamed params ln addr id) →
  ∃ r', create_commit params ln addr id now (reg w) = Some (r', Good (new_forward params addr id now)) ∧
    world_ok (mkWorld r' (delete t (creating w)) (accepted w) (fresh_ref w)) ∧ nextID r' = nextID (reg w).
Proof.
  intros Hw Ht. pose proof (commit_finds_nothing _ _ _ _ _ _ Hw Ht) as Hnone.
  unfold create_commit. cbn [new_forward fw_Local]. rewrite Hnone. eexists. split_and!; [done| |done].
  destruct (ok_pending w Hw _ _ _ _ _ Ht eq_refl) as (HN & HL & HE).
  destruct (ok_pending_ids w Hw _ _ _ Ht eq_refl) as [Hid HB].
  set (en := mkEntry _ ∅).
  assert (∀ e en', entries (reg w) !! e = Some en' → ln ≠ e) as Hne by congruence.
  destruct Hw. split; cbn; try done.
  - destruct ok_reg0 as [B L A]. split; cbn; [| |done].
    + intros id' e H. apply lookup_insert_Some in H as [[<- <-]|[Hd H]].
      * exists en. rewrite lookup_insert, decide_True by done. split; [done|].
        split_and!; try done. cbn. by rewrite lookup_insert, decide_True.
      * destruct (B _ _ H) as (en' & He & O). exists en'. rewrite lookup_insert_ne by (by eapply Hne).
        split; [done|]. destruct O as (? & ? & ? & ? & ? & OB). split_and!; try done. cbn.
        rewrite lookup_insert_ne; [done|]. intros E. rewrite <-E in OB. unfold key in *. cbn in *. congruence.
    + intros k' id' H. apply lookup_insert_Some in H as [[<- <-]|[Hk H]].
      * exists ln, en. rewrite !lookup_insert, !decide_True by done. done.
      * destruct (L _ _ H) as (e & en' & B' & He & K). exists e, en'.
        rewrite (lookup_insert_ne (entries _)) by (by eapply Hne). split_and!; [|done..].
        rewrite lookup_insert_ne; [done|]. intros <-. congruence.
  - intros t' pc p l a H1 H2. apply lookup_delete_Some in H1 as [Hd H1].
    destruct (ok_pending0 _ _ _ _ _ H1 H2) as (? & ? & ?). split_and!; [done..|].
    rewrite lookup_insert_ne; [done|]. intros <-. apply Hd. by eapply (ok_owner0 t t').
  - intros t' p H. apply lookup_delete_Some in H as [_ H]. by eapply (ok_params0 t').
  - intros t1 t2 pc pc' p p' l a a' H1 H2. apply lookup_delete_Some in H1 as [_ H1], H2 as [_ H2].
    by eapply (ok_owner0 t1 t2).
  - intros l a H. destruct (ok_listening0 _ _ H) as [[id' Hi]|(t' & pc & p & H1 & H2)].
    + left. exists id'. rewrite lookup_insert_ne; [done|]. intros <-. congruence.
    + destruct (decide (t' = t)) as [->|Hd].
      * left. exists id. rewrite lookup_insert, decide_True by done.
        assert (pc = CNamed params ln addr id) as -> by congruence. by injection H2 as _ -> _.
      * right. exists t', pc, p. by rewrite lookup_delete_ne.
  - intros id' e H. apply lookup_insert_Some in H as [[<- <-]|[_ H]]; [done|by eapply ok_ids0].
  - intros t' pc id' H1 H2. apply lookup_delete_Some in H1 as [Hd H1].
    destruct (ok_pending_ids0 _ _ _ H1 H2) as [? ?]. split; [done|].
    rewrite lookup_insert_ne; [done|]. intros <-. apply Hd. by eapply (ok_unique_ids0 t t').
  - intros t1 t2 pc pc' id' H1 H2. apply lookup_delete_Some in H1 as [_ H1], H2 as [_ H2].
    by eapply (ok_unique_ids0 t1 t2).
  - intros e He. destruct (ok_fresh0 e He) as [? ?]. split; [|done].
    rewrite lookup_insert_ne; [done|]. intros <-. congruence.
Qed.

Lemma set_reg_same w : set_reg (reg w) w = w.
Proof. by destruct w. Qed.

Lemma remove_ok w params : world_ok w →
  ∃ r' res, remove params (reg w) = Some (r', res) ∧ world_ok (set_reg r' w) ∧ nextID r' = nextID (reg w).
Proof.
  intros Hw. assert (world_ok (set_reg (reg w) w)) as Hw' by (by rewrite set_reg_same).
  unfold remove. destruct (fr_Local params) as [local|].
  - destruct (negb _); [by eexists _, _|]. destruct (validateForwardLocal local); [by eexists _, _|].
    destruct (byID (reg w) !! _) as [e|] eqn:E; [|by eexists _, _].
    destruct (removeLocked_world_ok w _ e Hw E) as (r' & -> & ? & ? & _). by eexists _, _.
  - destruct (_ =? "")%string; [by eexists _, _|].
    destruct (byID (reg w) !! _) as [e|] eqn:E; [|by eexists _, _].
    destruct (removeLocked_world_ok w _ e Hw E) as (r' & -> & ? & ? & _). by eexists _, _.
Qed.

(** Removing the entries of a list of registered, distinct IDs. *)
Lemma remove_each_ok (l : list (string * nat)) w :
  world_ok w → NoDup (l.*1) → (∀ id e, (id, e) ∈ l → byID (reg w) !! id = Some e) →
  ∃ r', remove_each (l.*2) (reg w) = Some r' ∧ world_ok (set_reg r' w) ∧ nextID r' = nextID (reg w) ∧
    (∀ id, byID r' !! id = if decide (id ∈ l.*1) then None else byID (reg w) !! id).
Proof.
  revert w. induction l as [|[id e] l IH]; intros w Hw Hn Hl.
  - exists (reg w). split_and!; [done|by rewrite set_reg_same|done|]. intros id. rewrite decide_False; [done|].
    apply not_elem_of_nil.
  - rewrite fmap_cons in Hn. apply NoDup_cons in Hn as [Hni Hn]. cbn [fst] in Hni.
    destruct (removeLocked_world_ok w id e Hw) as (r1 & E1 & Hw1 & N1 & B1); [apply Hl, list_elem_of_here|].
    rewrite fmap_cons. cbn [snd remove_each]. rewrite E1. cbn [mbind option_bind].
    destruct (IH (set_reg r1 w) Hw1 Hn) as (r2 & E2 & Hw2 & N2 & B2).
    { intros id' e' Hin. cbn. rewrite B1, lookup_delete_ne; [apply Hl; by apply list_elem_of_further|].
      intros <-. apply Hni. apply list_elem_of_fmap. by exists (id, e'). }
    cbn [reg set_reg] in *. exists r2. split_and!; [done..|congruence|].
    intros id'. rewrite B2, B1. cbn [fmap list_fmap fst].
    destruct (decide (id' = id)) as [->|Hd].
    + rewrite (decide_True _ _ (list_elem_of_here _ _)). destruct (decide _); [done|].
      by rewrite lookup_delete, decide_True.
    + rewrite lookup_delete_ne by done.
      destruct (decide (id' ∈ l.*1)) as [Hin|Hin].
      * rewrite decide_True; [done|]. by apply list_elem_of_further.
      * rewrite decide_False; [done|]. intros H. by apply elem_of_cons in H as [?|?].
Qed.

Lemma removeAll_ok w : world_ok w →
  ∃ r', removeAll (reg w) = Some (r', size (byID (reg w))) ∧ world_ok (set_reg r' w) ∧
    nextID r' = nextID (reg w) ∧ byID r' = ∅.
Proof.
  intros Hw. unfold removeAll.
  destruct (remove_each_ok (map_to_list (byID (reg w))) w Hw (NoDup_fst_map_to_list _)) as (r' & E & Hok & N & B).
  { intros id e H. by apply elem_of_map_to_list. }
  rewrite E. exists r'. split_and!; [done..|]. apply map_eq. intros id. rewrite B, lookup_empty.
  destruct (decide _) as [|Hn]; [done|]. apply eq_None_not_Some. intros [e He]. apply Hn.
  apply list_elem_of_fmap. exists (id, e). split; [done|]. by apply elem_of_map_to_list.
Qed.

Lemma fstep_ok w w' :
  world_ok w → 0 ≤ nextID (reg w) → nextID (reg w) + 1 < 2 ^ 64 → fstep w w' →
  world_ok w' ∧ 0 ≤ nextID (reg w') ≤ nextID (reg w) + 1.
Proof.
  intros Hw H0 Hn Hs.
  assert (∀ r' acc fr, neutral (reg w) r' → (fresh_ref w ≤ fr)%nat →
    world_ok (mkWorld r' (creating w) acc fr) ∧ 0 ≤ nextID r' ≤ nextID (reg w) + 1) as Hneutral.
  { intros r' acc fr N Hf. split; [by eapply neutral_world_ok|]. rewrite (nt_nextID _ _ N). lia. }
  destruct Hs as [w t params r' Ht E|w params r' e E|w t params addr Ht Ha|w t params Ht|w t params ln addr Ht
    |w t params ln addr id now r' res Ht E|w params r' res E|w r' k E|w e en addr He Hl|w c e Hc|w c|w c|w e msg|w e|w c|w c e].
  - destruct (create_check_ok w params Hw) as (r1 & e & E1 & Hok & HN & Hnet).
    assert (r1 = r' ∧ e = None) as [-> ->] by (split; congruence). split; [|cbn; lia].
    apply (add_CListen (set_reg r' w)); auto.
  - destruct (create_check_ok w params Hw) as (r1 & e1 & E1 & Hok & HN & _).
    assert (r1 = r') as -> by congruence. split; [done|cbn; lia].
  - split; [by apply listen_world_ok|cbn; lia].
  - split; [|cbn; lia]. apply drop_creation; [done|]. intros pc p ln a H. by assert (pc = CListen params) as -> by congruence.
  - split; [by apply name_world_ok|]. cbn. rewrite Z.mod_small by lia. lia.
  - destruct (commit_world_ok w t params ln addr id now Hw Ht) as (r1 & E1 & Hok & HN).
    assert (r1 = r') as -> by congruence. split; [done|cbn; lia].
  - destruct (remove_ok w params Hw) as (r1 & res1 & E1 & Hok & HN).
    assert (r1 = r') as -> by congruence. split; [done|cbn; lia].
  - destruct (removeAll_ok w Hw) as (r1 & E1 & Hok & HN & _).
    assert (r1 = r') as -> by congruence. split; [done|cbn; lia].
  - apply Hneutral; [apply neutral_conns|lia].
  - apply Hneutral; [apply neutral_alter; intros; apply kept_active|lia].
  - apply Hneutral; [apply neutral_conns|lia].
  - apply Hneutral; [apply neutral_conns|lia].
  - apply Hneutral; [apply neutral_alter; intros; by apply kept_status|lia].
  - apply Hneutral; [apply neutral_alter; intros; by apply kept_status|lia].
  - apply Hneutral; [apply neutral_close|lia].
  - apply Hneutral; [apply neutral_alter; intros; apply kept_active|lia].
Qed.

Lemma start_ok : world_ok start.
Proof.
  by split; cbn.
Qed.

Lemma reachable_ok n w : nsteps fstep n start w → Z.of_nat n < 2 ^ 64 →
  world_ok w ∧ 0 ≤ nextID (reg w) ≤ Z.of_nat n.
Proof.
  revert w. induction n as [|n IH]; intros w Hs Hn.
  - inversion Hs; subst. split; [apply start_ok|cbn; lia].
  - apply nsteps_inv_r in Hs as (w1 & H1 & H2). destruct (IH w1 H1) as [Hok HN]; [lia|].
    destruct (fstep_ok w1 w Hok) as [Hok' HN']; [lia..|done|]. split; [done|lia].
Qed.

Lemma world_ok_no_panic w : world_ok w → ¬ panics w.
Proof.
  intros Hw [[params H]|[(t & params & ln & addr & id & now & Ht & H)|[[params H]|H]]].
  - destruct (create_check_ok w params Hw) as (? & ? & E & _). congruence.
  - destruct (commit_world_ok w t params ln addr id now Hw Ht) as (? & E & _). congruence.
  - destruct (remove_ok w params Hw) as (? & ? & E & _). congruence.
  - destruct (removeAll_ok w Hw) as (? & E & _). congruence.
Qed.

(** C8: however the calls and the goroutines of the forward registry
    interleave (fewer than 2^64 steps, so that no ID comes up twice), no one
    dereferences nil; every registered forward is listening on the address it
    names, is not stopped, counts its active connections and is found under
    its local endpoint; every entry of the address map is a registered forward;
    every open listener belongs to one registered forward or to a creation
    under way; and a creation that got its listener always ends in the
    registration of the forward it built, so the second conflict check of
    [create] is never taken. *)
Theorem forward_registry_invariant (n : nat) (w : world) :
  nsteps fstep n start w → Z.of_nat n < 2 ^ 64 →
  ¬ panics w ∧
  (∀ id e, byID (reg w) !! id = Some e → ∃ en, entries (reg w) !! e = Some en ∧ entry_ok (reg w) id e en) ∧
  (∀ k id, byLocal (reg w) !! k = Some id →
     ∃ e en, byID (reg w) !! id = Some e ∧ entries (reg w) !! e = Some en ∧ key (fw_Local (fe_forward en)) = k) ∧
  (∀ ln addr, listening (reg w) !! ln = Some addr →
     (∃ id, byID (reg w) !! id = Some ln) ∨
     (∃ t pc params, creating w !! t = Some pc ∧ pc_listener pc = Some (params, ln, addr))) ∧
  (∀ t params ln addr id now, creating w !! t = Some (CNamed params ln addr id) →
     ∃ r', create_commit params ln addr id now (reg w) = Some (r', Good (new_forward params addr id now))).
Proof.
  intros Hs Hn. destruct (reachable_ok n w Hs Hn) as [Hw _]. split_and!.
  - by apply world_ok_no_panic.
  - apply (ok_byID _ (ok_reg w Hw)).
  - apply (ok_byLocal _ (ok_reg w Hw)).
  - apply (ok_listening w Hw).
  - intros t params ln addr id now Ht.
    destruct (commit_world_ok w t params ln addr id now Hw Ht) as (r' & E & _). eauto.
Qed.

(** A run: a forward is created and a connection is accepted. *)
Definition sample_params : ForwardCreateParams :=
  mkForwardCreate (mkLocal "tcp" "127.0.0.1:0") "tcp:80" (mkTarget "tcp" "10.0.0.2:5555") false.
Definition sample_forward : Forward := new_forward sample_params "127.0.0.1:9000" "fwd_1" "now".
Definition sample_created : world :=
  mkWorld (mkRegistry 1 {["fwd_1" := 0%nat]} {["tcp:127.0.0.1:9000" := "fwd_1"]}
             {[0%nat := mkEntry sample_forward ∅]} ∅ {[0%nat := "127.0.0.1:9000"]} ∅) ∅ ∅ 1.

Lemma sample_run : nsteps fstep 4 start sample_created.
Proof.
  eapply nsteps_l; [apply (s_create start 0 sample_params newForwardRegistry); by vm_compute|].
  eapply nsteps_l; [apply (s_listen _ 0 sample_params "127.0.0.1:9000"); [by vm_compute|done]|].
  eapply nsteps_l; [eapply (s_name _ 0); by vm_compute|].
  eapply nsteps_l; [eapply (s_commit _ 0 _ _ _ _ "now"); by vm_compute|].
  apply nsteps_O.
Qed.

Lemma forward_registry_invariant_witness :
  nsteps fstep 4 start sample_created ∧ ¬ panics sample_created.
Proof.
  split; [apply sample_run|]. apply (forward_registry_invariant 4 sample_created); [apply sample_run|lia].
Defined.

(** ** Removal and diagnostics *)

Lemma count_states fs : Forall (λ f, fw_State f ≠ Stopped) fs →
  (count_state Listening fs + count_state Degraded fs = length fs)%nat.
Proof.
  unfold count_state. induction 1 as [|f fs Hf _ IH]; [done|]. cbn [List.filter].
  destruct (fw_State f) eqn:E; [| |done].
  - rewrite (bool_decide_true (Listening = Listening)), (bool_decide_false (Listening = Degraded)) by done.
    cbn [length]. lia.
  - rewrite (bool_decide_false (Degraded = Listening)), (bool_decide_true (Degraded = Degraded)) by done.
    cbn [length]. lia.
Qed.

Lemma forwards_of_ok r : registry_ok r →
  length (forwards_of r) = size (byID r) ∧ Forall (λ f, fw_State f ≠ Stopped) (forwards_of r).
Proof.
  intros Hr. unfold forwards_of.
  assert (Forall (λ p, ∃ en, entries r !! p.2 = Some en ∧ entry_ok r p.1 p.2 en) (map_to_list (byID r))) as HF.
  { apply Forall_forall. intros [id e] H. apply elem_of_map_to_list in H. by apply (ok_byID r Hr). }
  rewrite <-length_map_to_list. induction HF as [|p l (en & He & O) _ [IL IF]]; [by split|].
  cbn [omap list_omap]. rewrite He. cbn [fmap option_fmap option_map length]. split; [by f_equal|].
  constructor; [apply O|done].
Qed.

(** The state after forward [id] was removed. *)
Definition removed_from (r : forwardRegistry) (id : string) (r' : forwardRegistry) : Prop :=
  ∃ e en, byID r !! id = Some e ∧ entries r !! e = Some en ∧
    byID r' = delete id (byID r) ∧ listening r' = delete e (listening r) ∧
    (∀ k, byLocal r' !! k ≠ Some id) ∧
    (∀ c fc, c ∈ fe_active en → conns r !! c = Some fc → conn_resources fc ⊆ closed r').

Lemma removed_from_ok r id e : registry_ok r → byID r !! id = Some e →
  ∃ r', removeLocked (Some e) r = Some r' ∧ removed_from r id r'.
Proof.
  intros Hr Hid. destruct (removeLocked_registered r id e Hr Hid) as (en & cl & He & E & _ & Hc & Hok).
  exists (removed id e en cl r). split; [done|]. exists e, en. split_and!; try done.
  intros k H. destruct (ok_byLocal _ Hok _ _ H) as (e' & en' & Hid' & _). cbn in Hid'.
  by rewrite lookup_delete, decide_True in Hid'.
Qed.

(** In every reachable state, removing a registered forward by its ID or by
    the local endpoint it listens on answers 1, closes its listener and all
    that its active connections hold, and leaves the other forwards; a selector
    that matches nothing is answered with [forward_not_found] and changes
    nothing; removing all of them answers their number and leaves open only the
    listeners of creations under way; and the diagnostics count each listed
    forward once, as listening or as degraded. *)
Theorem forward_removal (n : nat) (w : world) :
  nsteps fstep n start w → Z.of_nat n < 2 ^ 64 →
  (∀ id, id ≠ "" →
    if byID (reg w) !! id is Some _
    then ∃ r', remove (mkForwardRemove id None) (reg w) = Some (r', Good 1%nat) ∧ removed_from (reg w) id r'
    else remove (mkForwardRemove id None) (reg w) =
           Some (reg w, Bad (mkError ErrorForwardNotFound (Sprintf "forward not found" [])))) ∧
  (∀ local, validateForwardLocal local = None →
    if byLocal (reg w) !! key local is Some id
    then ∃ r', remove (mkForwardRemove "" (Some local)) (reg w) = Some (r', Good 1%nat) ∧ removed_from (reg w) id r'
    else remove (mkForwardRemove "" (Some local)) (reg w) =
           Some (reg w, Bad (mkError ErrorForwardNotFound (Sprintf "forward not found" [])))) ∧
  (∃ r', removeAll (reg w) = Some (r', size (byID (reg w))) ∧ byID r' = ∅ ∧ byLocal r' = ∅ ∧
    ∀ ln addr, listening r' !! ln = Some addr →
      ∃ t pc params, creating w !! t = Some pc ∧ pc_listener pc = Some (params, ln, addr)) ∧
  (let d := diagnostics (reg w) in
   Total d = length (forwards_of (reg w)) ∧ Total d = (dg_Listening d + dg_Degraded d)%nat).
Proof.
  intros Hs Hn. destruct (reachable_ok n w Hs Hn) as [Hw HN]. pose proof (ok_reg w Hw) as Hr. split_and!.
  - intros id Hid. unfold remove. cbn [fr_Local fr_ID]. rewrite (proj2 (String.eqb_neq _ _) Hid).
    destruct (byID (reg w) !! id) as [e|] eqn:E; [|done].
    destruct (removed_from_ok _ _ _ Hr E) as (r' & -> & H). by exists r'.
  - intros local Hv. unfold remove. cbn [fr_Local fr_ID]. change (negb ("" =? "")%string) with false. cbn iota.
    rewrite Hv. destruct (byLocal (reg w) !! key local) as [id|] eqn:B.
    + destruct (ok_byLocal _ Hr _ _ B) as (e & en & E & _).
      change (default "" (Some id)) with id. rewrite E.
      destruct (removed_from_ok _ _ _ Hr E) as (r' & -> & H). by exists r'.
    + change (default "" None) with "". destruct (byID (reg w) !! "") as [e|] eqn:E; [|done].
      destruct (ok_ids w Hw _ _ E) as (k & _ & Hk). by unfold forward_id in Hk.
  - destruct (removeAll_ok w Hw) as (r' & E & Hw' & _ & HB). exists r'. split_and!; [done..| |].
    + apply map_eq. intros k. rewrite lookup_empty. apply eq_None_not_Some. intros [id B].
      destruct (ok_byLocal _ (ok_reg _ Hw') _ _ B) as (e & en & Hid & _). cbn in Hid. by rewrite HB, lookup_empty in Hid.
    + intros ln addr H. destruct (ok_listening _ Hw' _ _ H) as [[id Hid]|?]; [|done].
      cbn in Hid. by rewrite HB, lookup_empty in Hid.
  - destruct (forwards_of_ok _ Hr) as [HL HF]. cbn. by rewrite count_states.
Qed.

Lemma forward_removal_witness :
  ∃ r', remove (mkForwardRemove "fwd_1" None) (reg sample_created) = Some (r', Good 1%nat) ∧ listening r' = ∅.
Proof.
  assert (Z.of_nat 4 < 2 ^ 64) as H4 by lia. assert ("fwd_1" ≠ "") as Hne by done.
  destruct (proj1 (forward_removal 4 sample_created sample_run H4) "fwd_1" Hne) as (r' & E & e & en & He & _ & _ & Hl & _).
  exists r'. split; [exact E|]. rewrite Hl. assert (e = 0%nat) as -> by (vm_compute in He; congruence).
  reflexivity.
Defined.

(** A connection that was accepted before its forward is removed, and added
    behind the removal, is closed by no one: nothing of it is in [closed]. *)
Example late_connection_stays_open :
  ∃ n w e c fc en, nsteps fstep n start w ∧ entries (reg w) !! e = Some en ∧ byID (reg w) = ∅ ∧
    c ∈ fe_active en ∧ conns (reg w) !! c = Some fc ∧ fc_host fc ∉ closed (reg w).
Proof.
  eexists _, _, 0%nat, 1%nat, _, _. split.
  { eapply nsteps_trans; [apply sample_run|].
    eapply nsteps_l; [eapply (s_accept sample_created 0); by vm_compute|].
    eapply nsteps_l; [eapply (s_removeAll _ _ 1); by vm_compute|].
    eapply nsteps_l; [eapply (s_add _ 1 0); by vm_compute|]. apply nsteps_O. }
  split; [by vm_compute|]. split; [by vm_compute|]. split; [by vm_compute|].
  split; [by vm_compute|]. by vm_compute.
Qed.
