(* ===== verification/Sessions.v ===== *)
(** * client/forward.go and client/reverse.go: forwarding sessions

    The state of a [Forward] and of a [Reverse] with the goroutines that share
    it: the accept loop, one goroutine per bridge, and calls of [Close].  Each
    critical section is a function; a step relation interleaves them in any
    way, with any outcome of the listener, the device and the copies.  The
    connections and streams a session closes are references (numbers). *)

From S2P Require Import Prelude Errors GoStrings Strconv GoIO Handshake Sync Address Services.

#[local] Open Scope string_scope.
#[local] Open Scope Z_scope.
#[local] Open Scope list_scope.

(** ** What sessions share

    A session has running bridges, each holding connections and streams; some
    of these are registered as active, some are closed ([shut]), and [seen] are
    all that were ever handed out. *)
Class Bridges (St B : Type) := {
  br_active : St → gset nat;
  br_shut : St → gset nat;
  br_seen : St → gset nat;
  br_map : St → gmap nat B;
  br_holds : B → gset nat;
  br_ok : St → B → Prop;                  (* what a bridge knows of the things it holds *)
}.

(** What closes and what is registered only grows, removals of closed things apart. *)
Definition grows `{Bridges St B} (f f' : St) : Prop :=
  br_active f ∪ br_shut f ⊆ br_active f' ∪ br_shut f' ∧ br_shut f ⊆ br_shut f' ∧ br_seen f ⊆ br_seen f'.

(** Knowledge about closed and registered things stays true. *)
Class BridgesStable (St B : Type) `{Bridges St B} :=
  br_ok_grows : ∀ (f f' : St) x, grows f f' → br_ok f x → br_ok f' x.

(** Every bridge is fine, and all that was seen is closed or held by a bridge. *)
Definition held_ok `{Bridges St B} (f : St) : Prop :=
  (∀ b x, br_map f !! b = Some x → br_ok f x ∧ br_holds x ⊆ br_seen f) ∧
  (∀ c, c ∈ br_seen f → c ∈ br_shut f ∨ ∃ b x, br_map f !! b = Some x ∧ c ∈ br_holds x).

Section bridges.
Context `{BridgesStable St B}.
Implicit Types (f : St) (x : B).

Lemma held_change f f' :
  held_ok f → grows f f' →
  (∀ b x, br_map f' !! b = Some x → br_map f !! b = Some x ∨ (br_ok f' x ∧ br_holds x ⊆ br_seen f')) →
  (∀ c, c ∈ br_seen f' → c ∈ br_seen f ∨ c ∈ br_shut f' ∨ ∃ b x, br_map f' !! b = Some x ∧ c ∈ br_holds x) →
  (∀ b x, br_map f !! b = Some x →
     br_holds x ⊆ br_shut f' ∨ (∃ b' x', br_map f' !! b' = Some x' ∧ br_holds x ⊆ br_holds x')) →
  held_ok f'.
Proof.
  intros [Hb Hs] G Hnew Hseen Hold. split.
  - intros b x Hx. destruct (Hnew b x Hx) as [Hx'|?]; [|done]. destruct (Hb b x Hx') as [H1 H2].
    split; [by eapply br_ok_grows|]. destruct G as (_ & _ & G). set_solver.
  - intros c Hc. destruct (Hseen c Hc) as [Hc'|?]; [|done]. destruct G as (_ & G & _).
    destruct (Hs c Hc') as [?|(b & x & H1 & H2)]; [set_solver|].
    destruct (Hold b x H1) as [?|(b' & x' & ? & ?)]; [set_solver|]. right. exists b', x'. set_solver.
Qed.

Lemma held_same f f' :
  held_ok f → grows f f' → br_map f' = br_map f → br_seen f' = br_seen f → held_ok f'.
Proof.
  intros Hf G E Es. apply (held_change f f' Hf G); rewrite E, ?Es; [auto|auto|eauto].
Qed.

(** Bridge [b] moves on to [x']. *)
Lemma held_move f f' b x x' :
  held_ok f → grows f f' → br_map f !! b = Some x → br_map f' = <[b := x']> (br_map f) →
  br_ok f' x' → br_holds x ⊆ br_holds x' → br_holds x' ⊆ br_seen f' →
  br_seen f' ⊆ br_seen f ∪ br_holds x' → held_ok f'.
Proof.
  intros Hf G Hb E Hx Hh Hs Hn. apply (held_change f f' Hf G); rewrite E.
  - intros b0 y Hy. apply lookup_insert_Some in Hy as [[_ <-]|[_ Hy]]; auto.
  - intros c Hc. destruct (decide (c ∈ br_seen f)) as [?|?]; [by left|]. right. right.
    exists b, x'. rewrite lookup_insert, decide_True by done. set_solver.
  - intros b0 y Hy. right. destruct (decide (b = b0)) as [<-|Hne].
    + exists b, x'. rewrite lookup_insert, decide_True by done. split; [done|]. by assert (y = x) as -> by congruence.
    + exists b0, y. by rewrite lookup_insert_ne.
Qed.

(** Bridge [b] is new. *)
Lemma held_new f f' b x' :
  held_ok f → grows f f' → br_map f !! b = None → br_map f' = <[b := x']> (br_map f) →
  br_ok f' x' → br_holds x' ⊆ br_seen f' → br_seen f' ⊆ br_seen f ∪ br_holds x' → held_ok f'.
Proof.
  intros Hf G Hb E Hx Hs Hn. apply (held_change f f' Hf G); rewrite E.
  - intros b0 y Hy. apply lookup_insert_Some in Hy as [[_ <-]|[_ Hy]]; auto.
  - intros c Hc. destruct (decide (c ∈ br_seen f)) as [?|?]; [by left|]. right. right.
    exists b, x'. rewrite lookup_insert, decide_True by done. set_solver.
  - intros b0 y Hy. right. exists b0, y. rewrite lookup_insert_ne by congruence. done.
Qed.

(** Bridge [b] ends; what it held is closed. *)
Lemma held_gone f f' b x :
  held_ok f → grows f f' → br_map f !! b = Some x → br_map f' = delete b (br_map f) →
  br_holds x ⊆ br_shut f' → br_seen f' = br_seen f → held_ok f'.
Proof.
  intros Hf G Hb E Hx Hs. apply (held_change f f' Hf G); rewrite E, ?Hs.
  - intros b0 y Hy. apply lookup_delete_Some in Hy as [_ Hy]. auto.
  - auto.
  - intros b0 y Hy. destruct (decide (b = b0)) as [<-|Hne]; [left; by assert (y = x) as -> by congruence|].
    right. exists b0, y. by rewrite lookup_delete_ne.
Qed.

(** Where no bridge is left, everything is closed. *)
Lemma held_empty f : held_ok f → br_map f = ∅ → br_seen f ⊆ br_shut f.
Proof.
  intros [_ Hs] E c Hc. destruct (Hs c Hc) as [?|(b & x & Hb & _)]; [done|]. by rewrite E, lookup_empty in Hb.
Qed.
End bridges.

(** ** Forward *)

Module Forward.

(** A bridge ([handleConn]): the connection, and the stream once it is open;
    [HCopying] counts the copies that run; the deferred calls come last. *)
Inductive bridge :=
  | HOpening (conn : nat)
  | HAdding (conn stream : nat)
  | HAdded (conn stream : nat)
  | HCopying (conn stream : nat) (copies : nat)
  | HRemoving (conn stream : nat)
  | HRemoved (conn stream : nat).

Definition holds (b : bridge) : gset nat :=
  match b with
  | HOpening conn => {[conn]}
  | HAdding conn stream | HAdded conn stream | HCopying conn stream _
  | HRemoving conn stream | HRemoved conn stream => {[conn; stream]}
  end.

(** The call of [Close] that set the flag: before closing the listener, and
    while closing what it collected. *)
Inductive closing := CListener (rest : gset nat) | CEach (rest : gset nat).

Inductive accept_pc := Accepting | Waiting (err : option error) | Finished.

Record Forward := mkForward {
  ln_open : bool;
  canceled : bool;
  closed : bool;
  active : gset nat;
  bridges : gmap nat bridge;              (* bridgeWG counts these *)
  accepting : accept_pc;
  done : option (option error);           (* what acceptLoop sent *)
  close_pc : option closing;
  shut : gset nat;                        (* connections and streams that were closed *)
  seen : gset nat;                        (* all that were accepted or opened *)
}.

(** [ForwardLocalTCP]: [ctx_err] is the context's error on entry, [listen] the
    outcome of [Listen]. *)
Definition ForwardLocalTCP (connected : bool) (ctx_err listen : option error) (localAddr : string)
    (remote : ForwardTarget) : res Forward :=
  if negb connected then Err (Sentinel protocol_ErrDeviceClosed) else
  match ctx_err with
  | Some err => Err err
  | None =>
      if (ft_service remote =? "")%string then Err (Errorf "adb forward remote target is empty" []) else
      match listen with
      | Some err => Err (ErrorfW "adb forward listen %q: %w" [AStr localAddr] err)
      | None => Ok (mkForward true false false ∅ ∅ Accepting None None ∅ ∅)
      end
  end.

Definition set_bridges (g : gmap nat bridge → gmap nat bridge) (f : Forward) : Forward :=
  mkForward (ln_open f) (canceled f) (closed f) (active f) (g (bridges f)) (accepting f) (done f)
    (close_pc f) (shut f) (seen f).
Definition shutting (x : gset nat) (f : Forward) : Forward :=
  mkForward (ln_open f) (canceled f) (closed f) (active f) (bridges f) (accepting f) (done f)
    (close_pc f) (x ∪ shut f) (seen f).
Definition seeing (x : gset nat) (f : Forward) : Forward :=
  mkForward (ln_open f) (canceled f) (closed f) (active f) (bridges f) (accepting f) (done f)
    (close_pc f) (shut f) (x ∪ seen f).

Definition addActive (closer : nat) (f : Forward) : Forward :=
  if closed f then shutting {[closer]} f
  else mkForward (ln_open f) (canceled f) (closed f) ({[closer]} ∪ active f) (bridges f) (accepting f) (done f)
         (close_pc f) (shut f) (seen f).
Definition removeActive (closer : nat) (f : Forward) : Forward :=
  mkForward (ln_open f) (canceled f) (closed f) (active f ∖ {[closer]}) (bridges f) (accepting f) (done f)
    (close_pc f) (shut f) (seen f).

(** [f.cancel()], also the end of the caller's context. *)
Definition cancel (f : Forward) : Forward :=
  mkForward (ln_open f) true (closed f) (active f) (bridges f) (accepting f) (done f) (close_pc f) (shut f) (seen f).

(** The critical section of [Close]; a second call returns there. *)
Definition Close_begin (f : Forward) : Forward :=
  if closed f then f
  else mkForward (ln_open f) (canceled f) true (active f) (bridges f) (accepting f) (done f)
         (Some (CListener (active f))) (shut f) (seen f).
Definition Close_listener (rest : gset nat) (f : Forward) : Forward :=
  mkForward false (canceled f) (closed f) (active f) (bridges f) (accepting f) (done f)
    (Some (CEach rest)) (shut f) (seen f).
Definition Close_next (pc : option closing) (f : Forward) : Forward :=
  mkForward (ln_open f) (canceled f) (closed f) (active f) (bridges f) (accepting f) (done f) pc (shut f) (seen f).

(** [acceptLoop] behind a failed [Accept]. *)
Definition accept_result (f : Forward) (acceptErr : error) : option error :=
  if canceled f || closed f || errors_Is acceptErr net_ErrClosed then None
  else Some (ErrorfW "adb forward accept: %w" [] acceptErr).
Definition set_accepting (pc : accept_pc) (d : option (option error)) (f : Forward) : Forward :=
  mkForward (ln_open f) (canceled f) (closed f) (active f) (bridges f) pc d (close_pc f) (shut f) (seen f).

Inductive step : Forward → Forward → Prop :=
  | s_cancel f : step f (cancel f)
  | s_close f : canceled f = true → step f (Close_begin f)
  | s_close_listener f rest : close_pc f = Some (CListener rest) → step f (Close_listener rest f)
  | s_close_each f rest c : close_pc f = Some (CEach rest) → c ∈ rest →
      step f (Close_next (Some (CEach (rest ∖ {[c]}))) (shutting {[c]} f))
  | s_close_end f : close_pc f = Some (CEach ∅) → step f (Close_next None f)
  | s_accept f b conn : accepting f = Accepting → ln_open f = true → bridges f !! b = None → conn ∉ seen f →
      step f (seeing {[conn]} (set_bridges <[b := HOpening conn]> f))
  | s_accept_fails f err : accepting f = Accepting → step f (set_accepting (Waiting (accept_result f err)) (done f) f)
  | s_wait f err : accepting f = Waiting err → bridges f = ∅ → step f (set_accepting Finished (Some err) f)
  | s_open_fails f b conn : bridges f !! b = Some (HOpening conn) →
      step f (set_bridges (delete b) (shutting {[conn]} f))
  | s_open f b conn stream : bridges f !! b = Some (HOpening conn) → stream ∉ seen f →
      step f (seeing {[stream]} (set_bridges <[b := HAdding conn stream]> f))
  | s_add_conn f b conn stream : bridges f !! b = Some (HAdding conn stream) →
      step f (set_bridges <[b := HAdded conn stream]> (addActive conn f))
  | s_add_stream f b conn stream : bridges f !! b = Some (HAdded conn stream) →
      step f (set_bridges <[b := HCopying conn stream 2]> (addActive stream f))
  | s_first_copy f b conn stream : bridges f !! b = Some (HCopying conn stream 2) →
      step f (set_bridges <[b := HCopying conn stream 1]> (shutting {[conn; stream]} f))
  | s_second_copy f b conn stream : bridges f !! b = Some (HCopying conn stream 1) →
      step f (set_bridges <[b := HRemoving conn stream]> f)
  | s_remove_stream f b conn stream : bridges f !! b = Some (HRemoving conn stream) →
      step f (set_bridges <[b := HRemoved conn stream]> (removeActive stream f))
  | s_remove_conn f b conn stream : bridges f !! b = Some (HRemoved conn stream) →
      step f (set_bridges (delete b) (removeActive conn f)).

(** *** The invariant *)

(** What a bridge knows of the things it holds. *)
Definition bridge_ok (f : Forward) (b : bridge) : Prop :=
  match b with
  | HOpening _ | HAdding _ _ => True
  | HAdded conn _ => conn ∈ active f ∪ shut f
  | HCopying conn stream k =>
      conn ∈ active f ∪ shut f ∧ stream ∈ active f ∪ shut f ∧
      (k = 2%nat ∨ (k = 1%nat ∧ conn ∈ shut f ∧ stream ∈ shut f))
  | HRemoving conn stream | HRemoved conn stream => conn ∈ shut f ∧ stream ∈ shut f
  end.

#[global] Instance forward_bridges : Bridges Forward bridge := {
  br_active := active; br_shut := shut; br_seen := seen; br_map := bridges; br_holds := holds; br_ok := bridge_ok;
}.

#[global] Instance forward_bridges_stable : BridgesStable Forward bridge.
Proof. intros f f' x (G1 & G2 & _). cbn in *. destruct x; cbn; [done|done|set_solver..]. Qed.

Record ok (f : Forward) : Prop := {
  ok_held : held_ok f;
  ok_closing : match close_pc f with
    | None => closed f = true → ln_open f = false ∧ active f ⊆ shut f
    | Some (CListener rest) => closed f = true ∧ active f ⊆ rest ∪ shut f
    | Some (CEach rest) => closed f = true ∧ ln_open f = false ∧ active f ⊆ rest ∪ shut f
    end;
  ok_done : match done f with Some _ => accepting f = Finished ∧ bridges f = ∅ | None => accepting f ≠ Finished end;
}.

(** Only running bridges take steps, and none runs once [done] has its value. *)
Lemma done_ok f f' b x : ok f → bridges f !! b = Some x → accepting f' = accepting f → done f' = done f →
  match done f' with Some _ => accepting f' = Finished ∧ bridges f' = ∅ | None => accepting f' ≠ Finished end.
Proof.
  intros Hok Hx HA HD. assert (bridges f ≠ ∅) as Hb by (intros E; by rewrite E, lookup_empty in Hx). pose proof (ok_done f Hok) as H. rewrite HA, HD.
  destruct (done f); [|done]. by destruct H.
Qed.

(** The goal [grows f f'] for a concrete step; removed things are closed. *)
Ltac grow :=
  unfold grows; cbn; split_and!; [|set_solver..];
  let y := fresh in let Hy := fresh in intros y Hy;
  match goal with f : Forward |- _ => destruct (decide (y ∈ shut f)) end; set_solver.

(** Bridge [b] moves from [x] to [x']. *)
Ltac move_to x x' :=
  match goal with
  | Hok : ok ?f, Hb : bridges ?f !! ?b = Some x |- ok ?f' =>
      split; [apply (held_move f f' b x x'); [apply (ok_held f Hok)|grow|done..|cbn; set_solver|cbn; set_solver|cbn; set_solver|cbn; set_solver]
             |try done|try (by apply (done_ok f _ _ _ Hok Hb))]
  end.
Ltac gone x :=
  match goal with
  | Hok : ok ?f, Hb : bridges ?f !! ?b = Some x |- ok ?f' =>
      split; [apply (held_gone f f' b x); [apply (ok_held f Hok)|grow|done..|cbn; set_solver|done]
             |try done|try (by apply (done_ok f _ _ _ Hok Hb))]
  end.
Ltac same :=
  match goal with
  | Hok : ok ?f |- ok ?f' => split; [apply (held_same f f'); [apply (ok_held f Hok)|grow|done..]|try done|try done]
  end.

(** The closing state covers what is active. *)
Ltac covered HC :=
  cbn; match type of HC with
  | match close_pc ?f with _ => _ end => destruct (close_pc f) as [[]|] in HC |- *;
        [destruct HC as [? HC]; split; [done|set_solver]
        |destruct HC as (? & ? & HC); split_and!; [done..|set_solver]
        |let H := fresh in intros H; first [destruct (HC H) | destruct (HC eq_refl)]; split; [done|set_solver]]
  end.

(** The session is not closed, whatever the closing state says. *)
Ltac not_closed HC :=
  match type of HC with
  | match close_pc ?f with _ => _ end => destruct (close_pc f) as [[]|] in HC |- *;
      [exfalso; destruct HC; congruence..|let H := fresh in intros H; exfalso; cbn in H; congruence]
  end.

Lemma forward_step_ok f f' : ok f → step f f' → ok f'.
Proof.
  intros Hok Hs. pose proof (ok_closing f Hok) as HC. pose proof (ok_done f Hok) as HD.
  assert (∀ b x, bridges f !! b = Some x → bridge_ok f x ∧ holds x ⊆ seen f) as HB by apply (ok_held f Hok).
  destruct Hs as [f|f Hc|f rest Hp|f rest c Hp Hin|f Hp|f b conn Ha Hl Hb Hn|f err Ha|f err Ha Hb|f b conn Hb
    |f b conn stream Hb Hn|f b conn stream Hb|f b conn stream Hb|f b conn stream Hb|f b conn stream Hb
    |f b conn stream Hb|f b conn stream Hb].
  - same.
  - unfold Close_begin. destruct (closed f) eqn:E; [done|]. same. cbn. split; [done|set_solver].
  - rewrite Hp in HC. same. cbn. destruct HC. by split_and!.
  - rewrite Hp in HC. same. cbn. destruct HC as (? & ? & HC). split_and!; [done..|].
    intros x Hx. destruct (decide (x = c)); set_solver.
  - rewrite Hp in HC. same. cbn. intros _. destruct HC as (? & ? & HC). split; [done|set_solver].
  - split; [|done|].
    + apply (held_new f _ b (HOpening conn)); [apply (ok_held f Hok)|grow|done..|cbn; set_solver|cbn; set_solver].
    + cbn. destruct (done f) in HD |- *; [|done]. destruct HD. congruence.
  - same. cbn. destruct (done f) in HD |- *; [destruct HD; congruence|done].
  - same.
  - gone (HOpening conn). covered HC.
  - destruct (HB _ _ Hb) as [_ Hh]. cbn in Hh. move_to (HOpening conn) (HAdding conn stream).
  - destruct (HB _ _ Hb) as [_ Hh]. cbn in Hh. unfold addActive. destruct (closed f) eqn:E.
    + move_to (HAdding conn stream) (HAdded conn stream). covered HC.
    + move_to (HAdding conn stream) (HAdded conn stream). not_closed HC.
  - destruct (HB _ _ Hb) as [Hx Hh]. cbn in Hx, Hh. unfold addActive. destruct (closed f) eqn:E.
    + move_to (HAdded conn stream) (HCopying conn stream 2). covered HC.
    + move_to (HAdded conn stream) (HCopying conn stream 2). not_closed HC.
  - destruct (HB _ _ Hb) as [Hx Hh]. cbn in Hx, Hh.
    move_to (HCopying conn stream 2) (HCopying conn stream 1). covered HC.
  - destruct (HB _ _ Hb) as [(Hx1 & Hx2 & [?|(_ & Hx)]) Hh]; [done|]. cbn in Hh.
    move_to (HCopying conn stream 1) (HRemoving conn stream).
  - destruct (HB _ _ Hb) as [Hx Hh]. cbn in Hx, Hh. move_to (HRemoving conn stream) (HRemoved conn stream). covered HC.
  - destruct (HB _ _ Hb) as [Hx Hh]. cbn in Hx, Hh. gone (HRemoved conn stream). covered HC.
Qed.

Lemma forward_steps_ok f f' : ok f → rtc step f f' → ok f'.
Proof. intros Hok. induction 1; [done|]. eauto using forward_step_ok. Qed.

Lemma forward_start_ok connected ctx_err listen addr remote f :
  ForwardLocalTCP connected ctx_err listen addr remote = Ok f → ok f.
Proof.
  unfold ForwardLocalTCP. destruct connected; [|done]. destruct ctx_err; [done|].
  destruct (ft_service remote =? "")%string; [done|]. destruct listen; [done|]. cbn. intros H. assert (f = mkForward true false false ∅ ∅ Accepting None None ∅ ∅) as -> by congruence.
  by split; [split|..].
Qed.

(** *** Wait returns *)

(** One bridge can always run to its end, and touches no other. *)
Definition runs_out (f : Forward) (b : nat) : Prop :=
  ∃ f', rtc step f f' ∧ bridges f' = delete b (bridges f) ∧ accepting f' = accepting f.

Lemma forward_runs_out_step f f1 b x :
  step f f1 → bridges f1 = <[b := x]> (bridges f) → accepting f1 = accepting f → runs_out f1 b → runs_out f b.
Proof.
  intros Hs E A (f2 & Hr & E2 & A2). exists f2. split_and!; [by eapply rtc_l|by rewrite E2, E, delete_insert_eq|congruence].
Qed.

Lemma forward_bridge_runs_out f b x : ok f → bridges f !! b = Some x → runs_out f b.
Proof.
  intros Hok Hb.
  assert (∀ f conn stream, bridges f !! b = Some (HRemoved conn stream) → runs_out f b) as R1.
  { intros g conn stream H. eexists. split; [eapply rtc_once, (s_remove_conn _ _ _ _ H)|done]. }
  assert (∀ m (y : bridge), <[b := y]> m !! b = Some y) as L
    by (intros; by rewrite lookup_insert, decide_True).
  assert (∀ f conn stream, bridges f !! b = Some (HRemoving conn stream) → runs_out f b) as R2.
  { intros g conn stream H. eapply forward_runs_out_step; [apply (s_remove_stream _ _ _ _ H)|done..|]. eapply R1. apply L. }
  assert (∀ f conn stream, bridges f !! b = Some (HCopying conn stream 1) → runs_out f b) as R3.
  { intros g conn stream H. eapply forward_runs_out_step; [apply (s_second_copy _ _ _ _ H)|done..|]. eapply R2. apply L. }
  assert (∀ f conn stream, bridges f !! b = Some (HCopying conn stream 2) → runs_out f b) as R4.
  { intros g conn stream H. eapply forward_runs_out_step; [apply (s_first_copy _ _ _ _ H)|done..|]. eapply R3. apply L. }
  assert (∀ g c y, bridges (set_bridges <[b := y]> (addActive c g)) = <[b := y]> (bridges g) ∧
    accepting (set_bridges <[b := y]> (addActive c g)) = accepting g) as HA
    by (intros; unfold addActive; by destruct (closed g)).
  assert (∀ f conn stream, bridges f !! b = Some (HAdded conn stream) → runs_out f b) as R5.
  { intros g conn stream H. eapply forward_runs_out_step; [apply (s_add_stream _ _ _ _ H)|apply HA..|]. eapply R4.
    rewrite (proj1 (HA _ _ _)). apply L. }
  destruct x as [conn|conn stream|conn stream|conn stream k|conn stream|conn stream]; [| |by eapply R5| |by eapply R2|by eapply R1].
  - eexists. split; [eapply rtc_once, (s_open_fails _ _ _ Hb)|done].
  - eapply forward_runs_out_step; [apply (s_add_conn _ _ _ _ Hb)|apply HA..|]. eapply R5.
    rewrite (proj1 (HA _ _ _)). apply L.
  - destruct (proj1 (ok_held f Hok) _ _ Hb) as [(_ & _ & [->|(-> & _)]) _]; [by eapply R4|by eapply R3].
Qed.

Lemma all_run_out n f : size (bridges f) = n → ok f →
  ∃ f', rtc step f f' ∧ bridges f' = ∅ ∧ accepting f' = accepting f.
Proof.
  revert f. induction n as [|n IH]; intros f Hn Hok.
  - exists f. split_and!; [done|by apply map_size_empty_inv|done].
  - destruct (map_choose (bridges f)) as (b & x & Hb); [intros E; by rewrite E, map_size_empty in Hn|].
    destruct (forward_bridge_runs_out f b x Hok Hb) as (f1 & Hr & E & A).
    destruct (IH f1) as (f2 & Hr2 & E2 & A2); [|by eapply forward_steps_ok|].
    + rewrite E, map_size_delete, Hb. cbn. lia.
    + exists f2. split_and!; [by eapply rtc_trans|done|congruence].
Qed.

Lemma wait_returns f : ok f → ∃ f' err, rtc step f f' ∧ done f' = Some err.
Proof.
  intros Hok. assert (∃ f1, rtc step f f1 ∧ accepting f1 ≠ Accepting) as (f1 & H1 & HA).
  { destruct (accepting f) eqn:E; [|exists f; by rewrite E..].
    eexists. split; [apply rtc_once, (s_accept_fails f (Sentinel net_ErrClosed) E)|done]. }
  pose proof (forward_steps_ok _ _ Hok H1) as Hok1.
  destruct (all_run_out _ f1 eq_refl Hok1) as (f2 & H2 & E2 & A2). pose proof (forward_steps_ok _ _ Hok1 H2) as Hok2.
  destruct (accepting f2) as [|err|] eqn:EA; [congruence| |].
  - eexists _, err. split; [eapply rtc_trans; [exact H1|]; eapply rtc_r; [exact H2|]; by apply (s_wait f2 err)|done].
  - pose proof (ok_done f2 Hok2) as HD. destruct (done f2) as [err|] eqn:ED; [|congruence].
    exists f2, err. split; [by eapply rtc_trans|done].
Qed.

(** Canceled before the accept loop stopped: the loop ends without an error. *)
Definition ends_well (f : Forward) : Prop :=
  canceled f = true ∧ match accepting f with
    | Accepting => done f = None | Waiting err => err = None ∧ done f = None | Finished => done f = Some None
    end.

Lemma ends_well_step f f' : ends_well f → step f f' → ends_well f'.
Proof.
  intros [Hc Ha] Hs. destruct Hs; try (split; [done|exact Ha]).
  - unfold Close_begin. by destruct (closed f).
  - split; [done|]. cbn. unfold accept_result. rewrite Hc. rewrite H in Ha. done.
  - split; [done|]. cbn. rewrite H in Ha. by destruct Ha as [-> _].
  - unfold ends_well, addActive. destruct (closed f); by split.
  - unfold ends_well, addActive. destruct (closed f); by split.
Qed.

(** C24: a forwarding session, under every interleaving of its goroutines and any
    calls of [Close].  When [Close] has returned, the listener and everything
    the bridges copy between is closed.  [Wait] can always come to return; when
    it does, no bridge runs and every connection that was accepted and every
    stream that was opened is closed; and it returns nil when the session was
    closed or its context ended before the accept loop stopped. *)
Theorem forward_session (connected : bool) (ctx_err listen : option error) (localAddr : string)
    (remote : ForwardTarget) (f0 f : Forward) :
  ForwardLocalTCP connected ctx_err listen localAddr remote = Ok f0 → rtc step f0 f →
  (closed f = true → close_pc f = None →
     ln_open f = false ∧ active f ⊆ shut f ∧
     ∀ b conn stream k, bridges f !! b = Some (HCopying conn stream k) → conn ∈ shut f ∧ stream ∈ shut f) ∧
  (∃ f' err, rtc step f f' ∧ done f' = Some err) ∧
  (∀ err, done f = Some err → bridges f = ∅ ∧ seen f ⊆ shut f) ∧
  (canceled f = true → accepting f = Accepting →
     ∀ f' err, rtc step f f' → done f' = Some err → err = None).
Proof.
  intros H0 Hr. pose proof (forward_steps_ok _ _ (forward_start_ok _ _ _ _ _ _ H0) Hr) as Hok. split_and!.
  - intros Hc Hp. pose proof (ok_closing f Hok) as HC. rewrite Hp in HC. destruct (HC Hc) as [HL HA].
    split_and!; [done..|]. intros b conn stream k Hb.
    destruct (proj1 (ok_held f Hok) _ _ Hb) as [(H1 & H2 & _) _]. set_solver.
  - by apply wait_returns.
  - intros err Hd. pose proof (ok_done f Hok) as HD. rewrite Hd in HD. destruct HD as [_ HB]. split; [done|].
    by apply (held_empty f (ok_held f Hok)).
  - intros Hc Ha f' err Hr' Hd. assert (ends_well f) as HE.
    { split; [done|]. rewrite Ha. pose proof (ok_done f Hok) as HD. destruct (done f); [|done]. destruct HD. congruence. }
    assert (ends_well f') as [_ HE'].
    { clear -HE Hr'. induction Hr'; [done|]. eauto using ends_well_step. }
    destruct (accepting f'); [congruence|by destruct HE'; congruence|congruence].
Qed.

Lemma forward_session_witness :
  ∃ f0 f, ForwardLocalTCP true None None "127.0.0.1:0" (mkForwardTarget "tcp:80") = Ok f0 ∧
    rtc step f0 f ∧ closed f = true ∧ ln_open f = false.
Proof.
  eexists _, _. split; [reflexivity|]. set (f0 := mkForward _ _ _ _ _ _ _ _ _ _).
  assert (rtc step f0 (Close_next None (Close_listener ∅ (Close_begin (cancel f0))))) as Hr.
  { eapply rtc_l; [apply s_cancel|]. eapply rtc_l; [by apply s_close|].
    eapply rtc_l; [by apply (s_close_listener _ ∅)|]. by apply rtc_once, s_close_end. }
  split; [exact Hr|]. split; [done|].
  by apply (forward_session true None None "127.0.0.1:0" (mkForwardTarget "tcp:80") f0 _ eq_refl Hr).
Defined.
End Forward.

(** ** Reverse *)

Module Reverse.

(** *** Requests to the device *)

(** [io.ReadAll]; the buffer's growth does not show in the result. *)
Fixpoint ReadAll (fuel : nat) (r : Reader) (acc : list byte) : option (res (list byte)) :=
  match fuel with
  | O => None
  | S fuel =>
      let '(r, (bs, err)) := Read r 512 in
      match err with
      | Some e => Some (if bool_decide (e = Sentinel io_EOF) then Ok (acc ++ bs) else Err e)
      | None => ReadAll fuel r (acc ++ bs)
      end
  end.
Definition io_ReadAll (r : Reader) : option (res (list byte)) :=
  ReadAll (S (length (rd_bytes r) + length (rd_chunks r))) r [].

Section requests.
Context `{io_Writer W}.

(** Open a service whose answer is empty when all is well; the errors are
    wrapped with [format] and [args]. *)
Definition registerReverse (ctx : Context_) (c : option (Device W)) (remote : ReverseDeviceEndpoint)
    (local : ReverseHostEndpoint) (norebind : bool) : option (option (Device W) * option error) :=
  let command := if norebind then "forward:norebind:" else "forward:" in
  let service := "reverse:" +++ command +++ rd_service remote +++ ";" +++ rh_service local in
  let args := [AStr (rd_service remote); AStr (rh_service local)] in
  match OpenService ctx c service with
  | (c, Err err) => Some (c, Some (ErrorfW "adb reverse register %s -> %s: %w" args err))
  | (c, Ok (r, w)) =>
      match io_ReadAll r with
      | None => None
      | Some (Err err) => Some (close_service w c, Some (ErrorfW "adb reverse register %s -> %s: %w" args err))
      | Some (Ok response) =>
          Some (close_service w c,
            if (0 <? length response)%nat
            then Some (Errorf "adb reverse register %s -> %s failed: %s" (args ++ [AStr (TrimSpace (string_of response))]))
            else None)
      end
  end.

Definition removeReverse (ctx : Context_) (c : option (Device W)) (remote : ReverseDeviceEndpoint)
    : option (option (Device W) * option error) :=
  if (rd_service remote =? "")%string then Some (c, None) else
  let service := "reverse:killforward:" +++ rd_service remote in
  let args := [AStr (rd_service remote)] in
  match OpenService ctx c service with
  | (c, Err err) => Some (c, Some (ErrorfW "adb reverse cleanup %s: %w" args err))
  | (c, Ok (r, w)) =>
      match io_ReadAll r with
      | None => None
      | Some (Err err) => Some (close_service w c, Some (ErrorfW "adb reverse cleanup %s: %w" args err))
      | Some (Ok response) =>
          Some (close_service w c,
            if (0 <? length response)%nat
            then Some (Errorf "adb reverse cleanup %s failed: %s" (args ++ [AStr (TrimSpace (string_of response))]))
            else None)
      end
  end.
End requests.

Lemma ReadAll_spec fuel r acc out :
  ReadAll fuel r acc = Some (Ok out) → out = acc ++ rd_bytes r ∧ rd_end r = Sentinel io_EOF.
Proof.
  revert r acc. induction fuel as [|fuel IH]; intros r acc; [done|]. cbn [ReadAll]. unfold Read, rd_bytes.
  destruct (rd_chunks r) as [|c cs] eqn:E.
  - cbn. destruct (decide (rd_end r = Sentinel io_EOF)) as [e|e].
    + rewrite bool_decide_true by done. intros [= <-]. by split.
    + by rewrite bool_decide_false.
  - destruct (length c <=? 512)%nat; intros H; apply IH in H as [-> He]; cbn in *; (split; [|done]).
    + by rewrite <-app_assoc.
    + rewrite <-app_assoc. f_equal. by rewrite app_assoc, take_drop.
Qed.

(** A registration that succeeds: the request made, and an empty answer. *)
Lemma registerReverse_ok `{io_Writer W} ctx (c c' : option (Device W)) remote local norebind :
  registerReverse ctx c remote local norebind = Some (c', None) →
  ∃ d rd w opens, c = Some d ∧ dev_opens d = Ok (rd, w) :: opens ∧ rd_bytes rd = [] ∧ rd_end rd = Sentinel io_EOF ∧
    c' = Some (mkDevice opens (dev_log d ++ [("reverse:" +++ (if norebind : bool then "forward:norebind:" else "forward:") +++
            rd_service remote +++ ";" +++ rh_service local, Some w)])).
Proof.
  unfold registerReverse, OpenService. destruct c as [d|]; [|done]. destruct (ctx_entry ctx); [done|].
  destruct (dev_opens d) as [|[[rd w]|] opens] eqn:E; [done| |done]. unfold io_ReadAll.
  destruct (ReadAll _ rd []) as [[out|]|] eqn:ER; [|done|done].
  apply ReadAll_spec in ER as [-> He]. destruct (rd_bytes rd) eqn:Eb; [|done]. cbn [app length Nat.ltb Nat.leb].
  intros EC. exists d, rd, w, opens. split_and!; [done..|]. rewrite close_service_logged in EC. congruence.
Qed.

(** *** The session *)

(** A bridge, from the call of the open handler on: before [startBridge], in
    [DialContext], before [addBridge], and (with [counted] telling whether
    [addBridge] registered it) before the notification, copying, before
    [removeBridge] and before the last notification. *)
Inductive bridge :=
  | RStarting (stream : nat)
  | RDialing (stream : nat)
  | RAdding (stream conn : nat)
  | RNotifying (stream conn : nat) (n : nat)
  | RCopying (stream conn : nat) (counted : bool) (copies : nat)
  | RRemoving (stream conn : nat) (counted : bool)
  | RRemoved (stream conn : nat) (n : nat).

Definition holds (b : bridge) : gset nat :=
  match b with
  | RStarting stream | RDialing stream => {[stream]}
  | RAdding stream conn | RNotifying stream conn _ | RCopying stream conn _ _
  | RRemoving stream conn _ | RRemoved stream conn _ => {[stream; conn]}
  end.

(** bridgeWG counts the bridges behind [startBridge]. *)
Definition in_wg (b : bridge) : bool := match b with RStarting _ => false | _ => true end.
(** activeBridges should count the bridges between [addBridge] and [removeBridge]. *)
Definition counts (b : bridge) : bool :=
  match b with
  | RNotifying _ _ _ => true
  | RCopying _ _ counted _ | RRemoving _ _ counted => counted
  | _ => false
  end.

(** The call of [Close] that set the flag: before removing the open handler,
    closing what it collected, before the request, and waiting for bridges. *)
Inductive closing := CHandler (rest : gset nat) | CEach (rest : gset nat) | CWait (cleanupErr : option error).

Record Reverse := mkReverse {
  canceled : bool;
  closed : bool;
  active : gset nat;
  activeBridges : nat;
  callbacks : bool;                       (* opts.OnActiveConnections is not nil *)
  handler : bool;                         (* the open handler is registered *)
  bridges : gmap nat bridge;
  close_pc : option closing;
  done : option (option error);           (* the channel of capacity 1 *)
  kills : nat;                            (* killforward requests made *)
  notified : list nat;                    (* the calls of OnActiveConnections *)
  shut : gset nat;
  seen : gset nat;
}.

(** [ReverseTCPWithOptions]: guards, the handler, then the registration, whose
    failure takes the handler back. *)
Definition ReverseTCPWithOptions `{io_Writer W} (ctx : Context_) (c : option (Device W))
    (remote : ReverseDeviceEndpoint) (local : ReverseHostEndpoint) (norebind callbacks : bool) (handleOpen : option error)
    : option (option (Device W) * res Reverse) :=
  match c with
  | None => Some (c, Err (Sentinel protocol_ErrDeviceClosed))
  | Some _ =>
      match ctx_entry ctx with
      | Some err => Some (c, Err err)
      | None =>
          if (rd_service remote =? "")%string then Some (c, Err (Errorf "adb reverse remote endpoint is empty" [])) else
          if (rh_service local =? "")%string || (rh_addr local =? "")%string
          then Some (c, Err (Errorf "adb reverse host endpoint is empty" [])) else
          match handleOpen with
          | Some err => Some (c, Err (ErrorfW "adb reverse handle %s: %w" [AStr (rh_service local)] err))
          | None =>
              match registerReverse ctx c remote local norebind with
              | None => None
              | Some (c, Some err) => Some (c, Err err)
              | Some (c, None) => Some (c, Ok (mkReverse false false ∅ 0 callbacks true ∅ None None 0 [] ∅ ∅))
              end
          end
      end
  end.
Definition ReverseTCP `{io_Writer W} (ctx : Context_) (c : option (Device W)) (remote : ReverseDeviceEndpoint)
    (local : ReverseHostEndpoint) :=
  ReverseTCPWithOptions ctx c remote local false false.

Definition set_bridges (g : gmap nat bridge → gmap nat bridge) (r : Reverse) : Reverse :=
  mkReverse (canceled r) (closed r) (active r) (activeBridges r) (callbacks r) (handler r) (g (bridges r))
    (close_pc r) (done r) (kills r) (notified r) (shut r) (seen r).
Definition shutting (x : gset nat) (r : Reverse) : Reverse :=
  mkReverse (canceled r) (closed r) (active r) (activeBridges r) (callbacks r) (handler r) (bridges r)
    (close_pc r) (done r) (kills r) (notified r) (x ∪ shut r) (seen r).
Definition seeing (x : gset nat) (r : Reverse) : Reverse :=
  mkReverse (canceled r) (closed r) (active r) (activeBridges r) (callbacks r) (handler r) (bridges r)
    (close_pc r) (done r) (kills r) (notified r) (shut r) (x ∪ seen r).
Definition set_active (x : gset nat) (n : nat) (r : Reverse) : Reverse :=
  mkReverse (canceled r) (closed r) x n (callbacks r) (handler r) (bridges r)
    (close_pc r) (done r) (kills r) (notified r) (shut r) (seen r).
Definition set_close (pc : option closing) (r : Reverse) : Reverse :=
  mkReverse (canceled r) (closed r) (active r) (activeBridges r) (callbacks r) (handler r) (bridges r)
    pc (done r) (kills r) (notified r) (shut r) (seen r).

Definition cancel (r : Reverse) : Reverse :=
  mkReverse true (closed r) (active r) (activeBridges r) (callbacks r) (handler r) (bridges r)
    (close_pc r) (done r) (kills r) (notified r) (shut r) (seen r).

(** The parts of [Close]: the critical section, the handler, the request with
    its outcome, and the end. *)
Definition Close_begin (r : Reverse) : Reverse :=
  if closed r then r
  else mkReverse (canceled r) true (active r) (activeBridges r) false (handler r) (bridges r)
         (Some (CHandler (active r))) (done r) (kills r) (notified r) (shut r) (seen r).
Definition Close_handler (rest : gset nat) (r : Reverse) : Reverse :=
  mkReverse (canceled r) (closed r) (active r) (activeBridges r) (callbacks r) false (bridges r)
    (Some (CEach rest)) (done r) (kills r) (notified r) (shut r) (seen r).
Definition Close_request (cleanupErr : option error) (r : Reverse) : Reverse :=
  mkReverse (canceled r) (closed r) (active r) (activeBridges r) (callbacks r) (handler r) (bridges r)
    (Some (CWait cleanupErr)) (done r) (S (kills r)) (notified r) (shut r) (seen r).
Definition Close_end (cleanupErr : option error) (r : Reverse) : Reverse :=
  mkReverse (canceled r) (closed r) (active r) (activeBridges r) (callbacks r) (handler r) (bridges r) None
    (match done r with Some e => Some e | None => Some cleanupErr end)
    (kills r) (notified r) (shut r) (seen r).

Definition notifyActive (n : nat) (r : Reverse) : Reverse :=
  if callbacks r
  then mkReverse (canceled r) (closed r) (active r) (activeBridges r) (callbacks r) (handler r) (bridges r)
         (close_pc r) (done r) (kills r) (notified r ++ [n]) (shut r) (seen r)
  else r.

(** The critical sections of a bridge [b]. *)
Definition startBridge (b stream : nat) (r : Reverse) : Reverse :=
  if closed r then set_bridges (delete b) (shutting {[stream]} r)
  else set_bridges <[b := RDialing stream]> r.
Definition addBridge (b stream conn : nat) (r : Reverse) : Reverse :=
  if closed r then set_bridges <[b := RCopying stream conn false 2]> (shutting {[stream; conn]} r)
  else set_bridges <[b := RNotifying stream conn (S (activeBridges r))]>
         (set_active ({[stream; conn]} ∪ active r) (S (activeBridges r)) r).
Definition removeBridge (b stream conn : nat) (r : Reverse) : Reverse :=
  set_bridges <[b := RRemoved stream conn (Nat.pred (activeBridges r))]>
    (set_active (active r ∖ {[stream; conn]}) (Nat.pred (activeBridges r)) r).

Inductive step : Reverse → Reverse → Prop :=
  | s_cancel r : step r (cancel r)
  | s_close r : canceled r = true → step r (Close_begin r)
  | s_close_handler r rest : close_pc r = Some (CHandler rest) → step r (Close_handler rest r)
  | s_close_each r rest c : close_pc r = Some (CEach rest) → c ∈ rest →
      step r (set_close (Some (CEach (rest ∖ {[c]}))) (shutting {[c]} r))
  | s_close_request r cleanupErr : close_pc r = Some (CEach ∅) → step r (Close_request cleanupErr r)
  | s_close_end r cleanupErr : close_pc r = Some (CWait cleanupErr) →
      (∀ b x, bridges r !! b = Some x → in_wg x = false) → step r (Close_end cleanupErr r)
  | s_open r b stream : handler r = true → bridges r !! b = None → stream ∉ seen r →
      step r (seeing {[stream]} (set_bridges <[b := RStarting stream]> r))
  | s_start r b stream : bridges r !! b = Some (RStarting stream) → step r (startBridge b stream r)
  | s_dial_fails r b stream : bridges r !! b = Some (RDialing stream) →
      step r (set_bridges (delete b) (shutting {[stream]} r))
  | s_dial r b stream conn : bridges r !! b = Some (RDialing stream) → conn ∉ seen r →
      step r (seeing {[conn]} (set_bridges <[b := RAdding stream conn]> r))
  | s_add r b stream conn : bridges r !! b = Some (RAdding stream conn) → step r (addBridge b stream conn r)
  | s_notify r b stream conn n : bridges r !! b = Some (RNotifying stream conn n) →
      step r (set_bridges <[b := RCopying stream conn true 2]> (notifyActive n r))
  | s_first_copy r b stream conn counted : bridges r !! b = Some (RCopying stream conn counted 2) →
      step r (set_bridges <[b := RCopying stream conn counted 1]> (shutting {[stream; conn]} r))
  | s_second_copy r b stream conn counted : bridges r !! b = Some (RCopying stream conn counted 1) →
      step r (set_bridges <[b := RRemoving stream conn counted]> r)
  | s_remove r b stream conn counted : bridges r !! b = Some (RRemoving stream conn counted) →
      step r (removeBridge b stream conn r)
  | s_notify_last r b stream conn n : bridges r !! b = Some (RRemoved stream conn n) →
      step r (set_bridges (delete b) (notifyActive n r)).

(** *** Counting bridges *)

Definition count (m : gmap nat bridge) : nat := size (filter (λ p, counts p.2 = true) m).
Definition one (x : bridge) : nat := if counts x then 1 else 0.

Lemma count_delete m b x : m !! b = Some x → (count (delete b m) + one x = count m)%nat.
Proof.
  intros Hb. unfold count, one. rewrite map_filter_delete, map_size_delete.
  destruct (counts x) eqn:E.
  - assert (filter (λ p, counts p.2 = true) m !! b = Some x) as Hf by (apply map_lookup_filter_Some; by split).
    rewrite Hf. cbn. assert (size (filter (λ p, counts p.2 = true) m) ≠ 0%nat); [|lia].
    intros Hz. apply map_size_empty_inv in Hz. by rewrite Hz, lookup_empty in Hf.
  - assert (filter (λ p, counts p.2 = true) m !! b = None) as Hf; [|rewrite Hf; cbn; lia].
    apply map_lookup_filter_None. right. intros y Hy. cbn. congruence.
Qed.

Lemma count_new m b x : m !! b = None → count (<[b := x]> m) = (count m + one x)%nat.
Proof.
  intros Hb. assert (delete b (<[b := x]> m) = m) as E by (by rewrite delete_insert_id).
  rewrite <-(count_delete (<[b := x]> m) b x), E; [done|]. by rewrite lookup_insert, decide_True.
Qed.

Lemma count_insert m b x x' : m !! b = Some x → (count (<[b := x']> m) + one x = count m + one x')%nat.
Proof.
  intros Hb. rewrite <-(count_delete m b x Hb).
  rewrite <-(count_delete (<[b := x']> m) b x') by (by rewrite lookup_insert, decide_True).
  rewrite delete_insert_eq. lia.
Qed.

(** *** The invariant *)

Definition bridge_ok (r : Reverse) (x : bridge) : Prop :=
  match x with
  | RStarting _ | RDialing _ | RAdding _ _ => True
  | RNotifying stream conn _ => stream ∈ active r ∪ shut r ∧ conn ∈ active r ∪ shut r
  | RCopying stream conn _ k =>
      stream ∈ active r ∪ shut r ∧ conn ∈ active r ∪ shut r ∧
      (k = 2%nat ∨ (k = 1%nat ∧ stream ∈ shut r ∧ conn ∈ shut r))
  | RRemoving stream conn _ | RRemoved stream conn _ => stream ∈ shut r ∧ conn ∈ shut r
  end.

(** A bridge that [addBridge] did not register: only where the session is closed. *)
Definition uncounted (x : bridge) : bool :=
  match x with RCopying _ _ counted _ | RRemoving _ _ counted => negb counted | _ => false end.

#[global] Instance reverse_bridges : Bridges Reverse bridge := {
  br_active := active; br_shut := shut; br_seen := seen; br_map := bridges; br_holds := holds; br_ok := bridge_ok;
}.

#[global] Instance reverse_bridges_stable : BridgesStable Reverse bridge.
Proof. intros f f' x (G1 & G2 & _). cbn in *. destruct x; cbn; [done..|set_solver|set_solver|set_solver|set_solver]. Qed.

Definition closing_ok (r : Reverse) : Prop :=
  match close_pc r with
  | None =>
      if closed r
      then handler r = false ∧ active r ⊆ shut r ∧ kills r = 1%nat ∧ done r ≠ None ∧
           (∀ b x, bridges r !! b = Some x → in_wg x = false)
      else kills r = 0%nat ∧ done r = None
  | Some (CHandler rest) => closed r = true ∧ active r ⊆ rest ∪ shut r ∧ kills r = 0%nat ∧ done r = None
  | Some (CEach rest) =>
      closed r = true ∧ handler r = false ∧ active r ⊆ rest ∪ shut r ∧ kills r = 0%nat ∧ done r = None
  | Some (CWait _) => closed r = true ∧ handler r = false ∧ active r ⊆ shut r ∧ kills r = 1%nat ∧ done r = None
  end.

Record ok (r : Reverse) : Prop := {
  ok_held : held_ok r;
  ok_closing : closing_ok r;
  ok_count : closed r = false →
    activeBridges r = count (bridges r) ∧ ∀ b x, bridges r !! b = Some x → uncounted x = false;
}.

Lemma closing_keep r r' :
  closing_ok r → close_pc r' = close_pc r → closed r' = closed r → handler r' = handler r →
  kills r' = kills r → done r' = done r → shut r ⊆ shut r' → active r' ⊆ active r ∪ shut r' →
  (∀ b x, bridges r' !! b = Some x → in_wg x = true → ∃ b' x', bridges r !! b' = Some x' ∧ in_wg x' = true) →
  closing_ok r'.
Proof.
  unfold closing_ok. intros H -> -> -> -> -> Hs Ha Hb.
  destruct (close_pc r) as [[rest|rest|err]|].
  - destruct H as (? & ? & ? & ?). split_and!; [done|set_solver|done..].
  - destruct H as (? & ? & ? & ? & ?). split_and!; [done..|set_solver|done|done].
  - destruct H as (? & ? & ? & ? & ?). split_and!; [done..|set_solver|done|done].
  - destruct (closed r); [|done]. destruct H as (? & ? & ? & ? & Hw). split_and!; [done|set_solver|done..|].
    intros b x Hx. destruct (in_wg x) eqn:E; [|done]. destruct (Hb b x Hx E) as (b' & x' & Hx' & E').
    specialize (Hw b' x' Hx'). congruence.
Qed.

Lemma closing_open r : closing_ok r → closed r = false → close_pc r = None ∧ kills r = 0%nat ∧ done r = None.
Proof. unfold closing_ok. intros H E. rewrite E in H. destruct (close_pc r) as [[]|]; naive_solver. Qed.

Lemma closing_open_ok r r' : closing_ok r → closed r = false →
  close_pc r' = close_pc r → closed r' = closed r → kills r' = kills r → done r' = done r → closing_ok r'.
Proof.
  intros H E E1 E2 E3 E4. destruct (closing_open r H E) as (P & K & D).
  unfold closing_ok. rewrite E1, E2, E3, E4, P, K, D, E. done.
Qed.

(** Some bridge of the wait group stays one where it moves on. *)
Lemma wg_move (m : gmap nat bridge) b x x' :
  m !! b = Some x → in_wg x = true →
  ∀ b0 y, <[b := x']> m !! b0 = Some y → in_wg y = true → ∃ b1 z, m !! b1 = Some z ∧ in_wg z = true.
Proof. intros Hb Hx b0 y H Hy. apply lookup_insert_Some in H as [[<- <-]|[_ H]]; eauto. Qed.
Lemma wg_delete (m : gmap nat bridge) b :
  ∀ b0 y, delete b m !! b0 = Some y → in_wg y = true → ∃ b1 z, m !! b1 = Some z ∧ in_wg z = true.
Proof. intros b0 y H Hy. apply lookup_delete_Some in H as [_ H]. eauto. Qed.

Lemma count_ok_move r b x x' n :
  ok r → bridges r !! b = Some x → closed r = false → uncounted x' = false →
  (n + one x = activeBridges r + one x')%nat →
  n = count (<[b := x']> (bridges r)) ∧ ∀ b0 y, <[b := x']> (bridges r) !! b0 = Some y → uncounted y = false.
Proof.
  intros Hok Hb Hc Hx Hn. destruct (ok_count r Hok Hc) as [HA HU].
  pose proof (count_insert (bridges r) b x x' Hb). split; [lia|].
  intros b0 y H'. apply lookup_insert_Some in H' as [[_ <-]|[_ H']]; [done|by eapply HU].
Qed.

Lemma count_ok_delete r b x n :
  ok r → bridges r !! b = Some x → closed r = false → (n + one x = activeBridges r)%nat →
  n = count (delete b (bridges r)) ∧ ∀ b0 y, delete b (bridges r) !! b0 = Some y → uncounted y = false.
Proof.
  intros Hok Hb Hc Hn. destruct (ok_count r Hok Hc) as [HA HU].
  pose proof (count_delete (bridges r) b x Hb). split; [lia|].
  intros b0 y H'. apply lookup_delete_Some in H' as [_ H']. by eapply HU.
Qed.

Ltac grow :=
  unfold grows; cbn; split_and!; [|set_solver..];
  let y := fresh in let Hy := fresh in intros y Hy;
  match goal with f : Reverse |- _ => destruct (decide (y ∈ shut f)) end; set_solver.

Ltac held_move_to x x' :=
  match goal with
  | Hok : ok ?r, Hb : bridges ?r !! ?b = Some x |- held_ok ?r' =>
      apply (held_move r r' b x x'); [apply (ok_held r Hok)|grow|done..|cbn; set_solver|cbn; set_solver|cbn; set_solver|cbn; set_solver]
  end.
Ltac held_gone_with x :=
  match goal with
  | Hok : ok ?r, Hb : bridges ?r !! ?b = Some x |- held_ok ?r' =>
      apply (held_gone r r' b x); [apply (ok_held r Hok)|grow|done..|cbn; set_solver|done]
  end.
Ltac held_stays :=
  match goal with
  | Hok : ok ?r |- held_ok ?r' => apply (held_same r r'); [apply (ok_held r Hok)|grow|done..]
  end.
(** A bridge of the wait group moves on or ends and the session's flags stay. *)
Ltac keeps_closing :=
  match goal with
  | Hok : ok ?r |- closing_ok ?r' =>
      apply (closing_keep r r'); [apply (ok_closing r Hok)|done..|cbn; set_solver|cbn; set_solver|cbn];
      first [by eapply wg_move|apply wg_delete]
  end.

Lemma ok_notify n r : ok r → ok (notifyActive n r).
Proof.
  intros Hok. unfold notifyActive. destruct (callbacks r); [|done]. split.
  - held_stays.
  - apply (closing_keep r); [apply (ok_closing r Hok)|done..|cbn; set_solver|cbn; eauto].
  - apply (ok_count r Hok).
Qed.

Lemma bridges_notify n r : bridges (notifyActive n r) = bridges r.
Proof. unfold notifyActive. by destruct (callbacks r). Qed.

(** The steps of [Close]. *)
Lemma close_step_ok r r' : ok r →
  r' = cancel r ∨ r' = Close_begin r ∨
  (∃ rest, close_pc r = Some (CHandler rest) ∧ r' = Close_handler rest r) ∨
  (∃ rest c, close_pc r = Some (CEach rest) ∧ r' = set_close (Some (CEach (rest ∖ {[c]}))) (shutting {[c]} r)) ∨
  (∃ err, close_pc r = Some (CEach ∅) ∧ r' = Close_request err r) ∨
  (∃ err, close_pc r = Some (CWait err) ∧ (∀ b x, bridges r !! b = Some x → in_wg x = false) ∧ r' = Close_end err r) →
  ok r'.
Proof.
  intros Hok H. pose proof (ok_closing r Hok) as HC. pose proof (ok_count r Hok) as HN.
  destruct H as [->|[->|[(rest & Hp & ->)|[(rest & c & Hp & ->)|[(err & Hp & ->)|(err & Hp & Hw & ->)]]]]].
  - split; [held_stays|exact HC|exact HN].
  - unfold Close_begin. destruct (closed r) eqn:E; [done|]. destruct (closing_open r HC E) as (P & K & D).
    split; [held_stays| |done]. unfold closing_ok. cbn. split_and!; [done|set_solver|done..].
  - split; [held_stays| |exact HN]. unfold closing_ok in *. rewrite Hp in HC. cbn. naive_solver.
  - split; [held_stays| |exact HN]. unfold closing_ok in *. rewrite Hp in HC. cbn.
    destruct HC as (? & ? & HA & ? & ?). split_and!; [done..| |done|done].
    intros x Hx. destruct (decide (x = c)); set_solver.
  - split; [held_stays| |exact HN]. unfold closing_ok in *. rewrite Hp in HC. cbn.
    destruct HC as (? & ? & HA & HK & ?). rewrite HK. split_and!; [done..|set_solver|done|done].
  - split; [held_stays| |exact HN]. unfold closing_ok in *. rewrite Hp in HC. cbn.
    destruct HC as (HC & ? & HA & HK & HD). rewrite HC, HD. by split_and!.
Qed.

(** The handler accepts a stream. *)
Lemma open_step_ok r b stream : ok r → handler r = true → bridges r !! b = None → stream ∉ seen r →
  ok (seeing {[stream]} (set_bridges <[b := RStarting stream]> r)).
Proof.
  intros Hok Hh Hb Hn. pose proof (ok_closing r Hok) as HC. split.
  - apply (held_new r _ b (RStarting stream)); [apply (ok_held r Hok)|grow|done..|cbn; set_solver|cbn; set_solver].
  - unfold closing_ok in *. cbn. destruct (close_pc r) as [[]|] in HC |- *; [done| | |].
    + destruct HC as (_ & ? & _). congruence.
    + destruct HC as (_ & ? & _). congruence.
    + destruct (closed r) in HC |- *; [destruct HC; congruence|done].
  - intros Hcl. destruct (ok_count r Hok Hcl) as [HA HU]. cbn. rewrite count_new by done. split; [cbn; lia|].
    intros b0 y H. apply lookup_insert_Some in H as [[_ <-]|[_ H]]; [done|by eapply HU].
Qed.

Lemma bridge_held r b x : ok r → bridges r !! b = Some x → bridge_ok r x ∧ holds x ⊆ seen r.
Proof. intros Hok. apply (ok_held r Hok). Qed.

(** Entering the wait group and the map of bridges: the check of the closed flag decides. *)
Lemma start_step_ok r b stream : ok r → bridges r !! b = Some (RStarting stream) → ok (startBridge b stream r).
Proof.
  intros Hok Hb. destruct (bridge_held _ _ _ Hok Hb) as [_ Hh]. cbn in Hh. unfold startBridge. destruct (closed r) eqn:E.
  - split; [held_gone_with (RStarting stream)|keeps_closing|cbn; congruence].
  - split; [held_move_to (RStarting stream) (RDialing stream)| |].
    + by apply (closing_open_ok r _ (ok_closing r Hok)).
    + intros _. cbn. by apply (count_ok_move r b (RStarting stream)).
Qed.

Lemma add_step_ok r b stream conn : ok r → bridges r !! b = Some (RAdding stream conn) → ok (addBridge b stream conn r).
Proof.
  intros Hok Hb. destruct (bridge_held _ _ _ Hok Hb) as [_ Hh]. cbn in Hh. unfold addBridge. destruct (closed r) eqn:E.
  - split; [held_move_to (RAdding stream conn) (RCopying stream conn false 2)|keeps_closing|cbn; congruence].
  - split; [held_move_to (RAdding stream conn) (RNotifying stream conn (S (activeBridges r)))| |].
    + by apply (closing_open_ok r _ (ok_closing r Hok)).
    + intros _. cbn. apply (count_ok_move r b (RAdding stream conn)); [done..|cbn; lia].
Qed.

Lemma remove_step_ok r b stream conn k : ok r → bridges r !! b = Some (RRemoving stream conn k) →
  ok (removeBridge b stream conn r).
Proof.
  intros Hok Hb. destruct (bridge_held _ _ _ Hok Hb) as [Hx Hh]. cbn in Hx, Hh.
  split; [held_move_to (RRemoving stream conn k) (RRemoved stream conn (Nat.pred (activeBridges r)))|keeps_closing|].
  intros Hcl. destruct (ok_count r Hok Hcl) as [HA HU]. pose proof (HU _ _ Hb) as Hk. cbn in Hk. apply negb_false_iff in Hk as ->.
  apply (count_ok_move r b (RRemoving stream conn true)); [done..|]. cbn.
  pose proof (count_delete (bridges r) b _ Hb). cbn in *. lia.
Qed.

Lemma reverse_step_ok r r' : ok r → step r r' → ok r'.
Proof.
  intros Hok Hs. pose proof (λ b x, bridge_held r b x Hok) as HB.
  destruct Hs as [r|r Hc|r rest Hp|r rest c Hp Hin|r err Hp|r err Hp Hw|r b stream Hh Hb Hn|r b stream Hb|r b stream Hb
    |r b stream conn Hb Hn|r b stream conn Hb|r b stream conn n Hb|r b stream conn k Hb|r b stream conn k Hb
    |r b stream conn k Hb|r b stream conn n Hb];
    [apply (close_step_ok r); [done|]; naive_solver..|by apply open_step_ok|by apply start_step_ok| |
    |by apply add_step_ok| | | |by apply (remove_step_ok _ _ _ _ k)|].
  - split; [held_gone_with (RDialing stream)|keeps_closing|].
    intros Hcl. apply (count_ok_delete r b (RDialing stream)); [done..|cbn; lia].
  - destruct (HB _ _ Hb) as [_ Hh]. cbn in Hh. split; [held_move_to (RDialing stream) (RAdding stream conn)|keeps_closing|].
    intros Hcl. by apply (count_ok_move r b (RDialing stream)).
  - pose proof (ok_notify n r Hok) as Hok1. rewrite <-(bridges_notify n r) in Hb.
    generalize dependent (notifyActive n r). clear r Hok HB. intros r Hb Hok.
    destruct (proj1 (ok_held r Hok) _ _ Hb) as [Hx Hh]. cbn in Hx, Hh.
    split; [held_move_to (RNotifying stream conn n) (RCopying stream conn true 2)|keeps_closing|].
    intros Hcl. by apply (count_ok_move r b (RNotifying stream conn n)).
  - destruct (HB _ _ Hb) as [Hx Hh]. cbn in Hx, Hh.
    split; [held_move_to (RCopying stream conn k 2) (RCopying stream conn k 1)|keeps_closing|].
    intros Hcl. destruct (ok_count r Hok Hcl) as [_ HU]. apply (count_ok_move r b (RCopying stream conn k 2)); [done..| |done].
    apply (HU _ _ Hb).
  - destruct (HB _ _ Hb) as [(Hx1 & Hx2 & [?|(_ & Hx)]) Hh]; [done|]. cbn in Hh.
    split; [held_move_to (RCopying stream conn k 1) (RRemoving stream conn k)|keeps_closing|].
    intros Hcl. destruct (ok_count r Hok Hcl) as [_ HU]. apply (count_ok_move r b (RCopying stream conn k 1)); [done..| |done].
    apply (HU _ _ Hb).
  - pose proof (ok_notify n r Hok) as Hok1. rewrite <-(bridges_notify n r) in Hb.
    generalize dependent (notifyActive n r). clear r Hok HB. intros r Hb Hok.
    destruct (proj1 (ok_held r Hok) _ _ Hb) as [Hx Hh]. cbn in Hx, Hh.
    split; [held_gone_with (RRemoved stream conn n)|keeps_closing|].
    intros Hcl. apply (count_ok_delete r b (RRemoved stream conn n)); [done..|cbn; lia].
Qed.

Lemma reverse_steps_ok r r' : ok r → rtc step r r' → ok r'.
Proof. intros Hok. induction 1; [done|]. eauto using reverse_step_ok. Qed.

(** *** Close returns *)

Definition runs_out (r : Reverse) (b : nat) : Prop :=
  ∃ r', rtc step r r' ∧ bridges r' = delete b (bridges r) ∧ close_pc r' = close_pc r.

Lemma reverse_runs_out_step r r1 b x :
  step r r1 → bridges r1 = <[b := x]> (bridges r) → close_pc r1 = close_pc r → runs_out r1 b → runs_out r b.
Proof.
  intros Hs E A (r2 & Hr & E2 & A2). exists r2. split_and!; [by eapply rtc_l|by rewrite E2, E, delete_insert_eq|congruence].
Qed.

Lemma reverse_bridge_runs_out r b x : ok r → bridges r !! b = Some x → in_wg x = true → runs_out r b.
Proof.
  intros Hok Hb Hw.
  assert (∀ m (y : bridge), <[b := y]> m !! b = Some y) as L
    by (intros; by rewrite lookup_insert, decide_True).
  assert (∀ n g, close_pc (notifyActive n g) = close_pc g) as HN
    by (intros; unfold notifyActive; by destruct (callbacks g)).
  assert (∀ r s c n, bridges r !! b = Some (RRemoved s c n) → runs_out r b) as R1.
  { intros g s c n H. eexists. split; [eapply rtc_once, (s_notify_last _ _ _ _ _ H)|].
    cbn. by rewrite bridges_notify, HN. }
  assert (∀ r s c k, bridges r !! b = Some (RRemoving s c k) → runs_out r b) as R2.
  { intros g s c k H. eapply reverse_runs_out_step; [apply (s_remove _ _ _ _ _ H)|done..|]. eapply R1. apply L. }
  assert (∀ r s c k, bridges r !! b = Some (RCopying s c k 1) → runs_out r b) as R3.
  { intros g s c k H. eapply reverse_runs_out_step; [apply (s_second_copy _ _ _ _ _ H)|done..|]. eapply R2. apply L. }
  assert (∀ r s c k, bridges r !! b = Some (RCopying s c k 2) → runs_out r b) as R4.
  { intros g s c k H. eapply reverse_runs_out_step; [apply (s_first_copy _ _ _ _ _ H)|done..|]. eapply R3. apply L. }
  assert (∀ r s c n, bridges r !! b = Some (RNotifying s c n) → runs_out r b) as R5.
  { intros g s c n H. eapply reverse_runs_out_step; [apply (s_notify _ _ _ _ _ H)| | |].
    - cbn. by rewrite bridges_notify.
    - apply HN.
    - eapply R4. apply L. }
  destruct x as [s|s|s c|s c n|s c k m|s c k|s c n]; [done| | |by eapply R5| |by eapply R2|by eapply R1].
  - eexists. split; [eapply rtc_once, (s_dial_fails _ _ _ Hb)|done].
  - pose proof (s_add _ _ _ _ Hb) as Hs. unfold addBridge in Hs. destruct (closed r).
    + eapply reverse_runs_out_step; [exact Hs|done..|]. eapply R4. apply L.
    + eapply reverse_runs_out_step; [exact Hs|done..|]. eapply R5. apply L.
  - destruct (proj1 (ok_held r Hok) _ _ Hb) as [(_ & _ & [->|(-> & _)]) _]; [by eapply R4|by eapply R3].
Qed.

Lemma wait_group_empties n r : size (bridges r) = n → ok r →
  ∃ r', rtc step r r' ∧ (∀ b x, bridges r' !! b = Some x → in_wg x = false) ∧ close_pc r' = close_pc r.
Proof.
  revert r. induction n as [n IH] using lt_wf_ind; intros r Hn Hok.
  destruct (decide (map_Forall (λ _ x, in_wg x = false) (bridges r))) as [HF|HF].
  - exists r. split_and!; [done| |done]. intros b x. apply HF.
  - apply map_not_Forall in HF as (b & x & Hb & Hx); [|apply _]. apply not_false_is_true in Hx.
    destruct (reverse_bridge_runs_out r b x Hok Hb Hx) as (r1 & Hr & E & A).
    destruct (IH (size (bridges r1))) with (r := r1) as (r2 & Hr2 & E2 & A2); [|done|by eapply reverse_steps_ok|].
    + rewrite E, map_size_delete, Hb. cbn. assert (size (bridges r) ≠ 0%nat); [|lia].
      intros Hz. apply map_size_empty_inv in Hz. by rewrite Hz, lookup_empty in Hb.
    + exists r2. split_and!; [by eapply rtc_trans|done|congruence].
Qed.

(** The rest of a call of [Close] up to its wait. *)
Lemma close_reaches_wait n r rest : size rest = n → close_pc r = Some (CEach rest) →
  ∃ r', rtc step r r' ∧ close_pc r' = Some (CWait None).
Proof.
  revert r rest. induction n as [|n IH]; intros r rest Hn Hp.
  - apply size_empty_inv in Hn. apply leibniz_equiv in Hn. subst rest.
    eexists. split; [apply rtc_once, (s_close_request r None Hp)|done].
  - destruct (set_choose_L rest) as [c Hc]; [intros ->; by rewrite size_empty in Hn|].
    destruct (IH (set_close (Some (CEach (rest ∖ {[c]}))) (shutting {[c]} r)) (rest ∖ {[c]})) as (r' & Hr & E); [|done|].
    + rewrite size_difference by set_solver. rewrite size_singleton. lia.
    + exists r'. split; [|done]. eapply rtc_l; [by apply s_close_each|done].
Qed.

Lemma close_returns r pc : ok r → close_pc r = Some pc →
  ∃ r', rtc step r r' ∧ close_pc r' = None ∧ closed r' = true.
Proof.
  intros Hok Hp. assert (∃ r1 err, rtc step r r1 ∧ close_pc r1 = Some (CWait err)) as (r1 & err & H1 & E1).
  { destruct pc as [rest|rest|err]; [| |by exists r, err].
    - destruct (close_reaches_wait _ (Close_handler rest r) rest eq_refl eq_refl) as (r1 & Hr & E).
      exists r1, None. split; [|done]. eapply rtc_l; [by apply s_close_handler|done].
    - destruct (close_reaches_wait _ r rest eq_refl Hp) as (r1 & Hr & E). eauto. }
  pose proof (reverse_steps_ok _ _ Hok H1) as Hok1.
  destruct (wait_group_empties _ r1 eq_refl Hok1) as (r2 & H2 & Hw & E2). rewrite E1 in E2.
  exists (Close_end err r2). split_and!; [|done|].
  - eapply rtc_trans; [exact H1|]. eapply rtc_r; [exact H2|]. by apply s_close_end.
  - pose proof (ok_closing r2 (reverse_steps_ok _ _ Hok1 H2)) as HC. unfold closing_ok in HC. rewrite E2 in HC. apply HC.
Qed.

(** The request that a new session has made. *)
Definition registered `{io_Writer W} (c c' : option (Device W)) (remote : ReverseDeviceEndpoint)
    (local : ReverseHostEndpoint) (norebind : bool) : Prop :=
  ∃ d rd w opens, c = Some d ∧ dev_opens d = Ok (rd, w) :: opens ∧ rd_bytes rd = [] ∧ rd_end rd = Sentinel io_EOF ∧
    c' = Some (mkDevice opens (dev_log d ++ [("reverse:" +++ (if norebind : bool then "forward:norebind:" else "forward:") +++
            rd_service remote +++ ";" +++ rh_service local, Some w)])).

Lemma reverse_start_ok `{io_Writer W} ctx (c c' : option (Device W)) remote local norebind cb ho r :
  ReverseTCPWithOptions ctx c remote local norebind cb ho = Some (c', Ok r) →
  ok r ∧ registered c c' remote local norebind.
Proof.
  unfold ReverseTCPWithOptions. destruct c; [|done]. destruct (ctx_entry ctx); [done|].
  destruct (rd_service remote =? "")%string; [done|]. destruct (_ || _); [done|]. destruct ho; [done|].
  destruct (registerReverse _ _ _ _ _) as [[c1 [err|]]|] eqn:ER; [done| |done]. intros E.
  assert (r = mkReverse false false ∅ 0 cb true ∅ None None 0 [] ∅ ∅ ∧ c1 = c') as [-> ->] by (split; congruence).
  split; [by split; [split|..]|]. by eapply registerReverse_ok.
Qed.


Definition quiet_device : option (Device SlowWriter) :=
  Some (mkDevice [Ok (of_bytes [], mkSlowWriter [] [])] []).
Definition sample_remote := mkReverseDeviceEndpoint "tcp:8080" 8080.
Definition sample_local := mkReverseHostEndpoint "tcp:9090" "127.0.0.1:9090" 9090.
Definition opened : Reverse := mkReverse false false ∅ 0 true true ∅ None None 0 [] ∅ ∅.


(** The notifications are made behind the critical sections that count, so two
    bridges that end can report in the wrong order: the last number reported is
    1, and stays it, while no bridge runs. *)
Lemma reported_count_is_stale :
  ∃ r, rtc step opened r ∧ closed r = false ∧ bridges r = ∅ ∧ activeBridges r = 0%nat ∧ last (notified r) = Some 1%nat.
Proof.
  eexists. split.
  { eapply rtc_l; [apply (s_open _ 0 0); [done..|set_solver]|]. eapply rtc_l; [eapply (s_open _ 1 1); [done..|set_solver]|].
    eapply rtc_l; [eapply (s_start _ 0); by vm_compute|]. eapply rtc_l; [eapply (s_start _ 1); by vm_compute|].
    eapply rtc_l; [eapply (s_dial _ 0 _ 2); [by vm_compute|set_solver]|].
    eapply rtc_l; [eapply (s_dial _ 1 _ 3); [by vm_compute|set_solver]|].
    eapply rtc_l; [eapply (s_add _ 0); by vm_compute|]. eapply rtc_l; [eapply (s_add _ 1); by vm_compute|].
    eapply rtc_l; [eapply (s_notify _ 0); by vm_compute|]. eapply rtc_l; [eapply (s_notify _ 1); by vm_compute|].
    eapply rtc_l; [eapply (s_first_copy _ 0); by vm_compute|]. eapply rtc_l; [eapply (s_first_copy _ 1); by vm_compute|].
    eapply rtc_l; [eapply (s_second_copy _ 0); by vm_compute|]. eapply rtc_l; [eapply (s_second_copy _ 1); by vm_compute|].
    eapply rtc_l; [eapply (s_remove _ 0); by vm_compute|]. eapply rtc_l; [eapply (s_remove _ 1); by vm_compute|].
    eapply rtc_l; [eapply (s_notify_last _ 1); by vm_compute|]. eapply rtc_l; [eapply (s_notify_last _ 0); by vm_compute|].
    apply rtc_refl. }
  split; [by vm_compute|]. split; [by vm_compute|]. split; by vm_compute.
Qed.
End Reverse.
