(* ===== verification/Tunnel.v ===== *)
(** * client/forward.go, client/reverse.go: what a bridge carries

    A bridge copies between a connection of the host and a stream of the
    device, one goroutine for each direction, while a third one, [readLoop],
    feeds the stream; the copy that ends first closes both sides.  Sessions has
    the life of bridges; here are their bytes: every interleaving of the three
    goroutines, of [Close] from outside and of other users of the ADB connection. *)

From S2P Require Import Prelude Errors GoStrings Strconv GoIO Message Handshake Stream Sync Link Services.

#[local] Open Scope string_scope.
#[local] Open Scope Z_scope.
#[local] Open Scope list_scope.

(** ** The bridge *)

(** The goroutine of one [io.Copy]: in front of a read, with what it has read,
    with the error of the copy (which the code drops), inside [closeBoth]
    between its two calls, and behind [once.Do]. *)
Inductive copy_pc :=
  | Copying
  | Holding (bs : list byte)
  | Returned (err : option error)
  | Closing (err : option error)
  | Left (err : option error).

Definition result_of (pc : copy_pc) : option (option error) :=
  match pc with Copying | Holding _ => None | Returned e | Closing e | Left e => Some e end.
Definition held (pc : copy_pc) : list byte := match pc with Holding bs => bs | _ => [] end.

(** The [sync.Once] of [closeBoth]. *)
Inductive once := Fresh | Running | Finished.

(** [Up]: from the host to the device. *)
Inductive direction := Up | Down.

Section tunnel.
Context `{WriterOk V}.
Variable fail : error.     (* how the transport ends behind the packets *)
Variable id : Z.           (* the stream's local ID *)
Variable p : nat.          (* the stream *)

Record tunnel := mkTunnel {
  tn_conn : Connection;
  tn_coming : list Message;     (* the packets the device still sends *)
  tn_in : Reader;               (* what the host still sends *)
  tn_out : V;                   (* what the host is given *)
  tn_closed : bool;             (* [conn.Close()] was called *)
  tn_up : copy_pc;
  tn_down : copy_pc;
  tn_once : once;
}.

Definition with_conn (c : Connection) (ms : list Message) (t : tunnel) : tunnel :=
  mkTunnel c ms (tn_in t) (tn_out t) (tn_closed t) (tn_up t) (tn_down t) (tn_once t).
Definition close_host (t : tunnel) : tunnel :=
  mkTunnel (tn_conn t) (tn_coming t) (tn_in t) (tn_out t) true (tn_up t) (tn_down t) (tn_once t).
Definition with_once (o : once) (t : tunnel) : tunnel :=
  mkTunnel (tn_conn t) (tn_coming t) (tn_in t) (tn_out t) (tn_closed t) (tn_up t) (tn_down t) o.

Definition pc_of (d : direction) (t : tunnel) : copy_pc := match d with Up => tn_up t | Down => tn_down t end.
Definition with_pc (d : direction) (pc : copy_pc) (t : tunnel) : tunnel :=
  match d with
  | Up => mkTunnel (tn_conn t) (tn_coming t) (tn_in t) (tn_out t) (tn_closed t) pc (tn_down t) (tn_once t)
  | Down => mkTunnel (tn_conn t) (tn_coming t) (tn_in t) (tn_out t) (tn_closed t) (tn_up t) pc (tn_once t)
  end.

(** What [io.Copy] does with the outcome of a read, and of a write. *)
Definition after_read (bs : list byte) (err : option error) : copy_pc :=
  match err with
  | Some err => Returned (if bool_decide (err = Sentinel io_EOF) then None else Some err)
  | None => if nonempty bs then Holding bs else Copying
  end.
Definition after_write (err : option error) : copy_pc :=
  match err with Some err => Returned (Some err) | None => Copying end.

(** [conn.Read] and [stream.Write]. *)
Definition up_read (t : tunnel) : tunnel :=
  if tn_closed t then with_pc Up (after_read [] (Some (Sentinel net_ErrClosed))) t else
  let '(r, (bs, err)) := GoIO.Read (tn_in t) copy_buffer in
  mkTunnel (tn_conn t) (tn_coming t) r (tn_out t) (tn_closed t) (after_read bs err) (tn_down t) (tn_once t).

Definition up_write (bs : list byte) (t : tunnel) : tunnel :=
  let '(w, err) := copy_chunk (tn_conn t, p) bs in
  with_pc Up (after_write err) (with_conn w.1 (tn_coming t) t).

(** [stream.Read], once it has an answer, and [conn.Write]. *)
Definition down_read (c : Connection) (r : res (list byte)) (t : tunnel) : tunnel :=
  let '(bs, err) := answer r in with_pc Down (after_read bs err) (with_conn c (tn_coming t) t).

Definition down_write (bs : list byte) (t : tunnel) : tunnel :=
  if tn_closed t then with_pc Down (after_write (Some (Sentinel net_ErrClosed))) t else
  let '(v, err) := copy_chunk (tn_out t) bs in
  mkTunnel (tn_conn t) (tn_coming t) (tn_in t) v (tn_closed t) (tn_up t) (after_write err) (tn_once t).

(** The connection carries other streams: packets that are not this one's data. *)
Inductive tstep : tunnel → tunnel → Prop :=
  | t_packet t m ms c :
      tn_coming t = m :: ms → handleStreamMessage m (tn_conn t) = Done c → tstep t (with_conn c ms t)
  | t_transport_ends t : tn_coming t = [] → tstep t (with_conn (readLoop_fail fail (tn_conn t)) [] t)
  | t_up_read t : tn_up t = Copying → tstep t (up_read t)
  | t_up_write t bs : tn_up t = Holding bs → tstep t (up_write bs t)
  | t_down_read t c r :
      tn_down t = Copying → Stream.Read p copy_buffer (tn_conn t) = (c, Done r) → tstep t (down_read c r t)
  | t_down_write t bs : tn_down t = Holding bs → tstep t (down_write bs t)
  | t_close_conn t d err :
      pc_of d t = Returned err → tn_once t = Fresh → tstep t (with_pc d (Closing err) (with_once Running (close_host t)))
  | t_close_stream t d err :
      pc_of d t = Closing err →
      tstep t (with_pc d (Left err) (with_once Finished (with_conn (Close p (tn_conn t)) (tn_coming t) t)))
  | t_pass t d err : pc_of d t = Returned err → tn_once t = Finished → tstep t (with_pc d (Left err) t)
  | t_cut_conn t : tstep t (close_host t)
  | t_cut_stream t : tstep t (with_conn (Close p (tn_conn t)) (tn_coming t) t)
  | t_others t m : is_data id m = false → tstep t (with_conn (writeMessage m (tn_conn t)).1 (tn_coming t) t).

(** A bridge that begins: the stream is open, both copies are in front of their first read. *)
Definition begins (t : tunnel) (s : Stream) : Prop :=
  live id p (tn_conn t) (tn_coming t) s ∧ s_closed s = false ∧
  tn_closed t = false ∧ tn_up t = Copying ∧ tn_down t = Copying ∧ tn_once t = Fresh.

(** ** The stream under its connection *)

(** What is left to read behind a [Close] from this side. *)
Lemma reader_of_closed ms s :
  s_closed s = false →
  let s' := closeWithError (Some (Sentinel io_ErrClosedPipe)) s in
  rd_bytes (reader_of id s ms) = rd_bytes (reader_of id s' ms) ++ concat (arrivals id ms) ∧
  rd_end (reader_of id s' ms) = Sentinel io_ErrClosedPipe.
Proof.
  intros Hc s'. destruct (closeWithError_open (Some (Sentinel io_ErrClosedPipe)) s Hc) as (G1 & G2 & G3 & _).
  rewrite (rd_bytes_reader_of id s ms Hc). split.
  - unfold rd_bytes, reader_of; cbn [rd_chunks]. fold s' in G1, G3. rewrite G1. f_equal. rewrite <-G3, app_nil_r.
    assert (∀ l, concat (List.filter nonempty l) = concat l) as ->; [|done].
    induction l as [|[|b bs] l IH]; [done|done|]. simpl. by rewrite IH.
  - unfold reader_of; cbn [rd_end]. fold s' in G1, G2. by rewrite G1, G2.
Qed.

Lemma deref_closeAllStreams_closed e c s :
  wf_conn c → deref c p = Some s → s_closed s = true → deref (closeAllStreams e c) p = Some s.
Proof.
  intros Hwf Hat Hc. unfold closeAllStreams.
  assert (∀ q, q ∈ (map_to_list (c_streams c)).*2 → q ≠ p) as Hq.
  { intros q Hq ->. apply list_elem_of_fmap in Hq as ([i q'] & E & Hin). cbn in E. subst q'.
    apply elem_of_map_to_list in Hin. destruct (wfc_map _ Hwf _ _ Hin) as (s0 & Hs0 & _ & Hc0). congruence. }
  induction ((map_to_list (c_streams c)).*2) as [|q l IH]; [done|]. cbn [foldr].
  rewrite deref_upd_ne; [|by apply not_eq_sym, Hq; left]. apply IH. intros q' Hin. by apply Hq; right.
Qed.

(** The end of the transport, for a stream that is open or not. *)
Lemma live_ends c s : live id p c [] s →
  ∃ s', live id p (readLoop_fail fail c) [] s' ∧ reader_of id s' [] = reader_of id s [] ∧
    sent id (readLoop_fail fail c) = sent id c ∧ (s_closed s = true → s_closed s' = true).
Proof.
  intros Hl. destruct (s_closed s) eqn:Hc.
  2: { destruct (live_fail fail id p c s Hl Hc) as (s' & ? & ? & ? & ?). eauto 6. }
  exists s. destruct Hl as [Hwf Hat Hid Hop Hin]. unfold readLoop_fail.
  assert (wf_conn (with_reader (c_readerStarted c) (Some fail) c)) as Hwf0 by by apply wf_conn_ext with c.
  split_and!; [|done| |done].
  - split; [by apply wf_closeAllStreams|by apply deref_closeAllStreams_closed|done|congruence|done].
  - unfold sent, closeAllStreams.
    by destruct (closeAll_frame (closeWithError (Some (Sentinel protocol_ErrDeviceClosed)))
      (map_to_list (c_streams (with_reader (c_readerStarted c) (Some fail) c))).*2
      (with_streams ∅ (with_reader (c_readerStarted c) (Some fail) c))) as (_ & -> & _).
Qed.

(** ** One read and one write *)

Lemma Read_bytes r k r' bs err :
  GoIO.Read r k = (r', (bs, err)) →
  rd_bytes r = bs ++ rd_bytes r' ∧ rd_end r' = rd_end r ∧
  (err = None ∨ err = Some (rd_end r) ∧ rd_bytes r = [] ∧ bs = []).
Proof.
  unfold GoIO.Read, rd_bytes. destruct r as [[|c cs] fin]; cbn [rd_chunks rd_end concat].
  - intros [= <- <- <-]. split_and!; auto.
  - destruct (length c <=? k)%nat; intros [= <- <- <-]; cbn [rd_chunks rd_end concat]; [by split_and!; auto|].
    rewrite app_assoc, take_drop. by split_and!; auto.
Qed.

Lemma copy_chunk_written `{WriterOk U} (v : U) bs v' err :
  copy_chunk v bs = (v', err) →
  ∃ n, written v' = written v ++ take n bs ∧ (err = None → take n bs = bs).
Proof.
  unfold copy_chunk. destruct bs as [|b bs]; [intros [= <- <-]; exists 0%nat; by rewrite app_nil_r|].
  cbn [length Nat.ltb Nat.leb]. destruct (GoIO.Write v (b :: bs)) as [v1 [n e]] eqn:E.
  destruct (Write_spec _ _ _ _ _ E) as [Hn Hw]. intros [= <- <-]. exists n. split; [done|].
  destruct e; [done|]. destruct (Nat.eqb_spec n (S (length bs))) as [->|]; [|done]. intros _. by rewrite take_ge.
Qed.

(** ** The invariant *)

Section invariant.
Variables U0 D0 : list byte.     (* all that each side has to say *)

(** What was sent, is held and is still to be read, and so for what was given
    to the host; a copy that ended without an error left nothing. *)
Definition up_ok (t : tunnel) : Prop := ∃ rest,
  U0 = sent id (tn_conn t) ++ held (tn_up t) ++ rest ∧
  (result_of (tn_up t) = None → rest = rd_bytes (tn_in t)) ∧ (result_of (tn_up t) = Some None → rest = []).

Definition down_ok (s : Stream) (t : tunnel) : Prop := ∃ rest,
  let r := reader_of id s (tn_coming t) in
  D0 = written (tn_out t) ++ held (tn_down t) ++ rest ∧
  (result_of (tn_down t) = None →
     ∃ lost, rest = rd_bytes r ++ lost ∧ (lost = [] ∨ rd_end r = Sentinel io_ErrClosedPipe)) ∧
  (result_of (tn_down t) = Some None → rest = []).

Definition once_ok (s : Stream) (t : tunnel) : Prop :=
  match tn_once t with
  | Fresh => ∀ d err, pc_of d t ≠ Closing err ∧ pc_of d t ≠ Left err
  | Running => tn_closed t = true ∧ (∃ d err, pc_of d t = Closing err) ∧ ∀ d err, pc_of d t ≠ Left err
  | Finished => tn_closed t = true ∧ s_closed s = true
  end.

Record tunnel_ok (t : tunnel) (s : Stream) : Prop := {
  tk_live : live id p (tn_conn t) (tn_coming t) s;
  tk_up : up_ok t;
  tk_down : down_ok s t;
  tk_once : once_ok s t;
}.

(** What a step of the connection may do to the stream's reader: nothing, or
    end it early with the error of [Close]. *)
Definition same_or_cut (r r' : Reader) : Prop :=
  r' = r ∨ rd_end r' = Sentinel io_ErrClosedPipe ∧ ∃ lost, rd_bytes r = rd_bytes r' ++ lost.

Lemma tunnel_conn t s c ms s' :
  tunnel_ok t s → live id p c ms s' → sent id c = sent id (tn_conn t) →
  same_or_cut (reader_of id s (tn_coming t)) (reader_of id s' ms) → (s_closed s = true → s_closed s' = true) →
  tunnel_ok (with_conn c ms t) s'.
Proof.
  intros [Hl Hu (rest & E & Hn & Hd) Ho] Hl' Hs Hr Hc. split; [done| | |].
  - unfold up_ok in *. cbn. by rewrite Hs.
  - exists rest. cbn -[reader_of rd_bytes]. split_and!; [done| |done]. intros Hres. destruct (Hn Hres) as (lost & -> & Hlost).
    destruct Hr as [->|(He & lost' & ->)]; [by exists lost|].
    exists (lost' ++ lost). rewrite app_assoc. auto.
  - unfold once_ok in *. cbn. destruct (tn_once t); [done|done|]. destruct Ho. auto.
Qed.

(** A goroutine that goes on copying, or returns from its copy. *)
Definition copies (pc : copy_pc) : Prop := ∀ err, pc ≠ Closing err ∧ pc ≠ Left err.

Lemma once_with_pc d pc s t :
  copies (pc_of d t) → copies pc → once_ok s t → once_ok s (with_pc d pc t).
Proof.
  intros Hold Hnew. unfold once_ok. assert (tn_once (with_pc d pc t) = tn_once t) as -> by by destruct d.
  assert (tn_closed (with_pc d pc t) = tn_closed t) as -> by by destruct d.
  assert (∀ d', pc_of d' (with_pc d pc t) = pc ∧ d' = d ∨ pc_of d' (with_pc d pc t) = pc_of d' t ∧ d' ≠ d) as Hpc
    by (intros []; destruct d; cbn; auto).
  destruct (tn_once t); [| |done].
  - intros Hf d' err. destruct (Hpc d') as [[-> _]|[-> _]]; auto.
  - intros (Hcl & (d' & err & E) & Hl). split; [done|]. split.
    + exists d', err. destruct (Hpc d') as [[_ ->]|[-> _]]; [by destruct (Hold err)|done].
    + intros d2 err2. destruct (Hpc d2) as [[-> _]|[-> _]]; [by apply Hnew|apply Hl].
Qed.

Lemma copies_after_read bs err : copies (after_read bs err).
Proof. unfold after_read. destruct err; [done|]. by destruct (nonempty bs). Qed.
Lemma copies_after_write err : copies (after_write err).
Proof. by destruct err. Qed.
Hint Resolve copies_after_read copies_after_write : core.

(** A read of a reader, where the copy's rest is what that reader has. *)
Lemma after_read_rest (r : Reader) k r' bs err lost :
  GoIO.Read r k = (r', (bs, err)) →
  (lost = [] ∨ rd_end r = Sentinel io_ErrClosedPipe) →
  rd_bytes r ++ lost = held (after_read bs err) ++ (rd_bytes r' ++ lost) ∧
  (result_of (after_read bs err) = Some None → rd_bytes r' ++ lost = []).
Proof.
  intros E Hlost. destruct (Read_bytes _ _ _ _ _ E) as (Hb & He & [->|(-> & Hnil & ->)]).
  - rewrite Hb, <-app_assoc. unfold after_read, nonempty. case_bool_decide as Hbs; [done|].
    assert (bs = []) as -> by (destruct bs; naive_solver). done.
  - cbn in Hb. rewrite Hnil in Hb. rewrite Hnil, <-Hb. cbn. split; [done|].
    case_bool_decide as Heof; [|done]. intros _. destruct Hlost as [->|Hc]; [done|]. congruence.
Qed.

Lemma tunnel_up_read t s : tunnel_ok t s → tn_up t = Copying → tunnel_ok (up_read t) s.
Proof.
  intros [Hl (rest & E & Hn & _) Hd Ho] Hpc. rewrite Hpc in E, Hn. cbn in E. unfold up_read. destruct (tn_closed t) eqn:Hc.
  - split; [done| |done|]; [|apply (once_with_pc Up); [by cbn; rewrite Hpc|auto|done]].
    exists rest. cbn. by split_and!.
  - destruct (GoIO.Read (tn_in t) copy_buffer) as [r [bs err]] eqn:ER.
    destruct (after_read_rest _ _ _ _ _ [] ER) as [Hb He]; [by left|]. rewrite !app_nil_r in *.
    split; [done| |done|].
    + exists (rd_bytes r). cbn. rewrite <-Hb, <-(Hn eq_refl). split_and!; [done|done|done].
    + pose proof (once_with_pc Up (after_read bs err) s t) as H'. cbn in H'. rewrite Hpc in H'.
      unfold once_ok in *. cbn in *. rewrite Hc in *. by apply H'.
Qed.

Lemma up_write_connection t bs s :
  live id p (tn_conn t) (tn_coming t) s →
  ∃ c n err, up_write bs t = with_pc Up (after_write err) (with_conn c (tn_coming t) t) ∧
    live id p c (tn_coming t) s ∧ sent id c = sent id (tn_conn t) ++ take n bs ∧ (err = None → take n bs = bs) ∧
    (s_closed s = true → bs ≠ [] → err ≠ None).
Proof.
  intros Hl. unfold up_write. destruct (copy_chunk (tn_conn t, p) bs) as [[c q] err] eqn:E.
  destruct (copy_chunk_written (tn_conn t, p) bs (c, q) err E) as (n & Hw & Hn). exists c, n, err.
  assert (live id p c (tn_coming t) s ∧ q = p ∧ (s_closed s = true → bs ≠ [] → err ≠ None)) as (Hl' & -> & Hcl).
  { unfold copy_chunk in E. destruct (0 <? length bs)%nat eqn:Elen.
    2:{ injection E as <- <- <-. split_and!; [done|done|]. intros _ Hne. by destruct bs. }
    unfold GoIO.Write, stream_write in E; cbn [fst snd] in E.
    destruct (Stream.Write p bs (tn_conn t)) as [c' r] eqn:EW.
    assert (live id p c' (tn_coming t) s ∧ (s_closed s = true → ∃ e, r = Err e)) as [Hl' Hr].
    { unfold Stream.Write in EW. rewrite (live_at _ _ _ _ _ Hl) in EW.
      destruct (s_closed s); [injection EW as <- <-; eauto|].
      destruct (s_remoteID s =? 0); [injection EW as <- <-; eauto|].
      set (m := mkMessage _ _ _ _) in EW. pose proof (live_others id p m _ _ _ Hl) as Hl'.
      destruct (writeMessage m (tn_conn t)) as [c1 werr]. split; [|done]. destruct werr; by injection EW as <- <-. }
    destruct r as [k|e]; injection E as <- <- <-; split_and!; try done.
    intros Hc. by destruct (Hr Hc). }
  rewrite (live_sent_written _ _ _ _ _ Hl'), (live_sent_written _ _ _ _ _ Hl) in Hw. by split_and!.
Qed.

Lemma tunnel_up_write t s bs : tunnel_ok t s → tn_up t = Holding bs → tunnel_ok (up_write bs t) s.
Proof.
  intros [Hl (rest & E & Hn & _) Hd Ho] Hpc. rewrite Hpc in E, Hn. cbn in E.
  destruct (up_write_connection t bs s Hl) as (c & n & err & -> & Hl' & Hs & Hok & _).
  split; [done| |done|].
  - unfold up_ok. cbn. rewrite Hs. destruct err as [e|].
    + exists (drop n bs ++ rest). cbn. split_and!; [|done..].
      rewrite E. rewrite <-!app_assoc. f_equal. by rewrite (app_assoc (take n bs)), take_drop.
    + exists rest. cbn. rewrite Hok by done. split_and!; [by rewrite <-app_assoc|done..].
  - apply (once_with_pc Up); cbn; [by rewrite Hpc|auto|done].
Qed.

Lemma tunnel_down_read t s c r :
  tunnel_ok t s → tn_down t = Copying → Stream.Read p copy_buffer (tn_conn t) = (c, Done r) →
  ∃ s', tunnel_ok (down_read c r t) s' ∧ s_closed s' = s_closed s.
Proof.
  intros [Hl Hu (rest & E & Hn & _) Ho] Hpc ER. rewrite Hpc in E, Hn. cbn in E.
  unfold Stream.Read in ER. rewrite (live_at _ _ _ _ _ Hl) in ER.
  destruct (Stream_Read copy_buffer s) as [s' r'] eqn:ES. injection ER as Ec ->.
  destruct (live_read_done id p copy_buffer (tn_coming t) (tn_conn t) s s' r) as (_ & ER & Hl'); [by unfold copy_buffer; lia|done|done|].
  rewrite Ec in Hl'. exists s'. assert (s_closed s' = s_closed s) as Hcl.
  { destruct (Stream_Read_answers id copy_buffer s (tn_coming t) s' r) as (_ & _ & Es'); [unfold copy_buffer; lia|done|]. by rewrite Es'. }
  split; [|done]. destruct (Hn eq_refl) as (lost & -> & Hlost).
  unfold down_read. destruct (answer r) as [bs err].
  destruct (after_read_rest _ _ _ _ _ lost ER Hlost) as [Hb He]. destruct (Read_bytes _ _ _ _ _ ER) as (_ & Hend & _).
  split; [done| | |].
  - unfold up_ok in *. cbn. rewrite <-Ec. done.
  - exists (rd_bytes (reader_of id s' (tn_coming t)) ++ lost). cbn -[reader_of rd_bytes after_read]. rewrite <-Hb. split_and!; [done| |done].
    intros _. exists lost. by rewrite Hend.
  - apply (once_with_pc Down); cbn; [by rewrite Hpc|auto|]. unfold once_ok in *. cbn. by rewrite Hcl.
Qed.

Lemma tunnel_down_write t s bs : tunnel_ok t s → tn_down t = Holding bs → tunnel_ok (down_write bs t) s.
Proof.
  intros [Hl Hu (rest & E & Hn & _) Ho] Hpc. rewrite Hpc in E, Hn. cbn in E, Hn.
  unfold down_write. destruct (tn_closed t) eqn:Hc.
  - split; [done|done| |apply (once_with_pc Down); [by cbn; rewrite Hpc|auto|done]]. exists (bs ++ rest). by split_and!.
  - destruct (copy_chunk (tn_out t) bs) as [v err] eqn:EW.
    destruct (copy_chunk_written _ _ _ _ EW) as (n & Hw & Hok). split; [done|done| |].
    + unfold down_ok. cbn. rewrite Hw. destruct err as [e|].
      * exists (drop n bs ++ rest). cbn. split_and!; [|done..].
        rewrite E. rewrite <-!app_assoc. f_equal. by rewrite (app_assoc (take n bs)), take_drop.
      * exists rest. cbn. rewrite Hok by done. split_and!; [by rewrite <-app_assoc| |done]. exact Hn.
    + pose proof (once_with_pc Down (after_write err) s t) as H'. cbn in H'. rewrite Hpc in H'.
      unfold once_ok in *. cbn in *. rewrite Hc in *. by apply H'.
Qed.

Lemma tunnel_Close t s : tunnel_ok t s →
  ∃ s', tunnel_ok (with_conn (Close p (tn_conn t)) (tn_coming t) t) s' ∧ s_closed s' = true.
Proof.
  intros Hk. destruct (live_Close id p _ _ _ (tk_live t s Hk)) as (s' & Hl' & Hc & Hs & Hold & Hnew).
  exists s'. split; [|done]. eapply tunnel_conn; [done..| |done].
  destruct (s_closed s) eqn:E; [left; by rewrite Hold|]. right. rewrite (Hnew eq_refl).
  destruct (reader_of_closed (tn_coming t) s E) as [Hb He]. split; [done|]. eauto.
Qed.

Lemma tunnel_packet t s m ms c :
  tunnel_ok t s → tn_coming t = m :: ms → handleStreamMessage m (tn_conn t) = Done c →
  ∃ s', tunnel_ok (with_conn c ms t) s' ∧ (s_closed s = true → s_closed s' = true).
Proof.
  intros Hk Hc E. pose proof (tk_live t s Hk) as Hl. rewrite Hc in Hl.
  pose proof (live_packet id p m ms _ s Hl) as Ht. unfold taken in Ht. rewrite E in Ht.
  destruct Ht as (s' & Hl' & Hr). exists s'.
  assert (s_closed s = true → s_closed s' = true) as Hcl.
  { intros Hs. pose proof (live_in _ _ _ _ _ Hl) as [[Ho _] _]%Forall_cons.
    destruct (handle_frame id p m _ c Ho (live_wf _ _ _ _ _ Hl) E) as (_ & Hd & _).
    assert (deref c p = deref (tn_conn t) p) as Hp.
    { apply Hd. intros Hq. destruct (wfc_map _ (live_wf _ _ _ _ _ Hl) _ _ Hq) as (s0 & Hs0 & _ & Hc0).
      rewrite (live_at _ _ _ _ _ Hl) in Hs0. congruence. }
    rewrite (live_at _ _ _ _ _ Hl), (live_at _ _ _ _ _ Hl') in Hp. congruence. }
  split; [|done]. eapply tunnel_conn; [done..|by eapply live_sent| |done]. left. by rewrite Hc.
Qed.

Lemma tunnel_close_conn t s d err :
  tunnel_ok t s → pc_of d t = Returned err → tn_once t = Fresh →
  tunnel_ok (with_pc d (Closing err) (with_once Running (close_host t))) s.
Proof.
  intros [Hl (r1 & E1 & N1 & D1) (r2 & E2 & N2 & D2) Ho] Hpc Hf. unfold once_ok in Ho. rewrite Hf in Ho.
  split; [by destruct d|exists r1|exists r2|].
  - destruct d; cbn in *; [|by split_and!]. rewrite Hpc in E1, N1, D1. by split_and!.
  - destruct d; cbn -[reader_of rd_bytes] in *; [by split_and!|]. rewrite Hpc in E2, N2, D2. by split_and!.
  - unfold once_ok. assert (tn_once (with_pc d (Closing err) (with_once Running (close_host t))) = Running) as -> by by destruct d.
    split_and!; [by destruct d|exists d, err; by destruct d|].
    intros d' err'. destruct d, d'; cbn; try done; [apply (Ho Down err')|apply (Ho Up err')].
Qed.

Lemma tunnel_close_stream t s d err :
  tunnel_ok t s → pc_of d t = Closing err →
  ∃ s', tunnel_ok (with_pc d (Left err) (with_once Finished (with_conn (Close p (tn_conn t)) (tn_coming t) t))) s' ∧
    s_closed s' = true.
Proof.
  intros Hk Hpc. assert (tn_closed t = true) as Hcl.
  { pose proof (tk_once t s Hk) as Ho. unfold once_ok in Ho. destruct (tn_once t); [|by destruct Ho..].
    by destruct (Ho d err). }
  destruct (tunnel_Close t s Hk) as (s' & [Hl (r1 & E1 & N1 & D1) (r2 & E2 & N2 & D2) _] & Hc). exists s'. split; [|done].
  split; [by destruct d|exists r1|exists r2|].
  - destruct d; cbn in *; [|by split_and!]. rewrite Hpc in E1, N1, D1. by split_and!.
  - destruct d; cbn -[reader_of rd_bytes] in *; [by split_and!|]. rewrite Hpc in E2, N2, D2. by split_and!.
  - unfold once_ok. by destruct d.
Qed.

Lemma tunnel_pass t s d err :
  tunnel_ok t s → pc_of d t = Returned err → tn_once t = Finished → tunnel_ok (with_pc d (Left err) t) s.
Proof.
  intros [Hl (r1 & E1 & N1 & D1) (r2 & E2 & N2 & D2) Ho] Hpc Hf. unfold once_ok in Ho. rewrite Hf in Ho.
  split; [by destruct d|exists r1|exists r2|].
  - destruct d; cbn in *; [|by split_and!]. rewrite Hpc in E1, N1, D1. by split_and!.
  - destruct d; cbn -[reader_of rd_bytes] in *; [by split_and!|]. rewrite Hpc in E2, N2, D2. by split_and!.
  - unfold once_ok. by destruct d; cbn; rewrite Hf.
Qed.

Lemma tunnel_step_ok t t' s : tunnel_ok t s → tstep t t' → ∃ s', tunnel_ok t' s'.
Proof.
  intros Hk Hs. destruct Hs as [t m ms c E1 E2|t E|t E|t bs E|t c r E1 E2|t bs E|t d err E1 E2|t d err E|t d err E1 E2|t|t|t m E].
  - destruct (tunnel_packet t s m ms c Hk E1 E2) as (s' & ? & _). eauto.
  - pose proof (tk_live t s Hk) as Hl. rewrite E in Hl. destruct (live_ends _ _ Hl) as (s' & Hl' & Hr & Hsent & Hc).
    exists s'. eapply tunnel_conn; [done..| |done]. left. by rewrite E.
  - exists s. by apply tunnel_up_read.
  - exists s. by apply tunnel_up_write.
  - destruct (tunnel_down_read t s c r Hk E1 E2) as (s' & ? & _). eauto.
  - exists s. by apply tunnel_down_write.
  - exists s. by apply tunnel_close_conn.
  - destruct (tunnel_close_stream t s d err Hk E) as (s' & ? & _). eauto.
  - exists s. by apply tunnel_pass.
  - exists s. destruct Hk as [Hl Hu Hd Ho]. split; [done..|]. unfold once_ok in *. cbn. destruct (tn_once t); [done| |]; naive_solver.
  - destruct (tunnel_Close t s Hk) as (s' & ? & _). eauto.
  - exists s. eapply tunnel_conn; [done|by apply live_others, Hk|by apply sent_writeMessage|by left|done].
Qed.

Lemma tunnel_run_ok t t' s : tunnel_ok t s → rtc tstep t t' → ∃ s', tunnel_ok t' s'.
Proof.
  intros Hk Hr. revert s Hk. induction Hr as [t|t t1 t' Hs Hr IH]; intros s Hk; [eauto|].
  destruct (tunnel_step_ok t t1 s Hk Hs) as [s1 Hk1]. by eapply IH.
Qed.
End invariant.

(** All that the host sends behind what was sent, and all that the device does. *)
Definition host_says (t : tunnel) : list byte := sent id (tn_conn t) ++ rd_bytes (tn_in t).
Definition device_says (s : Stream) (t : tunnel) : list byte :=
  written (tn_out t) ++ pending s ++ concat (arrivals id (tn_coming t)).

Lemma begins_ok t s : begins t s → tunnel_ok (host_says t) (device_says s t) t s.
Proof.
  intros (Hl & Hc & Hcl & Hu & Hd & Ho). split; [done|exists (rd_bytes (tn_in t))|exists (rd_bytes (reader_of id s (tn_coming t)))|].
  - rewrite Hu. by split_and!.
  - rewrite Hd. cbn -[reader_of rd_bytes]. split_and!; [|intros _; exists []; rewrite app_nil_r; auto|done].
    unfold device_says. by rewrite rd_bytes_reader_of.
  - unfold once_ok. rewrite Ho. intros []; cbn; by rewrite ?Hu, ?Hd.
Qed.

(** C23: what a bridge carries.  Whatever the order in which the two copies, the
    reader goroutine, a close from outside and the connection's other users
    advance, what was sent to the device is a prefix of what the host sends, and
    what the host was given a prefix of what the device sends on the stream up
    to its CLSE: no byte is lost in the middle, repeated or changed.  A copy that
    ends without an error has carried all of it; and when both goroutines are
    through, both sides are closed. *)
Theorem tunnel_carries_bytes (t t' : tunnel) (s : Stream) :
  begins t s → rtc tstep t t' →
  sent id (tn_conn t') `prefix_of` host_says t ∧
  written (tn_out t') `prefix_of` device_says s t ∧
  (result_of (tn_up t') = Some None → sent id (tn_conn t') = host_says t) ∧
  (result_of (tn_down t') = Some None → written (tn_out t') = device_says s t) ∧
  (∀ d err, pc_of d t' = Left err →
     tn_closed t' = true ∧ ∃ s', deref (tn_conn t') p = Some s' ∧ s_closed s' = true).
Proof.
  intros Hb Hr. destruct (tunnel_run_ok _ _ _ _ _ (begins_ok t s Hb) Hr) as (s' & [Hl (r1 & E1 & _ & D1) (r2 & E2 & _ & D2) Ho]).
  cbn in E2. rewrite E1, E2. split_and!; [by apply prefix_app_r|by apply prefix_app_r| | |].
  - intros Hn. rewrite (D1 Hn). by destruct (tn_up t'); rewrite ?app_nil_r.
  - intros Hn. rewrite (D2 Hn). by destruct (tn_down t'); rewrite ?app_nil_r.
  - intros d err Hd. unfold once_ok in Ho. destruct (tn_once t').
    + by destruct (Ho d err).
    + by destruct Ho as (_ & _ & Hn), (Hn d err).
    + destruct Ho as [Hc Hs]. split; [done|]. exists s'. split; [apply Hl|done].
Qed.

(** ** The end of a bridge *)

(** A step that is only the goroutine [d]'s own: it waits for nothing from the
    device or the host. *)
Definition aside (d : direction) (t t' : tunnel) : Prop :=
  (∀ d', d' ≠ d → pc_of d' t' = pc_of d' t) ∧ tn_once t' = tn_once t ∧ tn_coming t' = tn_coming t ∧ tn_in t' = tn_in t.

#[local] Instance aside_preorder d : PreOrder (aside d).
Proof.
  split; [by intros t|]. intros t1 t2 t3 (A1 & A2 & A3 & A4) (B1 & B2 & B3 & B4).
  split_and!; [|congruence..]. intros d' Hd. by rewrite B1, A1.
Qed.

(** How far a goroutine is from its end once both sides are closed. *)
Definition stage (d : direction) (pc : copy_pc) : nat :=
  match pc, d with
  | Left _, _ => 0 | Returned _, _ | Closing _, _ => 1
  | Copying, Up | Holding _, Down => 2 | Copying, Down | Holding _, Up => 3
  end.

Lemma stage_after_write d e : (stage d (after_write (Some e)) = 1)%nat.
Proof. by destruct d. Qed.

Lemma closed_read t s :
  live id p (tn_conn t) (tn_coming t) s → s_closed s = true →
  ∃ c r, Stream.Read p copy_buffer (tn_conn t) = (c, Done r) ∧ (∀ bs, r = Ok bs → bs ≠ []).
Proof.
  intros Hl Hc. unfold Stream.Read. rewrite (live_at _ _ _ _ _ Hl).
  destruct (Stream_Read copy_buffer s) as [s' r] eqn:E. apply Stream_Read_spec in E as (_ & _ & E).
  destruct r as [r| |]; [|destruct E as (_ & _ & ?); congruence|done].
  eexists _, r. split; [done|]. intros bs ->. destruct E as (_ & Hne & _). apply Hne. unfold copy_buffer. lia.
Qed.

Lemma one_step_down U0 D0 d t s :
  tunnel_ok U0 D0 t s → tn_once t = Finished → (∀ err, pc_of d t ≠ Left err) →
  ∃ t' s', tstep t t' ∧ tunnel_ok U0 D0 t' s' ∧ aside d t t' ∧ (stage d (pc_of d t') < stage d (pc_of d t))%nat.
Proof.
  intros Hk Ho Hnl. pose proof (tk_once U0 D0 t s Hk) as Hcl. unfold once_ok in Hcl. rewrite Ho in Hcl.
  destruct Hcl as [Hc Hs]. pose proof (tk_live U0 D0 t s Hk) as Hl.
  assert (∀ t', tstep t t' → aside d t t' ∧ (stage d (pc_of d t') < stage d (pc_of d t))%nat →
    ∃ t' s', tstep t t' ∧ tunnel_ok U0 D0 t' s' ∧ aside d t t' ∧ (stage d (pc_of d t') < stage d (pc_of d t))%nat) as Hgo.
  { intros t' Hs' [Ha Hst]. destruct (tunnel_step_ok U0 D0 t t' s Hk Hs') as [s' ?]. by exists t', s'. }
  destruct (pc_of d t) as [|bs|err|err|err] eqn:Hpc; [destruct d|destruct d| | |by destruct (Hnl err)].
  - apply (Hgo (up_read t)); [by apply t_up_read|]. unfold up_read. rewrite Hc. by split; [split_and!; [intros []|..]|cbn; lia].
  - destruct (closed_read t s Hl Hs) as (c & r & E & Hr). apply (Hgo (down_read c r t)); [by apply t_down_read|].
    unfold down_read. destruct r as [bs|e]; cbn [answer after_read].
    + unfold nonempty. rewrite bool_decide_eq_true_2 by by apply Hr. by split; [split_and!; [intros []|..]|cbn; lia].
    + by split; [split_and!; [intros []|..]|cbn; lia].
  - destruct (up_write_connection t bs s Hl) as (c & n & err & E & _). apply (Hgo (up_write bs t)); [by apply t_up_write|].
    rewrite E. split; [by split_and!; [intros []|..]|]. destruct err; cbn; lia.
  - apply (Hgo (down_write bs t)); [by apply t_down_write|]. unfold down_write. rewrite Hc.
    by split; [split_and!; [intros []|..]|cbn; lia].
  - apply (Hgo (with_pc d (Left err) t)); [by apply t_pass|]. split; [|by destruct d; cbn; lia].
    destruct d; by split_and!; [intros []|..].
  - apply (Hgo _ (t_close_stream t d err Hpc)). split; [|by destruct d; cbn; lia].
    destruct d; by split_and!; [intros []|..].
Qed.

Lemma goes_through U0 D0 d n t s :
  (stage d (pc_of d t) ≤ n)%nat → tunnel_ok U0 D0 t s → tn_once t = Finished →
  ∃ t' s', rtc tstep t t' ∧ tunnel_ok U0 D0 t' s' ∧ aside d t t' ∧ ∃ err, pc_of d t' = Left err.
Proof.
  revert t s. induction n as [|n IH]; intros t s Hn Hk Ho; (destruct (pc_of d t) as [|bs|err|err|err] eqn:Hpc;
    [| | | |exists t, s; split_and!; [done|done|reflexivity|by exists err]]); try (destruct d; cbn in Hn; lia);
    (destruct (one_step_down U0 D0 d t s Hk Ho) as (t1 & s1 & Hs & Hk1 & Ha & Hst); [by rewrite Hpc|];
     rewrite Hpc in Hst; destruct (IH t1 s1) as (t' & s' & Hr & Hk' & Ha' & He); [lia|done|by destruct Ha as (_ & -> & _)|];
     exists t', s'; split_and!; [by eapply rtc_l|done|by etrans|done]).
Qed.

End tunnel.

(** ** Sample bridges *)

(** A bridge over the stream of [demo_open], with what the host sends. *)
Definition demo_tunnel (host : list byte) (ms : list Message) : tunnel (V := Buffer) :=
  mkTunnel demo_open ms (of_bytes host) (mkBuffer []) false Copying Copying Fresh.

Lemma demo_begins host ms : Forall (for_stream 1) ms →
  ∃ s, begins 1 0 (demo_tunnel host ms) s ∧ device_says 1 s (demo_tunnel host ms) = bytes_of "hello " ++ concat (arrivals 1 ms).
Proof.
  intros Hms. destruct (deref demo_open 0) as [s|] eqn:Hs; [|by vm_compute in Hs]. exists s.
  assert (s_closed s = false ∧ pending s = bytes_of "hello " ∧ s_localID s = 1 ∧ c_streams demo_open !! 1 = Some 0%nat ∧ s_remoteID s ≠ 0)
    as (Hc & Hp & Hid & Hreg & Hrem) by (vm_compute in Hs; by injection Hs as <-).
  split; [|by unfold device_says; rewrite Hp]. split; [|done]. split; [apply demo_open_wf|done|done|done|done].
Qed.

(** The host says "abc", hangs up, and the device is cut short. *)
Definition demo_up : tunnel (V := Buffer) := up_read (up_write 0 (bytes_of "abc") (up_read (demo_tunnel (bytes_of "abc") []))).

Lemma demo_up_run : rtc (tstep (Sentinel io_EOF) 1 0) (demo_tunnel (bytes_of "abc") []) demo_up.
Proof.
  unfold demo_up. eapply rtc_l; [by apply t_up_read|]. eapply rtc_l; [apply (t_up_write _ _ _ _ (bytes_of "abc")); by vm_compute|].
  eapply rtc_l; [apply t_up_read; by vm_compute|]. reflexivity.
Qed.

Lemma tunnel_carries_bytes_witness :
  ∃ t', rtc (tstep (Sentinel io_EOF) 1 0) (demo_tunnel (bytes_of "abc") []) t' ∧
    result_of (tn_up t') = Some None ∧ sent 1 (tn_conn t') = bytes_of "abc".
Proof.
  destruct (demo_begins (bytes_of "abc") []) as (s & Hb & _); [done|].
  destruct (tunnel_carries_bytes (Sentinel io_EOF) 1 0 _ demo_up s Hb demo_up_run) as (_ & _ & Hu & _).
  assert (result_of (tn_up demo_up) = Some None) as Hn by by vm_compute.
  exists demo_up. split; [apply demo_up_run|]. split; [exact Hn|]. rewrite (Hu Hn). by vm_compute.
Defined.


(** What the host sends in one piece goes out in one packet, up to 32 KiB: more
    than the 4096 bytes that either end of a connection advertises here. *)
Lemma packets_exceed_the_limit :
  ∃ t m, rtc (tstep (Sentinel io_EOF) 1 0) (demo_tunnel (replicate 5000 Byte.x00) []) t ∧
    m ∈ c_out (tn_conn t) ∧ msg_Command m = CommandWRTE ∧ MaxPayload < Z.of_nat (length (msg_Payload m)).
Proof.
  exists (up_write 0 (replicate 5000 Byte.x00) (up_read (demo_tunnel (replicate 5000 Byte.x00) []))).
  exists (mkMessage CommandWRTE 1 7 (replicate 5000 Byte.x00)). split_and!.
  - eapply rtc_l; [by apply t_up_read|]. apply rtc_once, t_up_write. by vm_compute.
  - apply list_elem_of_lookup. exists (pred (length (c_out (tn_conn (up_write (V := Buffer) 0 (replicate 5000 Byte.x00)
      (up_read (demo_tunnel (replicate 5000 Byte.x00) []))))))). by vm_compute.
  - done.
  - by vm_compute.
Qed.
