(* ===== verification/Remote.v ===== *)
(** * client/client.go: commands over a connection

    Services runs the commands of a client against devices that are given by
    what each opened service will answer.  Here such an answer is the reader of
    a live stream of Link: the output of a shell command is what the packets of
    its stream carry, with the reader goroutine advancing in any way. *)

From S2P Require Import Prelude Errors GoStrings Strconv GoIO Message Handshake Stream Sync Link Services.

#[local] Open Scope string_scope.
#[local] Open Scope Z_scope.
#[local] Open Scope list_scope.

(** ** io.Copy, read by read *)

Fixpoint copy_client `{io_Writer V} (fuel : nat) (v : V) : client (option (V * option error)) :=
  match fuel with
  | O => Return None
  | S fuel =>
      Reading (Nat.pred copy_buffer) (λ '(bs, readErr),
        let '(v, werr) := copy_chunk v bs in
        match werr with
        | Some err => Return (Some (v, Some err))
        | None =>
            match readErr with
            | Some err => Return (Some (v, if bool_decide (err = Sentinel io_EOF) then None else Some err))
            | None => copy_client fuel v
            end
        end)
  end.

Lemma run_copy_client `{io_Writer V} fuel (v : V) r : (run_reader (copy_client fuel v) r).2 = io_Copy_loop fuel v r.
Proof.
  revert v r. induction fuel as [|fuel IH]; intros v r; [done|]. cbn [copy_client run_reader io_Copy_loop].
  rewrite Nat.succ_pred by (unfold copy_buffer; lia). destruct (GoIO.Read r copy_buffer) as [r' [bs readErr]].
  destruct (copy_chunk v bs) as [v' [err|]]; [done|]. destruct readErr; [done|apply IH].
Qed.

(** The fuel of [io_Copy]. *)
Definition copy_fuel (r : Reader) : nat := S (length (rd_bytes r) + length (rd_chunks r)).

Section command.
Variable fail : error.            (* how the transport ends *)
Variable sched : nat → nat.       (* how far the reader goroutine gets *)
Variable ms : list Message.       (* what the device sends once the stream is open *)
Variable remote : Z.              (* the device's ID of the stream *)
Variable c : Connection.

Hypothesis c_ok : wf_conn c.
Hypothesis c_healthy : c_werr c = [].
Hypothesis c_reading : c_readerStarted c = true → c_readerErr c = None.
Hypothesis remote_ok : remote ≠ 0.

Let id : Z := uint32 (c_nextLocalID c + 1).
Hypothesis ms_ok : Forall (for_stream id) ms.

(** How the stream ends: with the device's CLSE, or with the transport. *)
Definition command_end : option error :=
  if existsb (hangs_up id) ms then None else Some (Sentinel protocol_ErrDeviceClosed).

(** The device of Services that this connection is, for one service. *)
Definition connected_device `{io_Writer W} (w : W) : Device W :=
  mkDevice [Ok (reader_of id (mkStream id remote true None [] false None [] false) ms, w)] [].

(** C27: a shell command over a connection.  [OpenContext] sends the one OPEN of
    the command; [io.Copy] reads the stream while the reader goroutine takes the
    device's packets, however the two advance, and sends nothing; the output is
    what the packets carry up to the device's CLSE, all of it, and the error is
    nil behind a CLSE and [ErrDeviceClosed] when the transport ends first; then
    [Close] closes the stream.  The result is that of [Shell] of Services for a
    device that answers with this stream. *)
Theorem shell_over_a_connection `{io_Writer W} ctx cmd (w : W) :
  ctx_entry ctx = None → ctx_failing ctx = None →
  let service := "shell:" +++ cmd in
  let output := concat (arrivals id ms) in
  ∃ c2 c3 p c4 ms' fuel,
    OpenContext_start None service c = ((OpenContext_start None service c).1, Ok p) ∧
    handleStreamMessage (mkMessage CommandOKAY remote id []) (OpenContext_start None service c).1 = Done c2 ∧
    OpenContext_wait service p c2 = Done (c3, Ok p) ∧
    c_out c3 = c_out c ++ [mkMessage CommandOPEN id 0 (bytes_of (TrimSuffix service NUL +++ NUL))] ∧
    run_live fail p (copy_client fuel (mkBuffer [])) sched ms c3 = ((c4, ms'), Some (Some (mkBuffer output, command_end))) ∧
    sent id c4 = sent id c3 ∧
    (∃ s, deref (Stream.Close p c4) p = Some s ∧ s_closed s = true) ∧
    ∃ d, Shell ctx (Some (connected_device w)) cmd =
      Some (d, match command_end with Some err => Err (ErrorfW "adb shell %q: %w" [AStr cmd] err) | None => Ok output end).
Proof.
  intros Hentry Hfail service output.
  destruct (session_opens ms remote c c_ok c_healthy c_reading remote_ok ms_ok service)
    as (c3 & p & E1 & (c2 & E2 & E3) & (_ & Hl & Hc & _) & Hout). fold id in Hl, Hout. cbn [fst] in Hl.
  set (s := mkStream id remote true None [] false None [] false) in *.
  assert (rd_bytes (reader_of id s ms) = output) as Hbytes by by rewrite rd_bytes_reader_of.
  assert (copied (reader_of id s ms) = command_end) as Hend.
  { unfold copied, command_end, reader_of. cbn. by destruct (existsb (hangs_up id) ms). }
  assert (io_Copy (mkBuffer []) (reader_of id s ms) = Some (mkBuffer output, command_end)) as Hcopy
    by by rewrite io_Copy_buffer, Hbytes, Hend.
  destruct (run_live_refines fail id p (copy_client (copy_fuel (reader_of id s ms)) (mkBuffer [])) sched ms c3 s Hl)
    as (c4 & ms' & s' & E4 & _ & Hl' & Hs4).
  exists c2, c3, p, c4, ms', (copy_fuel (reader_of id s ms)). split_and!; [done..| |done| |].
  - rewrite E4, run_copy_client. do 2 f_equal. exact Hcopy.
  - destruct (live_Close id p _ _ _ Hl') as (s2 & Hl2 & Hc2 & _). exists s2. split; [apply Hl2|done].
  - unfold Shell, ShellStream, OpenService, connected_device. rewrite Hentry. cbn [dev_opens]. fold s. rewrite Hcopy, Hfail.
    by destruct command_end; eexists.
Qed.
End command.

(** ** A sample command *)

(** A device that prints in two packets, with an acknowledgement in between. *)
Definition demo_output : list Message :=
  [mkMessage CommandWRTE 9 1 (bytes_of "hel"); mkMessage CommandOKAY 9 1 [];
   mkMessage CommandWRTE 9 1 (bytes_of "lo"); mkMessage CommandCLSE 9 1 []].

Lemma shell_over_a_connection_witness :
  ∃ c3 p c4 ms' fuel,
    run_live (Sentinel io_EOF) p (copy_client fuel (mkBuffer [])) (λ i, i) demo_output c3
      = ((c4, ms'), Some (Some (mkBuffer (bytes_of "hello"), None))) ∧
    c_out c3 = [mkMessage CommandOPEN 1 0 (bytes_of ("shell:echo" +++ NUL))].
Proof.
  destruct (shell_over_a_connection (Sentinel io_EOF) (λ i, i) demo_output 9 (NewConnection []) (wf_NewConnection []) eq_refl
    ltac:(done) ltac:(done) ltac:(repeat constructor; by vm_compute) Background "echo" (mkBuffer []) eq_refl eq_refl)
    as (c2 & c3 & p & c4 & ms' & fuel & _ & _ & _ & Hout & E & _).
  exists c3, p, c4, ms', fuel. split; [etrans; [exact E|by vm_compute]|etrans; [exact Hout|by vm_compute]].
Defined.
