(* ===== verification/Cancel.v ===== *)
(** * client/client.go, protocol/connection.go: [closeOnCancel]

    A handshake, a shell command, a push and a pull wait for the device without
    looking at their context; a goroutine that is started beside them closes
    what they wait on when the context is done, and ends when they have.  Here
    are its steps and those of the operation beside it, in any order. *)

From S2P Require Import Prelude Errors.

#[local] Open Scope nat_scope.

(** ** The goroutine *)

(** The goroutine has not come to its [select]; waits in it; has chosen
    [ctx.Done()]; is through.  A [select] that already waits takes the channel
    that is ready first; one that is entered takes any that is ready. *)
Inductive watch := Spawned | Parked | Chosen | Ended.

(** The operation: it waits for packets of the device; it is inside
    [writeMessage], with the connection's [writeMu], and the transport takes
    nothing; [defer stopCancelCloser()] is to be run; it has returned; and
    whether it succeeded. *)
Inductive work := Waiting | Writing | Deferring (ok : bool) | Finished (ok : bool).

(** The [closer]: the connection of a handshake, or the stream of an operation.
    [Connection.Close] closes the transport; [Stream.Close] writes a CLSE first. *)
Inductive closer := OfConnection | OfStream.

Section guard.
Variable what : closer.

Record guard := mkGuard {
  gd_done : bool;       (* ctx.Done() is closed *)
  gd_stop : bool;       (* stop is closed *)
  gd_watch : watch;
  gd_work : work;
  gd_closed : bool;     (* closer.Close() was called *)
}.

(** [closeOnCancel] in front of the operation: there is no goroutine for a
    context that is never done, nor for a nil [closer]. *)
Definition closeOnCancel (cancelable : bool) : guard :=
  mkGuard false false (if cancelable then Spawned else Ended) Waiting false.

Definition with_watch (w : watch) (g : guard) : guard := mkGuard (gd_done g) (gd_stop g) w (gd_work g) (gd_closed g).
Definition with_work (w : work) (g : guard) : guard := mkGuard (gd_done g) (gd_stop g) (gd_watch g) w (gd_closed g).

(** The context is canceled, or its deadline passes. *)
Definition cancel (g : guard) : guard :=
  mkGuard true (gd_stop g) match gd_watch g with Parked => Chosen | w => w end (gd_work g) (gd_closed g).
(** The deferred [close(stop)]. *)
Definition stop (ok : bool) (g : guard) : guard :=
  mkGuard (gd_done g) true match gd_watch g with Parked => Ended | w => w end (Finished ok) (gd_closed g).
(** [closer.Close()]. *)
Definition close (g : guard) : guard := mkGuard (gd_done g) (gd_stop g) Ended (gd_work g) true.

(** The steps of the two goroutines that wait for no one outside.  Closing a
    stream waits for [writeMu].  A closed transport answers with an error
    whatever the operation waits for, a closed stream what waits for packets. *)
Inductive own : guard → guard → Prop :=
  | o_park g : gd_watch g = Spawned → gd_done g = false → gd_stop g = false → own g (with_watch Parked g)
  | o_done g : gd_watch g = Spawned → gd_done g = true → own g (with_watch Chosen g)
  | o_stop g : gd_watch g = Spawned → gd_stop g = true → own g (with_watch Ended g)
  | o_close g : gd_watch g = Chosen → (what = OfStream → gd_work g ≠ Writing) → own g (close g)
  | o_fails g : gd_work g = Waiting → gd_closed g = true → own g (with_work (Deferring false) g)
  | o_write_fails g : gd_work g = Writing → what = OfConnection → gd_closed g = true → own g (with_work (Deferring false) g)
  | o_defer g ok : gd_work g = Deferring ok → own g (stop ok g).

(** The world outside: the device sends what the operation waits for, or takes
    what it writes, behind which the operation goes on to its next packet or
    ends, and fails; whoever has the context cancels it. *)
Inductive outside : guard → guard → Prop :=
  | e_answers g w : gd_work g = Waiting ∨ gd_work g = Writing → gd_closed g = false → (∀ ok, w ≠ Finished ok) →
      outside g (with_work w g)
  | e_cancels g : outside g (cancel g).

Definition gstep (g g' : guard) : Prop := own g g' ∨ outside g g'.

(** ** What the goroutine does *)

Definition finished (w : work) : bool := match w with Finished _ => true | _ => false end.

Record guard_ok (g : guard) : Prop := {
  gk_closed : gd_closed g = true → gd_done g = true ∧ gd_watch g = Ended;
  gk_chosen : gd_watch g = Chosen → gd_done g = true;
  gk_parked : gd_watch g = Parked → gd_done g = false ∧ gd_stop g = false;
  gk_stop : gd_stop g = finished (gd_work g);
  gk_waiting : gd_watch g = Ended → gd_closed g = false → gd_stop g = true;
  gk_writing : gd_closed g = true → what = OfStream → gd_work g ≠ Writing;
}.

Lemma start_guard_ok : guard_ok (closeOnCancel true).
Proof. by split. Qed.

Lemma gstep_ok g g' : guard_ok g → gstep g g' → guard_ok g'.
Proof.
  intros Hg [Hs|Hs]; revert Hg;
    (destruct Hs as [x ? ? ?|x ? ?|x ? ?|x ? ?|x ? ?|x ? ? ?|x ok ?] || destruct Hs as [x k' ? ? ?|x]);
    destruct x as [d st w k cl]; cbn in *; subst; intros [G1 G2 G3 G4 G5 G6]; cbn in *;
    split; cbn; try done; intros; try destruct w; try destruct k'; cbn in *; intuition (congruence || eauto || by subst).
Qed.

Lemma guard_run_ok g g' : guard_ok g → rtc gstep g g' → guard_ok g'.
Proof. intros Hg Hr. induction Hr; eauto using gstep_ok. Qed.

(** Every own step brings one of the two goroutines closer to its end. *)
Definition left_to_do (g : guard) : nat :=
  match gd_watch g with Spawned => 3 | Parked => 2 | Chosen => 2 | Ended => 0 end +
  match gd_work g with Waiting | Writing => 2 | Deferring _ => 1 | Finished _ => 0 end.

Lemma own_decreases g g' : own g g' → left_to_do g' < left_to_do g.
Proof.
  intros [x ? ? ?|x ? ?|x ? ?|x ? ?|x ? ?|x ? ? ?|x ok ?]; destruct x as [d st w k cl]; unfold left_to_do; cbn in *; subst; cbn;
    try lia; destruct w; cbn; lia.
Qed.

(** The next own step, if there is one. *)
Definition own_next (g : guard) : option guard :=
  let operation :=
    match gd_work g, what with
    | Deferring ok, _ => Some (stop ok g)
    | Waiting, _ | Writing, OfConnection => if gd_closed g then Some (with_work (Deferring false) g) else None
    | Writing, OfStream | Finished _, _ => None
    end in
  match gd_watch g, gd_work g, what with
  | Spawned, _, _ => Some (with_watch (if gd_done g then Chosen else if gd_stop g then Ended else Parked) g)
  | Chosen, Writing, OfStream => None
  | Chosen, _, _ => Some (close g)
  | _, _, _ => operation
  end.

Definition at_rest (g : guard) : Prop := ∀ g', ¬ own g g'.

Lemma own_next_spec g : match own_next g with Some g' => own g g' | None => at_rest g end.
Proof.
  unfold own_next. destruct (gd_watch g) eqn:Ew, (gd_work g) eqn:Ek, what eqn:Eb, (gd_done g) eqn:Ed, (gd_stop g) eqn:Es, (gd_closed g) eqn:Ec;
    try (constructor; done); try (intros g' H; destruct H; intuition congruence); constructor; intuition congruence.
Qed.

Lemma comes_to_rest n g : left_to_do g ≤ n → ∃ g', rtc own g g' ∧ at_rest g'.
Proof.
  revert g. induction n as [|n IH]; intros g Hn; pose proof (own_next_spec g) as H;
    (destruct (own_next g) as [g1|]; [|by exists g]); pose proof (own_decreases _ _ H); [lia|].
  destruct (IH g1) as (g' & Hr & Hg'); [lia|]. exists g'. split; [by eapply rtc_l|done].
Qed.

Lemma own_bounded k g g' : nsteps own k g g' → k + left_to_do g' ≤ left_to_do g.
Proof. induction 1 as [g|k g1 g2 g3 Hs _ IH]; [lia|]. pose proof (own_decreases _ _ Hs). lia. Qed.

Lemma at_rest_inv g : guard_ok g → at_rest g →
  gd_watch g = Ended ∧ (∃ ok, gd_work g = Finished ok) ∨
  gd_done g = false ∧ gd_watch g = Parked ∧ (gd_work g = Waiting ∨ gd_work g = Writing) ∨
  what = OfStream ∧ gd_watch g = Chosen ∧ gd_work g = Writing.
Proof.
  intros Hg Hr. pose proof (own_next_spec g) as Hn. destruct (own_next g) as [g'|] eqn:E; [by destruct (Hr g')|].
  pose proof (gk_stop g Hg) as Hst.
  unfold own_next in E. destruct (gd_watch g) eqn:Ew; [done| | |].
  - destruct (gk_parked g Hg Ew) as [Hd Hs]. destruct (gd_work g) as [| |ok|ok] eqn:Ek; [by eauto 6|by eauto 6|by destruct what|].
    cbn in Hst. congruence.
  - destruct (gd_work g) eqn:Ek, what eqn:Eb; try done. by auto.
  - left. split; [done|]. destruct (gd_closed g) eqn:Ec.
    2: { rewrite (gk_waiting g Hg Ew Ec) in Hst. destruct (gd_work g); try done. eauto. }
    pose proof (gk_writing g Hg Ec) as Hw. destruct (gd_work g) eqn:Ek, what eqn:Eb; try done; eauto. by destruct Hw.
Qed.

Lemma ended_stays_open g g' : guard_ok g → rtc gstep g g' → gd_watch g = Ended → gd_closed g = false → gd_closed g' = false.
Proof.
  intros Hg Hr. induction Hr as [g|g g1 g' Hs Hr IH]; [done|]. intros Hw Hc.
  pose proof (gstep_ok _ _ Hg Hs). apply IH; [done| |]; clear IH Hr; revert Hw Hc; destruct Hs as [[]|[]]; cbn; intros Hw Hc;
    try congruence; by rewrite Hw.
Qed.


(** An operation that is over can still be cut.  The goroutine may come to
    its [select] late; if the operation has succeeded by then, and its context
    is canceled behind it, both channels are ready and it may take
    [ctx.Done()]: it closes the connection of a handshake that was already
    reported as a success. *)
Theorem success_can_be_closed :
  ∃ g g', rtc gstep (closeOnCancel true) g ∧ gd_work g = Finished true ∧ gd_done g = false ∧ gd_closed g = false ∧
    rtc own (cancel g) g' ∧ gd_work g' = Finished true ∧ gd_closed g' = true.
Proof.
  exists (mkGuard false true Spawned (Finished true) false), (mkGuard true true Ended (Finished true) true).
  split_and!; [|done..| |done|done].
  - eapply rtc_l; [right; apply (e_answers _ (Deferring true)); by auto|]. eapply rtc_l; [left; by apply (o_defer _ true)|]. reflexivity.
  - eapply rtc_l; [by apply o_done|]. eapply rtc_l; [by apply o_close|]. reflexivity.
Qed.
End guard.

(** A cancellation may wait for the device.  The transport takes nothing of
    a packet that an operation on a stream writes; the context is canceled; the
    goroutine waits for [writeMu], to write its CLSE, and neither of the two can
    go on before the device does. *)
Theorem stalled_write_is_not_released :
  ∃ g, rtc (gstep OfStream) (closeOnCancel true) g ∧ gd_done g = true ∧ gd_work g = Writing ∧ at_rest OfStream g.
Proof.
  exists (mkGuard true false Chosen Writing false). split_and!; [|done|done|].
  2: { intros g' H. inversion H; naive_solver. }
  eapply rtc_l; [right; apply (e_answers _ Writing); by auto|]. eapply rtc_l; [right; apply e_cancels|].
  eapply rtc_l; [left; by apply o_done|]. reflexivity.
Qed.

(** ** A sample run: a handshake, the device is silent, the context is canceled *)

