(* ===== verification/Reverses.v ===== *)
(** * internal/server/reverse_registry.go: the registry of reverses

    As for the forwards, every critical section is a function on the registry
    and a step relation interleaves them.  A creation, its entry, its client
    and its session have one number.  What connecting, registering and closing
    a session come to is an outcome of the environment. *)

From S2P Require Import Prelude Errors GoStrings Strconv Address ServerProtocol.

#[local] Open Scope string_scope.
#[local] Open Scope Z_scope.
#[local] Open Scope list_scope.

(** ** Data *)

(** [rv_LastError] is [None] for the empty string. *)
Record Reverse := mkReverse {
  rv_ID : string; rv_State : State; rv_Remote : string; rv_Local : string; rv_Target : ServerProtocol.ForwardTarget;
  rv_Norebind : bool; rv_CreatedAt : string; rv_ActiveConnections : nat; rv_LastError : option error;
}.

(** [re_session] tells whether [entry.session] is set. *)
Record reverseEntry := mkEntry { re_reverse : Reverse; re_session : bool }.

Record reverseRegistry := mkRegistry {
  rr_nextID : Z;
  rr_byID : gmap string nat;
  rr_byRemote : gmap string string;
  rr_entries : gmap nat reverseEntry;
  rr_clients : gset nat;                  (* connected clients *)
  rr_sessions : gset nat;                 (* registered sessions *)
  rr_closed_clients : gset nat;
  rr_closed_sessions : gset nat;
}.

Definition newReverseRegistry : reverseRegistry := mkRegistry 0 ∅ ∅ ∅ ∅ ∅ ∅ ∅.

Definition set_reverse (f : Reverse → Reverse) (en : reverseEntry) : reverseEntry :=
  mkEntry (f (re_reverse en)) (re_session en).
Definition with_status (state : State) (lastError : option error) (v : Reverse) : Reverse :=
  mkReverse (rv_ID v) state (rv_Remote v) (rv_Local v) (rv_Target v) (rv_Norebind v) (rv_CreatedAt v)
    (rv_ActiveConnections v) lastError.
Definition with_active (n : nat) (v : Reverse) : Reverse :=
  mkReverse (rv_ID v) (rv_State v) (rv_Remote v) (rv_Local v) (rv_Target v) (rv_Norebind v) (rv_CreatedAt v)
    n (rv_LastError v).

Definition with_entries (f : gmap nat reverseEntry → gmap nat reverseEntry) (r : reverseRegistry) : reverseRegistry :=
  mkRegistry (rr_nextID r) (rr_byID r) (rr_byRemote r) (f (rr_entries r)) (rr_clients r) (rr_sessions r)
    (rr_closed_clients r) (rr_closed_sessions r).

Definition close_client (e : nat) (r : reverseRegistry) : reverseRegistry :=
  mkRegistry (rr_nextID r) (rr_byID r) (rr_byRemote r) (rr_entries r) (rr_clients r) (rr_sessions r)
    ({[e]} ∪ rr_closed_clients r) (rr_closed_sessions r).
Definition close_session (e : nat) (r : reverseRegistry) : reverseRegistry :=
  mkRegistry (rr_nextID r) (rr_byID r) (rr_byRemote r) (rr_entries r) (rr_clients r) (rr_sessions r)
    (rr_closed_clients r) ({[e]} ∪ rr_closed_sessions r).

(** ** The registry *)

Section registry.
(** The error of closing a session. *)
Context (cleanup : nat → option error).

(** [removeLocked] of a pointer that may be nil. *)
Definition reverse_removeLocked (entry : option nat) (r : reverseRegistry) : option reverseRegistry :=
  e ← entry;
  en ← rr_entries r !! e;
  let v := re_reverse en in
  let status :=
    match re_session en, cleanup e with
    | true, Some err => with_status Degraded (Some (ErrorfV "cleanup failed: %v" [] err))
    | _, _ => with_status Stopped (rv_LastError v)
    end in
  let r := mkRegistry (rr_nextID r) (delete (rv_ID v) (rr_byID r)) (delete (rv_Remote v) (rr_byRemote r))
             (alter (set_reverse status) e (rr_entries r)) (rr_clients r) (rr_sessions r)
             (rr_closed_clients r) (rr_closed_sessions r) in
  Some (close_client e (if re_session en then close_session e r else r)).

Definition rebind_disallowed (remote : string) : Error :=
  mkError ErrorRebindDisallowed (Sprintf "reverse for remote endpoint %s already exists" [AStr remote]).

(** The first critical section of [create]. *)
Definition reverse_create_check (params : ReverseCreateParams) (r : reverseRegistry)
    : option (reverseRegistry * option Error) :=
  match validateReverseCreateParams params with
  | Some e => Some (r, Some e)
  | None =>
      match rr_byRemote r !! rc_Remote params with
      | None => Some (r, None)
      | Some existingID =>
          if rc_Norebind params then Some (r, Some (rebind_disallowed (rc_Remote params)))
          else r ← reverse_removeLocked (rr_byID r !! existingID) r; Some (r, None)
      end
  end.

(** The endpoints parsed between the sections. *)
Definition parse_endpoints (params : ReverseCreateParams) : result (ReverseDeviceEndpoint * ReverseHostEndpoint) :=
  match ParseReverseDeviceEndpoint (rc_Remote params) with
  | Err err => Bad (mkError ErrorUnsupportedEndpoint err)
  | Ok remote =>
      match ParseReverseHostEndpoint (rc_Local params) with
      | Err err => Bad (mkError ErrorUnsupportedEndpoint err)
      | Ok local => Good (remote, local)
      end
  end.

Definition connect (e : nat) (r : reverseRegistry) : reverseRegistry :=
  mkRegistry (rr_nextID r) (rr_byID r) (rr_byRemote r) (rr_entries r) ({[e]} ∪ rr_clients r) (rr_sessions r)
    (rr_closed_clients r) (rr_closed_sessions r).

Definition nextReverseID (r : reverseRegistry) : reverseRegistry * string :=
  let n := (rr_nextID r + 1) mod 2 ^ 64 in
  (mkRegistry n (rr_byID r) (rr_byRemote r) (rr_entries r) (rr_clients r) (rr_sessions r)
     (rr_closed_clients r) (rr_closed_sessions r), "rev_" +++ Itoa n).

Definition new_reverse (params : ReverseCreateParams) (id now : string) : Reverse :=
  mkReverse id Listening (rc_Remote params) (rc_Local params) (rc_Target params) (rc_Norebind params) now 0 None.

(** The entry with its ID, before the session. *)
Definition new_entry (params : ReverseCreateParams) (e : nat) (now : string) (r : reverseRegistry)
    : reverseRegistry * string :=
  let '(r, id) := nextReverseID r in
  (with_entries <[e := mkEntry (new_reverse params id now) false]> r, id).

(** The session is registered and stored in the entry. *)
Definition set_session (e : nat) (r : reverseRegistry) : reverseRegistry :=
  mkRegistry (rr_nextID r) (rr_byID r) (rr_byRemote r) (alter (λ en, mkEntry (re_reverse en) true) e (rr_entries r))
    (rr_clients r) ({[e]} ∪ rr_sessions r) (rr_closed_clients r) (rr_closed_sessions r).

(** The last critical section. *)
Definition reverse_create_commit (params : ReverseCreateParams) (e : nat) (r : reverseRegistry)
    : option (reverseRegistry * result Reverse) :=
  en ← rr_entries r !! e;
  let v := re_reverse en in
  let insert_entry (r : reverseRegistry) :=
    mkRegistry (rr_nextID r) (<[rv_ID v := e]> (rr_byID r)) (<[rv_Remote v := rv_ID v]> (rr_byRemote r))
      (rr_entries r) (rr_clients r) (rr_sessions r) (rr_closed_clients r) (rr_closed_sessions r) in
  match rr_byRemote r !! rc_Remote params with
  | Some existingID =>
      if rc_Norebind params
      then Some (close_client e (close_session e r), Bad (rebind_disallowed (rc_Remote params)))
      else r ← reverse_removeLocked (rr_byID r !! existingID) r; Some (insert_entry r, Good v)
  | None => Some (insert_entry r, Good v)
  end.

Definition reverses_of (r : reverseRegistry) : list Reverse :=
  omap (λ p, re_reverse <$> rr_entries r !! (p.2)) (map_to_list (rr_byID r)).

Record ReverseDiagnostics := mkReverseDiagnostics { rd_Total : nat; rd_Listening : nat; rd_Degraded : nat; rd_Active : nat }.

Definition count_reverses (s : State) (vs : list Reverse) : nat :=
  length (List.filter (λ v, bool_decide (rv_State v = s)) vs).

Definition reverse_diagnostics (r : reverseRegistry) : ReverseDiagnostics :=
  let vs := reverses_of r in
  mkReverseDiagnostics (size (rr_byID r)) (count_reverses Listening vs) (count_reverses Degraded vs)
    (sum_list (rv_ActiveConnections <$> vs)).

Definition reverse_remove (params : ReverseRemoveParams) (r : reverseRegistry)
    : option (reverseRegistry * result nat) :=
  let one_selector := bad_request "reverse_remove requires exactly one of id or remote" in
  let by_id id :=
    match rr_byID r !! id with
    | None => Some (r, Bad (mkError ErrorReverseNotFound (Sprintf "reverse not found" [])))
    | Some e => r ← reverse_removeLocked (Some e) r; Some (r, Good 1%nat)
    end in
  match rr_Remote params, (rr_ID params =? "")%string with
  | None, true | Some _, false => Some (r, Bad one_selector)
  | None, false => by_id (rr_ID params)
  | Some remote, true =>
      match validateReverseRemote remote with
      | Some e => Some (r, Bad e)
      | None => by_id (default "" (rr_byRemote r !! remote))
      end
  end.

Fixpoint reverse_remove_each (es : list nat) (r : reverseRegistry) : option reverseRegistry :=
  match es with
  | [] => Some r
  | e :: es => r ← reverse_removeLocked (Some e) r; reverse_remove_each es r
  end.

Definition reverse_removeAll (r : reverseRegistry) : option (reverseRegistry * nat) :=
  r' ← reverse_remove_each ((map_to_list (rr_byID r)).*2) r; Some (r', size (rr_byID r)).
End registry.

(** The callbacks of a session; nothing happens where the ID is not registered. *)
Definition recordReverseActive (e active : nat) (r : reverseRegistry) : reverseRegistry :=
  match rr_entries r !! e with
  | None => r
  | Some en =>
      match rr_byID r !! rv_ID (re_reverse en) with
      | None => r
      | Some _ =>
          with_entries (alter (set_reverse (λ v,
            let v := with_active active v in
            if bool_decide (rv_State v = Degraded) && bool_decide (rv_LastError v = None)
            then with_status Listening (rv_LastError v) v else v)) e) r
      end
  end.
Definition recordReverseError (e : nat) (message : error) (r : reverseRegistry) : reverseRegistry :=
  match rr_entries r !! e with
  | None => r
  | Some en =>
      match rr_byID r !! rv_ID (re_reverse en) with
      | None => r
      | Some _ => with_entries (alter (set_reverse (with_status Degraded (Some message))) e) r
      end
  end.

(** ** The two parsers of an endpoint *)

Lemma Cut_colon s a b : Cut s ":" = Some (a, b) → s = a +++ ":" +++ b.
Proof.
  revert a b. induction s as [|c s IH]; intros a b; [done|]. cbn [Cut].
  destruct (HasPrefix (String c s) ":") eqn:E.
  - apply HasPrefix_spec in E as [t E]. cbn in E. injection E as -> ->. cbn. by intros [= <- <-].
  - destruct (Cut s ":") as [[x y]|]; [|done]. intros [= <- <-]. cbn. f_equal. by apply IH.
Qed.

(** The server's check of a reverse endpoint and the client's parsers accept
    exactly the same texts, so an endpoint that passed the check never fails to
    parse in [create], and yields the port that was checked. *)
Theorem endpoint_checks_agree (kind s : string) :
  (validateTCPService kind s = None ↔ is_ok (ParseReverseDeviceEndpoint s) = true) ∧
  (validateTCPService kind s = None ↔ is_ok (ParseReverseHostEndpoint s) = true).
Proof.
  assert (∀ {A} (mk : Z → res A) (unsupported : res A) (bad : string → error → res A),
    is_ok unsupported = false → (∀ v e, is_ok (bad v e) = false) →
    (∀ p, is_ok (mk p) = negb ((p <? 1) || (65535 <? p))) →
    validateTCPService kind s = None ↔
    is_ok (match Cut (TrimSpace s) ":" with
           | Some (family, value) =>
               if negb (family =? "tcp")%string then unsupported
               else match Atoi value with Ok p => mk p | Err e => bad value e end
           | None => unsupported
           end) = true) as H.
  { intros A mk un bad Hu Hb Hm. unfold validateTCPService, CutPrefix.
    destruct (HasPrefix (TrimSpace s) "tcp:") eqn:E.
    - apply HasPrefix_spec in E as [v ->]. rewrite Cut_tcp. change (negb ("tcp" =? "tcp")%string) with false.
      cbn iota. change (str_drop (String.length "tcp:") ("tcp:" +++ v)) with v. change (negb true) with false. cbn iota.
      destruct (Atoi v) as [p|e]; [|rewrite Hb; done]. rewrite Hm. by destruct (_ || _).
    - split; [done|]. destruct (Cut (TrimSpace s) ":") as [[f v]|] eqn:EC; [|by rewrite Hu].
      destruct (f =? "tcp")%string eqn:Ef; [|cbn [negb]; by rewrite Hu]. apply String.eqb_eq in Ef as ->.
      apply Cut_colon in EC. rewrite EC in E. exfalso. clear -E. pose proof (HasPrefix_append "tcp:" v) as E'.
      change ("tcp:" +++ v) with ("tcp" +++ ":" +++ v) in E'. congruence. }
  split.
  - unfold ParseReverseDeviceEndpoint. apply H; [done|done|]. intros p. unfold ReverseDeviceTCP. by destruct (_ || _).
  - unfold ParseReverseHostEndpoint. apply H; [done|done|]. intros p. unfold ReverseHostTCP. by destruct (_ || _).
Qed.

(** ** The goroutines *)

(** A call of [create] between its critical sections; [e] is its client. *)
Inductive create_pc :=
  | RConnecting (params : ReverseCreateParams)
  | RConnected (params : ReverseCreateParams) (e : nat)
  | REntered (params : ReverseCreateParams) (e : nat)
  | RRegistered (params : ReverseCreateParams) (e : nat).

Definition pc_client (pc : create_pc) : option nat :=
  match pc with RConnecting _ => None | RConnected _ e | REntered _ e | RRegistered _ e => Some e end.
(** The entry, and whether its session is there. *)
Definition pc_entry (pc : create_pc) : option (ReverseCreateParams * nat * bool) :=
  match pc with
  | REntered params e => Some (params, e, false)
  | RRegistered params e => Some (params, e, true)
  | _ => None
  end.

Record world := mkWorld { rreg : reverseRegistry; rcreating : gmap nat create_pc; rfresh : nat }.

Definition set_rreg (r : reverseRegistry) (w : world) : world := mkWorld r (rcreating w) (rfresh w).

(** Every call of [removeLocked] has its own outcomes of closing the sessions. *)
Inductive rstep : world → world → Prop :=
  | r_create w t params cleanup r' :
      rcreating w !! t = None → reverse_create_check cleanup params (rreg w) = Some (r', None) →
      rstep w (mkWorld r' (<[t := RConnecting params]> (rcreating w)) (rfresh w))
  | r_create_refused w params cleanup r' e :
      reverse_create_check cleanup params (rreg w) = Some (r', Some e) → rstep w (set_rreg r' w)
  | r_connect_fails w t params :
      rcreating w !! t = Some (RConnecting params) →
      rstep w (mkWorld (rreg w) (delete t (rcreating w)) (rfresh w))
  | r_connect w t params :
      rcreating w !! t = Some (RConnecting params) →
      rstep w (mkWorld (connect (rfresh w) (rreg w)) (<[t := RConnected params (rfresh w)]> (rcreating w)) (S (rfresh w)))
  | r_parse_fails w t params e err :
      rcreating w !! t = Some (RConnected params e) → parse_endpoints params = Bad err →
      rstep w (mkWorld (close_client e (rreg w)) (delete t (rcreating w)) (rfresh w))
  | r_enter w t params e endpoints now :
      rcreating w !! t = Some (RConnected params e) → parse_endpoints params = Good endpoints →
      rstep w (mkWorld (fst (new_entry params e now (rreg w))) (<[t := REntered params e]> (rcreating w)) (rfresh w))
  | r_session_fails w t params e :
      rcreating w !! t = Some (REntered params e) →
      rstep w (mkWorld (close_client e (rreg w)) (delete t (rcreating w)) (rfresh w))
  | r_session w t params e :
      rcreating w !! t = Some (REntered params e) →
      rstep w (mkWorld (set_session e (rreg w)) (<[t := RRegistered params e]> (rcreating w)) (rfresh w))
  | r_commit w t params e cleanup r' res :
      rcreating w !! t = Some (RRegistered params e) →
      reverse_create_commit cleanup params e (rreg w) = Some (r', res) →
      rstep w (mkWorld r' (delete t (rcreating w)) (rfresh w))
  | r_remove w params cleanup r' res :
      reverse_remove cleanup params (rreg w) = Some (r', res) → rstep w (set_rreg r' w)
  | r_removeAll w cleanup r' n : reverse_removeAll cleanup (rreg w) = Some (r', n) → rstep w (set_rreg r' w)
  | r_active w e n : rstep w (set_rreg (recordReverseActive e n (rreg w)) w)
  | r_error w e msg : rstep w (set_rreg (recordReverseError e msg (rreg w)) w).

Definition rstart : world := mkWorld newReverseRegistry ∅ 0.

Definition reverse_panics (w : world) : Prop :=
  ∃ cleanup,
    (∃ params, reverse_create_check cleanup params (rreg w) = None) ∨
    (∃ t params e, rcreating w !! t = Some (RRegistered params e) ∧
       reverse_create_commit cleanup params e (rreg w) = None) ∨
    (∃ params, reverse_remove cleanup params (rreg w) = None) ∨ reverse_removeAll cleanup (rreg w) = None.

(** ** The invariant *)

(** A registered reverse has an open session on an open client and is found
    under its remote endpoint. *)
Definition reverse_ok (r : reverseRegistry) (id : string) (e : nat) (en : reverseEntry) : Prop :=
  let v := re_reverse en in
  rv_ID v = id ∧ rv_State v ≠ Stopped ∧ re_session en = true ∧
  e ∉ rr_closed_clients r ∧ e ∉ rr_closed_sessions r ∧ rr_byRemote r !! rv_Remote v = Some id.

Record reverses_ok (r : reverseRegistry) : Prop := {
  rok_byID id e : rr_byID r !! id = Some e → ∃ en, rr_entries r !! e = Some en ∧ reverse_ok r id e en;
  rok_byRemote k id : rr_byRemote r !! k = Some id →
    ∃ e en, rr_byID r !! id = Some e ∧ rr_entries r !! e = Some en ∧ rv_Remote (re_reverse en) = k;
  rok_degraded e en : rr_entries r !! e = Some en →
    rv_State (re_reverse en) = Degraded → rv_LastError (re_reverse en) ≠ None;
}.

Definition reverse_id (n : Z) : string := "rev_" +++ Itoa n.

(** The entry of a creation under way. *)
Definition pending_ok (r : reverseRegistry) (params : ReverseCreateParams) (e : nat) (session : bool) : Prop :=
  ∃ en, rr_entries r !! e = Some en ∧ re_session en = session ∧ rv_State (re_reverse en) ≠ Stopped ∧
    rv_Remote (re_reverse en) = rc_Remote params ∧ rr_byID r !! rv_ID (re_reverse en) = None ∧
    (∃ n, 1 ≤ n ≤ rr_nextID r ∧ rv_ID (re_reverse en) = reverse_id n) ∧
    e ∉ rr_closed_sessions r ∧ (session = false → e ∉ rr_sessions r).

Record rworld_ok (w : world) : Prop := {
  rok_reg : reverses_ok (rreg w);
  rok_client t pc e : rcreating w !! t = Some pc → pc_client pc = Some e →
    e ∈ rr_clients (rreg w) ∧ e ∉ rr_closed_clients (rreg w) ∧ (∀ id, rr_byID (rreg w) !! id ≠ Some e) ∧
    (pc_entry pc = None → rr_entries (rreg w) !! e = None ∧ e ∉ rr_sessions (rreg w) ∧ e ∉ rr_closed_sessions (rreg w));
  rok_owner t t' pc pc' e : rcreating w !! t = Some pc → rcreating w !! t' = Some pc' →
    pc_client pc = Some e → pc_client pc' = Some e → t = t';
  rok_entry t pc params e s : rcreating w !! t = Some pc → pc_entry pc = Some (params, e, s) → pending_ok (rreg w) params e s;
  rok_unique t t' pc pc' p p' e e' s s' en en' :
    rcreating w !! t = Some pc → rcreating w !! t' = Some pc' →
    pc_entry pc = Some (p, e, s) → pc_entry pc' = Some (p', e', s') →
    rr_entries (rreg w) !! e = Some en → rr_entries (rreg w) !! e' = Some en' →
    rv_ID (re_reverse en) = rv_ID (re_reverse en') → t = t';
  rok_clients e : e ∈ rr_clients (rreg w) → e ∈ rr_closed_clients (rreg w) ∨
    (∃ id, rr_byID (rreg w) !! id = Some e) ∨ (∃ t pc, rcreating w !! t = Some pc ∧ pc_client pc = Some e);
  rok_sessions e : e ∈ rr_sessions (rreg w) → e ∈ rr_closed_sessions (rreg w) ∨
    (∃ id, rr_byID (rreg w) !! id = Some e) ∨
    (∃ t params, rcreating w !! t = Some (RRegistered params e));
  rok_ids id e : rr_byID (rreg w) !! id = Some e → ∃ n, 1 ≤ n ≤ rr_nextID (rreg w) ∧ id = reverse_id n;
  rok_fresh e : (rfresh w ≤ e)%nat → rr_entries (rreg w) !! e = None ∧ e ∉ rr_clients (rreg w) ∧ e ∉ rr_sessions (rreg w) ∧
    e ∉ rr_closed_clients (rreg w) ∧ e ∉ rr_closed_sessions (rreg w);
}.

Lemma reverse_id_inj n m : 0 ≤ n → 0 ≤ m → reverse_id n = reverse_id m → n = m.
Proof. intros Hn Hm E. apply Itoa_inj; [done..|]. unfold reverse_id in E. by apply append_inj_l in E. Qed.

(** *** Changes of entries only *)

Definition rkept (en en' : reverseEntry) : Prop :=
  rv_ID (re_reverse en') = rv_ID (re_reverse en) ∧ rv_Remote (re_reverse en') = rv_Remote (re_reverse en) ∧
  re_session en' = re_session en ∧
  (rv_State (re_reverse en) ≠ Stopped → rv_State (re_reverse en') ≠ Stopped) ∧
  ((rv_State (re_reverse en) = Degraded → rv_LastError (re_reverse en) ≠ None) →
   (rv_State (re_reverse en') = Degraded → rv_LastError (re_reverse en') ≠ None)).

Lemma kept_entries (m : gmap nat reverseEntry) f e :
  (∀ en, rkept en (f en)) →
  (∀ e' en, m !! e' = Some en → ∃ en', alter f e m !! e' = Some en' ∧ rkept en en') ∧
  (∀ e' en', alter f e m !! e' = Some en' → ∃ en, m !! e' = Some en ∧ rkept en en') ∧
  (∀ e', m !! e' = None → alter f e m !! e' = None).
Proof.
  intros Hf. assert (∀ en, rkept en en) as Hr by (unfold rkept; auto). split_and!.
  - intros e' en H. destruct (decide (e = e')) as [<-|].
    + rewrite lookup_alter_eq, H. cbn. eauto.
    + rewrite lookup_alter_ne by done. eauto.
  - intros e' en' H. destruct (decide (e = e')) as [<-|].
    + rewrite lookup_alter_eq in H. destruct (m !! e) as [en|] eqn:E; [|done]. injection H as <-. eauto.
    + rewrite lookup_alter_ne in H by done. eauto.
  - intros e' H. destruct (decide (e = e')) as [<-|]; [by rewrite lookup_alter_eq, H|by rewrite lookup_alter_ne].
Qed.

Lemma rneutral w f e : (∀ en, rkept en (f en)) → rworld_ok w → rworld_ok (set_rreg (with_entries (alter f e) (rreg w)) w).
Proof.
  intros Hf Hw. destruct (kept_entries (rr_entries (rreg w)) f e Hf) as (K1 & K2 & K3). destruct Hw. split; cbn; try done.
  - destruct rok_reg0 as [B R D]. split; cbn.
    + intros id e' H. destruct (B _ _ H) as (en & He & OI & OS & Os & OC & OX & OR).
      destruct (K1 _ _ He) as (en' & He' & KI & KR & Ks & KS & _). exists en'. split; [done|].
      unfold reverse_ok. rewrite KI, KR, Ks. cbn. auto 10.
    + intros k id H. destruct (R _ _ H) as (e' & en & Hb & He & K). destruct (K1 _ _ He) as (en' & He' & _ & KR & _).
      exists e', en'. by rewrite KR.
    + intros e' en' H. destruct (K2 _ _ H) as (en & He & _ & _ & _ & _ & KD). by apply KD, (D e').
  - intros t pc e' H1 H2. destruct (rok_client0 _ _ _ H1 H2) as (? & ? & ? & Hn). split_and!; [done..|].
    intros Hp. destruct (Hn Hp). split; [by apply K3|done].
  - intros t pc p e' s H1 H2. destruct (rok_entry0 _ _ _ _ _ H1 H2) as (en & He & Es & ES & ER & EB & EI & EX).
    destruct (K1 _ _ He) as (en' & He' & KI & KR & Ks & KS & _). exists en'. rewrite KI, KR, Ks. cbn. auto 10.
  - intros t t' pc pc' p p' e1 e2 s s' en1 en2 H1 H2 P1 P2 E1 E2 E.
    destruct (K2 _ _ E1) as (a & A & KA & _), (K2 _ _ E2) as (b & B & KB & _).
    eapply (rok_unique0 t t'); [done..|]. congruence.
  - intros e' H. destruct (rok_fresh0 e' H) as [? ?]. split; [by apply K3|done].
Qed.

Lemma rkept_active n en : rkept en (set_reverse (λ v,
  let v := with_active n v in
  if bool_decide (rv_State v = Degraded) && bool_decide (rv_LastError v = None)
  then with_status Listening (rv_LastError v) v else v) en).
Proof.
  unfold set_reverse. cbn. unfold rkept. case_bool_decide; cbn; [|auto 10].
  case_bool_decide; cbn; auto 10.
Qed.
Lemma rkept_error msg en : rkept en (set_reverse (with_status Degraded (Some msg)) en).
Proof. unfold rkept. cbn. auto 10. Qed.

Lemma active_ok w e n : rworld_ok w → rworld_ok (set_rreg (recordReverseActive e n (rreg w)) w).
Proof.
  intros Hw. assert (rworld_ok (set_rreg (rreg w) w)) as Hs by (by destruct w).
  unfold recordReverseActive. destruct (rr_entries (rreg w) !! e); [|done]. destruct (rr_byID (rreg w) !! _); [|done].
  apply rneutral; [|done]. apply rkept_active.
Qed.
Lemma error_ok w e msg : rworld_ok w → rworld_ok (set_rreg (recordReverseError e msg (rreg w)) w).
Proof.
  intros Hw. assert (rworld_ok (set_rreg (rreg w) w)) as Hs by (by destruct w).
  unfold recordReverseError. destruct (rr_entries (rreg w) !! e); [|done]. destruct (rr_byID (rreg w) !! _); [|done].
  apply rneutral; [|done]. apply rkept_error.
Qed.

(** *** Removal *)

Definition reverse_removed (id : string) (e : nat) (en : reverseEntry) (f : reverseEntry → reverseEntry)
    (r : reverseRegistry) : reverseRegistry :=
  mkRegistry (rr_nextID r) (delete id (rr_byID r)) (delete (rv_Remote (re_reverse en)) (rr_byRemote r))
    (alter f e (rr_entries r)) (rr_clients r) (rr_sessions r)
    ({[e]} ∪ rr_closed_clients r) ({[e]} ∪ rr_closed_sessions r).

(** What removal makes of the entry: stopped, or degraded with the error. *)
Definition ends_entry (f : reverseEntry → reverseEntry) : Prop :=
  ∀ en, rv_ID (re_reverse (f en)) = rv_ID (re_reverse en) ∧ rv_Remote (re_reverse (f en)) = rv_Remote (re_reverse en) ∧
    (rv_State (re_reverse (f en)) = Degraded → rv_LastError (re_reverse (f en)) ≠ None).

Lemma rbyID_inj r id id' e : reverses_ok r → rr_byID r !! id = Some e → rr_byID r !! id' = Some e → id = id'.
Proof.
  intros Hr H H'. destruct (rok_byID r Hr _ _ H) as (en & E & O & _), (rok_byID r Hr _ _ H') as (en' & E' & O' & _).
  congruence.
Qed.

(** The registry of a removal, without the creations. *)
Lemma reverse_removed_reg r id e en f :
  reverses_ok r → rr_byID r !! id = Some e → rr_entries r !! e = Some en → reverse_ok r id e en → ends_entry f →
  reverses_ok (reverse_removed id e en f r).
Proof.
  intros Hr Hid He (HI & HS & Hs & HC & HX & HR) Hf.
  assert (∀ id', rr_byID r !! id' = Some e → id' = id) as Hinj by (intros; by eapply rbyID_inj).
  destruct Hr as [B R D]. split; cbn.
  - intros id' e' H. apply lookup_delete_Some in H as [Hne H].
    destruct (B _ _ H) as (en' & He' & OI & OS & Os & OC & OX & OR).
    assert (e ≠ e') as Hee by (intros ->; apply Hne; symmetry; by apply Hinj). exists en'.
    rewrite lookup_alter_ne by done. split; [done|]. split_and!; [done..|set_solver|set_solver|].
    cbn. rewrite lookup_delete_ne; [done|]. intros Er. rewrite Er in HR. congruence.
  - intros k id' H. apply lookup_delete_Some in H as [Hk H]. destruct (R _ _ H) as (e' & en' & Hb & He' & K).
    exists e', en'. assert (e ≠ e') as Hee by (intros ->; congruence). rewrite lookup_alter_ne by done.
    split_and!; [|done..]. rewrite lookup_delete_ne; [done|]. intros ->. congruence.
  - intros e' en' H. destruct (decide (e = e')) as [<-|Hne].
    + rewrite lookup_alter_eq, He in H. injection H as <-. apply Hf.
    + rewrite lookup_alter_ne in H by done. by apply (D e').
Qed.

Lemma pc_entry_client pc p e s : pc_entry pc = Some (p, e, s) → pc_client pc = Some e.
Proof. destruct pc; cbn; congruence. Qed.

(** A registered entry is not that of a creation under way. *)
Lemma registered_not_pending w t pc p id e e' s :
  rworld_ok w → rr_byID (rreg w) !! id = Some e → rcreating w !! t = Some pc → pc_entry pc = Some (p, e', s) → e ≠ e'.
Proof.
  intros Hw Hid Ht Hp ->. destruct (rok_client w Hw t pc e' Ht) as (_ & _ & Hn & _); [by eapply pc_entry_client|].
  by eapply Hn.
Qed.

Lemma reverse_removed_ok cleanup w id e :
  rworld_ok w → rr_byID (rreg w) !! id = Some e →
  ∃ r', reverse_removeLocked cleanup (Some e) (rreg w) = Some r' ∧ rworld_ok (set_rreg r' w) ∧
    rr_nextID r' = rr_nextID (rreg w) ∧ rr_byID r' = delete id (rr_byID (rreg w)) ∧
    (∀ e', e ≠ e' → rr_entries r' !! e' = rr_entries (rreg w) !! e') ∧
    (∀ en, rr_entries (rreg w) !! e = Some en → rr_byRemote r' !! rv_Remote (re_reverse en) = None) ∧
    e ∈ rr_closed_sessions r' ∧ e ∈ rr_closed_clients r'.
Proof.
  intros Hw Hid. destruct (rok_byID _ (rok_reg w Hw) _ _ Hid) as (en & He & HI & HS & Hs & HC & HX & HR).
  assert (∃ f, reverse_removeLocked cleanup (Some e) (rreg w) = Some (reverse_removed id e en f (rreg w)) ∧ ends_entry f)
    as (f & E & Hf).
  { unfold reverse_removeLocked. cbn [mbind option_bind]. rewrite He. cbn [mbind option_bind]. rewrite Hs, HI.
    eexists. split; [reflexivity|]. intros en'. destruct (cleanup e); by split_and!. }
  exists (reverse_removed id e en f (rreg w)). split; [done|]. split; [|cbn; split_and!; [done|done| | |set_solver|set_solver]].
  2:{ intros e' H. by rewrite lookup_alter_ne. }
  2:{ intros en' H. assert (en' = en) as -> by congruence. by rewrite lookup_delete, decide_True. }
  pose proof (reverse_removed_reg _ id e en f (rok_reg w Hw) Hid He) as Hreg.
  assert (∀ t pc p e' s, rcreating w !! t = Some pc → pc_entry pc = Some (p, e', s) → e ≠ e') as Hpend
    by (intros; by eapply registered_not_pending).
  destruct Hw. split; cbn; try done; [by apply Hreg|..].
  - intros t pc e' H1 H2. destruct (rok_client0 _ _ _ H1 H2) as (? & ? & Hn & Hp).
    assert (e ≠ e') as Hee by (intros ->; by eapply Hn). split_and!; [done|set_solver| |].
    + intros id' Hd. apply lookup_delete_Some in Hd as [_ Hd]. by eapply Hn.
    + intros Hpc. destruct (Hp Hpc) as (? & ? & ?). rewrite lookup_alter_ne by done. split_and!; [done..|set_solver].
  - intros t pc p e' s H1 H2. destruct (rok_entry0 _ _ _ _ _ H1 H2) as (en' & He' & Es & ES & ER & EB & EI & EX & EY).
    exists en'. cbn. rewrite lookup_alter_ne by by eapply (Hpend t). split_and!; try done; [apply lookup_delete_None; by right|set_solver].
  - intros t t' pc pc' p p' e1 e2 s s' en1 en2 H1 H2 P1 P2 E1 E2 EI.
    rewrite lookup_alter_ne in E1 by (by eapply (Hpend t)).
    rewrite lookup_alter_ne in E2 by (by eapply (Hpend t')). by eapply (rok_unique0 t t').
  - intros e' H. destruct (rok_clients0 _ H) as [?|[[id' Hi]|?]]; [left; set_solver| |by right; right].
    destruct (decide (id' = id)) as [->|Hne]; [left; assert (e' = e) as -> by congruence; set_solver|].
    right. left. exists id'. by rewrite lookup_delete_ne.
  - intros e' H. destruct (rok_sessions0 _ H) as [?|[[id' Hi]|?]]; [left; set_solver| |by right; right].
    destruct (decide (id' = id)) as [->|Hne]; [left; assert (e' = e) as -> by congruence; set_solver|].
    right. left. exists id'. by rewrite lookup_delete_ne.
  - intros id' e' H. apply lookup_delete_Some in H as [_ H]. by eapply rok_ids0.
  - intros e' H. destruct (rok_fresh0 e' H) as (Fn & ? & ? & ? & ?). assert (e ≠ e') as Hee by congruence.
    rewrite lookup_alter_ne by done. split_and!; [done..|set_solver|set_solver].
Qed.

(** *** The steps of a creation *)

Ltac insert_cases :=
  repeat match goal with
  | H : <[_ := _]> _ !! _ = Some _ |- _ => apply lookup_insert_Some in H as [[? ?]|[? H]]; subst
  | H : delete _ _ !! _ = Some _ |- _ => apply lookup_delete_Some in H as [? H]
  end.

Lemma add_connecting w t params :
  rworld_ok w → rcreating w !! t = None →
  rworld_ok (mkWorld (rreg w) (<[t := RConnecting params]> (rcreating w)) (rfresh w)).
Proof.
  intros Hw Ht. destruct Hw. split; cbn; try done.
  - intros t0 pc e H1 H2. insert_cases; [done|by eapply rok_client0].
  - intros t0 t' pc pc' e H1 H2 P1 P2. insert_cases; try done. by eapply (rok_owner0 t0 t').
  - intros t0 pc p e s H1 H2. insert_cases; [done|by eapply rok_entry0].
  - intros t0 t' pc pc' p p' e1 e2 s s' en1 en2 H1 H2 P1 P2. insert_cases; try done. by eapply (rok_unique0 t0 t').
  - intros e H. destruct (rok_clients0 _ H) as [?|[?|(t0 & pc & H1 & H2)]]; [by left|by right; left|].
    right. right. exists t0, pc. rewrite lookup_insert_ne by congruence. done.
  - intros e H. destruct (rok_sessions0 _ H) as [?|[?|(t0 & pc & H1)]]; [by left|by right; left|].
    right. right. exists t0, pc. by rewrite lookup_insert_ne by congruence.
Qed.

(** The client of a creation is registered nowhere, and no other creation has it. *)
Lemma own_client w t pc e :
  rworld_ok w → rcreating w !! t = Some pc → pc_client pc = Some e →
  (∀ id, rr_byID (rreg w) !! id ≠ Some e) ∧ e ∈ rr_clients (rreg w) ∧
  ∀ t' pc', t' ≠ t → rcreating w !! t' = Some pc' → pc_client pc' ≠ Some e.
Proof.
  intros Hw Ht He. destruct (rok_client w Hw t pc e Ht He) as (? & _ & ? & _). split_and!; [done..|].
  intros t' pc' Hne Hl E. apply Hne. by eapply (rok_owner w Hw t' t).
Qed.

(** What the end of a creation does to the registry: its client is closed, if it
    has one, and so is its session. *)
Definition creation_ends (r : reverseRegistry) (pc : create_pc) (r' : reverseRegistry) : Prop :=
  match pc_client pc with
  | None => r' = r
  | Some e => (r' = close_client e r ∧ ∀ p, pc ≠ RRegistered p e) ∨ r' = close_client e (close_session e r)
  end.

Lemma ends_closed_sets r pc r' : creation_ends r pc r' →
  ∃ cc cs, r' = mkRegistry (rr_nextID r) (rr_byID r) (rr_byRemote r) (rr_entries r) (rr_clients r) (rr_sessions r)
      (cc ∪ rr_closed_clients r) (cs ∪ rr_closed_sessions r) ∧
    (∀ e, e ∈ cc ∪ cs → pc_client pc = Some e) ∧ (∀ e, pc_client pc = Some e → e ∈ cc) ∧
    (∀ p e, pc = RRegistered p e → e ∈ cs).
Proof.
  unfold creation_ends. destruct (pc_client pc) as [e|] eqn:E.
  - intros [[-> Hn]| ->].
    + exists {[e]}, ∅. split_and!; [by rewrite union_empty_l_L|set_solver|set_solver|].
      intros p e' ->. cbn in E. injection E as ->. by destruct (Hn p).
    + exists {[e]}, {[e]}. split_and!; [done|set_solver|set_solver|].
      intros p e' ->. cbn in E. injection E as ->. set_solver.
  - intros ->. exists ∅, ∅. split_and!; [rewrite !union_empty_l_L; by destruct r|set_solver|done|].
    by intros p e ->.
Qed.

Lemma end_creation w t pc r' :
  rworld_ok w → rcreating w !! t = Some pc → creation_ends (rreg w) pc r' →
  rworld_ok (mkWorld r' (delete t (rcreating w)) (rfresh w)).
Proof.
  intros Hw Ht Hr.
  destruct (ends_closed_sets _ pc _ Hr) as (cc & cs & -> & Hc & Hcc & Hcs).
  assert (∀ e, e ∈ cc ∪ cs → (∀ id, rr_byID (rreg w) !! id ≠ Some e) ∧ e ∈ rr_clients (rreg w) ∧
    ∀ t' pc', t' ≠ t → rcreating w !! t' = Some pc' → pc_client pc' ≠ Some e) as Hown.
  { intros e He. by apply (own_client w t pc e), Hc. }
  destruct Hw. split; cbn; try done.
  - destruct rok_reg0 as [B R D]. split; cbn; [|done|done].
    intros id e H. destruct (B _ _ H) as (en & He & OI & OS & Os & OC & OX & OR). exists en. split; [done|].
    assert (e ∉ cc ∪ cs) as Hn by (intros Hin; destruct (Hown e Hin) as (Hb & _); by apply (Hb id)). split_and!; try done; set_solver.
  - intros t0 pc0 e H1 H2. insert_cases. destruct (rok_client0 _ _ _ H1 H2) as (? & ? & ? & ?).
    assert (e ∉ cc ∪ cs) as Hn.
    { intros Hin. destruct (Hown e Hin) as (_ & _ & Ho). by eapply (Ho t0). }
    split_and!; [done|set_solver|done|]. intros Hpc. naive_solver set_solver.
  - intros t0 t' pc0 pc' e H1 H2. insert_cases. by eapply (rok_owner0 t0 t').
  - intros t0 pc0 p e s H1 H2. insert_cases. destruct (rok_entry0 _ _ _ _ _ H1 H2) as (en & ? & ? & ? & ? & ? & ? & ? & ?).
    exists en. split_and!; try done. intros Hin. cbn in Hin. apply elem_of_union in Hin as [Hin|Hin]; [|done].
    destruct (Hown e) as (_ & _ & Ho); [set_solver|]. eapply (Ho t0); [done..|]. by eapply pc_entry_client.
  - intros t0 t' pc0 pc' p p' e1 e2 s s' en1 en2 H1 H2. insert_cases. by eapply (rok_unique0 t0 t').
  - intros e H. destruct (rok_clients0 _ H) as [?|[?|(t0 & pc0 & H1 & H2)]]; [left; set_solver|by right; left|].
    destruct (decide (t0 = t)) as [->|Hne].
    + left. assert (pc0 = pc) as -> by congruence. specialize (Hcc e H2). set_solver.
    + right. right. exists t0, pc0. by rewrite lookup_delete_ne.
  - intros e H. destruct (rok_sessions0 _ H) as [?|[?|(t0 & p & H1)]]; [left; set_solver|by right; left|].
    destruct (decide (t0 = t)) as [->|Hne].
    + left. assert (pc = RRegistered p e) as Hpc by congruence. specialize (Hcs _ _ Hpc). set_solver.
    + right. right. exists t0, p. by rewrite lookup_delete_ne.
  - intros e H. destruct (rok_fresh0 e H) as (? & ? & ? & ? & ?). split_and!; [done..| |];
      intros Hin; apply elem_of_union in Hin as [Hin|Hin]; try done;
      (destruct (Hown e) as (_ & ? & _); [set_solver|done]).
Qed.

Lemma connect_ok w t params :
  rworld_ok w → rcreating w !! t = Some (RConnecting params) →
  rworld_ok (mkWorld (connect (rfresh w) (rreg w)) (<[t := RConnected params (rfresh w)]> (rcreating w)) (S (rfresh w))).
Proof.
  intros Hw Ht. destruct (rok_fresh w Hw (rfresh w)) as (F1 & F2 & F3 & F4 & F5); [done|].
  assert (∀ id, rr_byID (rreg w) !! id ≠ Some (rfresh w)) as Fb.
  { intros id H. destruct (rok_byID _ (rok_reg w Hw) _ _ H) as (en & He & _). congruence. }
  assert (∀ t' pc, rcreating w !! t' = Some pc → pc_client pc ≠ Some (rfresh w)) as Fp.
  { intros t' pc H E. by destruct (rok_client w Hw _ _ _ H E). }
  destruct Hw. split; cbn; try done.
  - destruct rok_reg0 as [B R D]. by split; cbn.
  - intros t0 pc e H1 H2. insert_cases.
    + cbn in H2. injection H2 as <-. split_and!; [set_solver|done|done|done].
    + destruct (rok_client0 _ _ _ H1 H2) as (? & ? & ? & ?). split_and!; [set_solver|done..].
  - intros t0 t' pc pc' e H1 H2 P1 P2. insert_cases; [done|..].
    + cbn in P2. injection P2 as <-. by destruct (Fp t0 pc).
    + cbn in P1. injection P1 as <-. by destruct (Fp t' pc').
    + by eapply (rok_owner0 t0 t').
  - intros t0 pc p e s H1 H2. insert_cases; [done|by eapply rok_entry0].
  - intros t0 t' pc pc' p p' e1 e2 s s' en1 en2 H1 H2 P1 P2. insert_cases; try done. by eapply (rok_unique0 t0 t').
  - intros e H. apply elem_of_union in H as [H|H].
    + right. right. exists t, (RConnected params (rfresh w)). rewrite lookup_insert, decide_True by done.
      split; [done|]. cbn. f_equal. set_solver.
    + destruct (rok_clients0 _ H) as [?|[?|(t0 & pc & H1 & H2)]]; [by left|by right; left|].
      right. right. exists t0, pc. rewrite lookup_insert_ne; [done|]. intros <-.
      assert (pc = RConnecting params) as -> by congruence. done.
  - intros e H. destruct (rok_sessions0 _ H) as [?|[?|(t0 & p & H1)]]; [by left|by right; left|].
    right. right. exists t0, p. by rewrite lookup_insert_ne by congruence.
  - intros e H. destruct (rok_fresh0 e) as (? & ? & ? & ? & ?); [lia|]. split_and!; [done| |done..].
    intros Hin. apply elem_of_union in Hin as [Hin|Hin]; [|done]. apply elem_of_singleton in Hin. lia.
Qed.

(** A creation goes on with its client: what the other threads are to it, and it
    to them, stays. *)
Section advance.
Context (w : world) (t : nat) (pc pc' : create_pc).
Hypothesis world_fine : rworld_ok w.
Hypothesis at_pc : rcreating w !! t = Some pc.
Hypothesis same_client : pc_client pc' = pc_client pc.

Lemma advance_back t1 q1 : <[t := pc']> (rcreating w) !! t1 = Some q1 →
  ∃ q, rcreating w !! t1 = Some q ∧ pc_client q = pc_client q1.
Proof. intros H. insert_cases; [by exists pc|by exists q1]. Qed.

Lemma advance_owner t1 t2 q1 q2 e :
  <[t := pc']> (rcreating w) !! t1 = Some q1 → <[t := pc']> (rcreating w) !! t2 = Some q2 →
  pc_client q1 = Some e → pc_client q2 = Some e → t1 = t2.
Proof.
  intros H1 H2 P1 P2. destruct (advance_back _ _ H1) as (r1 & R1 & E1), (advance_back _ _ H2) as (r2 & R2 & E2).
  apply (rok_owner w world_fine t1 t2 r1 r2 e); congruence.
Qed.

Lemma advance_clients e : e ∈ rr_clients (rreg w) → e ∈ rr_closed_clients (rreg w) ∨
  (∃ id, rr_byID (rreg w) !! id = Some e) ∨ (∃ t0 q, <[t := pc']> (rcreating w) !! t0 = Some q ∧ pc_client q = Some e).
Proof.
  intros H. destruct (rok_clients w world_fine _ H) as [?|[?|(t0 & q & H1 & H2)]]; [by left|by right; left|].
  right. right. destruct (decide (t0 = t)) as [->|Ht].
  - exists t, pc'. rewrite lookup_insert, decide_True by done. split; [done|congruence].
  - exists t0, q. by rewrite lookup_insert_ne.
Qed.

Lemma advance_sessions e : (∀ p, pc ≠ RRegistered p e) → e ∈ rr_sessions (rreg w) → e ∈ rr_closed_sessions (rreg w) ∨
  (∃ id, rr_byID (rreg w) !! id = Some e) ∨ (∃ t0 p, <[t := pc']> (rcreating w) !! t0 = Some (RRegistered p e)).
Proof.
  intros Hpc H. destruct (rok_sessions w world_fine _ H) as [?|[?|(t0 & p & H1)]]; [by left|by right; left|].
  right. right. exists t0, p. rewrite lookup_insert_ne; [done|]. intros <-. apply (Hpc p). congruence.
Qed.

(** The entries of the other creations are not this one's. *)
Lemma advance_others t0 q p e e' s :
  t ≠ t0 → pc_client pc = Some e → rcreating w !! t0 = Some q → pc_entry q = Some (p, e', s) → e ≠ e'.
Proof. intros Ht Hc H0 Hp ->. apply Ht. eapply (rok_owner w world_fine t t0); [done..|]. by eapply pc_entry_client. Qed.
End advance.

(** The IDs of creations under way were handed out. *)
Lemma pending_id w t pc p e s en :
  rworld_ok w → rcreating w !! t = Some pc → pc_entry pc = Some (p, e, s) → rr_entries (rreg w) !! e = Some en →
  ∃ k, 1 ≤ k ≤ rr_nextID (rreg w) ∧ rv_ID (re_reverse en) = reverse_id k.
Proof.
  intros Hw Ht Hp He. destruct (rok_entry w Hw _ _ _ _ _ Ht Hp) as (en0 & He0 & _ & _ & _ & _ & Hk & _).
  by assert (en0 = en) as -> by congruence.
Qed.

(** An entry of a creation, once goroutine [t] has entered [v] under [e]. *)
Lemma entered_cases w t params e v t0 pc p e0 s en0 :
  rworld_ok w → rcreating w !! t = Some (RConnected params e) →
  <[t := REntered params e]> (rcreating w) !! t0 = Some pc → pc_entry pc = Some (p, e0, s) →
  <[e := mkEntry v false]> (rr_entries (rreg w)) !! e0 = Some en0 →
  (t0 = t ∧ re_reverse en0 = v) ∨ (rcreating w !! t0 = Some pc ∧ rr_entries (rreg w) !! e0 = Some en0).
Proof.
  intros Hw Ht Hc Hp Hen. apply lookup_insert_Some in Hc as [[<- <-]|[Htn Hc]].
  - cbn in Hp. injection Hp as <- <- <-. rewrite lookup_insert, decide_True in Hen by done. left. by injection Hen as <-.
  - right. split; [done|]. rewrite lookup_insert_ne in Hen; [done|].
    eapply (advance_others w t (RConnected params e) Hw Ht); by eauto.
Qed.

Lemma enter_ok w t params e now :
  rworld_ok w → 0 ≤ rr_nextID (rreg w) → rr_nextID (rreg w) + 1 < 2 ^ 64 →
  rcreating w !! t = Some (RConnected params e) →
  rworld_ok (mkWorld (fst (new_entry params e now (rreg w))) (<[t := REntered params e]> (rcreating w)) (rfresh w)).
Proof.
  intros Hw H0 Hn Ht. unfold new_entry, nextReverseID. rewrite Z.mod_small by lia. cbn [fst snd].
  set (n := rr_nextID (rreg w) + 1). change ("rev_" +++ Itoa n) with (reverse_id n).
  destruct (rok_client w Hw _ _ _ Ht eq_refl) as (C1 & C2 & C3 & C4). destruct (C4 eq_refl) as (He & Hes & Hcs).
  assert (∀ k, 1 ≤ k ≤ rr_nextID (rreg w) → reverse_id k ≠ reverse_id n) as Hnew.
  { intros k Hk E. apply reverse_id_inj in E; lia. }
  assert (rr_byID (rreg w) !! reverse_id n = None) as HB.
  { apply eq_None_not_Some. intros [e' He']. destruct (rok_ids w Hw _ _ He') as (k & Hk & E). by apply (Hnew k). }
  assert (∀ e' en', rr_entries (rreg w) !! e' = Some en' → e ≠ e') as Hne by congruence.
  split; cbn.
  - destruct (rok_reg w Hw) as [B R D]. split; cbn.
    + intros id e' H. destruct (B _ _ H) as (en & He' & O). exists en. rewrite lookup_insert_ne by (by eapply Hne). done.
    + intros k id H. destruct (R _ _ H) as (e' & en & Hb & He' & K). exists e', en.
      rewrite lookup_insert_ne by (by eapply Hne). done.
    + intros e' en H. insert_cases; [done|by eapply (D e')].
  - intros t0 pc e' H1 H2. insert_cases; [cbn in H2; injection H2 as <-; by split_and!|].
    destruct (rok_client w Hw _ _ _ H1 H2) as (? & ? & ? & Hp). split_and!; [done..|]. intros Hpc.
    destruct (Hp Hpc) as (? & ? & ?). rewrite lookup_insert_ne; [done|]. intros <-.
    assert (t = t0); [|done]. by eapply (rok_owner w Hw t t0).
  - by eapply advance_owner.
  - intros t0 pc p e' s H1 H2. insert_cases.
    + cbn in H2. injection H2 as <- <- <-. eexists. cbn. rewrite lookup_insert, decide_True by done. split; [done|].
      split_and!; try done. exists n. split; [lia|done].
    + destruct (rok_entry w Hw _ _ _ _ _ H1 H2) as (en & He' & ? & ? & ? & ? & (k & Hk & EI) & ? & ?). exists en. cbn.
      rewrite lookup_insert_ne by (by eapply Hne). split_and!; try done. exists k. split; [lia|done].
  - intros t0 t' pc pc' p p' e1 e2 s s' en1 en2 H1 H2 P1 P2 E1 E2 E.
    destruct (entered_cases _ _ _ _ _ _ _ _ _ _ _ Hw Ht H1 P1 E1) as [[-> I1]|[L1 M1]],
      (entered_cases _ _ _ _ _ _ _ _ _ _ _ Hw Ht H2 P2 E2) as [[-> I2]|[L2 M2]]; [done|exfalso..|].
    + destruct (pending_id w t' _ _ _ _ _ Hw L2 P2 M2) as (k & Hk & Ek). apply (Hnew k Hk). rewrite <-Ek, <-E. by rewrite I1.
    + destruct (pending_id w t0 _ _ _ _ _ Hw L1 P1 M1) as (k & Hk & Ek). apply (Hnew k Hk). rewrite <-Ek, E. by rewrite I2.
    + by eapply (rok_unique w Hw t0 t').
  - intros e'. by apply (advance_clients w t (RConnected params e)).
  - intros e'. by apply (advance_sessions w t (RConnected params e)).
  - intros id e' H. destruct (rok_ids w Hw _ _ H) as (k & Hk & ->). exists k. split; [lia|done].
  - intros e' H. destruct (rok_fresh w Hw e' H) as (? & Hcl & ?). split; [|done]. rewrite lookup_insert_ne; [done|].
    intros <-. done.
Qed.

(** The entry of a creation whose session is registered was its entry before. *)
Lemma registered_back w t params e t1 pc1 p1 e1 s1 :
  rcreating w !! t = Some (REntered params e) →
  <[t := RRegistered params e]> (rcreating w) !! t1 = Some pc1 → pc_entry pc1 = Some (p1, e1, s1) →
  ∃ pc2 p2 s2, rcreating w !! t1 = Some pc2 ∧ pc_entry pc2 = Some (p2, e1, s2).
Proof.
  intros Ht Hc Hp. apply lookup_insert_Some in Hc as [[<- <-]|[_ Hc]]; [|eauto].
  cbn in Hp. injection Hp as <- <- <-. by exists (REntered params e), params, false.
Qed.

Lemma session_ok w t params e :
  rworld_ok w → rcreating w !! t = Some (REntered params e) →
  rworld_ok (mkWorld (set_session e (rreg w)) (<[t := RRegistered params e]> (rcreating w)) (rfresh w)).
Proof.
  intros Hw Ht. destruct (rok_client w Hw _ _ _ Ht eq_refl) as (C1 & C2 & C3 & _).
  destruct (rok_entry w Hw _ _ _ _ _ Ht eq_refl) as (en & He & Es & ES & ER & EB & EI & EX & EY).
  assert (∀ e' en', rr_entries (rreg w) !! e' = Some en' → e ≠ e' → alter (λ en, mkEntry (re_reverse en) true) e
    (rr_entries (rreg w)) !! e' = Some en') as Hold by (intros; by rewrite lookup_alter_ne).
  assert (∀ e' en', alter (λ en, mkEntry (re_reverse en) true) e (rr_entries (rreg w)) !! e' = Some en' →
    ∃ en0, rr_entries (rreg w) !! e' = Some en0 ∧ re_reverse en' = re_reverse en0) as Hback.
  { intros e' en' H. destruct (decide (e = e')) as [<-|Hne].
    - rewrite lookup_alter_eq, He in H. injection H as <-. eauto.
    - rewrite lookup_alter_ne in H by done. eauto. }
  assert (∀ id, rr_byID (rreg w) !! id = Some e → False) as C3' by (intros id H; by apply (C3 id)).
  split; cbn.
  - destruct (rok_reg w Hw) as [B R D]. split; cbn.
    + intros id e' H. destruct (B _ _ H) as (en' & He' & O). exists en'. split; [|done].
      apply Hold; [done|]. intros <-. eauto.
    + intros k id H. destruct (R _ _ H) as (e' & en' & Hb & He' & K). exists e', en'. split_and!; [done| |done].
      apply Hold; [done|]. intros <-. eauto.
    + intros e' en' H. destruct (Hback _ _ H) as (en0 & H' & ->). by apply (D e').
  - intros t0 pc e' H1 H2. insert_cases; [cbn in H2; injection H2 as <-; by split_and!|].
    destruct (rok_client w Hw _ _ _ H1 H2) as (? & ? & ? & Hp). split_and!; [done..|]. intros Hpc.
    destruct (Hp Hpc) as (? & ? & ?).
    assert (e ≠ e') as Hne by (intros <-; assert (t = t0); [by eapply (rok_owner w Hw t t0)|done]).
    rewrite lookup_alter_ne by done. split_and!; [done|set_solver|done].
  - by eapply advance_owner.
  - intros t0 pc p e' s H1 H2. insert_cases.
    + cbn in H2. injection H2 as <- <- <-. eexists. cbn. rewrite lookup_alter_eq, He. split; [done|]. by split_and!.
    + destruct (rok_entry w Hw _ _ _ _ _ H1 H2) as (en' & He' & Fs & FS & FR & FB & FI & FX & FY). exists en'.
      assert (e ≠ e') as Hne by (by eapply (advance_others w t (REntered params e) Hw Ht)).
      cbn. rewrite lookup_alter_ne by done. split_and!; try done. intros Hs. specialize (FY Hs). set_solver.
  - intros t0 t' pc pc' p p' e1 e2 s s' en1 en2 H1 H2 P1 P2 E1 E2 E.
    destruct (Hback _ _ E1) as (a & A & Ea), (Hback _ _ E2) as (b & B & Eb). rewrite Ea, Eb in E.
    destruct (registered_back w t params e _ _ _ _ _ Ht H1 P1) as (q1 & r1 & z1 & ? & ?),
      (registered_back w t params e _ _ _ _ _ Ht H2 P2) as (q2 & r2 & z2 & ? & ?).
    by eapply (rok_unique w Hw t0 t').
  - intros e'. by apply (advance_clients w t (REntered params e)).
  - intros e' H. apply elem_of_union in H as [H|H].
    + right. right. exists t, params. rewrite lookup_insert, decide_True by done. do 2 f_equal. set_solver.
    + by apply (advance_sessions w t (REntered params e)).
  - apply (rok_ids w Hw).
  - intros e' H. destruct (rok_fresh w Hw e' H) as (Fe & ? & ? & ?). assert (e ≠ e') as Hne by congruence.
    rewrite lookup_alter_ne by done. split_and!; [done..|set_solver|naive_solver|naive_solver].
Qed.

Definition inserted (e : nat) (v : Reverse) (r : reverseRegistry) : reverseRegistry :=
  mkRegistry (rr_nextID r) (<[rv_ID v := e]> (rr_byID r)) (<[rv_Remote v := rv_ID v]> (rr_byRemote r))
    (rr_entries r) (rr_clients r) (rr_sessions r) (rr_closed_clients r) (rr_closed_sessions r).

Lemma inserted_ok w t params e en :
  rworld_ok w → rcreating w !! t = Some (RRegistered params e) → rr_entries (rreg w) !! e = Some en →
  rr_byRemote (rreg w) !! rc_Remote params = None →
  rworld_ok (mkWorld (inserted e (re_reverse en) (rreg w)) (delete t (rcreating w)) (rfresh w)).
Proof.
  intros Hw Ht Hen Hnone. destruct (rok_client w Hw _ _ _ Ht eq_refl) as (C1 & C2 & C3 & _).
  destruct (rok_entry w Hw _ _ _ _ _ Ht eq_refl) as (en0 & He & Es & ES & ER & EB & EI & EX & _).
  assert (en0 = en) as -> by congruence. rewrite <-ER in Hnone.
  destruct Hw. split; cbn; try done.
  - destruct rok_reg0 as [B R D]. split; cbn; [| |done].
    + intros id e' H. apply lookup_insert_Some in H as [[<- <-]|[Hd H]].
      * exists en. split; [done|]. split_and!; try done. cbn. by rewrite lookup_insert, decide_True.
      * destruct (B _ _ H) as (en' & He' & OI & OS & Os & OC & OX & OR). exists en'. split; [done|].
        split_and!; try done. cbn. rewrite lookup_insert_ne; [done|]. intros E. rewrite E in Hnone. congruence.
    + intros k id H. apply lookup_insert_Some in H as [[<- <-]|[Hk H]].
      * exists e, en. by rewrite lookup_insert, decide_True.
      * destruct (R _ _ H) as (e' & en' & Hb & He' & K). exists e', en'. split_and!; [|done..].
        rewrite lookup_insert_ne; [done|]. intros <-. congruence.
  - intros t0 pc e' H1 H2. insert_cases. destruct (rok_client0 _ _ _ H1 H2) as (? & ? & Hn & ?).
    split_and!; [done..| |done]. intros id Hd. apply lookup_insert_Some in Hd as [[_ <-]|[_ Hd]]; [|by eapply Hn].
    assert (t = t0); [|done]. by eapply (rok_owner0 t t0).
  - intros t0 t' pc pc' e' H1 H2. insert_cases. by eapply (rok_owner0 t0 t').
  - intros t0 pc p e' s H1 H2. insert_cases.
    destruct (rok_entry0 _ _ _ _ _ H1 H2) as (en' & He' & ? & ? & ? & FB & ? & ? & ?). exists en'. cbn.
    split_and!; try done. rewrite lookup_insert_ne; [done|]. intros E.
    assert (t = t0); [|done]. by eapply (rok_unique0 t t0).
  - intros t0 t' pc pc' p p' e1 e2 s s' en1 en2 H1 H2. insert_cases. by eapply (rok_unique0 t0 t').
  - intros e' H. destruct (rok_clients0 _ H) as [?|[[id Hi]|(t0 & pc & H1 & H2)]]; [by left| |].
    + right. left. exists id. rewrite lookup_insert_ne; [done|]. intros <-. congruence.
    + right. destruct (decide (t0 = t)) as [->|Htn]; [|right; exists t0, pc; by rewrite lookup_delete_ne].
      left. exists (rv_ID (re_reverse en)). rewrite lookup_insert, decide_True by done.
      assert (pc = RRegistered params e) as -> by congruence. done.
  - intros e' H. destruct (rok_sessions0 _ H) as [?|[[id Hi]|(t0 & p & H1)]]; [by left| |].
    + right. left. exists id. rewrite lookup_insert_ne; [done|]. intros <-. congruence.
    + right. destruct (decide (t0 = t)) as [->|Htn]; [|right; exists t0, p; by rewrite lookup_delete_ne].
      left. exists (rv_ID (re_reverse en)). rewrite lookup_insert, decide_True by done. congruence.
  - intros id e' H. apply lookup_insert_Some in H as [[<- <-]|[_ H]]; [done|by eapply rok_ids0].
Qed.

Lemma commit_ok cleanup w t params e :
  rworld_ok w → rcreating w !! t = Some (RRegistered params e) →
  ∃ r' res, reverse_create_commit cleanup params e (rreg w) = Some (r', res) ∧
    rworld_ok (mkWorld r' (delete t (rcreating w)) (rfresh w)) ∧ rr_nextID r' = rr_nextID (rreg w).
Proof.
  intros Hw Ht. destruct (rok_entry w Hw _ _ _ _ _ Ht eq_refl) as (en & He & _ & _ & ER & _).
  destruct (rok_client w Hw _ _ _ Ht eq_refl) as (_ & _ & Hnot & _).
  unfold reverse_create_commit. rewrite He. cbn [mbind option_bind].
  destruct (rr_byRemote (rreg w) !! rc_Remote params) as [id|] eqn:B.
  - destruct (rc_Norebind params).
    + eexists _, _. split_and!; [done| |done]. apply (end_creation w t _ _ Hw Ht). by right.
    + destruct (rok_byRemote _ (rok_reg w Hw) _ _ B) as (e2 & en2 & Hid & He2 & K). rewrite Hid.
      destruct (reverse_removed_ok cleanup w id e2 Hw Hid) as (r1 & E & Hw1 & HN & _ & HE & HR & _).
      rewrite E. cbn [mbind option_bind]. eexists _, _. split_and!; [done| |done].
      apply (inserted_ok (set_rreg r1 w) t params e en); [done|done| |].
      * cbn. rewrite HE; [done|]. intros ->. by eapply Hnot.
      * cbn. rewrite <-K. by apply HR.
  - eexists _, _. split_and!; [done| |done]. by apply (inserted_ok w t params e en).
Qed.

Lemma reverse_check_ok cleanup w params : rworld_ok w →
  ∃ r' e, reverse_create_check cleanup params (rreg w) = Some (r', e) ∧ rworld_ok (set_rreg r' w) ∧
    rr_nextID r' = rr_nextID (rreg w).
Proof.
  intros Hw. unfold reverse_create_check. assert (rworld_ok (set_rreg (rreg w) w)) as Hw' by (by destruct w).
  destruct (validateReverseCreateParams params) as [e|]; [by eexists _, _|].
  destruct (rr_byRemote (rreg w) !! _) as [id|] eqn:B; [|by eexists _, _].
  destruct (rc_Norebind params); [by eexists _, _|].
  destruct (rok_byRemote _ (rok_reg w Hw) _ _ B) as (e & en & Hid & _). rewrite Hid.
  destruct (reverse_removed_ok cleanup w id e Hw Hid) as (r' & E & Hok & HN & _). rewrite E. cbn. by eexists _, _.
Qed.

Lemma reverse_remove_ok cleanup w params : rworld_ok w →
  ∃ r' res, reverse_remove cleanup params (rreg w) = Some (r', res) ∧ rworld_ok (set_rreg r' w) ∧
    rr_nextID r' = rr_nextID (rreg w).
Proof.
  intros Hw. unfold reverse_remove. assert (rworld_ok (set_rreg (rreg w) w)) as Hw' by (by destruct w).
  assert (∀ id, ∃ r' res,
    match rr_byID (rreg w) !! id with
    | None => Some (rreg w, Bad (mkError ErrorReverseNotFound (Sprintf "reverse not found" [])))
    | Some e => r ← reverse_removeLocked cleanup (Some e) (rreg w); Some (r, Good 1%nat)
    end = Some (r', res) ∧ rworld_ok (set_rreg r' w) ∧ rr_nextID r' = rr_nextID (rreg w)) as Hid.
  { intros id. destruct (rr_byID (rreg w) !! id) as [e|] eqn:E; [|by eexists _, _].
    destruct (reverse_removed_ok cleanup w id e Hw E) as (r' & -> & Hok & HN & _). cbn. by eexists _, _. }
  destruct (rr_Remote params) as [remote|], (rr_ID params =? "")%string; [|by eexists _, _|by eexists _, _|apply Hid].
  destruct (validateReverseRemote remote); [by eexists _, _|apply Hid].
Qed.

Lemma reverse_remove_each_ok cleanup (l : list (string * nat)) w :
  rworld_ok w → NoDup (l.*1) → (∀ id e, (id, e) ∈ l → rr_byID (rreg w) !! id = Some e) →
  ∃ r', reverse_remove_each cleanup (l.*2) (rreg w) = Some r' ∧ rworld_ok (set_rreg r' w) ∧
    rr_nextID r' = rr_nextID (rreg w) ∧
    (∀ id, rr_byID r' !! id = if decide (id ∈ l.*1) then None else rr_byID (rreg w) !! id).
Proof.
  revert w. induction l as [|[id e] l IH]; intros w Hw Hn Hl.
  - exists (rreg w). split_and!; [done|by destruct w|done|]. intros id. rewrite decide_False; [done|].
    apply not_elem_of_nil.
  - rewrite fmap_cons in Hn. apply NoDup_cons in Hn as [Hni Hn]. cbn [fst] in Hni.
    destruct (reverse_removed_ok cleanup w id e Hw) as (r1 & E1 & Hw1 & N1 & B1 & _); [apply Hl, list_elem_of_here|].
    rewrite fmap_cons. cbn [snd reverse_remove_each]. rewrite E1. cbn [mbind option_bind].
    destruct (IH (set_rreg r1 w) Hw1 Hn) as (r2 & E2 & Hw2 & N2 & B2).
    { intros id' e' Hin. cbn. rewrite B1, lookup_delete_ne; [apply Hl; by apply list_elem_of_further|].
      intros <-. apply Hni. apply list_elem_of_fmap. by exists (id, e'). }
    cbn [rreg set_rreg] in *. exists r2. split_and!; [done..|congruence|].
    intros id'. rewrite B2, B1. cbn [fmap list_fmap fst].
    destruct (decide (id' = id)) as [->|Hd].
    + rewrite (decide_True _ _ (list_elem_of_here _ _)). destruct (decide _); [done|].
      by rewrite lookup_delete, decide_True.
    + rewrite lookup_delete_ne by done.
      destruct (decide (id' ∈ l.*1)) as [Hin|Hin].
      * rewrite decide_True; [done|]. by apply list_elem_of_further.
      * rewrite decide_False; [done|]. intros H. by apply elem_of_cons in H as [?|?].
Qed.

Lemma reverse_removeAll_ok cleanup w : rworld_ok w →
  ∃ r', reverse_removeAll cleanup (rreg w) = Some (r', size (rr_byID (rreg w))) ∧ rworld_ok (set_rreg r' w) ∧
    rr_nextID r' = rr_nextID (rreg w) ∧ rr_byID r' = ∅.
Proof.
  intros Hw. unfold reverse_removeAll.
  destruct (reverse_remove_each_ok cleanup (map_to_list (rr_byID (rreg w))) w Hw (NoDup_fst_map_to_list _))
    as (r' & E & Hok & N & B).
  { intros id e H. by apply elem_of_map_to_list. }
  rewrite E. exists r'. split_and!; [done..|]. apply map_eq. intros id. rewrite B, lookup_empty.
  destruct (decide _) as [|Hn]; [done|]. apply eq_None_not_Some. intros [e He]. apply Hn.
  apply list_elem_of_fmap. exists (id, e). split; [done|]. by apply elem_of_map_to_list.
Qed.

(** *** The list of reverses *)

Lemma elem_of_reverses r v :
  v ∈ reverses_of r ↔ ∃ id e en, rr_byID r !! id = Some e ∧ rr_entries r !! e = Some en ∧ re_reverse en = v.
Proof.
  unfold reverses_of. rewrite list_elem_of_omap. split.
  - intros ([id e] & Hin & H). apply elem_of_map_to_list in Hin. cbn in H. apply fmap_Some in H as (en & He & ->).
    by exists id, e, en.
  - intros (id & e & en & Hin & He & <-). exists (id, e). split; [by apply elem_of_map_to_list|]. cbn. by rewrite He.
Qed.

Lemma reverses_of_ids r : reverses_ok r → rv_ID <$> reverses_of r = (map_to_list (rr_byID r)).*1.
Proof.
  intros Hr. unfold reverses_of.
  assert (Forall (λ p, rr_byID r !! (p.1) = Some (p.2)) (map_to_list (rr_byID r))) as Hl
    by (apply Forall_forall; intros [id e] H; by apply elem_of_map_to_list).
  induction Hl as [|[id e] l H _ IH]; [done|]. cbn in H. destruct (rok_byID r Hr _ _ H) as (en & E & HI & _).
  cbn [omap list_omap snd]. rewrite E. cbn. by rewrite HI, <-IH.
Qed.
Lemma reverses_of_NoDup r : reverses_ok r → NoDup (rv_ID <$> reverses_of r).
Proof. intros Hr. rewrite reverses_of_ids by done. apply NoDup_fst_map_to_list. Qed.

Lemma reverses_of_removed cleanup w id e en r' :
  rworld_ok w → rr_byID (rreg w) !! id = Some e → rr_entries (rreg w) !! e = Some en →
  reverse_removeLocked cleanup (Some e) (rreg w) = Some r' →
  reverses_of (rreg w) ≡ₚ re_reverse en :: reverses_of r' ∧ rr_closed_sessions (rreg w) ⊆ rr_closed_sessions r'.
Proof.
  intros Hw Hid He Hr. destruct (reverse_removed_ok cleanup w id e Hw Hid) as (r1 & E & _ & _ & HB & HE & _).
  assert (r1 = r') as -> by congruence. split.
  2:{ unfold reverse_removeLocked in Hr. cbn in Hr. rewrite He in Hr. cbn in Hr. assert (∃ b : bool, r' = close_client e
        (if b then close_session e _ else _)) as [b ->] by (eexists; symmetry; injection Hr; intros; eassumption).
      destruct b; cbn; set_solver. }
  unfold reverses_of. rewrite HB, <-(map_to_list_delete _ id e Hid). cbn [omap list_omap snd]. rewrite He. cbn. constructor.
  match goal with |- ?l ≡ₚ ?k => cut (l = k); [by intros ->|] end.
  apply list_omap_ext, Forall_Forall2_diag, Forall_forall. intros [id' e'] H. apply elem_of_map_to_list, lookup_delete_Some in H as [Hne H].
  cbn. rewrite HE; [done|]. intros <-. apply Hne. by eapply rbyID_inj; [apply (rok_reg w Hw)|..].
Qed.

Lemma rstep_ok w w' :
  rworld_ok w → 0 ≤ rr_nextID (rreg w) → rr_nextID (rreg w) + 1 < 2 ^ 64 → rstep w w' →
  rworld_ok w' ∧ 0 ≤ rr_nextID (rreg w') ≤ rr_nextID (rreg w) + 1.
Proof.
  intros Hw H0 Hn Hs.
  destruct Hs as [w t params cleanup r' Ht E|w params cleanup r' e E|w t params Ht|w t params Ht|w t params e err Ht E
    |w t params e eps now Ht E|w t params e Ht|w t params e Ht|w t params e cleanup r' res Ht E|w params cleanup r' res E
    |w cleanup r' k E|w e k|w e msg].
  - destruct (reverse_check_ok cleanup w params Hw) as (r1 & e1 & E1 & Hok & HN).
    assert (r1 = r') as -> by congruence. split; [|cbn; lia]. by apply (add_connecting (set_rreg r' w)).
  - destruct (reverse_check_ok cleanup w params Hw) as (r1 & e1 & E1 & Hok & HN).
    assert (r1 = r') as -> by congruence. split; [done|cbn; lia].
  - split; [|cbn; lia]. by apply (end_creation w t _ _ Hw Ht).
  - split; [by apply connect_ok|cbn; lia].
  - split; [|cbn; lia]. apply (end_creation w t _ _ Hw Ht). by left.
  - split; [by apply enter_ok|]. cbn. rewrite Z.mod_small by lia. lia.
  - split; [|cbn; lia]. apply (end_creation w t _ _ Hw Ht). by left.
  - split; [by apply session_ok|cbn; lia].
  - destruct (commit_ok cleanup w t params e Hw Ht) as (r1 & res1 & E1 & Hok & HN).
    assert (r1 = r') as -> by congruence. split; [done|cbn; lia].
  - destruct (reverse_remove_ok cleanup w params Hw) as (r1 & res1 & E1 & Hok & HN).
    assert (r1 = r') as -> by congruence. split; [done|cbn; lia].
  - destruct (reverse_removeAll_ok cleanup w Hw) as (r1 & E1 & Hok & HN & _).
    assert (r1 = r') as -> by congruence. split; [done|cbn; lia].
  - split; [by apply active_ok|]. cbn. unfold recordReverseActive.
    destruct (rr_entries (rreg w) !! e); [destruct (rr_byID (rreg w) !! _)|]; cbn; lia.
  - split; [by apply error_ok|]. cbn. unfold recordReverseError.
    destruct (rr_entries (rreg w) !! e); [destruct (rr_byID (rreg w) !! _)|]; cbn; lia.
Qed.

Lemma rreachable_ok n w : nsteps rstep n rstart w → Z.of_nat n < 2 ^ 64 →
  rworld_ok w ∧ 0 ≤ rr_nextID (rreg w) ≤ Z.of_nat n.
Proof.
  revert w. induction n as [|n IH]; intros w Hs Hn.
  - inversion Hs; subst. split; [by split; cbn|cbn; lia].
  - apply nsteps_inv_r in Hs as (w1 & H1 & H2). destruct (IH w1 H1) as [Hok HN]; [lia|].
    destruct (rstep_ok w1 w Hok) as [Hok' HN']; [lia..|done|]. split; [done|lia].
Qed.

(** C22: however the calls and callbacks of the reverse registry interleave (fewer
    than 2^64 steps) and whatever connecting, registering and closing come to,
    no one dereferences nil; every registered reverse is not stopped, its
    session and its client are open, and it is found under its remote endpoint;
    every entry of the endpoint map is a registered reverse; and nothing
    leaks: every client ever connected and every session ever registered is
    closed, belongs to a registered reverse, or to a creation under way. *)
Theorem reverse_registry_invariant (n : nat) (w : world) :
  nsteps rstep n rstart w → Z.of_nat n < 2 ^ 64 →
  ¬ reverse_panics w ∧
  (∀ id e, rr_byID (rreg w) !! id = Some e → ∃ en, rr_entries (rreg w) !! e = Some en ∧ reverse_ok (rreg w) id e en) ∧
  (∀ k id, rr_byRemote (rreg w) !! k = Some id →
     ∃ e en, rr_byID (rreg w) !! id = Some e ∧ rr_entries (rreg w) !! e = Some en ∧ rv_Remote (re_reverse en) = k) ∧
  (∀ e, e ∈ rr_clients (rreg w) → e ∈ rr_closed_clients (rreg w) ∨ (∃ id, rr_byID (rreg w) !! id = Some e) ∨
     (∃ t pc, rcreating w !! t = Some pc ∧ pc_client pc = Some e)) ∧
  (∀ e, e ∈ rr_sessions (rreg w) → e ∈ rr_closed_sessions (rreg w) ∨ (∃ id, rr_byID (rreg w) !! id = Some e) ∨
     (∃ t params, rcreating w !! t = Some (RRegistered params e))).
Proof.
  intros Hs Hn. destruct (rreachable_ok n w Hs Hn) as [Hw _]. split_and!.
  - intros (cleanup & [[params H]|[(t & params & e & Ht & H)|[[params H]|H]]]).
    + destruct (reverse_check_ok cleanup w params Hw) as (? & ? & E & _). congruence.
    + destruct (commit_ok cleanup w t params e Hw Ht) as (? & ? & E & _). congruence.
    + destruct (reverse_remove_ok cleanup w params Hw) as (? & ? & E & _). congruence.
    + destruct (reverse_removeAll_ok cleanup w Hw) as (? & E & _). congruence.
  - apply (rok_byID _ (rok_reg w Hw)).
  - apply (rok_byRemote _ (rok_reg w Hw)).
  - apply (rok_clients w Hw).
  - apply (rok_sessions w Hw).
Qed.

(** ** Degraded for ever

    [recordReverseActive] would take a degraded reverse without an error
    message back to listening; there is none, so a reverse that once failed to
    reach its host stays degraded until it is removed. *)
Definition degraded (e : nat) (r : reverseRegistry) : Prop :=
  ∃ en, rr_entries r !! e = Some en ∧ rv_State (re_reverse en) = Degraded ∧ rv_LastError (re_reverse en) ≠ None.

Lemma active_stays_degraded e e' n r : degraded e r → degraded e (recordReverseActive e' n r).
Proof.
  intros (en & He & HS & HL). unfold recordReverseActive.
  destruct (rr_entries r !! e') as [en'|] eqn:E; [|by exists en]. destruct (rr_byID r !! _); [|by exists en].
  destruct (decide (e' = e)) as [->|Hne].
  - eexists. cbn. rewrite lookup_alter_eq, He. split; [done|]. cbn. rewrite HS.
    rewrite (bool_decide_true (Degraded = Degraded)), (bool_decide_false (rv_LastError _ = None)) by done. by split.
  - exists en. cbn. by rewrite lookup_alter_ne.
Qed.

(** A run: a reverse is created. *)
Definition reverse_sample_params : ReverseCreateParams :=
  mkReverseCreate "tcp:8080" "tcp:9090" (mkTarget "tcp" "10.0.0.2:5555") false.
Definition reverse_sample_created : world :=
  mkWorld (mkRegistry 1 {["rev_1" := 0%nat]} {["tcp:8080" := "rev_1"]}
             {[0%nat := mkEntry (new_reverse reverse_sample_params "rev_1" "now") true]} {[0%nat]} {[0%nat]} ∅ ∅) ∅ 1.

Lemma reverse_sample_run : nsteps rstep 5 rstart reverse_sample_created.
Proof.
  eapply nsteps_l; [apply (r_create rstart 0 reverse_sample_params (λ _, None) newReverseRegistry); by vm_compute|].
  eapply nsteps_l; [apply (r_connect _ 0 reverse_sample_params); by vm_compute|].
  eapply nsteps_l; [eapply (r_enter _ 0 reverse_sample_params 0%nat _ "now"); by vm_compute|].
  eapply nsteps_l; [eapply (r_session _ 0); by vm_compute|].
  eapply nsteps_l; [eapply (r_commit _ 0 _ _ (λ _, None)); by vm_compute|].
  apply nsteps_O.
Qed.

Lemma reverse_registry_invariant_witness :
  nsteps rstep 5 rstart reverse_sample_created ∧ ¬ reverse_panics reverse_sample_created.
Proof.
  split; [apply reverse_sample_run|]. apply (reverse_registry_invariant 5 reverse_sample_created); [apply reverse_sample_run|lia].
Defined.

(** ** Removal against a notification

    [removeLocked] runs with [r.mu] held and closes the session, which sets its
    callbacks to nil and waits for its bridges; a bridge that ends calls
    [notifyActive], which reads the callback once for the test and once for the
    call, without a lock, and the callback [recordReverseActive] locks [r.mu].
    One remover and one bridge are followed here. *)
Inductive remover_pc := MLocking | MClosing | MWaiting | MDone.
Inductive notify_pc := BTesting | BCalling | BLocking | BRecording | BEnded | BPanicked.
Inductive owner := Nobody | Remover | Bridge.

Record notify_state := mkNotify { n_mu : owner; n_callback : bool; n_remover : remover_pc; n_bridge : notify_pc }.

Inductive nstep : notify_state → notify_state → Prop :=
  | n_lock cb b : nstep (mkNotify Nobody cb MLocking b) (mkNotify Remover cb MClosing b)
  | n_clear mu cb b : nstep (mkNotify mu cb MClosing b) (mkNotify mu false MWaiting b)
  | n_unlock mu cb : nstep (mkNotify mu cb MWaiting BEnded) (mkNotify Nobody cb MDone BEnded)
  | n_test mu (cb : bool) m : nstep (mkNotify mu cb m BTesting) (mkNotify mu cb m (if cb then BCalling else BEnded))
  | n_call mu (cb : bool) m : nstep (mkNotify mu cb m BCalling) (mkNotify mu cb m (if cb then BLocking else BPanicked))
  | n_enter cb m : nstep (mkNotify Nobody cb m BLocking) (mkNotify Bridge cb m BRecording)
  | n_leave cb m : nstep (mkNotify Bridge cb m BRecording) (mkNotify Nobody cb m BEnded).

Definition notify_start : notify_state := mkNotify Nobody true MLocking BTesting.

(** Removing a reverse while one of its bridges ends can go wrong in two
    ways, both reachable: the remover waits, with the registry locked, for a
    bridge that waits for the registry's lock, and nothing can happen any more;
    or the bridge calls a callback that became nil behind its test. *)
Theorem removal_races_with_notification :
  (∃ s, rtc nstep notify_start s ∧ n_remover s = MWaiting ∧ n_bridge s = BLocking ∧ ∀ s', ¬ nstep s s') ∧
  (∃ s, rtc nstep notify_start s ∧ n_bridge s = BPanicked).
Proof.
  split.
  - exists (mkNotify Remover false MWaiting BLocking). split_and!; [|done|done|].
    + eapply rtc_l; [apply n_test|]. eapply rtc_l; [apply n_call|]. eapply rtc_l; [apply n_lock|].
      eapply rtc_l; [apply n_clear|]. apply rtc_refl.
    + intros s' H. inversion H.
  - exists (mkNotify Remover false MWaiting BPanicked). split; [|done].
    eapply rtc_l; [apply n_test|]. eapply rtc_l; [apply n_lock|]. eapply rtc_l; [apply n_clear|].
    eapply rtc_l; [apply n_call|]. apply rtc_refl.
Qed.
