(* ===== verification/Server.v ===== *)
(** * internal/server/server_unix.go, client.go, path_unix.go: the server

    The socket path and who may take it over, the life of the server, and the
    request handler over the registries.  The environment of a request (what
    decoding, listening, connecting and closing come to) is a record; a request
    is handled here without interruption, and refines the registries' steps;
    Handlers cuts it where other goroutines may run. *)

From S2P Require Import Prelude Errors GoStrings Strconv Address ServerProtocol Forwards Reverses.

#[local] Open Scope string_scope.
#[local] Open Scope Z_scope.
#[local] Open Scope list_scope.

(** ** path_unix.go *)

Definition EnvSocket : string := "ADB_GO_SERVER_SOCKET".

Definition IsAbs (path : string) : bool := HasPrefix path "/".

(** [filepath.Clean] of a path in parts: no empty part, no [.], and a [..]
    takes the part before it, if there is one to take. *)
Definition clean_part (rooted : bool) (acc : list string) (part : string) : list string :=
  if (part =? "")%string || (part =? ".")%string then acc
  else if (part =? "..")%string then
    match acc with
    | [] => if rooted then [] else [".."]
    | last :: acc' => if (last =? "..")%string then ".." :: acc else acc'
    end
  else part :: acc.

Fixpoint split_slash (s : string) (part : string) : list string :=
  match s with
  | "" => [part]
  | String c s => if Ascii.eqb c "/"%char then part :: split_slash s "" else split_slash s (part +++ String c "")
  end.

Definition Clean (path : string) : string :=
  let rooted := IsAbs path in
  let parts := rev (foldl (clean_part rooted) [] (split_slash path "")) in
  if rooted then "/" +++ GoStrings.Join parts "/"
  else match parts with [] => "." | _ => GoStrings.Join parts "/" end.

(** [filepath.Join]: the non-empty elements, cleaned. *)
Definition filepath_Join (elems : list string) : string :=
  match List.filter (λ e, negb (e =? "")%string) elems with
  | [] => ""
  | elems => Clean (GoStrings.Join elems "/")
  end.

(** The environment: [ADB_GO_SERVER_SOCKET], [XDG_RUNTIME_DIR], [os.TempDir()]
    and the user's ID; an unset variable is empty. *)
Record Environ := mkEnviron { env_socket : string; env_runtime : string; env_temp : string; env_uid : Z }.

Definition DefaultSocketPath (env : Environ) : res string :=
  if negb (env_socket env =? "")%string then
    if negb (IsAbs (env_socket env)) then Err (Errorf "%s must be an absolute path" [AStr EnvSocket])
    else Ok (env_socket env)
  else if negb (env_runtime env =? "")%string && IsAbs (env_runtime env)
  then Ok (filepath_Join [env_runtime env; "adb-go"; "adb-gos.sock"])
  else Ok (filepath_Join [env_temp env; "adb-go-" +++ Itoa (env_uid env); "adb-gos.sock"]).

(** ** The server *)

(** The registries with the references handed out, as in Forwards and Reverses. *)
Record Server := mkServer {
  socketPath : string;
  listening_on : bool;                    (* s.listener is set *)
  forwards : Forwards.world;
  reverses : Reverses.world;
  devices : deviceRegistry;
  sv_done : bool;                         (* s.done is closed *)
}.

Definition NewServer (env : Environ) (path : string) : res Server :=
  match (if (path =? "")%string then DefaultSocketPath env else Ok path) with
  | Err err => Err err
  | Ok path =>
      if negb (IsAbs path) then Err (Errorf "server socket path must be absolute" [])
      else Ok (mkServer path false start rstart newDeviceRegistry false)
  end.

(** What is at the socket path. *)
Inductive node := Absent | Socket | Other.

(** [prepareSocketPath]: the node, an error of [Lstat] other than "does not
    exist", the version a ping is answered with, and the outcome of [Remove]. *)
Definition prepareSocketPath (path : string) (at_path : node) (lstat : option error) (ping : res Z)
    (remove_err : option error) : node * option error :=
  match lstat, at_path with
  | Some err, _ => (at_path, Some (ErrorfW "inspect server socket path: %w" [] err))
  | None, Absent => (Absent, None)
  | None, Other => (Other, Some (Errorf "server socket path %q exists and is not a Unix socket" [AStr path]))
  | None, Socket =>
      match ping with
      | Ok version =>
          (Socket, Some (if version =? ProtocolVersion
                         then ErrorfW "%w at %s" [AStr path] (Sentinel server_ErrAlreadyRunning)
                         else Errorf "server socket path %q is in use by an incompatible listener" [AStr path]))
      | Err _ =>
          match remove_err with
          | Some err => (Socket, Some (ErrorfW "remove stale server socket %q: %w" [AStr path] err))
          | None => (Absent, None)
          end
      end
  end.

Definition Listen (s : Server) (at_path : node) (mkdir lstat : option error) (ping : res Z)
    (remove_err listen : option error) : Server * node * option error :=
  match mkdir with
  | Some err => (s, at_path, Some (ErrorfW "create server socket directory: %w" [] err))
  | None =>
      match prepareSocketPath (socketPath s) at_path lstat ping remove_err with
      | (at_path, Some err) => (s, at_path, Some err)
      | (at_path, None) =>
          match listen with
          | Some err => (s, at_path, Some (ErrorfW "listen on server socket %q: %w" [AStr (socketPath s)] err))
          | None => (mkServer (socketPath s) true (forwards s) (reverses s) (devices s) (sv_done s), Socket, None)
          end
      end
  end.

(** What [Serve] returns, by the error of the first [Accept] that fails. *)
Definition Serve (s : Server) (accept_err : error) : option error :=
  if negb (listening_on s) then Some (Errorf "server is not listening" [])
  else if errors_Is accept_err net_ErrClosed then None
  else if sv_done s then None
  else Some (ErrorfW "accept server connection: %w" [] accept_err).

(** [Shutdown]: [shutdownOnce] is [sv_done]; [close_err] is the error of closing
    the listener, which may take the socket away itself; [at_path] is what is
    at the path then. *)
Definition Shutdown (cleanup : nat → option error) (close_err remove_err : option error) (at_path : node) (s : Server)
    : option (Server * node * option error) :=
  if sv_done s then Some (s, at_path, None) else
  let err := if listening_on s then close_err else None in
  '(fr, _) ← Forwards.removeAll (reg (forwards s));
  '(rr, _) ← reverse_removeAll cleanup (rreg (reverses s));
  let '(at_path, err) :=
    match at_path with
    | Socket => match remove_err with
                | Some re => (Socket, match err with None => Some re | Some e => Some e end)
                | None => (Absent, err)
                end
    | _ => (at_path, err)
    end in
  Some (mkServer (socketPath s) (listening_on s) (set_reg fr (forwards s)) (set_rreg rr (reverses s)) (devices s) true,
        at_path, err).

(** ** Requests *)

Record Request := mkRequest { rq_Version : Z; rq_ID : string; rq_Command : string; rq_Params : string }.

(** The [Result] of a response, by command. *)
Inductive payload :=
  | PMessage (message : string)
  | PStatus (path : string) (forwards : ForwardDiagnostics) (reverses : ReverseDiagnostics)
  | PDevices (l : list Device)
  | PDevice (d : Device)
  | PForward (f : Forward)
  | PForwards (l : list Forward)
  | PReverse (v : Reverses.Reverse)
  | PReverses (l : list Reverses.Reverse)
  | PRemoved (n : nat).

Record Response := mkResponse {
  rs_Version : Z; rs_ID : string; rs_OK : bool; rs_Result : option payload; rs_Error : option Error;
}.

(** What the environment makes of one request.  The values of [Listen] are the
    address bound, or an error and whether it is a [*net.OpError]. *)
Record Outcomes := mkOutcomes {
  oc_forward_create : string → res ForwardCreateParams;
  oc_forward_remove : string → res ForwardRemoveParams;
  oc_reverse_create : string → res ReverseCreateParams;
  oc_reverse_remove : string → res ReverseRemoveParams;
  oc_device_register : string → res DeviceRegisterParams;
  oc_listen : string + bool * error;
  oc_connect : option error;
  oc_session : option error;
  oc_cleanup : nat → option error;
  oc_now : string;
  oc_order : deviceRegistry → list Device;
}.

Section requests.
Context (oc : Outcomes).

(** [forwardRegistry.create] without interruption. *)
Definition create_forward (params : ForwardCreateParams) (w : Forwards.world) : option (Forwards.world * result Forward) :=
  '(r, err) ← create_check params (reg w);
  match err with
  | Some e => Some (set_reg r w, Bad e)
  | None =>
      match oc_listen oc with
      | inr (is_op, err) => Some (set_reg r w, Bad (listenError is_op (fc_Local params) err))
      | inl addr =>
          let ln := fresh_ref w in
          let '(r, id) := nextForwardID (open_listener ln addr r) in
          '(r, res) ← create_commit params ln addr id (oc_now oc) r;
          Some (Forwards.mkWorld r (creating w) (accepted w) (S ln), res)
      end
  end.

(** [reverseRegistry.create] without interruption. *)
Definition create_reverse (params : ReverseCreateParams) (w : Reverses.world) : option (Reverses.world * result Reverses.Reverse) :=
  '(r, err) ← reverse_create_check (oc_cleanup oc) params (rreg w);
  match err with
  | Some e => Some (set_rreg r w, Bad e)
  | None =>
      match oc_connect oc with
      | Some err =>
          Some (set_rreg r w, Bad (mkError ErrorRegistrationFailed
                                     (ErrorfV "connect target %s: %v" [AStr (tg_Address (rc_Target params))] err)))
      | None =>
          let e := rfresh w in
          let r := connect e r in
          match parse_endpoints params with
          | Bad err => Some (Reverses.mkWorld (close_client e r) (rcreating w) (S e), Bad err)
          | Good _ =>
              let '(r, _) := new_entry params e (oc_now oc) r in
              match oc_session oc with
              | Some err => Some (Reverses.mkWorld (close_client e r) (rcreating w) (S e), Bad (mkError ErrorRegistrationFailed err))
              | None =>
                  '(r, res) ← reverse_create_commit (oc_cleanup oc) params e (set_session e r);
                  Some (Reverses.mkWorld r (rcreating w) (S e), res)
              end
          end
      end
  end.

Definition set_forwards (w : Forwards.world) (s : Server) : Server :=
  mkServer (socketPath s) (listening_on s) w (reverses s) (devices s) (sv_done s).
Definition set_reverses (w : Reverses.world) (s : Server) : Server :=
  mkServer (socketPath s) (listening_on s) (forwards s) w (devices s) (sv_done s).
Definition set_devices (d : deviceRegistry) (s : Server) : Server :=
  mkServer (socketPath s) (listening_on s) (forwards s) (reverses s) d (sv_done s).

Definition fail (req : Request) (e : Error) : Response := mkResponse ProtocolVersion (rq_ID req) false None (Some e).
Definition answer (req : Request) (p : payload) : Response := mkResponse ProtocolVersion (rq_ID req) true (Some p) None.

(** The response to the outcome of a handler, with the server as it left it. *)
Definition respond {A} (req : Request) (f : A → payload) (s : Server) (res : result A) : Server * Response :=
  (s, match res with Good a => answer req (f a) | Bad e => fail req e end).

(** [None] is a panic. *)
Definition handleRequest (req : Request) (s : Server) : option (Server * Response) :=
  let cmd := rq_Command req in
  let decoded {A} (r : result A) (k : A → option (Server * Response)) :=
    match r with Bad e => Some (s, fail req e) | Good params => k params end in
  if (cmd =? "")%string then Some (s, fail req (bad_request "missing required command field"))
  else if negb (rq_Version req =? ProtocolVersion)
  then Some (s, fail req (mkError ErrorUnsupportedVersion
                            (Sprintf "unsupported server protocol version %d" [AInt (rq_Version req)])))
  else if (cmd =? CommandPing)%string then Some (s, answer req (PMessage "pong"))
  else if (cmd =? CommandStatus)%string then
    Some (s, answer req (PStatus (socketPath s) (diagnostics (reg (forwards s))) (reverse_diagnostics (rreg (reverses s)))))
  else if (cmd =? CommandShutdown)%string then Some (s, answer req (PMessage "shutting_down"))
  else if (cmd =? CommandDeviceList)%string then
    Some (s, answer req (PDevices (deviceRegistry_list (oc_order oc (devices s)))))
  else if (cmd =? CommandDeviceRegister)%string then
    decoded (decodeDeviceRegisterParams (oc_device_register oc) (rq_Params req)) (λ params,
      let '(d, res) := deviceRegistry_register params (devices s) in
      Some (respond req PDevice (set_devices d s) res))
  else if (cmd =? CommandForwardCreate)%string then
    decoded (decodeForwardCreateParams (oc_forward_create oc) (rq_Params req)) (λ params,
      '(w, res) ← create_forward params (forwards s); Some (respond req PForward (set_forwards w s) res))
  else if (cmd =? CommandForwardList)%string then Some (s, answer req (PForwards (forwards_of (reg (forwards s)))))
  else if (cmd =? CommandForwardRemove)%string then
    decoded (decodeForwardRemoveParams (oc_forward_remove oc) (rq_Params req)) (λ params,
      '(r, res) ← Forwards.remove params (reg (forwards s));
      Some (respond req PRemoved (set_forwards (set_reg r (forwards s)) s) res))
  else if (cmd =? CommandForwardRemoveAll)%string then
    '(r, n) ← Forwards.removeAll (reg (forwards s));
    Some (set_forwards (set_reg r (forwards s)) s, answer req (PRemoved n))
  else if (cmd =? CommandReverseCreate)%string then
    decoded (decodeReverseCreateParams (oc_reverse_create oc) (rq_Params req)) (λ params,
      '(w, res) ← create_reverse params (reverses s); Some (respond req PReverse (set_reverses w s) res))
  else if (cmd =? CommandReverseList)%string then Some (s, answer req (PReverses (reverses_of (rreg (reverses s)))))
  else if (cmd =? CommandReverseRemove)%string then
    decoded (decodeReverseRemoveParams (oc_reverse_remove oc) (rq_Params req)) (λ params,
      '(r, res) ← reverse_remove (oc_cleanup oc) params (rreg (reverses s));
      Some (respond req PRemoved (set_reverses (set_rreg r (reverses s)) s) res))
  else if (cmd =? CommandReverseRemoveAll)%string then
    '(r, n) ← reverse_removeAll (oc_cleanup oc) (rreg (reverses s));
    Some (set_reverses (set_rreg r (reverses s)) s, answer req (PRemoved n))
  else Some (s, fail req (mkError ErrorUnknownCommand (Sprintf "unknown server command %q" [AStr cmd]))).

(** [handleConn]: the request that was decoded, if it was, the response written
    and whether a shutdown is started behind it. *)
Definition handleConn (decoded : option Request) (s : Server) : option (Server * Response * bool) :=
  match decoded with
  | None => Some (s, mkResponse ProtocolVersion "" false None (Some (bad_request "malformed JSON request")), false)
  | Some req =>
      '(s, resp) ← handleRequest req s;
      Some (s, resp, (rq_Version req =? ProtocolVersion) && (rq_Command req =? CommandShutdown)%string && rs_OK resp)
  end.
End requests.

(** ** client.go *)

(** [Send]: the errors of dialing, writing and reading, and the response read. *)
Definition Send (dial write : option error) (resp : res Response) : res Response :=
  match dial with
  | Some err => Err err
  | None =>
      match write with
      | Some err => Err (ErrorfW "write server request: %w" [] err)
      | None => match resp with Err err => Err (ErrorfW "read server response: %w" [] err) | Ok r => Ok r end
      end
  end.
Definition ping_request : Request := mkRequest ProtocolVersion "" CommandPing "".
Definition Ping (dial write : option error) (resp : res Response) : res Response := Send dial write resp.

(** ** Requests as steps of the registries *)

(** A sequential server creates nothing between two requests. *)
Definition idle (s : Server) : Prop := creating (forwards s) = ∅ ∧ rcreating (reverses s) = ∅.

(** The address a listener is bound to is free once a forward in its way was removed. *)
Definition free_address (oc : Outcomes) (req : Request) (s : Server) : Prop :=
  ∀ params r addr,
    decodeForwardCreateParams (oc_forward_create oc) (rq_Params req) = Good params →
    create_check params (reg (forwards s)) = Some (r, None) → oc_listen oc = inl addr →
    ∀ ln, listening r !! ln ≠ Some addr.

Definition few {A} (R : relation A) (k : nat) (x y : A) : Prop := ∃ n, (n ≤ k)%nat ∧ nsteps R n x y.

Lemma few_refl {A} (R : relation A) k x : few R k x x.
Proof. exists 0%nat. split; [lia|apply nsteps_O]. Qed.
Lemma few_step {A} (R : relation A) k x y z : R x y → few R k y z → few R (S k) x z.
Proof. intros H (n & Hn & Hs). exists (S n). split; [lia|by eapply nsteps_l]. Qed.
Lemma few_once {A} (R : relation A) k x y : R x y → few R (S k) x y.
Proof. intros H. eapply few_step; [exact H|apply few_refl]. Qed.

Lemma creating_world (w : Forwards.world) : creating w = ∅ → ∀ t, creating w !! t = None.
Proof. intros E t. by rewrite E, lookup_empty. Qed.

Lemma set_reg_eta r w : creating w = ∅ → set_reg r w = Forwards.mkWorld r ∅ (accepted w) (fresh_ref w).
Proof. intros E. unfold set_reg. by rewrite E. Qed.

Lemma create_forward_steps oc params w :
  world_ok w → 0 ≤ nextID (reg w) → nextID (reg w) + 1 < 2 ^ 64 → creating w = ∅ →
  (∀ r addr, create_check params (reg w) = Some (r, None) → oc_listen oc = inl addr →
     ∀ ln, listening r !! ln ≠ Some addr) →
  ∃ w' res, create_forward oc params w = Some (w', res) ∧ few fstep 4 w w' ∧ creating w' = ∅ ∧
    match res with
    | Good f => fw_State f = Listening ∧ byID (reg w') !! fw_ID f = Some (fresh_ref w) ∧
        entries (reg w') !! fresh_ref w = Some (Forwards.mkEntry f ∅)
    | Bad _ => True
    end.
Proof.
  intros Hw H0 Hn Hc Hfree. unfold create_forward.
  destruct (create_check_ok w params Hw) as (r & e & E & Hok & HN & Hnet). rewrite E. cbn [mbind option_bind].
  assert (∀ t, creating w !! t = None) as Ht by (intros t; by rewrite Hc, lookup_empty).
  destruct e as [e|].
  { eexists _, _. split_and!; [done| |done|done]. apply few_once. by eapply s_create_refused. }
  assert (∀ w', few fstep 3 (Forwards.mkWorld r (<[0%nat := CListen params]> (creating w)) (accepted w) (fresh_ref w)) w' →
    few fstep 4 w w') as Hfirst by (intros w' Hs; eapply few_step; [by apply s_create|exact Hs]).
  destruct (oc_listen oc) as [addr|[is_op err]] eqn:EL.
  2:{ eexists _, _. split_and!; [done| |done|done]. apply Hfirst, few_once.
      rewrite set_reg_eta, Hc by done.
      replace ∅ with (delete 0%nat (<[0%nat := CListen params]> (∅ : gmap nat Forwards.create_pc))) at 2
        by (by rewrite delete_insert_eq, delete_empty).
      eapply (s_listen_fails (Forwards.mkWorld r _ _ _)). cbn. by rewrite lookup_insert, decide_True. }
  specialize (Hnet eq_refl). pose proof (Hfree r addr E eq_refl) as Ha.
  pose proof (add_CListen (set_reg r w) 0 params Hok (Ht 0%nat) Hnet) as Hw1. cbn [reg creating accepted fresh_ref set_reg] in Hw1.
  set (w1 := Forwards.mkWorld r _ _ _) in Hw1.
  assert (creating w1 !! 0%nat = Some (CListen params)) as L1 by (cbn; by rewrite lookup_insert, decide_True).
  pose proof (listen_world_ok w1 0 params addr Hw1 L1 Ha) as Hw2. set (w2 := Forwards.mkWorld (open_listener _ _ _) _ _ _) in Hw2.
  assert (creating w2 !! 0%nat = Some (CBound params (fresh_ref w) addr)) as L2 by (cbn; by rewrite lookup_insert, decide_True).
  assert (nextID (reg w2) = nextID (reg w)) as N2 by done.
  pose proof (name_world_ok w2 0 _ _ _ Hw2 ltac:(lia) ltac:(lia) L2) as Hw3.
  set (w3 := Forwards.mkWorld (fst _) _ _ _) in Hw3.
  assert (creating w3 !! 0%nat = Some (CNamed params (fresh_ref w) addr (snd (nextForwardID (reg w2))))) as L3
    by (cbn; by rewrite lookup_insert, decide_True).
  destruct (commit_world_ok w3 0 _ _ _ _ (oc_now oc) Hw3 L3) as (r' & EC & _ & _).
  change (nextForwardID (open_listener (fresh_ref w) addr r)) with (nextForwardID (reg w2)).
  rewrite (surjective_pairing (nextForwardID (reg w2))).
  change (reg w3) with (fst (nextForwardID (reg w2))) in EC.
  set (id := snd (nextForwardID (reg w2))) in *. cbn [fresh_ref] in *. rewrite EC. cbn [mbind option_bind].
  eexists _, _. split_and!; [done| |done|].
  - apply Hfirst. eapply few_step; [by apply (s_listen w1 0 params addr)|].
    eapply few_step; [apply (s_name w2 0 _ _ _ L2)|]. apply few_once.
    assert (delete 0%nat (creating w3) = ∅) as ED
      by (cbn; by rewrite Hc, !insert_insert_eq, delete_insert_eq, delete_empty).
    rewrite Hc, <-ED. eapply (s_commit w3 0); [exact L3|exact EC].
  - pose proof (commit_finds_nothing _ _ _ _ _ _ Hw3 L3) as Hnone.
    unfold create_commit in EC. change (reg w3) with (fst (nextForwardID (reg w2))) in Hnone.
    cbn [new_forward fw_Local] in EC. rewrite Hnone in EC. injection EC as <-. cbn.
    split; [done|]. by rewrite !lookup_insert, !decide_True.
Qed.

(** One creation at a time: its entries in the map of creations come and go. *)
Lemma one_gone (t : nat) (a : Reverses.create_pc) (m : gmap nat Reverses.create_pc) :
  m = ∅ → delete t (<[t := a]> m) = ∅.
Proof. intros ->. by rewrite delete_insert_eq, delete_empty. Qed.

Lemma set_rreg_eta r w : rcreating w = ∅ → set_rreg r w = Reverses.mkWorld r ∅ (rfresh w).
Proof. intros E. unfold set_rreg. by rewrite E. Qed.

(** The end of a creation, from the entry on: the session and the second check. *)
Lemma entered_steps oc params e w : rworld_ok w → rcreating w = {[0%nat := REntered params e]} →
  ∃ w' res,
    match oc_session oc with
    | Some err => Some (Reverses.mkWorld (close_client e (rreg w)) ∅ (rfresh w), Bad (mkError ErrorRegistrationFailed err))
    | None =>
        '(r, res) ← reverse_create_commit (oc_cleanup oc) params e (set_session e (rreg w));
        Some (Reverses.mkWorld r ∅ (rfresh w), res)
    end = Some (w', res) ∧ few rstep 2 w w' ∧ rcreating w' = ∅.
Proof.
  intros Hw Hc. assert (rcreating w !! 0%nat = Some (REntered params e)) as L by (by rewrite Hc, lookup_singleton_eq).
  assert (delete 0%nat (rcreating w) = ∅) as D by (by rewrite Hc, delete_singleton_eq).
  destruct (oc_session oc) as [err|].
  { eexists _, _. split_and!; [done| |done]. apply few_once. rewrite <-D. by apply (r_session_fails w 0 params). }
  pose proof (session_ok w 0 params e Hw L) as Hw4. set (w4 := Reverses.mkWorld (set_session _ _) _ _) in Hw4.
  assert (rcreating w4 !! 0%nat = Some (RRegistered params e)) as L4 by (cbn; by rewrite lookup_insert, decide_True).
  assert (delete 0%nat (rcreating w4) = ∅) as D4 by (cbn; rewrite delete_insert_eq; exact D).
  destruct (commit_ok (oc_cleanup oc) w4 0 params e Hw4 L4) as (r' & res & EC & _ & _).
  change (rreg w4) with (set_session e (rreg w)) in EC. rewrite EC. cbn [mbind option_bind].
  eexists _, _. split_and!; [done| |done]. eapply few_step; [by apply (r_session w 0 params)|]. apply few_once.
  rewrite <-D4. eapply (r_commit w4 0); [exact L4|exact EC].
Qed.

Lemma create_reverse_steps oc params w :
  rworld_ok w → 0 ≤ rr_nextID (rreg w) → rr_nextID (rreg w) + 1 < 2 ^ 64 → rcreating w = ∅ →
  ∃ w' res, create_reverse oc params w = Some (w', res) ∧ few rstep 5 w w' ∧ rcreating w' = ∅.
Proof.
  intros Hw H0 Hn Hc. unfold create_reverse.
  destruct (reverse_check_ok (oc_cleanup oc) w params Hw) as (r & e & E & Hok & HN). rewrite E. cbn [mbind option_bind].
  assert (∀ t, rcreating w !! t = None) as Ht by (intros t; by rewrite Hc, lookup_empty).
  destruct e as [e|].
  { eexists _, _. split_and!; [done| |done]. apply few_once. by eapply r_create_refused. }
  assert (∀ w', few rstep 4 (Reverses.mkWorld r (<[0%nat := RConnecting params]> (rcreating w)) (rfresh w)) w' →
    few rstep 5 w w') as Hfirst by (intros w' Hs; eapply few_step; [by eapply r_create|exact Hs]).
  pose proof (add_connecting (set_rreg r w) 0 params Hok (Ht 0%nat)) as Hw1. cbn [rreg rcreating rfresh set_rreg] in Hw1.
  set (w1 := Reverses.mkWorld r _ _) in Hw1.
  assert (rcreating w1 !! 0%nat = Some (RConnecting params)) as L1 by (cbn; by rewrite lookup_insert, decide_True).
  destruct (oc_connect oc) as [err|].
  { eexists _, _. split_and!; [done| |done]. apply Hfirst, few_once. rewrite set_rreg_eta by done.
    rewrite <-(one_gone 0 (RConnecting params) _ Hc). by apply (r_connect_fails w1 0 params). }
  assert (∀ w', few rstep 3 (Reverses.mkWorld (connect (rfresh w) r)
      (<[0%nat := RConnected params (rfresh w)]> (rcreating w1)) (S (rfresh w))) w' → few rstep 5 w w') as Hsecond
    by (intros w' Hs; apply Hfirst; eapply few_step; [by apply (r_connect w1 0 params)|exact Hs]).
  pose proof (connect_ok w1 0 params Hw1 L1) as Hw2. set (w2 := Reverses.mkWorld (connect (rfresh w1) (rreg w1)) _ _) in Hw2.
  assert (rcreating w2 !! 0%nat = Some (RConnected params (rfresh w))) as L2 by (cbn; by rewrite lookup_insert, decide_True).
  assert (delete 0%nat (rcreating w2) = ∅) as D2
    by (cbn; rewrite Hc, insert_insert_eq; by apply one_gone).
  destruct (parse_endpoints params) as [eps|err] eqn:EP.
  2:{ eexists _, _. split_and!; [done| |done]. apply Hsecond, few_once. rewrite Hc, <-D2.
      by eapply (r_parse_fails w2). }
  pose proof (enter_ok w2 0 params (rfresh w) (oc_now oc) Hw2) as Hw3. change (rr_nextID (rreg w2)) with (rr_nextID r) in Hw3.
  specialize (Hw3 ltac:(lia) ltac:(lia) L2). set (w3 := Reverses.mkWorld (fst _) _ _) in Hw3.
  assert (∀ w', few rstep 2 w3 w' → few rstep 5 w w') as Hthird
    by (intros w' Hs; apply Hsecond; eapply few_step; [by eapply (r_enter w2 0)|exact Hs]).
  change (new_entry params (rfresh w) (oc_now oc) (connect (rfresh w) r))
    with (new_entry params (rfresh w) (oc_now oc) (rreg w2)).
  rewrite (surjective_pairing (new_entry params (rfresh w) (oc_now oc) (rreg w2))), Hc.
  assert (rcreating w3 = {[0%nat := REntered params (rfresh w)]}) as C3 by (cbn; by rewrite Hc, !insert_insert_eq).
  destruct (entered_steps oc params (rfresh w) w3 Hw3 C3) as (w' & res & E' & Hs & Hc'). exists w', res.
  split_and!; [exact E'|by apply Hthird|done].
Qed.

(** The comparisons of a known command with the commands of the server. *)
Ltac run_command H :=
  repeat match type of H with context [(?c =? ?d)%string] =>
    let b := eval vm_compute in (c =? d)%string in
    lazymatch b with true => idtac | false => idtac end;
    change (c =? d)%string with b in H; cbn iota in H end.
Ltac run_goal :=
  repeat match goal with |- context [(?c =? ?d)%string] =>
    let b := eval vm_compute in (c =? d)%string in
    lazymatch b with true => idtac | false => idtac end;
    change (c =? d)%string with b; cbn iota end.

(** A response: the version, the request's ID, and a result or an error. *)
Definition good_response (id : string) (resp : Response) : Prop :=
  rs_Version resp = ProtocolVersion ∧ rs_ID resp = id ∧
  (if rs_OK resp then rs_Result resp ≠ None ∧ rs_Error resp = None
   else rs_Result resp = None ∧ rs_Error resp ≠ None).

Lemma good_answer req p : good_response (rq_ID req) (answer req p).
Proof. done. Qed.
Lemma good_fail req e : good_response (rq_ID req) (fail req e).
Proof. done. Qed.
Lemma good_respond {A} req (f : A → payload) s res : good_response (rq_ID req) (respond req f s res).2.
Proof. by destruct res. Qed.
Create HintDb server.
#[export] Hint Resolve good_answer good_fail good_respond : server.

(** What a request with at most one critical section does, whatever else goes
    on in the registries. *)
Record at_once (req : Request) (s s' : Server) (resp : Response) : Prop := {
  a_response : good_response (rq_ID req) resp;
  a_forwards : few fstep 1 (forwards s) (forwards s');
  a_reverses : few rstep 1 (reverses s) (reverses s');
  a_creating : creating (forwards s') = creating (forwards s);
  a_rcreating : rcreating (reverses s') = rcreating (reverses s);
  a_refused : rs_OK resp = false → s' = s;
  a_rest : socketPath s' = socketPath s ∧ listening_on s' = listening_on s ∧ sv_done s' = sv_done s;
}.

Lemma at_once_answer req s p : at_once req s s (answer req p).
Proof. split; try done; apply few_refl. Qed.
Lemma at_once_fail req s e : at_once req s s (fail req e).
Proof. split; try done; apply few_refl. Qed.
#[local] Hint Resolve at_once_answer at_once_fail : core.

Lemma same_server s : mkServer (socketPath s) (listening_on s) (forwards s) (reverses s) (devices s) (sv_done s) = s.
Proof. by destruct s. Qed.

(** A removal that is refused leaves its registry alone. *)
Lemma remove_refused params r r' e : remove params r = Some (r', Bad e) → r' = r.
Proof.
  unfold remove. destruct (fr_Local params).
  - destruct (negb _); [congruence|]. destruct (validateForwardLocal _); [congruence|].
    destruct (byID _ !! _); [|congruence]. by destruct (removeLocked _ _).
  - destruct (_ =? "")%string; [congruence|]. destruct (byID _ !! _); [|congruence]. by destruct (removeLocked _ _).
Qed.

Lemma reverse_remove_refused cleanup params r r' e : reverse_remove cleanup params r = Some (r', Bad e) → r' = r.
Proof.
  unfold reverse_remove. destruct (rr_Remote params), (rr_ID params =? "")%string; try congruence.
  - destruct (validateReverseRemote _); [congruence|]. destruct (rr_byID _ !! _); [|congruence].
    by destruct (reverse_removeLocked _ _ _).
  - destruct (rr_byID _ !! _); [|congruence]. by destruct (reverse_removeLocked _ _ _).
Qed.

Lemma set_rreg_same w : set_rreg (rreg w) w = w.
Proof. by destruct w. Qed.

Lemma request_at_once oc req s :
  world_ok (forwards s) → rworld_ok (reverses s) →
  rq_Command req ≠ CommandForwardCreate → rq_Command req ≠ CommandReverseCreate →
  ∃ s' resp, handleRequest oc req s = Some (s', resp) ∧ at_once req s s' resp.
Proof.
  intros Hf Hr NF NR. unfold handleRequest. apply String.eqb_neq in NF, NR. rewrite NF, NR.
  assert (∀ e, ∃ s' resp, Some (s, fail req e) = Some (s', resp) ∧ at_once req s s' resp) as Hfail
    by (intros e; eexists _, _; split; [done|auto]).
  assert (∀ p, ∃ s' resp, Some (s, answer req p) = Some (s', resp) ∧ at_once req s s' resp) as Hanswer
    by (intros p; eexists _, _; split; [done|auto]).
  destruct (rq_Command req =? "")%string; [apply Hfail|]. destruct (negb _); [apply Hfail|].
  destruct (rq_Command req =? CommandPing)%string; [apply Hanswer|].
  destruct (rq_Command req =? CommandStatus)%string; [apply Hanswer|].
  destruct (rq_Command req =? CommandShutdown)%string; [apply Hanswer|].
  destruct (rq_Command req =? CommandDeviceList)%string; [apply Hanswer|].
  destruct (rq_Command req =? CommandDeviceRegister)%string.
  { destruct (decodeDeviceRegisterParams _ _) as [params|e]; [|apply Hfail].
    destruct (deviceRegistry_register params (devices s)) as [d res] eqn:E. unfold respond. eexists _, _. split; [done|].
    unfold deviceRegistry_register in E. destruct (validateDeviceRegisterParams params); injection E as <- <-.
    - split; try done; apply few_refl.
    - unfold set_devices. rewrite same_server. auto. }
  destruct (rq_Command req =? CommandForwardList)%string; [apply Hanswer|].
  destruct (rq_Command req =? CommandForwardRemove)%string.
  { destruct (decodeForwardRemoveParams _ _) as [params|e]; [|apply Hfail].
    destruct (remove_ok (forwards s) params Hf) as (r' & res & E & _). rewrite E. cbn [mbind option_bind]. unfold respond.
    eexists _, _. split; [done|]. destruct res as [n|e].
    - split; try done; [|apply few_refl]. apply few_once. by eapply s_remove.
    - apply remove_refused in E as ->. unfold set_forwards. rewrite set_reg_same, same_server. auto. }
  destruct (rq_Command req =? CommandForwardRemoveAll)%string.
  { destruct (removeAll_ok (forwards s) Hf) as (r' & E & _). rewrite E. cbn [mbind option_bind].
    eexists _, _. split; [done|]. split; try done; [|apply few_refl]. apply few_once. by eapply s_removeAll. }
  destruct (rq_Command req =? CommandReverseList)%string; [apply Hanswer|].
  destruct (rq_Command req =? CommandReverseRemove)%string.
  { destruct (decodeReverseRemoveParams _ _) as [params|e]; [|apply Hfail].
    destruct (reverse_remove_ok (oc_cleanup oc) (reverses s) params Hr) as (r' & res & E & _). rewrite E.
    cbn [mbind option_bind]. unfold respond. eexists _, _. split; [done|]. destruct res as [n|e].
    - split; try done; [apply few_refl|]. apply few_once. by eapply r_remove.
    - apply reverse_remove_refused in E as ->. unfold set_reverses. rewrite set_rreg_same, same_server. auto. }
  destruct (rq_Command req =? CommandReverseRemoveAll)%string; [|apply Hfail].
  destruct (reverse_removeAll_ok (oc_cleanup oc) (reverses s) Hr) as (r' & E & _). rewrite E. cbn [mbind option_bind].
  eexists _, _. split; [done|]. split; try done; [apply few_refl|]. apply few_once. by eapply r_removeAll.
Qed.

(** What one request may do, run to its end. *)
Record handled (req : Request) (s s' : Server) (resp : Response) : Prop := {
  h_response : good_response (rq_ID req) resp;
  h_idle : idle s';
  h_forwards : few fstep 4 (forwards s) (forwards s');
  h_reverses : few rstep 5 (reverses s) (reverses s');
  h_refused : rs_OK resp = false → rq_Command req ≠ CommandForwardCreate → rq_Command req ≠ CommandReverseCreate → s' = s;
  h_rest : socketPath s' = socketPath s ∧ listening_on s' = listening_on s ∧ sv_done s' = sv_done s;
}.

Lemma few_weaken {A} (R : relation A) j k x y : (j ≤ k)%nat → few R j x y → few R k x y.
Proof. intros H (n & Hn & Hs). exists n. split; [lia|done]. Qed.

Lemma handled_fail req s e : idle s → handled req s s (fail req e).
Proof. intros Hi. split; try done; apply few_refl. Qed.

Lemma handled_at_once req s s' resp : idle s → at_once req s s' resp → handled req s s' resp.
Proof.
  intros [Hif Hir] [? F R C RC ? ?]. split; try done.
  - split; congruence.
  - eapply few_weaken; [|exact F]. lia.
  - eapply few_weaken; [|exact R]. lia.
  - auto.
Qed.

(** The guards of [handleRequest] in front of its commands. *)
Lemma guarded oc req s :
  rq_Command req ≠ "" →
  handleRequest oc req s =
    if negb (rq_Version req =? ProtocolVersion)
    then Some (s, fail req (mkError ErrorUnsupportedVersion
                              (Sprintf "unsupported server protocol version %d" [AInt (rq_Version req)])))
    else handleRequest oc req s.
Proof. intros Hc%String.eqb_neq. unfold handleRequest. rewrite Hc. by destruct (negb _). Qed.

Lemma request_handled oc req s :
  world_ok (forwards s) → rworld_ok (reverses s) → idle s → free_address oc req s →
  0 ≤ nextID (reg (forwards s)) → nextID (reg (forwards s)) + 1 < 2 ^ 64 →
  0 ≤ rr_nextID (rreg (reverses s)) → rr_nextID (rreg (reverses s)) + 1 < 2 ^ 64 →
  ∃ s' resp, handleRequest oc req s = Some (s', resp) ∧ handled req s s' resp.
Proof.
  intros Hf Hr Hi Hfree N1 N2 M1 M2. pose proof Hi as [Hif Hir].
  assert (∀ e, ∃ s' resp, Some (s, fail req e) = Some (s', resp) ∧ handled req s s' resp) as Hfail
    by (intros e; eexists _, _; split; [done|by apply handled_fail]).
  destruct (decide (rq_Command req = CommandForwardCreate)) as [EF|NF].
  { rewrite guarded by (by rewrite EF). destruct (negb _) eqn:EV; [apply Hfail|].
    unfold handleRequest. rewrite EF, EV. run_goal.
    destruct (decodeForwardCreateParams _ _) as [params|e] eqn:ED; [|apply Hfail].
    destruct (create_forward_steps oc params (forwards s) Hf N1 N2 Hif) as (w' & res & -> & Hs & Hc & _).
    { intros r addr. by apply (Hfree params). }
    cbn [mbind option_bind]. eexists _, _. split; [apply f_equal, surjective_pairing|].
    split; try done; [apply good_respond|apply few_refl]. }
  destruct (decide (rq_Command req = CommandReverseCreate)) as [ER|NR].
  { rewrite guarded by (by rewrite ER). destruct (negb _) eqn:EV; [apply Hfail|].
    unfold handleRequest. rewrite ER, EV. run_goal.
    destruct (decodeReverseCreateParams _ _) as [params|e] eqn:ED; [|apply Hfail].
    destruct (create_reverse_steps oc params (reverses s) Hr M1 M2 Hir) as (w' & res & -> & Hs & Hc).
    cbn [mbind option_bind]. eexists _, _. split; [apply f_equal, surjective_pairing|].
    split; try done; [apply good_respond|apply few_refl]. }
  destruct (request_at_once oc req s Hf Hr NF NR) as (s' & resp & -> & Ha).
  eexists _, _. split; [done|by apply handled_at_once].
Qed.

(** The servers that calls of [Listen], requests and shutdowns lead to. *)
Inductive served : nat → Server → Prop :=
  | served_new env path s : NewServer env path = Ok s → served 0 s
  | served_request n s oc req s' resp :
      served n s → free_address oc req s → handleRequest oc req s = Some (s', resp) → served (S n) s'
  | served_listen n s at_path mkdir lstat ping remove_err listen :
      served n s → served n (fst (fst (Listen s at_path mkdir lstat ping remove_err listen)))
  | served_shutdown n s cleanup close_err remove_err at_path s' at_path' err :
      served n s → Shutdown cleanup close_err remove_err at_path s = Some (s', at_path', err) → served (S n) s'.

Lemma few_nsteps {A} (R : relation A) k n m x y z :
  nsteps R n x y → (n ≤ m)%nat → few R k y z → ∃ p, (p ≤ m + k)%nat ∧ nsteps R p x z.
Proof. intros H Hm (j & Hj & Hs). exists (n + j)%nat. split; [lia|by eapply nsteps_trans]. Qed.

Lemma NewServer_fields env path s :
  NewServer env path = Ok s → forwards s = start ∧ reverses s = rstart ∧ devices s = newDeviceRegistry ∧
    sv_done s = false ∧ IsAbs (socketPath s) = true.
Proof.
  unfold NewServer. destruct (if (path =? "")%string then _ else _) as [p|]; [|done].
  destruct (IsAbs p) eqn:E; [|done]. cbn [negb]. intros H.
  assert (s = mkServer p false start rstart newDeviceRegistry false) as -> by congruence. done.
Qed.

Lemma Listen_registries s at_path mkdir lstat ping remove_err listen :
  let s' := fst (fst (Listen s at_path mkdir lstat ping remove_err listen)) in
  forwards s' = forwards s ∧ reverses s' = reverses s ∧ socketPath s' = socketPath s ∧ sv_done s' = sv_done s.
Proof.
  unfold Listen. destruct mkdir; [done|]. destruct (prepareSocketPath _ _ _ _ _) as [ap [e|]]; [done|]. by destruct listen.
Qed.

Lemma Shutdown_steps cleanup close_err remove_err at_path s s' at_path' err : idle s →
  Shutdown cleanup close_err remove_err at_path s = Some (s', at_path', err) →
  idle s' ∧ few fstep 5 (forwards s) (forwards s') ∧ few rstep 5 (reverses s) (reverses s').
Proof.
  intros Hi. unfold Shutdown. destruct (sv_done s).
  { intros H. assert (s' = s) as -> by congruence. split_and!; [done|apply few_refl..]. }
  destruct (Forwards.removeAll _) as [[fr n]|] eqn:EF; [|done]. cbn [mbind option_bind].
  destruct (reverse_removeAll _ _) as [[rr m]|] eqn:ER; [|done]. cbn [mbind option_bind].
  destruct (match at_path with Socket => _ | _ => _ end) as [ap e]. intros H.
  assert (s' = mkServer (socketPath s) (listening_on s) (set_reg fr (forwards s)) (set_rreg rr (reverses s)) (devices s) true)
    as -> by congruence.
  split_and!; [done| |]; apply few_once; [by eapply s_removeAll|by eapply r_removeAll].
Qed.

Lemma served_steps n s : served n s → Z.of_nat (5 * n) < 2 ^ 64 →
  idle s ∧ (∃ k, (k ≤ 5 * n)%nat ∧ nsteps fstep k start (forwards s)) ∧
  (∃ k, (k ≤ 5 * n)%nat ∧ nsteps rstep k rstart (reverses s)).
Proof.
  induction 1 as [env path s H|n s oc req s' resp Hs IH Hfree H|n s ap mk ls pi re li Hs IH
    |n s cl ce re ap s' ap' err Hs IH H]; intros Hn.
  - destruct (NewServer_fields _ _ _ H) as (F & R & _). unfold idle. rewrite F, R.
    split_and!; [done|done|exists 0%nat; split; [lia|apply nsteps_O]..].
  - destruct IH as (Hi & (k1 & K1 & S1) & (k2 & K2 & S2)); [lia|].
    destruct (reachable_ok k1 (forwards s) S1) as [Hf Nf]; [lia|].
    destruct (rreachable_ok k2 (reverses s) S2) as [Hr Nr]; [lia|].
    destruct (request_handled oc req s Hf Hr Hi Hfree) as (s1 & resp1 & E & Hh); [lia..|].
    assert (s1 = s') as -> by congruence. split; [apply (h_idle _ _ _ _ Hh)|].
    destruct (few_nsteps _ _ _ _ _ _ _ S1 K1 (h_forwards _ _ _ _ Hh)) as (p1 & P1 & ?).
    destruct (few_nsteps _ _ _ _ _ _ _ S2 K2 (h_reverses _ _ _ _ Hh)) as (p2 & P2 & ?).
    split; [exists p1|exists p2]; (split; [lia|done]).
  - destruct (Listen_registries s ap mk ls pi re li) as (F & R & _). unfold idle. rewrite F, R. by apply IH.
  - destruct IH as (Hi & (k1 & K1 & S1) & (k2 & K2 & S2)); [lia|].
    destruct (Shutdown_steps _ _ _ _ _ _ _ _ Hi H) as (Hi' & F & R). split; [done|].
    destruct (few_nsteps _ _ _ _ _ _ _ S1 K1 F) as (p1 & P1 & ?).
    destruct (few_nsteps _ _ _ _ _ _ _ S2 K2 R) as (p2 & P2 & ?).
    split; [exists p1|exists p2]; (split; [lia|done]).
Qed.

Lemma served_ok n s : served n s → Z.of_nat (5 * n) < 2 ^ 60 →
  idle s ∧ world_ok (forwards s) ∧ rworld_ok (reverses s) ∧
  0 ≤ nextID (reg (forwards s)) < 2 ^ 60 ∧ 0 ≤ rr_nextID (rreg (reverses s)) < 2 ^ 60.
Proof.
  intros Hs Hn. destruct (served_steps n s Hs) as (Hi & (k1 & K1 & S1) & (k2 & K2 & S2)); [lia|].
  destruct (reachable_ok k1 (forwards s) S1) as [Hf Nf]; [lia|].
  destruct (rreachable_ok k2 (reverses s) S2) as [Hr Nr]; [lia|]. split_and!; done || lia.
Qed.

(** C9: the server's requests, in any number (under 2^57) and with any outcome of
    their calls, refine the registries: the next request never panics, is
    answered with the protocol version, its own ID, and either a result or an
    error; what it does to the forwards and the reverses is a short run of
    their steps; and a refused request, other than a creation, changes nothing. *)
Theorem requests_refine_registries (n : nat) (s : Server) (oc : Outcomes) (req : Request) :
  served n s → Z.of_nat (5 * n) < 2 ^ 60 → free_address oc req s →
  ∃ s' resp, handleRequest oc req s = Some (s', resp) ∧
    rs_Version resp = ProtocolVersion ∧ rs_ID resp = rq_ID req ∧
    (if rs_OK resp then rs_Result resp ≠ None ∧ rs_Error resp = None
     else rs_Result resp = None ∧ rs_Error resp ≠ None) ∧
    rtc fstep (forwards s) (forwards s') ∧ rtc rstep (reverses s) (reverses s') ∧
    (rs_OK resp = false → rq_Command req ≠ CommandForwardCreate → rq_Command req ≠ CommandReverseCreate → s' = s).
Proof.
  intros Hs Hn Hfree. destruct (served_ok n s Hs Hn) as (Hi & Hf & Hr & Nf & Nr).
  destruct (request_handled oc req s Hf Hr Hi Hfree) as (s' & resp & E & Hh); [lia..|].
  exists s', resp. destruct Hh as [(? & ? & ?) ? (j1 & _ & S1) (j2 & _ & S2) ? ?].
  split_and!; try done; by eapply rtc_nsteps_2.
Qed.

Lemma created_forward (n : nat) (s s1 : Server) oc req resp f :
  served n s → Z.of_nat (5 * n) < 2 ^ 60 → free_address oc req s →
  rq_Command req = CommandForwardCreate → handleRequest oc req s = Some (s1, resp) → rs_Result resp = Some (PForward f) →
  ∃ e, byID (reg (forwards s1)) !! fw_ID f = Some e ∧ entries (reg (forwards s1)) !! e = Some (Forwards.mkEntry f ∅) ∧
    fw_State f = Listening.
Proof.
  intros Hs Hn Hfree Hcmd Hreq Hres. destruct (served_ok n s Hs Hn) as ([Hif Hir] & Hf & Hr & Nf & Nr).
  unfold handleRequest in Hreq. rewrite Hcmd in Hreq. run_command Hreq.
  destruct (negb _); [injection Hreq as <- <-; done|]. run_command Hreq.
  destruct (decodeForwardCreateParams _ _) as [params|] eqn:ED; [|injection Hreq as <- <-; done].
  destruct (create_forward_steps oc params (forwards s) Hf) as (w' & res & E & _ & _ & Hpost);
    [lia|lia|done|intros r addr; by apply (Hfree params)|].
  rewrite E in Hreq. cbn [mbind option_bind] in Hreq. unfold respond in Hreq. injection Hreq as <- <-.
  destruct res as [g|]; [|done]. cbn in Hres. assert (g = f) as -> by congruence. destruct Hpost as (? & ? & ?).
  by exists (fresh_ref (forwards s)).
Qed.

Lemma TrimSpace_forward_id k : 0 ≤ k → TrimSpace (forward_id k) = forward_id k.
Proof.
  intros Hk. destruct (Itoa_last k Hk) as (t & a & E & Ha). unfold forward_id.
  apply TrimSpace_trimmed. eapply (trimmed_printable "f" ("wd_" +++ Itoa k) a ("fwd_" +++ t)); [|done|done].
  rewrite E. by rewrite <-append_assoc.
Qed.

(** A request to remove a registered forward by its ID. *)
Lemma remove_request oc rm s id e :
  world_ok (forwards s) → byID (reg (forwards s)) !! id = Some e →
  rq_Version rm = ProtocolVersion → rq_Command rm = CommandForwardRemove → rq_Params rm ≠ "" →
  oc_forward_remove oc (rq_Params rm) = Ok (mkForwardRemove id None) →
  ∃ r', handleRequest oc rm s = Some (set_forwards (set_reg r' (forwards s)) s, answer rm (PRemoved 1)) ∧
    removed_from (reg (forwards s)) id r' ∧ registry_ok r'.
Proof.
  intros Hf He Hv Hrm Hp Hdec. destruct (removed_from_ok _ _ _ (ok_reg _ Hf) He) as (r' & Er & Hrem).
  exists r'. destruct (remove_ok (forwards s) (mkForwardRemove id None) Hf) as (r1 & res & E1 & Hw1 & _).
  destruct (ok_ids _ Hf _ _ He) as (k & Hk & Eid).
  assert (id ≠ "") as Hid by (subst id; done).
  unfold remove in E1. cbn [fr_ID fr_Local] in E1. rewrite (proj2 (String.eqb_neq _ _) Hid), He in E1.
  cbn [mbind option_bind] in E1. rewrite Er in E1. cbn in E1. assert (r1 = r') as -> by congruence.
  split_and!; [|done|apply (ok_reg _ Hw1)].
  assert (decodeForwardRemoveParams (oc_forward_remove oc) (rq_Params rm) = Good (mkForwardRemove id None)) as ED.
  { unfold decodeForwardRemoveParams. rewrite (proj2 (String.eqb_neq _ _) Hp), Hdec. cbn [fr_ID fr_Local].
    rewrite Eid, TrimSpace_forward_id by lia. done. }
  unfold handleRequest. rewrite Hrm. run_goal. rewrite Hv. cbn [Z.eqb Pos.eqb negb ProtocolVersion].
  run_goal. rewrite ED. unfold remove. cbn [fr_ID fr_Local]. rewrite (proj2 (String.eqb_neq _ _) Hid), He.
  cbn [mbind option_bind]. by rewrite Er.
Qed.

(** A forward that a request created is listening, is listed, and can be
    removed by its ID: the removal answers 1, closes its listener, and it is
    listed no more. *)
Theorem forward_lifecycle (n : nat) (s s1 : Server) (oc oc' : Outcomes) (req rm : Request) (resp : Response) (f : Forward) :
  served n s → Z.of_nat (5 * n) < 2 ^ 60 - 5 → free_address oc req s →
  rq_Command req = CommandForwardCreate → handleRequest oc req s = Some (s1, resp) → rs_Result resp = Some (PForward f) →
  rq_Version rm = ProtocolVersion → rq_Command rm = CommandForwardRemove → rq_Params rm ≠ "" →
  oc_forward_remove oc' (rq_Params rm) = Ok (mkForwardRemove (fw_ID f) None) →
  fw_State f = Listening ∧ f ∈ forwards_of (reg (forwards s1)) ∧
  (∃ ln, listening (reg (forwards s1)) !! ln = Some (fl_Address (fw_Local f))) ∧
  ∃ s2, handleRequest oc' rm s1 = Some (s2, answer rm (PRemoved 1)) ∧
    (∀ ln, listening (reg (forwards s2)) !! ln ≠ Some (fl_Address (fw_Local f))) ∧
    ∀ g, g ∈ forwards_of (reg (forwards s2)) → fw_ID g ≠ fw_ID f.
Proof.
  intros Hs Hn Hfree Hcmd Hreq Hres Hv Hrm Hp Hdec.
  destruct (created_forward n s s1 oc req resp f) as (e & He & Hen & HS); [done|lia|done..|].
  destruct (served_ok (S n) s1) as (_ & Hf1 & _); [by eapply served_request|lia|].
  pose proof (ok_reg _ Hf1) as Hok1.
  destruct (ok_byID _ Hok1 _ _ He) as (en & Hen' & _ & _ & _ & _ & HL & _).
  assert (en = Forwards.mkEntry f ∅) as -> by congruence. cbn in HL.
  destruct (remove_request oc' rm s1 (fw_ID f) e) as (r' & E & (e' & en & He' & _ & HB & HLs & _) & Hok'); [done..|].
  assert (e' = e) as -> by congruence. split_and!; [done| |by exists e|].
  { unfold forwards_of. apply list_elem_of_omap. exists (fw_ID f, e). split; [by apply elem_of_map_to_list|].
    cbn. by rewrite Hen. }
  eexists. split_and!; [exact E| |]; cbn [forwards set_forwards reg set_reg].
  - intros ln H. rewrite HLs in H. apply lookup_delete_Some in H as [Hne H]. by destruct (ok_addresses _ Hok1 _ _ _ H HL).
  - intros g Hg. apply list_elem_of_omap in Hg as ([id i] & Hin & Hg). apply elem_of_map_to_list in Hin.
    destruct (ok_byID _ Hok' _ _ Hin) as (en2 & Hen2 & HI & _). cbn in Hg. rewrite Hen2 in Hg. cbn in Hg.
    assert (g = fe_forward en2) as -> by congruence. rewrite HI. rewrite HB in Hin. apply lookup_delete_Some in Hin as [? _]. congruence.
Qed.

(** ** The socket and the end of the server *)

Lemma HasPrefix_slash s : IsAbs ("/" +++ s) = true.
Proof. unfold IsAbs. cbn. by destruct s. Qed.

Lemma Clean_abs path : IsAbs path = true → IsAbs (Clean path) = true.
Proof. intros H. unfold Clean. rewrite H. apply HasPrefix_slash. Qed.

Lemma IsAbs_head c s : IsAbs (String c s) = Ascii.eqb c "/".
Proof.
  unfold IsAbs, HasPrefix. cbn [String.prefix]. destruct (ascii_dec "/" c) as [<-|Hne].
  - by destruct s.
  - symmetry. apply Ascii.eqb_neq. congruence.
Qed.

Lemma IsAbs_app a b : IsAbs a = true → IsAbs (a +++ b) = true.
Proof. destruct a as [|c a]; [done|]. cbn [append]. by rewrite !IsAbs_head. Qed.

Lemma filepath_Join_abs a l : IsAbs a = true → IsAbs (filepath_Join (a :: l)) = true.
Proof.
  intros H. unfold filepath_Join. cbn [List.filter].
  assert ((a =? "")%string = false) as -> by (by destruct a). cbn [negb].
  apply Clean_abs. unfold GoStrings.Join. destruct (List.filter _ l); [done|]. by apply IsAbs_app.
Qed.

Lemma DefaultSocketPath_abs env : IsAbs (env_temp env) = true →
  match DefaultSocketPath env with Ok p => IsAbs p = true | Err _ => env_socket env ≠ "" ∧ IsAbs (env_socket env) = false end.
Proof.
  intros Ht. unfold DefaultSocketPath. destruct (String.eqb_spec (env_socket env) "") as [->|Hs]; cbn [negb].
  - destruct (negb (env_runtime env =? "")%string && IsAbs (env_runtime env)) eqn:E; apply filepath_Join_abs; [|done].
    by apply andb_true_iff in E as [_ E].
  - by destruct (IsAbs (env_socket env)) eqn:E; cbn [negb].
Qed.

(** C35: who may have the socket path: [Listen] leaves alone what is not a
    socket and the socket of a listener that answers a ping, whatever it
    answers; it reports that a server runs exactly for a ping answered with the
    protocol's version; when it succeeds there was nothing at the path, or a
    socket whose ping failed, in any way, and which it has replaced by its
    own; when it fails the server is as it was. *)
Theorem socket_takeover (s : Server) (at_path : node) (mkdir lstat : option error) (ping : res Z) (remove_err listen : option error) :
  let '(s', at_path', err) := Listen s at_path mkdir lstat ping remove_err listen in
  (at_path = Other ∨ at_path = Socket ∧ is_ok ping = true → at_path' = at_path ∧ err ≠ None) ∧
  (mkdir = None → lstat = None → at_path = Socket →
     ((∃ e, err = Some e ∧ e = ErrorfW "%w at %s" [AStr (socketPath s)] (Sentinel server_ErrAlreadyRunning)) ↔ ping = Ok ProtocolVersion)) ∧
  (err = None → at_path' = Socket ∧ listening_on s' = true ∧ (at_path = Absent ∨ at_path = Socket ∧ is_ok ping = false)) ∧
  (at_path ≠ Other → is_ok ping = false → mkdir = None → lstat = None → remove_err = None → listen = None → err = None) ∧
  (err ≠ None → s' = s) ∧
  socketPath s' = socketPath s ∧ forwards s' = forwards s ∧ reverses s' = reverses s.
Proof.
  unfold Listen. destruct mkdir as [e|]; [split_and!; intuition congruence|]. unfold prepareSocketPath.
  destruct lstat as [e|]; [split_and!; intuition congruence|].
  destruct at_path, ping as [v|pe]; try (destruct (Z.eqb_spec v ProtocolVersion));
    try destruct remove_err; try destruct listen; cbn; split_and!;
    try split; try (intros (? & ? & ?)); try intuition (eauto || congruence).
Qed.

(** With no creation under way, what is not registered is released. *)
Lemma nothing_listening w : world_ok w → creating w = ∅ → byID (reg w) = ∅ → listening (reg w) = ∅.
Proof.
  intros Hw HC HB. apply map_eq. intros ln. rewrite lookup_empty. apply eq_None_not_Some. intros [addr H].
  destruct (ok_listening _ Hw _ _ H) as [[id Hid]|(t & pc & p & Ht & _)].
  - by rewrite HB, lookup_empty in Hid.
  - by rewrite HC, lookup_empty in Ht.
Qed.

Lemma everything_closed w : rworld_ok w → rcreating w = ∅ → rr_byID (rreg w) = ∅ →
  rr_sessions (rreg w) ⊆ rr_closed_sessions (rreg w) ∧ rr_clients (rreg w) ⊆ rr_closed_clients (rreg w).
Proof.
  intros Hw HC HB. split; intros e H.
  - destruct (rok_sessions _ Hw e H) as [?|[[id Hid]|(t & p & Ht)]]; [done| |].
    + by rewrite HB, lookup_empty in Hid.
    + by rewrite HC, lookup_empty in Ht.
  - destruct (rok_clients _ Hw e H) as [?|[[id Hid]|(t & pc & Ht & _)]]; [done| |].
    + by rewrite HB, lookup_empty in Hid.
    + by rewrite HC, lookup_empty in Ht.
Qed.

Lemma shutdown_registries cleanup s :
  world_ok (forwards s) → rworld_ok (reverses s) → idle s →
  ∃ fr rr n m, Forwards.removeAll (reg (forwards s)) = Some (fr, n) ∧
    reverse_removeAll cleanup (rreg (reverses s)) = Some (rr, m) ∧
    byID fr = ∅ ∧ listening fr = ∅ ∧ rr_byID rr = ∅ ∧ rr_sessions rr ⊆ rr_closed_sessions rr ∧ rr_clients rr ⊆ rr_closed_clients rr.
Proof.
  intros Hf Hr [Hif Hir]. destruct (removeAll_ok _ Hf) as (fr & E & Hw & _ & HB).
  destruct (reverse_removeAll_ok cleanup _ Hr) as (rr & E' & Hw' & _ & HB').
  eexists fr, rr, _, _. split_and!; [exact E|exact E'|done| |done|..].
  - exact (nothing_listening _ Hw Hif HB).
  - exact (proj1 (everything_closed _ Hw' Hir HB')).
  - exact (proj2 (everything_closed _ Hw' Hir HB')).
Qed.


(** ** Witnesses *)

Definition sample_env : Environ := mkEnviron "" "/run/user/1000" "/tmp" 1000.
Definition sample_server : Server := mkServer "/run/user/1000/adb-go/adb-gos.sock" false start rstart newDeviceRegistry false.
Definition sample_outcomes : Outcomes :=
  mkOutcomes (λ _, Ok sample_params) (λ _, Ok (mkForwardRemove "fwd_1" None)) (λ _, Err (External 0)) (λ _, Err (External 0))
    (λ _, Err (External 0)) (inl "127.0.0.1:9000") None None (λ _, None) "now" (λ _, []).
Definition sample_create_request : Request := mkRequest 1 "a" CommandForwardCreate "{}".
Definition sample_remove_request : Request := mkRequest 1 "b" CommandForwardRemove "{}".

Lemma sample_served : served 0 sample_server.
Proof. by apply (served_new sample_env ""). Qed.

Lemma sample_free : free_address sample_outcomes sample_create_request sample_server.
Proof.
  intros params r addr _ H _ ln. assert (listening r = ∅) as ->; [|by rewrite lookup_empty].
  unfold create_check in H. destruct (validateForwardCreateParams params); [congruence|].
  cbn in H. rewrite lookup_empty in H. assert (r = newForwardRegistry) as -> by congruence. done.
Qed.

Lemma requests_refine_registries_witness :
  ∃ s' resp, handleRequest sample_outcomes sample_create_request sample_server = Some (s', resp) ∧
    rtc fstep (forwards sample_server) (forwards s').
Proof.
  assert (Z.of_nat (5 * 0) < 2 ^ 60) as H by lia.
  destruct (requests_refine_registries 0 sample_server sample_outcomes sample_create_request sample_served H sample_free)
    as (s' & resp & E & _ & _ & _ & R & _). by exists s', resp.
Defined.

Lemma forward_lifecycle_witness : fw_State sample_forward = Listening ∧ fw_ID sample_forward = "fwd_1".
Proof.
  split; [|by vm_compute].
  destruct (handleRequest sample_outcomes sample_create_request sample_server) as [[s1 resp]|] eqn:E; [|by vm_compute in E].
  apply (forward_lifecycle 0 sample_server s1 sample_outcomes sample_outcomes sample_create_request sample_remove_request
           resp sample_forward).
  - apply sample_served.
  - lia.
  - apply sample_free.
  - reflexivity.
  - exact E.
  - assert (resp = snd (default (s1, resp) (handleRequest sample_outcomes sample_create_request sample_server))) as ->
      by (by rewrite E).
    vm_compute. reflexivity.
  - reflexivity.
  - reflexivity.
  - done.
  - by vm_compute.
Defined.

