(* ===== verification/Handlers.v ===== *)
(** * internal/server/server_unix.go: the server's goroutines

    [Serve] starts a goroutine for each connection, so that the requests of
    Server run at the same time.  Here a handler is cut at the critical sections
    of the registries it calls: one executable step for each, in front of which
    any other goroutine may run.  [Shutdown], [Serve]'s accept loop and the
    goroutines of the registries are the other steps. *)

From S2P Require Import Prelude Errors GoStrings Strconv Address ServerProtocol Forwards Reverses Server.

#[local] Open Scope string_scope.
#[local] Open Scope Z_scope.
#[local] Open Scope list_scope.

(** ** A handler between its sections *)

(** Where the goroutine of a connection is: it has decoded the request, or
    failed to; it is inside [create] of a registry, whose map of creations says
    where; it has one of the two diagnostics of a status; it has its response;
    it has written it. *)
Inductive handler :=
  | HAccepted (decoded : option Request)
  | HForward (req : Request)
  | HReverse (req : Request)
  | HStatus (req : Request) (fd : ForwardDiagnostics)
  | HAnswered (req : option Request) (resp : Response)
  | HReplied (req : option Request) (resp : Response).

(** The commands that take a lock at most once, and all refusals in front of them. *)
Definition takes_one_lock (req : Request) : bool :=
  negb (rq_Version req =? ProtocolVersion) ||
  negb (bool_decide (rq_Command req ∈ [CommandStatus; CommandForwardCreate; CommandReverseCreate])).

Section sections.
Context (oc : Outcomes) (t : nat).

(** The creations of the handler's registry: goroutine [t] is at [pc], or has left. *)
Definition forward_at (r : forwardRegistry) (pc : option Forwards.create_pc) (fresh : nat) (s : Server) : Server :=
  set_forwards (Forwards.mkWorld r (partial_alter (λ _, pc) t (creating (forwards s))) (accepted (forwards s)) fresh) s.
Definition reverse_at (r : reverseRegistry) (pc : option Reverses.create_pc) (fresh : nat) (s : Server) : Server :=
  set_reverses (Reverses.mkWorld r (partial_alter (λ _, pc) t (rcreating (reverses s))) fresh) s.

(** A handler with its response. *)
Definition answered {A} (req : Request) (f : A → payload) (res : result A) : handler :=
  HAnswered (Some req) match res with Good a => answer req (f a) | Bad e => fail req e end.

(** [handleRequest] up to the end of the first critical section. *)
Definition begin (req : Request) (s : Server) : option (Server * handler) :=
  if takes_one_lock req then '(s, resp) ← handleRequest oc req s; Some (s, HAnswered (Some req) resp)
  else if (rq_Command req =? CommandStatus)%string then Some (s, HStatus req (diagnostics (reg (forwards s))))
  else if (rq_Command req =? CommandForwardCreate)%string then
    match decodeForwardCreateParams (oc_forward_create oc) (rq_Params req) with
    | Bad e => Some (s, HAnswered (Some req) (fail req e))
    | Good params =>
        '(r, err) ← create_check params (reg (forwards s));
        match err with
        | Some e => Some (forward_at r None (fresh_ref (forwards s)) s, HAnswered (Some req) (fail req e))
        | None => Some (forward_at r (Some (CListen params)) (fresh_ref (forwards s)) s, HForward req)
        end
    end
  else
    match decodeReverseCreateParams (oc_reverse_create oc) (rq_Params req) with
    | Bad e => Some (s, HAnswered (Some req) (fail req e))
    | Good params =>
        '(r, err) ← reverse_create_check (oc_cleanup oc) params (rreg (reverses s));
        match err with
        | Some e => Some (reverse_at r None (rfresh (reverses s)) s, HAnswered (Some req) (fail req e))
        | None => Some (reverse_at r (Some (RConnecting params)) (rfresh (reverses s)) s, HReverse req)
        end
    end.

(** [forwardRegistry.create] from [net.Listen] on. *)
Definition forward_section (req : Request) (s : Server) : option (Server * handler) :=
  let w := forwards s in
  pc ← creating w !! t;
  match pc with
  | CListen params =>
      match oc_listen oc with
      | inr (is_op, err) =>
          Some (forward_at (reg w) None (fresh_ref w) s, HAnswered (Some req) (fail req (listenError is_op (fc_Local params) err)))
      | inl addr =>
          Some (forward_at (open_listener (fresh_ref w) addr (reg w)) (Some (CBound params (fresh_ref w) addr))
                  (S (fresh_ref w)) s, HForward req)
      end
  | CBound params ln addr =>
      let '(r, id) := nextForwardID (reg w) in
      Some (forward_at r (Some (CNamed params ln addr id)) (fresh_ref w) s, HForward req)
  | CNamed params ln addr id =>
      '(r, res) ← create_commit params ln addr id (oc_now oc) (reg w);
      Some (forward_at r None (fresh_ref w) s, answered req PForward res)
  end.

(** [reverseRegistry.create] from [client.ConnectTCP] on. *)
Definition reverse_section (req : Request) (s : Server) : option (Server * handler) :=
  let w := reverses s in
  let failed r code err := Some (reverse_at r None (rfresh w) s, HAnswered (Some req) (fail req (mkError code err))) in
  pc ← rcreating w !! t;
  match pc with
  | RConnecting params =>
      match oc_connect oc with
      | Some err => failed (rreg w) ErrorRegistrationFailed (ErrorfV "connect target %s: %v" [AStr (tg_Address (rc_Target params))] err)
      | None => Some (reverse_at (connect (rfresh w) (rreg w)) (Some (RConnected params (rfresh w))) (S (rfresh w)) s, HReverse req)
      end
  | RConnected params e =>
      match parse_endpoints params with
      | Bad err => Some (reverse_at (close_client e (rreg w)) None (rfresh w) s, HAnswered (Some req) (fail req err))
      | Good _ =>
          Some (reverse_at (new_entry params e (oc_now oc) (rreg w)).1 (Some (REntered params e)) (rfresh w) s, HReverse req)
      end
  | REntered params e =>
      match oc_session oc with
      | Some err => failed (close_client e (rreg w)) ErrorRegistrationFailed err
      | None => Some (reverse_at (set_session e (rreg w)) (Some (RRegistered params e)) (rfresh w) s, HReverse req)
      end
  | RRegistered params e =>
      '(r, res) ← reverse_create_commit (oc_cleanup oc) params e (rreg w);
      Some (reverse_at r None (rfresh w) s, answered req PReverse res)
  end.

(** The next section of handler [t]; [None] is a panic, or that it has replied. *)
Definition handler_step (h : handler) (s : Server) : option (Server * handler) :=
  match h with
  | HAccepted None =>
      Some (s, HAnswered None (mkResponse ProtocolVersion "" false None (Some (bad_request "malformed JSON request"))))
  | HAccepted (Some req) => begin req s
  | HForward req => forward_section req s
  | HReverse req => reverse_section req s
  | HStatus req fd => Some (s, HAnswered (Some req) (answer req (PStatus (socketPath s) fd (reverse_diagnostics (rreg (reverses s))))))
  | HAnswered req resp => Some (s, HReplied req resp)
  | HReplied _ _ => None
  end.
End sections.

(** ** The server with all its goroutines *)

(** What [Shutdown] does next. *)
Inductive shutdown_pc := SdListener | SdForwards | SdReverses | SdSocket | SdDone.

Record serving := mkServing {
  sv : Server;
  handlers : gmap nat handler;
  shutting : shutdown_pc;
  socket : node;                          (* what is at the socket path *)
  returned : bool;                        (* [Serve] has returned *)
}.

Definition with_sv (s : Server) (x : serving) : serving :=
  mkServing s (handlers x) (shutting x) (socket x) (returned x).
Definition with_handler (t : nat) (h : handler) (x : serving) : serving :=
  mkServing (sv x) (<[t := h]> (handlers x)) (shutting x) (socket x) (returned x).

(** One call in the body of [Shutdown]: closing the listener, which may take the
    socket away, the registries, the socket, and [close(s.done)].  [None] is a panic. *)
Definition shutdown_step (cleanup : nat → option error) (unlinks : bool) (remove_err : option error) (x : serving)
    : option serving :=
  let s := sv x in
  match shutting x with
  | SdListener =>
      Some (mkServing s (handlers x) SdForwards
              match socket x with Socket => if listening_on s && unlinks then Absent else Socket | n => n end (returned x))
  | SdForwards =>
      '(r, _) ← Forwards.removeAll (reg (forwards s));
      Some (mkServing (set_forwards (set_reg r (forwards s)) s) (handlers x) SdReverses (socket x) (returned x))
  | SdReverses =>
      '(r, _) ← reverse_removeAll cleanup (rreg (reverses s));
      Some (mkServing (set_reverses (set_rreg r (reverses s)) s) (handlers x) SdSocket (socket x) (returned x))
  | SdSocket =>
      Some (mkServing (mkServer (socketPath s) (listening_on s) (forwards s) (reverses s) (devices s) true) (handlers x) SdDone
              (match socket x, remove_err with Socket, None => Absent | n, _ => n end) (returned x))
  | SdDone => Some x
  end.

(** The goroutines of the registries: accept loops, bridges and callbacks.  They
    create, register and remove nothing. *)
Definition forward_background (w w' : Forwards.world) : Prop :=
  fstep w w' ∧ creating w' = creating w ∧ byID (reg w') = byID (reg w) ∧ nextID (reg w') = nextID (reg w).
Definition reverse_background (w w' : Reverses.world) : Prop :=
  rstep w w' ∧ rcreating w' = rcreating w ∧ rr_byID (rreg w') = rr_byID (rreg w) ∧
  rr_nextID (rreg w') = rr_nextID (rreg w).

(** The operating system binds no address that is taken. *)
Definition binds_free (oc : Outcomes) (t : nat) (s : Server) : Prop :=
  ∀ params addr, creating (forwards s) !! t = Some (CListen params) → oc_listen oc = inl addr →
    ∀ ln, listening (reg (forwards s)) !! ln ≠ Some addr.

Inductive label := LHandler (t : nat) | LAccept (t : nat) | LShutdown | LReturn | LBackground.
#[export] Instance label_eq_dec : EqDecision label.
Proof. solve_decision. Defined.

(** [Accept] succeeds while the listener is open; a shutdown may begin at any
    time (the context of [Serve] is done, or a handler starts it behind its
    response); [Serve] returns once the listener is closed. *)
Inductive cstep : label → serving → serving → Prop :=
  | c_accept x t decoded :
      handlers x !! t = None → shutting x = SdListener → listening_on (sv x) = true →
      cstep (LAccept t) x (with_handler t (HAccepted decoded) x)
  | c_handler oc x t h s' h' :
      handlers x !! t = Some h → binds_free oc t (sv x) → handler_step oc t h (sv x) = Some (s', h') →
      cstep (LHandler t) x (with_handler t h' (with_sv s' x))
  | c_forwards x w' : forward_background (forwards (sv x)) w' → cstep LBackground x (with_sv (set_forwards w' (sv x)) x)
  | c_reverses x w' : reverse_background (reverses (sv x)) w' → cstep LBackground x (with_sv (set_reverses w' (sv x)) x)
  | c_shutdown x cleanup unlinks remove_err x' :
      shutting x ≠ SdDone → shutdown_step cleanup unlinks remove_err x = Some x' → cstep LShutdown x x'
  | c_return x :
      shutting x ≠ SdListener → cstep LReturn x (mkServing (sv x) (handlers x) (shutting x) (socket x) true).

(** Runs, with the labels of their steps. *)
Inductive runs : list label → serving → serving → Prop :=
  | runs_nil x : runs [] x x
  | runs_snoc ls l x y z : runs ls x y → cstep l y z → runs (ls ++ [l]) x z.

(** A server whose [Listen] succeeded. *)
Definition serving_start (path : string) : serving :=
  mkServing (mkServer path true start rstart newDeviceRegistry false) ∅ SdListener Socket false.

(** ** The invariant *)

Definition request_id (req : option Request) : string :=
  match req with Some req => rq_ID req | None => "" end.

Definition handler_ok (h : handler) : Prop :=
  match h with
  | HAnswered req resp | HReplied req resp => good_response (request_id req) resp
  | _ => True
  end.

Definition in_forward (h : handler) : bool := match h with HForward _ => true | _ => false end.
Definition in_reverse (h : handler) : bool := match h with HReverse _ => true | _ => false end.

(** Both registries are well-formed, and the creations under way are those of
    the handlers that are inside [create]. *)
Record serving_ok (x : serving) : Prop := {
  so_forwards : world_ok (forwards (sv x));
  so_reverses : rworld_ok (reverses (sv x));
  so_creating t : is_Some (creating (forwards (sv x)) !! t) ↔ ∃ h, handlers x !! t = Some h ∧ in_forward h = true;
  so_rcreating t : is_Some (rcreating (reverses (sv x)) !! t) ↔ ∃ h, handlers x !! t = Some h ∧ in_reverse h = true;
  so_handlers t h : handlers x !! t = Some h → handler_ok h;
}.

(** The request a handler serves. *)
Definition request_of (h : handler) : option Request :=
  match h with
  | HAccepted req | HAnswered req _ | HReplied req _ => req
  | HForward req | HReverse req | HStatus req _ => Some req
  end.

(** How many sections a handler has before it has replied, at most. *)
Definition rank (t : nat) (h : handler) (s : Server) : nat :=
  match h with
  | HAccepted _ => 7
  | HForward _ =>
      match creating (forwards s) !! t with
      | Some (CListen _) => 4 | Some (CBound _ _ _) => 3 | Some (CNamed _ _ _ _) => 2 | None => 0
      end
  | HReverse _ =>
      match rcreating (reverses s) !! t with
      | Some (RConnecting _) => 5 | Some (RConnected _ _) => 4 | Some (REntered _ _) => 3 | Some (RRegistered _ _) => 2
      | None => 0
      end
  | HStatus _ _ => 2
  | HAnswered _ _ => 1
  | HReplied _ _ => 0
  end%nat.

(** What a section of handler [t] does. *)
Record section_ok (t : nat) (h : handler) (s : Server) (h' : handler) (s' : Server) : Prop := {
  se_forwards : few fstep 1 (forwards s) (forwards s');
  se_reverses : few rstep 1 (reverses s) (reverses s');
  se_creating t' : t' ≠ t → creating (forwards s') !! t' = creating (forwards s) !! t';
  se_rcreating t' : t' ≠ t → rcreating (reverses s') !! t' = rcreating (reverses s) !! t';
  se_own : is_Some (creating (forwards s') !! t) ↔ in_forward h' = true;
  se_rown : is_Some (rcreating (reverses s') !! t) ↔ in_reverse h' = true;
  se_handler : handler_ok h';
  se_request : request_of h' = request_of h;
  se_rank : (rank t h' s' < rank t h s)%nat;
  se_rest : socketPath s' = socketPath s ∧ listening_on s' = listening_on s ∧ sv_done s' = sv_done s;
}.

(** ** The sections *)

Lemma section_forward_at t h s h' r pc fresh :
  few fstep 1 (forwards s) (forwards (forward_at t r pc fresh s)) →
  (is_Some pc ↔ in_forward h' = true) → in_reverse h' = false → rcreating (reverses s) !! t = None →
  handler_ok h' → request_of h' = request_of h → (rank t h' (forward_at t r pc fresh s) < rank t h s)%nat →
  section_ok t h s h' (forward_at t r pc fresh s).
Proof.
  intros Hf Hpc Hr Hn Hh Hq Hrank. split; try done; cbn.
  - apply few_refl.
  - intros t' Hne. by rewrite lookup_partial_alter_ne.
  - by rewrite lookup_partial_alter_eq.
  - rewrite Hn, Hr. split; [intros [? ?]|]; done.
Qed.

Lemma section_reverse_at t h s h' r pc fresh :
  few rstep 1 (reverses s) (reverses (reverse_at t r pc fresh s)) →
  (is_Some pc ↔ in_reverse h' = true) → in_forward h' = false → creating (forwards s) !! t = None →
  handler_ok h' → request_of h' = request_of h → (rank t h' (reverse_at t r pc fresh s) < rank t h s)%nat →
  section_ok t h s h' (reverse_at t r pc fresh s).
Proof.
  intros Hf Hpc Hr Hn Hh Hq Hrank. split; try done; cbn.
  - apply few_refl.
  - intros t' Hne. by rewrite lookup_partial_alter_ne.
  - rewrite Hn, Hr. split; [intros [? ?]|]; done.
  - by rewrite lookup_partial_alter_eq.
Qed.

Lemma some_true {A} (a : A) : is_Some (Some a) ↔ true = true.
Proof. split; eauto. Qed.
Lemma none_false {A} : is_Some (@None A) ↔ false = true.
Proof. split; [intros [? ?]|]; done. Qed.
#[local] Hint Resolve some_true none_false : core.

Lemma good_answered {A} req (f : A → payload) res : handler_ok (answered req f res).
Proof. by destruct res. Qed.
#[local] Hint Resolve good_answered : core.

Lemma forward_section_ok oc t req s :
  world_ok (forwards s) → binds_free oc t s →
  is_Some (creating (forwards s) !! t) → rcreating (reverses s) !! t = None →
  ∃ s' h', forward_section oc t req s = Some (s', h') ∧ section_ok t (HForward req) s h' s'.
Proof.
  intros Hw Hb [pc Hpc] Hr. unfold forward_section. rewrite Hpc. cbn [mbind option_bind].
  destruct pc as [params|params ln addr|params ln addr id].
  - destruct (oc_listen oc) as [addr|[is_op err]] eqn:EL; eexists _, _; (split; [done|]);
      apply section_forward_at; cbn; rewrite ?Hpc, ?lookup_partial_alter_eq; auto with server; try lia; apply few_once.
    + by apply (s_listen _ t params); [|eapply Hb].
    + by apply (s_listen_fails _ t params).
  - eexists _, _. split; [done|]. apply section_forward_at; cbn; rewrite ?Hpc, ?lookup_partial_alter_eq; auto with server; try lia.
    apply few_once. by apply (s_name _ t params ln addr).
  - destruct (commit_world_ok (forwards s) t params ln addr id (oc_now oc) Hw Hpc) as (r' & E & _). rewrite E.
    cbn [mbind option_bind]. eexists _, _. split; [done|].
    apply section_forward_at; cbn; rewrite ?Hpc; auto with server; try lia. apply few_once. by eapply s_commit.
Qed.

Lemma reverse_section_ok oc t req s :
  rworld_ok (reverses s) → is_Some (rcreating (reverses s) !! t) → creating (forwards s) !! t = None →
  ∃ s' h', reverse_section oc t req s = Some (s', h') ∧ section_ok t (HReverse req) s h' s'.
Proof.
  intros Hw [pc Hpc] Hr. unfold reverse_section. rewrite Hpc. cbn [mbind option_bind].
  destruct pc as [params|params e|params e|params e].
  - destruct (oc_connect oc) as [err|]; eexists _, _; (split; [done|]);
      apply section_reverse_at; cbn; rewrite ?Hpc, ?lookup_partial_alter_eq; auto with server; try lia; apply few_once.
    + by apply (r_connect_fails _ t params).
    + by apply (r_connect _ t params).
  - destruct (parse_endpoints params) as [eps|err] eqn:EP; eexists _, _; (split; [done|]);
      apply section_reverse_at; cbn; rewrite ?Hpc, ?lookup_partial_alter_eq; auto with server; try lia; apply few_once.
    + by eapply (r_enter _ t).
    + by eapply (r_parse_fails _ t).
  - destruct (oc_session oc) as [err|]; eexists _, _; (split; [done|]);
      apply section_reverse_at; cbn; rewrite ?Hpc, ?lookup_partial_alter_eq; auto with server; try lia; apply few_once.
    + by apply (r_session_fails _ t params).
    + by apply (r_session _ t params).
  - destruct (commit_ok (oc_cleanup oc) (reverses s) t params e Hw Hpc) as (r' & res & E & _). rewrite E.
    cbn [mbind option_bind]. eexists _, _. split; [done|].
    apply section_reverse_at; cbn; rewrite ?Hpc; auto with server; try lia; [|by destruct res..]. apply few_once. by eapply r_commit.
Qed.

(** A section that leaves the creations alone, and its handler outside [create]. *)
Lemma section_outside t h s h' s' :
  few fstep 1 (forwards s) (forwards s') → few rstep 1 (reverses s) (reverses s') →
  creating (forwards s') = creating (forwards s) → rcreating (reverses s') = rcreating (reverses s) →
  creating (forwards s) !! t = None → rcreating (reverses s) !! t = None →
  in_forward h' = false → in_reverse h' = false → handler_ok h' → request_of h' = request_of h →
  (rank t h' s' < rank t h s)%nat →
  socketPath s' = socketPath s ∧ listening_on s' = listening_on s ∧ sv_done s' = sv_done s →
  section_ok t h s h' s'.
Proof.
  intros Hf Hr EC ER HC HR Hi Hj Hh Hq Hrank Hrest.
  split; rewrite ?EC, ?ER, ?HC, ?HR, ?Hi, ?Hj; auto.
Qed.

Lemma forward_begin_ok t params req s :
  world_ok (forwards s) → creating (forwards s) !! t = None → rcreating (reverses s) !! t = None →
  ∃ s' h', ('(r, err) ← create_check params (reg (forwards s));
      match err with
      | Some e => Some (forward_at t r None (fresh_ref (forwards s)) s, HAnswered (Some req) (fail req e))
      | None => Some (forward_at t r (Some (CListen params)) (fresh_ref (forwards s)) s, HForward req)
      end) = Some (s', h') ∧ section_ok t (HAccepted (Some req)) s h' s'.
Proof.
  intros Hf HC HR. destruct (create_check_ok (forwards s) params Hf) as (r & e & E & _). rewrite E. cbn [mbind option_bind].
  destruct e as [e|]; eexists _, _; (split; [done|]);
    apply section_forward_at; cbn; rewrite ?lookup_partial_alter_eq; auto with server; try lia; apply few_once.
  - change (partial_alter _ t (creating (forwards s))) with (delete t (creating (forwards s))). rewrite (delete_id _ _ HC). by apply (s_create_refused _ params r e).
  - by apply (s_create _ t params).
Qed.

Lemma reverse_begin_ok oc t params req s :
  rworld_ok (reverses s) → creating (forwards s) !! t = None → rcreating (reverses s) !! t = None →
  ∃ s' h', ('(r, err) ← reverse_create_check (oc_cleanup oc) params (rreg (reverses s));
      match err with
      | Some e => Some (reverse_at t r None (rfresh (reverses s)) s, HAnswered (Some req) (fail req e))
      | None => Some (reverse_at t r (Some (RConnecting params)) (rfresh (reverses s)) s, HReverse req)
      end) = Some (s', h') ∧ section_ok t (HAccepted (Some req)) s h' s'.
Proof.
  intros Hf HC HR. destruct (reverse_check_ok (oc_cleanup oc) (reverses s) params Hf) as (r & e & E & _). rewrite E.
  cbn [mbind option_bind].
  destruct e as [e|]; eexists _, _; (split; [done|]);
    apply section_reverse_at; cbn; rewrite ?lookup_partial_alter_eq; auto with server; try lia; apply few_once.
  - change (partial_alter _ t (rcreating (reverses s))) with (delete t (rcreating (reverses s))). rewrite (delete_id _ _ HR). by eapply (r_create_refused _ params).
  - by eapply (r_create _ t params).
Qed.

Lemma begin_ok oc t req s :
  world_ok (forwards s) → rworld_ok (reverses s) →
  creating (forwards s) !! t = None → rcreating (reverses s) !! t = None →
  ∃ s' h', begin oc t req s = Some (s', h') ∧ section_ok t (HAccepted (Some req)) s h' s'.
Proof.
  intros Hf Hr HC HR. unfold begin.
  assert (∀ h', in_forward h' = false → in_reverse h' = false → handler_ok h' → request_of h' = Some req → (rank t h' s < 7)%nat →
    section_ok t (HAccepted (Some req)) s h' s) as Hstay
    by (intros; apply section_outside; auto using few_refl).
  destruct (takes_one_lock req) eqn:E1.
  { assert (∃ s' resp, handleRequest oc req s = Some (s', resp) ∧ at_once req s s' resp) as (s' & resp & -> & Ha).
    { apply orb_true_iff in E1 as [EV|EC].
      - destruct (String.eqb_spec (rq_Command req) "") as [E|E]; [|rewrite guarded, EV by done];
          [unfold handleRequest; rewrite E|]; eexists _, _; (split; [done|apply at_once_fail]).
      - apply negb_true_iff, bool_decide_eq_false in EC. apply request_at_once; [done..| |]; intros E; apply EC; rewrite E; repeat constructor. }
    cbn [mbind option_bind]. eexists _, _. split; [done|]. destruct Ha. apply section_outside; auto. cbn. lia. }
  destruct (String.eqb_spec (rq_Command req) CommandStatus).
  { eexists _, _. split; [done|]. apply Hstay; [done..|cbn; lia]. }
  destruct (String.eqb_spec (rq_Command req) CommandForwardCreate).
  - destruct (decodeForwardCreateParams _ _) as [params|e]; [by apply forward_begin_ok|].
    eexists _, _. split; [done|]. apply Hstay; [done..|apply good_fail|done|cbn; lia].
  - destruct (decodeReverseCreateParams _ _) as [params|e]; [by apply reverse_begin_ok|].
    eexists _, _. split; [done|]. apply Hstay; [done..|apply good_fail|done|cbn; lia].
Qed.

(** Every handler that has not replied has a next section, which does not panic. *)
Lemma handler_step_ok oc t h x :
  serving_ok x → handlers x !! t = Some h → binds_free oc t (sv x) → (∀ req resp, h ≠ HReplied req resp) →
  ∃ s' h', handler_step oc t h (sv x) = Some (s', h') ∧ section_ok t h (sv x) h' s'.
Proof.
  intros [Hf Hr HC HR Hh] Ht Hb Hnr.
  assert (is_Some (creating (forwards (sv x)) !! t) ↔ in_forward h = true) as HCt by (rewrite HC; naive_solver).
  assert (is_Some (rcreating (reverses (sv x)) !! t) ↔ in_reverse h = true) as HRt by (rewrite HR; naive_solver).
  assert (in_forward h = false → creating (forwards (sv x)) !! t = None) as NC.
  { intros E. apply eq_None_not_Some. rewrite HCt. congruence. }
  assert (in_reverse h = false → rcreating (reverses (sv x)) !! t = None) as NR.
  { intros E. apply eq_None_not_Some. rewrite HRt. congruence. }
  assert (∀ h', in_forward h' = false → in_reverse h' = false → handler_ok h' → in_forward h = false → in_reverse h = false →
    request_of h' = request_of h →
    (rank t h' (sv x) < rank t h (sv x))%nat → section_ok t h (sv x) h' (sv x)) as Hstay
    by (intros; apply section_outside; auto using few_refl).
  destruct h as [[req|]|req|req|req fd|req resp|req resp]; cbn [handler_step].
  - apply begin_ok; auto.
  - eexists _, _. split; [done|]. apply Hstay; try done. cbn. lia.
  - apply forward_section_ok; auto. by apply HCt.
  - apply reverse_section_ok; auto. by apply HRt.
  - eexists _, _. split; [done|]. apply Hstay; try done. cbn. lia.
  - eexists _, _. split; [done|]. apply Hstay; try done; [by apply (Hh _ _ Ht)|cbn; lia].
  - by destruct (Hnr req resp).
Qed.

(** ** Every step *)

(** The IDs handed out so far, and that the next ones are new. *)
Definition ids_below (n : Z) (s : Server) : Prop :=
  0 ≤ nextID (reg (forwards s)) ≤ n ∧ 0 ≤ rr_nextID (rreg (reverses s)) ≤ n.

Lemma few_fstep_ok w w' n :
  world_ok w → 0 ≤ nextID (reg w) ≤ n → n + 1 < 2 ^ 64 → few fstep 1 w w' →
  world_ok w' ∧ 0 ≤ nextID (reg w') ≤ n + 1.
Proof.
  intros Hw H0 Hn (k & Hk & Hs). destruct k as [|[|k]]; [| |lia].
  - inversion Hs; subst. split; [done|lia].
  - apply nsteps_once_inv in Hs. destruct (fstep_ok w w' Hw) as [? ?]; [lia..|done|]. split; [done|lia].
Qed.

Lemma few_rstep_ok w w' n :
  rworld_ok w → 0 ≤ rr_nextID (rreg w) ≤ n → n + 1 < 2 ^ 64 → few rstep 1 w w' →
  rworld_ok w' ∧ 0 ≤ rr_nextID (rreg w') ≤ n + 1.
Proof.
  intros Hw H0 Hn (k & Hk & Hs). destruct k as [|[|k]]; [| |lia].
  - inversion Hs; subst. split; [done|lia].
  - apply nsteps_once_inv in Hs. destruct (rstep_ok w w' Hw) as [? ?]; [lia..|done|]. split; [done|lia].
Qed.

Lemma shutdown_step_frame cleanup unlinks remove_err x y :
  shutdown_step cleanup unlinks remove_err x = Some y →
  handlers y = handlers x ∧ returned y = returned x ∧
  creating (forwards (sv y)) = creating (forwards (sv x)) ∧ rcreating (reverses (sv y)) = rcreating (reverses (sv x)) ∧
  few fstep 1 (forwards (sv x)) (forwards (sv y)) ∧ few rstep 1 (reverses (sv x)) (reverses (sv y)).
Proof.
  unfold shutdown_step. destruct (shutting x).
  - intros [= <-]. split_and!; try done; apply few_refl.
  - destruct (Forwards.removeAll _) as [[r n]|] eqn:ER; [|done]. intros [= <-]. cbn.
    split_and!; try done; [|apply few_refl]. apply few_once. by eapply s_removeAll.
  - destruct (reverse_removeAll _ _) as [[r n]|] eqn:ER; [|done]. intros [= <-]. cbn.
    split_and!; try done; [apply few_refl|]. apply few_once. by eapply r_removeAll.
  - intros [= <-]. split_and!; try done; apply few_refl.
  - intros [= <-]. split_and!; try done; apply few_refl.
Qed.

(** What a step does to both registries, and to the creations of others. *)
Lemma cstep_registries l x y :
  serving_ok x → cstep l x y →
  few fstep 1 (forwards (sv x)) (forwards (sv y)) ∧ few rstep 1 (reverses (sv x)) (reverses (sv y)) ∧
  (∀ t, l ≠ LHandler t → creating (forwards (sv y)) !! t = creating (forwards (sv x)) !! t) ∧
  (∀ t, l ≠ LHandler t → rcreating (reverses (sv y)) !! t = rcreating (reverses (sv x)) !! t).
Proof.
  intros Hx Hs. destruct Hs as [x t d Ht Hp Hl|oc x t h s' h' Ht Hb E|x w' (Hs & EC & _)|x w' (Hs & EC & _)
    |x cl ul re x' Hp E|x Hp]; cbn.
  - split_and!; try done; apply few_refl.
  - destruct (handler_step_ok oc t h x Hx Ht Hb) as (s1 & h1 & E1 & Ho); [by intros req resp ->|].
    assert (s1 = s') as -> by congruence. destruct Ho. split_and!; [done..| |]; intros t' Hne;
      [apply se_creating0|apply se_rcreating0]; congruence.
  - split_and!; [by apply few_once|apply few_refl| |done]. intros t _. by rewrite EC.
  - split_and!; [apply few_refl|by apply few_once|done|]. intros t _. by rewrite EC.
  - apply shutdown_step_frame in E as (_ & _ & -> & -> & ? & ?). by split_and!.
  - split_and!; try done; apply few_refl.
Qed.

(** The handlers of others stay where they are. *)
Lemma cstep_handlers l x y t :
  cstep l x y → l ≠ LHandler t → ∀ h, handlers x !! t = Some h → handlers y !! t = Some h.
Proof.
  intros Hs Hl h Ht. destruct Hs as [x t0 d Ht0|oc x t0 h0 s' h' Ht0 Hb E|x w' _|x w' _|x cl ul re x' Hp E|x Hp]; cbn; try done.
  - rewrite lookup_insert_ne; [done|congruence].
  - rewrite lookup_insert_ne; [done|congruence].
  - by apply shutdown_step_frame in E as (-> & _).
Qed.

Lemma cstep_handlers_inv l x y :
  cstep l x y → (∃ t, (l = LHandler t ∨ l = LAccept t) ∧ ∀ t', t' ≠ t → handlers y !! t' = handlers x !! t') ∨
    handlers y = handlers x.
Proof.
  intros Hs. destruct Hs as [x t0 d Ht0|oc x t0 h0 s' h' Ht0 Hb E|x w' _|x w' _|x cl ul re x' Hp E|x Hp]; cbn; auto.
  - left. exists t0. split; [by right|]. intros t' Hne. by rewrite lookup_insert_ne.
  - left. exists t0. split; [by left|]. intros t' Hne. by rewrite lookup_insert_ne.
  - right. by apply shutdown_step_frame in E as (-> & _).
Qed.

(** The step of handler [t], or of its [Accept]. *)
Lemma cstep_own l x y t h :
  serving_ok x → cstep l x y → l = LHandler t ∨ l = LAccept t → handlers y !! t = Some h →
  handler_ok h ∧ (is_Some (creating (forwards (sv y)) !! t) ↔ in_forward h = true) ∧
  (is_Some (rcreating (reverses (sv y)) !! t) ↔ in_reverse h = true).
Proof.
  intros Hx Hs Hl Hh. destruct Hs as [x t0 d Ht Hp HL|oc x t0 h0 s' h' Ht Hb E| | | |]; try by destruct Hl.
  - assert (t0 = t) as -> by (destruct Hl; congruence). cbn in *. rewrite lookup_insert, decide_True in Hh by done.
    injection Hh as <-. rewrite (so_creating x Hx), (so_rcreating x Hx). split_and!; [done| |]; split; naive_solver.
  - assert (t0 = t) as -> by (destruct Hl; congruence). cbn in *. rewrite lookup_insert, decide_True in Hh by done.
    injection Hh as <-. destruct (handler_step_ok oc t h0 x Hx Ht Hb) as (s1 & h1 & E1 & Ho); [by intros req resp ->|].
    assert (s1 = s' ∧ h1 = h') as [-> ->] by (split; congruence). by destruct Ho.
Qed.

Lemma cstep_ok l x y n :
  serving_ok x → ids_below n (sv x) → n + 1 < 2 ^ 64 → cstep l x y → serving_ok y ∧ ids_below (n + 1) (sv y).
Proof.
  intros Hx [HF HR] Hn Hs. destruct (cstep_registries l x y Hx Hs) as (Sf & Sr & Cf & Cr).
  destruct (few_fstep_ok _ _ n (so_forwards x Hx) HF Hn Sf) as [Wf Nf].
  destruct (few_rstep_ok _ _ n (so_reverses x Hx) HR Hn Sr) as [Wr Nr].
  split; [|by split].
  assert (∀ t h, handlers y !! t = Some h → l ≠ LHandler t → l ≠ LAccept t → handlers x !! t = Some h) as Hold.
  { intros t h Hh N1 N2. destruct (cstep_handlers_inv l x y Hs) as [(t0 & Hl & Hsame)|Hsame]; [|by rewrite Hsame in Hh].
    destruct (decide (t = t0)) as [->|Hne]; [naive_solver|by rewrite <-Hsame]. }
  assert (∀ t, (l = LHandler t ∨ l = LAccept t) ∧ is_Some (handlers y !! t) ∨ l ≠ LHandler t ∧ l ≠ LAccept t) as Hcase.
  { intros t. destruct Hs as [x t0 d|oc x t0 h0 s' h'| | | |]; try (by right); cbn;
      (destruct (decide (t = t0)) as [->|]; [left; rewrite lookup_insert, decide_True by done; split; eauto|right; split; congruence]). }
  split; [done|done| | |].
  - intros t. destruct (Hcase t) as [[Hl [h Hh]]|[N1 N2]].
    + destruct (cstep_own l x y t h Hx Hs Hl Hh) as (_ & -> & _). naive_solver.
    + rewrite Cf, (so_creating x Hx) by done. split; intros (h & Hh & Hi); exists h; (split; [|done]).
      * by eapply cstep_handlers.
      * by apply Hold.
  - intros t. destruct (Hcase t) as [[Hl [h Hh]]|[N1 N2]].
    + destruct (cstep_own l x y t h Hx Hs Hl Hh) as (_ & _ & ->). naive_solver.
    + rewrite Cr, (so_rcreating x Hx) by done. split; intros (h & Hh & Hi); exists h; (split; [|done]).
      * by eapply cstep_handlers.
      * by apply Hold.
  - intros t h Hh. destruct (Hcase t) as [[Hl _]|[N1 N2]]; [by eapply cstep_own|].
    apply (so_handlers x Hx t). by apply Hold.
Qed.

Lemma serving_start_ok path : serving_ok (serving_start path) ∧ ids_below 0 (sv (serving_start path)).
Proof.
  split; [|by split; cbn; lia]. split; cbn; [apply start_ok|by split; cbn| | |done];
    intros t; rewrite lookup_empty; (split; [intros [? ?]|intros (h & H & _)]; [done|by rewrite lookup_empty in H]).
Qed.

Lemma runs_ok ls path x :
  runs ls (serving_start path) x → Z.of_nat (length ls) < 2 ^ 63 →
  serving_ok x ∧ ids_below (Z.of_nat (length ls)) (sv x).
Proof.
  intros Hr. remember (serving_start path) as x0 eqn:E0.
  induction Hr as [x|ls l x y z Hr IH Hs]; intros Hn; subst; [apply serving_start_ok|].
  rewrite length_app in *. cbn [length] in *. destruct (IH eq_refl) as [Hok Hid]; [lia|].
  replace (Z.of_nat (length ls + 1)) with (Z.of_nat (length ls) + 1) by lia. eapply cstep_ok; [done|done|lia|done].
Qed.

(** ** A handler that is left alone *)

(** The sections of one handler in a row, up to its response. *)
Fixpoint run_alone (fuel : nat) (oc : Outcomes) (t : nat) (h : handler) (s : Server) : option (Server * handler) :=
  match fuel, h with
  | O, _ | _, HAnswered _ _ | _, HReplied _ _ => Some (s, h)
  | S fuel, _ => '(s, h) ← handler_step oc t h s; run_alone fuel oc t h s
  end.

Lemma run_alone_accepted fuel oc t req s :
  run_alone (S fuel) oc t (HAccepted (Some req)) s = '(s, h) ← begin oc t req s; run_alone fuel oc t h s.
Proof. done. Qed.

Lemma alone_left {A} (m : gmap nat A) t : m !! t = None → partial_alter (λ _, None) t m = m.
Proof. exact (delete_id m t). Qed.

Lemma forward_at_again t r pc f r0 pc0 f0 s : forward_at t r pc f (forward_at t r0 pc0 f0 s) = forward_at t r pc f s.
Proof. unfold forward_at, set_forwards; cbn. by rewrite partial_alter_partial_alter_eq. Qed.
Lemma reverse_at_again t r pc f r0 pc0 f0 s : reverse_at t r pc f (reverse_at t r0 pc0 f0 s) = reverse_at t r pc f s.
Proof. unfold reverse_at, set_reverses; cbn. by rewrite partial_alter_partial_alter_eq. Qed.

(** [create] in sections, and without interruption. *)
Lemma alone_forward oc t req params s :
  creating (forwards s) !! t = None →
  ('(s1, h) ← ('(r, err) ← create_check params (reg (forwards s));
      match err with
      | Some e => Some (forward_at t r None (fresh_ref (forwards s)) s, HAnswered (Some req) (fail req e))
      | None => Some (forward_at t r (Some (CListen params)) (fresh_ref (forwards s)) s, HForward req)
      end); run_alone 6 oc t h s1) =
  ('(w, res) ← create_forward oc params (forwards s); Some (set_forwards w s, answered req PForward res)).
Proof.
  intros HC. unfold create_forward.
  assert (∀ r f, forward_at t r None f s = set_forwards (Forwards.mkWorld r (creating (forwards s)) (accepted (forwards s)) f) s)
    as Hleft by (intros; unfold forward_at; by rewrite alone_left).
  destruct (create_check params (reg (forwards s))) as [[r [e|]]|]; cbn -[run_alone]; [by rewrite Hleft| |done].
  change 6%nat with (S 5). cbn [run_alone handler_step]. unfold forward_section at 1. cbn -[run_alone].
  rewrite lookup_partial_alter_eq. cbn -[run_alone].
  destruct (oc_listen oc) as [addr|[is_op err]]; cbn -[run_alone]; rewrite forward_at_again; [|by rewrite Hleft].
  change 5%nat with (S 4). cbn [run_alone handler_step]. unfold forward_section at 1. cbn -[run_alone].
  rewrite lookup_partial_alter_eq. cbn -[run_alone]. rewrite forward_at_again.
  change 4%nat with (S 3). cbn [run_alone handler_step]. unfold forward_section at 1. cbn -[run_alone create_commit].
  rewrite lookup_partial_alter_eq. cbn -[run_alone create_commit].
  destruct (create_commit _ _ _ _ _ _) as [[r' res]|]; cbn -[run_alone]; [|done].
  rewrite forward_at_again, Hleft. by destruct res.
Qed.

Lemma alone_reverse oc t req params s :
  rcreating (reverses s) !! t = None →
  ('(s1, h) ← ('(r, err) ← reverse_create_check (oc_cleanup oc) params (rreg (reverses s));
      match err with
      | Some e => Some (reverse_at t r None (rfresh (reverses s)) s, HAnswered (Some req) (fail req e))
      | None => Some (reverse_at t r (Some (RConnecting params)) (rfresh (reverses s)) s, HReverse req)
      end); run_alone 6 oc t h s1) =
  ('(w, res) ← create_reverse oc params (reverses s); Some (set_reverses w s, answered req PReverse res)).
Proof.
  intros HC. unfold create_reverse.
  assert (∀ r f, reverse_at t r None f s = set_reverses (Reverses.mkWorld r (rcreating (reverses s)) f) s)
    as Hleft by (intros; unfold reverse_at; by rewrite alone_left).
  destruct (reverse_create_check _ params (rreg (reverses s))) as [[r [e|]]|]; cbn -[run_alone]; [by rewrite Hleft| |done].
  change 6%nat with (S 5). cbn [run_alone handler_step]. unfold reverse_section at 1. cbn -[run_alone].
  rewrite lookup_partial_alter_eq. cbn -[run_alone].
  destruct (oc_connect oc) as [err|]; cbn -[run_alone]; rewrite reverse_at_again; [by rewrite Hleft|].
  change 5%nat with (S 4). cbn [run_alone handler_step]. unfold reverse_section at 1. cbn -[run_alone].
  rewrite lookup_partial_alter_eq. cbn -[run_alone parse_endpoints].
  destruct (parse_endpoints params) as [eps|err]; cbn -[run_alone]; rewrite reverse_at_again; [|by rewrite Hleft].
  change 4%nat with (S 3). cbn [run_alone handler_step]. unfold reverse_section at 1. cbn -[run_alone].
  rewrite lookup_partial_alter_eq. cbn -[run_alone].
  destruct (oc_session oc) as [err|]; cbn -[run_alone]; rewrite reverse_at_again; [by rewrite Hleft|].
  change 3%nat with (S 2). cbn [run_alone handler_step]. unfold reverse_section at 1. cbn -[run_alone reverse_create_commit].
  rewrite lookup_partial_alter_eq. cbn -[run_alone reverse_create_commit].
  destruct (reverse_create_commit _ _ _ _) as [[r' res]|]; cbn -[run_alone]; [|done].
  rewrite reverse_at_again, Hleft. by destruct res.
Qed.


(** ** All runs *)

Lemma few_rtc {A} (R : relation A) k x y : few R k x y → rtc R x y.
Proof. intros (n & _ & H). by eapply rtc_nsteps_2. Qed.

Lemma runs_registries ls path x :
  runs ls (serving_start path) x → Z.of_nat (length ls) < 2 ^ 63 →
  rtc fstep start (forwards (sv x)) ∧ rtc rstep rstart (reverses (sv x)).
Proof.
  intros Hr. remember (serving_start path) as x0 eqn:E0.
  induction Hr as [x|ls l x y z Hr IH Hs]; intros Hn; subst; [done|].
  rewrite length_app in Hn. cbn [length] in Hn. destruct (IH eq_refl) as [Hf Hv]; [lia|].
  destruct (runs_ok ls path y Hr) as [Hok _]; [lia|].
  destruct (cstep_registries l y z Hok Hs) as (Sf & Sr & _).
  split; etrans; eauto using few_rtc.
Qed.

Lemma shutdown_step_some x cleanup unlinks remove_err :
  serving_ok x → ∃ y, shutdown_step cleanup unlinks remove_err x = Some y.
Proof.
  intros Hx. unfold shutdown_step. destruct (shutting x); eauto.
  - destruct (removeAll_ok _ (so_forwards x Hx)) as (r & -> & _). by eexists.
  - destruct (reverse_removeAll_ok cleanup _ (so_reverses x Hx)) as (r & -> & _). by eexists.
Qed.


(** ** Every request is answered *)

Definition own_steps (t : nat) (ls : list label) : nat :=
  length (List.filter (λ l, match l with LHandler t' => (t' =? t)%nat | _ => false end) ls).

Lemma own_steps_snoc t ls l :
  own_steps t (ls ++ [l]) = (own_steps t ls + match l with LHandler t' => if (t' =? t)%nat then 1 else 0 | _ => 0 end)%nat.
Proof.
  unfold own_steps. rewrite List.filter_app, length_app. f_equal. cbn. destruct l as [t'| | | |]; [|done..].
  by destruct (t' =? t)%nat.
Qed.

(** A step leaves the other handlers' ranks as they are. *)
Lemma rank_others l x y t h :
  serving_ok x → cstep l x y → l ≠ LHandler t → rank t h (sv y) = rank t h (sv x).
Proof.
  intros Hx Hs Hl. destruct (cstep_registries l x y Hx Hs) as (_ & _ & Cf & Cr).
  unfold rank. by rewrite Cf, Cr.
Qed.

Lemma rank_own t x y h :
  serving_ok x → cstep (LHandler t) x y → handlers x !! t = Some h →
  ∃ h', handlers y !! t = Some h' ∧ request_of h' = request_of h ∧ (rank t h' (sv y) < rank t h (sv x))%nat.
Proof.
  intros Hx Hs Ht. inversion Hs as [|oc x0 t0 h0 s' h' Ht0 Hb E| | | |]; subst.
  assert (h0 = h) as -> by congruence.
  destruct (handler_step_ok oc t h x Hx Ht Hb) as (s1 & h1 & E1 & Ho); [by intros req resp ->|].
  assert (s1 = s' ∧ h1 = h') as [-> ->] by (split; congruence). exists h'. cbn.
  rewrite lookup_insert, decide_True by done. destruct Ho. done.
Qed.

Lemma runs_rank ls0 ls path x y t h :
  runs ls0 (serving_start path) x → runs ls x y → Z.of_nat (length (ls0 ++ ls)) < 2 ^ 63 →
  handlers x !! t = Some h →
  runs (ls0 ++ ls) (serving_start path) y ∧
  ∃ h', handlers y !! t = Some h' ∧ request_of h' = request_of h ∧
    (rank t h' (sv y) + own_steps t ls ≤ rank t h (sv x))%nat.
Proof.
  intros Hx Hr. induction Hr as [x|ls l x y z Hr IH Hs]; intros Hn Ht.
  { rewrite app_nil_r. split; [done|]. exists h. split_and!; [done..|]. cbn. lia. }
  rewrite app_assoc in *. rewrite length_app in Hn. cbn [length] in Hn.
  destruct (IH Hx) as (Hy & h' & Hh' & Hq & Hrank); [lia|done|].
  split; [by eapply runs_snoc|]. destruct (runs_ok _ path y Hy) as [Hok _]; [lia|].
  rewrite own_steps_snoc. destruct (decide (l = LHandler t)) as [->|Hne].
  - rewrite Nat.eqb_refl. destruct (rank_own t y z h' Hok Hs Hh') as (h2 & ? & ? & ?).
    exists h2. split_and!; [done|congruence|lia].
  - exists h'. rewrite (rank_others l y z t h' Hok Hs Hne). split_and!; [by eapply cstep_handlers|done|].
    destruct l as [t'| | | |]; try lia. destruct (Nat.eqb_spec t' t); [congruence|lia].
Qed.

Lemma rank_zero x t h : serving_ok x → handlers x !! t = Some h → rank t h (sv x) = 0%nat → ∃ req resp, h = HReplied req resp.
Proof.
  intros Hx Ht. destruct h as [d|req|req|req fd|req resp|req resp]; cbn; try lia; [| |eauto].
  - destruct (proj2 (so_creating x Hx t)) as [pc ->]; [by eexists|]. destruct pc; lia.
  - destruct (proj2 (so_rcreating x Hx t)) as [pc ->]; [by eexists|]. destruct pc; lia.
Qed.

(** Outcomes in which nothing listens. *)
Definition no_listener (oc : Outcomes) : Outcomes :=
  mkOutcomes (oc_forward_create oc) (oc_forward_remove oc) (oc_reverse_create oc) (oc_reverse_remove oc)
    (oc_device_register oc) (inr (false, External 0)) (oc_connect oc) (oc_session oc) (oc_cleanup oc) (oc_now oc) (oc_order oc).


(** ** A scheduler *)

(** Whose step is next, and what its calls come to. *)
Inductive turn :=
  | TAccept (t : nat) (decoded : option Request)
  | THandler (oc : Outcomes) (t : nat)
  | TShutdown (cleanup : nat → option error) (unlinks : bool) (remove_err : option error)
  | TReturn.

Definition turn_label (i : turn) : label :=
  match i with TAccept t _ => LAccept t | THandler _ t => LHandler t | TShutdown _ _ _ => LShutdown | TReturn => LReturn end.

Definition binds_free_b (oc : Outcomes) (t : nat) (s : Server) : bool :=
  match creating (forwards s) !! t, oc_listen oc with
  | Some (CListen _), inl addr =>
      forallb (λ p, negb (p.2 =? addr)%string) (map_to_list (listening (reg (forwards s))))
  | _, _ => true
  end.

(** One turn; [None] when it is not that goroutine's to take. *)
Definition take_turn (i : turn) (x : serving) : option serving :=
  match i with
  | TAccept t decoded =>
      match handlers x !! t, shutting x with
      | None, SdListener => if listening_on (sv x) then Some (with_handler t (HAccepted decoded) x) else None
      | _, _ => None
      end
  | THandler oc t =>
      h ← handlers x !! t;
      if binds_free_b oc t (sv x) then
        '(s, h) ← handler_step oc t h (sv x); Some (with_handler t h (with_sv s x))
      else None
  | TShutdown cleanup unlinks remove_err =>
      match shutting x with SdDone => None | _ => shutdown_step cleanup unlinks remove_err x end
  | TReturn =>
      match shutting x with
      | SdListener => None
      | _ => Some (mkServing (sv x) (handlers x) (shutting x) (socket x) true)
      end
  end.

Fixpoint take_turns (ts : list turn) (x : serving) : option serving :=
  match ts with [] => Some x | i :: ts => x ← take_turn i x; take_turns ts x end.

Lemma binds_free_b_sound oc t s : binds_free_b oc t s = true → binds_free oc t s.
Proof.
  unfold binds_free_b, binds_free. intros H params addr HC HL ln Hln. rewrite HC, HL in H.
  rewrite forallb_forall in H. specialize (H (ln, addr)). cbn in H. rewrite String.eqb_refl in H.
  discriminate H. by apply list_elem_of_In, elem_of_map_to_list.
Qed.

Lemma take_turn_sound i x y : take_turn i x = Some y → cstep (turn_label i) x y.
Proof.
  destruct i as [t d|oc t|cl ul re|]; cbn [take_turn turn_label].
  - destruct (handlers x !! t) eqn:E1; [done|]. destruct (shutting x) eqn:E2; try done.
    destruct (listening_on (sv x)) eqn:E3; [|done]. intros [= <-]. by constructor.
  - destruct (handlers x !! t) as [h|] eqn:E1; cbn; [|done]. destruct (binds_free_b oc t (sv x)) eqn:E2; [|done].
    destruct (handler_step oc t h (sv x)) as [[s h']|] eqn:E3; cbn; [|done]. intros [= <-].
    eapply c_handler; eauto using binds_free_b_sound.
  - intros H. eapply (c_shutdown _ cl ul re); by destruct (shutting x).
  - intros H. assert (shutting x ≠ SdListener) by (by intros E; rewrite E in H).
    assert (y = mkServing (sv x) (handlers x) (shutting x) (socket x) true) as -> by (destruct (shutting x); congruence).
    by apply c_return.
Qed.

Lemma take_turns_sound ts ls x y z :
  runs ls x y → take_turns ts y = Some z → runs (ls ++ (turn_label <$> ts)) x z.
Proof.
  revert ls y. induction ts as [|i ts IH]; intros ls y Hr; cbn.
  - intros [= ->]. by rewrite app_nil_r.
  - destruct (take_turn i y) as [y'|] eqn:E; cbn; [|done]. intros Hz.
    rewrite cons_middle, app_assoc. eapply IH; [|done]. eapply runs_snoc; [done|]. by apply take_turn_sound.
Qed.

(** ** Witnesses *)

Definition sample_path : string := "/run/user/1000/adb-go/adb-gos.sock".


(** Two requests at the same time, and the other calls in between. *)
Definition two_requests : list turn :=
  [TAccept 0 (Some sample_create_request); THandler sample_outcomes 0; TAccept 1 None; THandler sample_outcomes 0;
   THandler sample_outcomes 1; THandler sample_outcomes 0; THandler sample_outcomes 1].

Lemma two_requests_run :
  ∃ x, take_turns two_requests (serving_start sample_path) = Some x ∧
    runs (turn_label <$> two_requests) (serving_start sample_path) x.
Proof.
  destruct (take_turns two_requests (serving_start sample_path)) as [x|] eqn:E; [|by vm_compute in E].
  exists x. split; [done|]. eapply (take_turns_sound two_requests []); [constructor|done].
Qed.


