(* ===== verification/Closing.v ===== *)
(** * internal/server/server_unix.go: shutting down among the handlers

    Over the steps of Handlers: what a shutdown leaves when no creation is under
    way, and the runs in which one is, or in which the process ends before the
    shutdown does. *)

From S2P Require Import Prelude Errors GoStrings Strconv Address ServerProtocol Forwards Reverses Server Handlers.

#[local] Open Scope string_scope.
#[local] Open Scope Z_scope.
#[local] Open Scope list_scope.

(** ** A shutdown no creation can overtake *)

(** Past its creations, if it had any. *)
Definition settled (h : handler) : bool :=
  match h with HStatus _ _ | HAnswered _ _ | HReplied _ _ => true | _ => false end.

Definition forwards_closed (pc : shutdown_pc) : bool :=
  match pc with SdListener | SdForwards => false | _ => true end.
Definition reverses_closed (pc : shutdown_pc) : bool :=
  match pc with SdSocket | SdDone => true | _ => false end.

(** No connection is accepted any more, and nothing is created. *)
Record closing (x : serving) : Prop := {
  cl_started : shutting x ≠ SdListener;
  cl_handlers t h : handlers x !! t = Some h → settled h = true;
  cl_forwards : forwards_closed (shutting x) = true → byID (reg (forwards (sv x))) = ∅;
  cl_reverses : reverses_closed (shutting x) = true → rr_byID (rreg (reverses (sv x))) = ∅;
}.

Lemma settled_step oc t h s s' h' :
  settled h = true → handler_step oc t h s = Some (s', h') → s' = s ∧ settled h' = true.
Proof. destruct h; cbn; try done; by intros _ [= <- <-]. Qed.

Lemma closing_shutdown cleanup unlinks remove_err x y :
  serving_ok x → closing x → shutdown_step cleanup unlinks remove_err x = Some y → closing y.
Proof.
  intros Hx [H1 H2 H3 H4]. unfold shutdown_step. destruct (shutting x) eqn:ES; try done.
  - destruct (removeAll_ok _ (so_forwards x Hx)) as (r & -> & _ & _ & HB). intros [= <-]. by split.
  - destruct (reverse_removeAll_ok cleanup _ (so_reverses x Hx)) as (r & -> & _ & _ & HB). intros [= <-]. by split.
  - intros [= <-]. by split.
  - intros [= <-]. split; by rewrite ?ES.
Qed.

Lemma closing_step l x y : serving_ok x → closing x → cstep l x y → closing y.
Proof.
  intros Hx Hc Hs. destruct (id Hc) as [H1 H2 H3 H4].
  destruct Hs as [x t d Ht Hp Hl|oc x t h s' h' Ht Hb E|x w' (_ & _ & EB & _)|x w' (_ & _ & EB & _)|x cl ul re x' Hp E|x Hp].
  - done.
  - destruct (settled_step oc t h _ _ _ (H2 _ _ Ht) E) as [-> Hh]. split; cbn; try done.
    intros t' h0. destruct (decide (t = t')) as [->|Hne]; [rewrite lookup_insert, decide_True by done; by intros [= <-]|].
    rewrite lookup_insert_ne by done. apply H2.
  - split; cbn; try done. by rewrite EB.
  - split; cbn; try done. by rewrite EB.
  - by eapply closing_shutdown.
  - by split.
Qed.

Lemma closing_runs ls0 ls path x y :
  runs ls0 (serving_start path) x → runs ls x y → Z.of_nat (length (ls0 ++ ls)) < 2 ^ 63 → closing x →
  runs (ls0 ++ ls) (serving_start path) y ∧ closing y.
Proof.
  intros Hx Hr. induction Hr as [x|ls l x y z Hr IH Hs]; intros Hn Hc; [by rewrite app_nil_r|].
  rewrite app_assoc in *. rewrite length_app in Hn. cbn [length] in Hn.
  destruct (IH Hx) as [Hy Hcy]; [lia|done|]. split; [by eapply runs_snoc|].
  destruct (runs_ok _ path y Hy) as [Hok _]; [lia|]. by eapply closing_step.
Qed.

Lemma settled_creating x : serving_ok x → closing x → creating (forwards (sv x)) = ∅ ∧ rcreating (reverses (sv x)) = ∅.
Proof.
  intros Hx Hc. split; apply map_eq; intros t; rewrite lookup_empty; apply eq_None_not_Some.
  - rewrite (so_creating x Hx). intros (h & Hh & E). apply (cl_handlers x Hc) in Hh. by destruct h.
  - rewrite (so_rcreating x Hx). intros (h & Hh & E). apply (cl_handlers x Hc) in Hh. by destruct h.
Qed.


(** ** A shutdown that is overtaken *)

Definition sample_reverse_outcomes : Outcomes :=
  mkOutcomes (λ _, Err (External 0)) (λ _, Err (External 0)) (λ _, Ok reverse_sample_params) (λ _, Err (External 0))
    (λ _, Err (External 0)) (inr (false, External 0)) None None (λ _, None) "now" (λ _, []).
Definition sample_reverse_request : Request := mkRequest 1 "c" CommandReverseCreate "{}".

Definition shutdown_turn : turn := TShutdown (λ _, None) true None.

(** A request is accepted and decoded; the server shuts down; [create] runs. *)
Definition late_creation : list turn :=
  [TAccept 0 (Some sample_create_request)] ++ replicate 4 shutdown_turn ++ replicate 5 (THandler sample_outcomes 0).

(** A reverse is created; the listener is closed; [Serve] returns. *)
Definition early_exit : list turn :=
  [TAccept 0 (Some sample_reverse_request)] ++ replicate 6 (THandler sample_reverse_outcomes 0) ++ [shutdown_turn; TReturn].

(** What is left in a state: whether [Serve] has returned, the shutdown, whether
    all handlers have replied, the forwards and the addresses they listen on, the
    reverses and the sessions that are open. *)
Definition left_over (x : serving) :
    (bool * shutdown_pc * bool) * (list string * list string) * (list string * list nat) :=
  ((returned x, shutting x, forallb (λ p, match p.2 with HReplied _ resp => rs_OK resp | _ => false end) (map_to_list (handlers x))),
   ((map_to_list (byID (reg (forwards (sv x))))).*1, (map_to_list (listening (reg (forwards (sv x))))).*2),
   ((map_to_list (rr_byID (rreg (reverses (sv x))))).*1,
    elements (rr_sessions (rreg (reverses (sv x))) ∖ rr_closed_sessions (rreg (reverses (sv x)))))).

(** C17: the shutdown can be overtaken, in both directions.  A request that was
    accepted before the listener was closed creates its forward after
    [Shutdown] is done, is answered with success, and the forward stays
    registered and listening: the registry keeps no mark that it is closed.
    And [Serve] can return, which ends the process, when [Shutdown] has closed
    the listener and nothing else: a reverse is then still registered and its
    session on the device open. *)
Theorem shutdown_is_overtaken :
  (∃ ls x, runs ls (serving_start sample_path) x ∧
     left_over x = ((false, SdDone, true), (["fwd_1"], ["127.0.0.1:9000"]), ([], []))) ∧
  (∃ ls x, runs ls (serving_start sample_path) x ∧
     left_over x = ((true, SdForwards, true), ([], []), (["rev_1"], [0%nat]))).
Proof.
  assert (∀ ts v, left_over <$> take_turns ts (serving_start sample_path) = Some v →
    ∃ ls x, runs ls (serving_start sample_path) x ∧ left_over x = v) as Hrun.
  { intros ts v H. apply fmap_Some in H as (x & E & ->). eexists _, x. split; [|done].
    eapply (take_turns_sound ts []); [constructor|done]. }
  split; [apply (Hrun late_creation)|apply (Hrun early_exit)]; by vm_compute.
Qed.

(** ** Witness *)

Definition quiet_turns : list turn :=
  [TAccept 0 (Some sample_create_request)] ++ replicate 5 (THandler sample_outcomes 0) ++ [shutdown_turn].

