(* ===== verification/Usage.v ===== *)
(** * The help texts

    The usage texts of cmd/adb-go/internal/custom and the help text of compat as
    the source has them, one definition for each, and the commands that the first
    of them lists. *)

From S2P Require Import Prelude GoStrings.

#[local] Open Scope string_scope.

(** A raw string of the source: it holds no backquote, and its quotes are
    written as backquotes here. *)
Fixpoint raw (s : string) : string :=
  match s with "" => "" | String a s => String (if Ascii.eqb a "`" then "034"%char else a) (raw s) end.

(** custom.go *)

Definition usage : string := raw "adb-go is a pure-Go Android Debug Bridge client.

Usage:
  adb-go [--quiet | --verbose] <command> [arguments]

Commands:
  help        Show this help message
  version     Print adb-go build and runtime information
  targets     List adb-go connection targets visible locally
  devices     List devices known by the local adb-gos server
  shell       Run a shell command on a connected device
  logcat      Stream Android log output from a connected device
  getprop     Read Android system properties from a connected device
  screencap   Save a PNG screenshot from a connected device
  reboot      Reboot a connected device
  forward     Forward local TCP connections to a device TCP endpoint
  reverse     Reverse device TCP connections to a host TCP endpoint
  server      Control the local adb-gos server process
  push        Push one local file to a connected device
  pull        Pull one remote file from a connected device
  install-apk Install one local APK on a connected device

Global options:
  --quiet     Suppress non-error informational status messages. Command payloads
              such as shell/logcat stdout, listings, JSON/plain output, version
              information, and chosen file paths still print.
  --verbose   Print extra human-facing diagnostics to stderr without changing
              command payload stdout. Cannot be combined with --quiet.
  --json      Print machine-readable JSON for supported commands.

adb-go is not a full replacement for the official adb binary yet. The CLI is a
thin wrapper around the adb-go library and will grow command coverage gradually.
".

Definition versionUsage : string := raw "Usage:
  adb-go version

Prints concise adb-go build and Go runtime information for support requests.
Release builds can set the adb-go version at build time with the Git-derived
project convention:

  version=$(./tools/git-version.sh)
  go build -ldflags `-X main.version=${version}` ./cmd/adb-go
".


(** devices.go *)

Definition devicesUsage : string := raw "Usage:
  adb-go devices [--socket PATH] [--plain]

Lists devices known by the local adb-gos server. This command asks the server
for its registered device table; it is not active USB/TCP discovery. To discover
locally visible connection targets, use:

  adb-go targets
  adb-go targets --scan
".


(** targets.go *)

Definition targetsUsage : string := raw "Usage:
  adb-go targets [--scan] [--plain]

Lists adb-go connection targets visible from the local machine. This is an
adb-go-specific alternative to `adb devices`, not a clone of the official adb
server's device list. It can show ADB_GO_ADDR as a TCP target and, on Linux,
USB interfaces discovered under /dev/bus/usb. With --scan, it also scans local
emulator TCP ports 127.0.0.1:5555..5585, odd ports only.
".


(** shell.go *)

Definition shellUsage : string := raw "Usage:
  adb-go shell (--addr HOST[:PORT] | --usb [USB selection]) COMMAND [ARG...]

Runs one shell command on the selected ADB device. TCP addresses come from
--addr, or from ADB_GO_ADDR when --addr is omitted. USB support is Linux-only
initially; select USB with --usb, --usb-path, --usb-bus/--usb-device,
--usb-vid/--usb-pid, or --serial. COMMAND and all following arguments are joined
with spaces and sent as one shell command string, for example:

  adb-go shell --addr 127.0.0.1:5555 echo hello
  adb-go shell --auth-key ~/.android/adbkey --usb-path /dev/bus/usb/001/002 getprop ro.product.model
".

Definition logcatUsage : string := raw "Usage:
  adb-go logcat (--addr HOST[:PORT] | --usb [USB selection]) [--dump]

Streams Android logcat output from the selected ADB device to stdout. TCP
addresses come from --addr, or from ADB_GO_ADDR when --addr is omitted. USB
support is Linux-only initially. By default, logcat follows the device log
stream until the device closes it or the process is interrupted. Pass --dump to
request logcat's dump-and-exit mode, equivalent to logcat -d. For example:

  adb-go logcat --addr 127.0.0.1:5555
  adb-go logcat --dump --auth-key ~/.android/adbkey --usb-path /dev/bus/usb/001/002
".

Definition getPropUsage : string := raw "Usage:
  adb-go getprop (--addr HOST[:PORT] | --usb [USB selection]) [PROPERTY]

Reads Android system properties from the selected ADB device. With PROPERTY,
prints that single property value. If PROPERTY is not set, adb-go reports
`property not found` and exits with status 1. With no PROPERTY, prints all
properties in stable name order using getprop's standard [name]: [value] format.
TCP addresses come from --addr, or from ADB_GO_ADDR when --addr is omitted. USB
support is Linux-only initially. For example:

  adb-go getprop --addr 127.0.0.1:5555 ro.product.model
  adb-go getprop --auth-key ~/.android/adbkey --usb-path /dev/bus/usb/001/002
".

Definition screencapUsage : string := raw "Usage:
  adb-go screencap (--addr HOST[:PORT] | --usb [USB selection]) [--overwrite] [LOCAL_PNG]

Captures one PNG screenshot from the selected ADB device. When LOCAL_PNG is
omitted, adb-go writes to a timestamped file in the current directory named like
screen-yyyymmdd-hhmmssmmm.png, for example screen-20260102-030405123.png. TCP
addresses come from --addr, or from ADB_GO_ADDR when --addr is omitted. USB
support is Linux-only initially.

By default, screencap refuses to replace an existing local file. Pass
--overwrite to replace the selected path deliberately. For example:

  adb-go screencap --addr 127.0.0.1:5555
  adb-go screencap --addr 127.0.0.1:5555 ./screen.png
  adb-go screencap --overwrite --auth-key ~/.android/adbkey --usb-path /dev/bus/usb/001/002 ./screen.png
".

Definition rebootUsage : string := raw "Usage:
  adb-go reboot (--addr HOST[:PORT] | --usb [USB selection]) [MODE]

Requests an immediate reboot of the selected ADB device. With no MODE, adb-go
requests a normal Android reboot. Supported modes are bootloader and recovery.
TCP addresses come from --addr, or from ADB_GO_ADDR when --addr is omitted. USB
support is Linux-only initially. For example:

  adb-go reboot --addr 127.0.0.1:5555
  adb-go reboot --addr 127.0.0.1:5555 bootloader
  adb-go reboot --auth-key ~/.android/adbkey --usb-path /dev/bus/usb/001/002 recovery
".


(** sync.go *)

Definition pushUsage : string := raw "Usage:
  adb-go push (--addr HOST[:PORT] | --usb [USB selection]) LOCAL_PATH REMOTE_PATH

Pushes exactly one local file to the selected ADB device. TCP addresses come from
--addr, or from ADB_GO_ADDR when --addr is omitted. USB support is Linux-only
initially. For example:

  adb-go push --addr 127.0.0.1:5555 ./local.txt /data/local/tmp/local.txt
  adb-go push --auth-key ~/.android/adbkey --usb-path /dev/bus/usb/001/002 ./local.txt /data/local/tmp/local.txt
".

Definition pullUsage : string := raw "Usage:
  adb-go pull (--addr HOST[:PORT] | --usb [USB selection]) [--overwrite] REMOTE_PATH LOCAL_PATH

Pulls exactly one remote file from the selected ADB device. TCP addresses come
from --addr, or from ADB_GO_ADDR when --addr is omitted. USB support is
Linux-only initially. By default, the command refuses to replace an existing
local destination; pass --overwrite to replace it deliberately. For example:

  adb-go pull --addr 127.0.0.1:5555 /data/local/tmp/remote.txt ./remote.txt
  adb-go pull --auth-key ~/.android/adbkey --usb-path /dev/bus/usb/001/002 /data/local/tmp/remote.txt ./remote.txt
".

Definition installAPKUsage : string := raw "Usage:
  adb-go install-apk (--addr HOST[:PORT] | --usb [USB selection]) [--replace] LOCAL_APK

Installs exactly one local APK on the selected ADB device. This is an
adb-go-specific helper, not a full clone of `adb install`. It pushes the APK to
a temporary path under /data/local/tmp, runs pm install, and asks the device to
remove the temporary APK afterward. TCP addresses come from --addr, or from
ADB_GO_ADDR when --addr is omitted. USB support is Linux-only initially. Pass
--replace to allow replacing an already-installed app via pm install -r. For
example:

  adb-go install-apk --addr 127.0.0.1:5555 ./app.apk
  adb-go install-apk --replace --auth-key ~/.android/adbkey --usb-path /dev/bus/usb/001/002 ./app.apk
".


(** forward.go *)

Definition forwardUsage : string := raw "Usage:
  adb-go forward [--socket PATH] (--addr HOST[:PORT] | --usb [USB selection]) tcp:LOCAL_PORT tcp:REMOTE_PORT
  adb-go forward [--socket PATH] --background --addr HOST[:PORT] [--norebind] tcp:LOCAL_PORT tcp:REMOTE_PORT
  adb-go forward [--socket PATH] --list [--plain]
  adb-go forward [--socket PATH] --remove tcp:LOCAL_PORT
  adb-go forward [--socket PATH] --remove-id ID
  adb-go forward [--socket PATH] --remove-all

Without server flags, starts foreground process-scoped forwarding from a local
TCP listener to a TCP endpoint on the selected device. This behavior is
unchanged: the forward exists only while this command keeps running.

With --background, registers a server-owned in-memory forward in adb-gos. The
background path currently supports explicit TCP ADB targets only; USB targets
and authentication-key persistence are intentionally out of scope. List and
remove flags inspect or remove server-owned forwards without selecting a device.

Use tcp:0 as LOCAL_PORT to ask the OS for an available local port. adb-go
prints the bound local listener address before it starts waiting. For example:

  adb-go forward --addr 127.0.0.1:5555 tcp:9000 tcp:8000
  adb-go forward --auth-key ~/.android/adbkey --usb-path /dev/bus/usb/001/002 tcp:0 tcp:8000
  adb-go forward --background --addr 127.0.0.1:5555 tcp:0 tcp:8000
  adb-go forward --list
  adb-go forward --remove tcp:9000
".


(** reverse.go *)

Definition reverseUsage : string := raw "Usage:
  adb-go reverse [--socket PATH] (--addr HOST[:PORT] | --usb [USB selection]) tcp:REMOTE_PORT tcp:LOCAL_PORT
  adb-go reverse [--socket PATH] --background --addr HOST[:PORT] [--norebind] tcp:REMOTE_PORT tcp:LOCAL_PORT
  adb-go reverse [--socket PATH] --list [--plain]
  adb-go reverse [--socket PATH] --remove tcp:REMOTE_PORT
  adb-go reverse [--socket PATH] --remove-id ID
  adb-go reverse [--socket PATH] --remove-all

Without server flags, starts foreground process-scoped reverse forwarding from a
TCP listener on the selected device to a TCP endpoint on host loopback. The
reverse exists only while this command keeps running. Press Ctrl+C to remove the
device-side reverse registration, close active bridge streams, and exit.

With --background, registers a server-owned in-memory reverse in adb-gos. The
background path currently supports explicit TCP ADB targets only; USB targets
and authentication-key persistence are intentionally out of scope. List and
remove flags inspect or remove server-owned reverses without selecting a device.

Only tcp:PORT endpoints are supported. Device-side tcp:0, host Unix sockets,
Android local socket namespaces, JDWP, vsock, and generic service endpoints are
not supported yet. For example:

  adb-go reverse --addr 127.0.0.1:5555 tcp:8081 tcp:3000
  adb-go reverse --auth-key ~/.android/adbkey --usb-path /dev/bus/usb/001/002 tcp:8081 tcp:3000
  adb-go reverse --background --addr 127.0.0.1:5555 tcp:8081 tcp:3000
  adb-go reverse --list
  adb-go reverse --remove tcp:8081
".


(** server.go *)

Definition serverUsage : string := raw "Usage:
  adb-go server [--socket PATH] COMMAND

Controls the local adb-gos server over its Unix domain socket. This command
only exposes server process controls; adb-gos does not persist devices,
transports, forwards, sessions, or authentication state yet.

Commands:
  doctor   Print read-only server socket and service diagnostics
  ping     Check whether adb-gos responds to the control protocol
  status   Print basic adb-gos process metadata
  stop     Request graceful adb-gos shutdown
  service  Manage the adb-gos system service integration

Socket path selection uses --socket when provided, otherwise ADB_GO_SERVER_SOCKET,
then XDG_RUNTIME_DIR, then a per-user temporary directory. The service install
command writes ~/.config/systemd/user/adb-gos.service by default and runs
systemctl --user daemon-reload followed by systemctl --user enable --now.
".

Definition serverDoctorUsage : string := raw "Usage:
  adb-go server [--socket PATH] doctor [--systemctl PATH]

Prints read-only diagnostics for the local adb-gos server. The command reports
which socket path adb-go resolved, whether that path exists, whether a
compatible server responds to the socket protocol, and, on Linux when systemctl
is available, adb-gos.service active/enabled state.
".


(** systemd.go *)

Definition serverServiceUsage : string := raw "Usage:
  adb-go server [--socket PATH] service COMMAND

Manages adb-gos's host service-manager integration. Currently implemented:

  install    Install and start adb-gos as a systemd user service on Linux
  reinstall  Rewrite, reload, enable, and restart the systemd user service
  start      Start adb-gos.service with systemd --user
  stop       Stop adb-gos.service with systemd --user
  restart    Restart adb-gos.service with systemd --user
  status     Report adb-gos.service active/enabled state with systemd --user
  logs       Show recent adb-gos.service logs with journalctl --user
  uninstall  Disable, stop, and remove the systemd user service

These host service commands are separate from server protocol commands like
ping/status/shutdown.
".

Definition serverServiceInstallUsage : string := raw "Usage:
  adb-go server [--socket PATH] service install [--adb-gos PATH] [--unit-dir DIR] [--systemctl PATH] [--no-enable]

Installs adb-gos as a systemd user service on Linux. The command writes an
adb-gos.service unit for the current user. Unless --no-enable is set, it then
reloads the user systemd manager and enables/starts the service with:

  systemctl --user daemon-reload
  systemctl --user enable --now adb-gos.service
".

Definition serverServiceReinstallUsage : string := raw "Usage:
  adb-go server [--socket PATH] service reinstall [--adb-gos PATH] [--unit-dir DIR] [--systemctl PATH]

Rewrites the adb-gos systemd user unit on Linux, reloads the user systemd
manager, enables the service, and restarts adb-gos.service. Use reinstall after
changing the adb-gos binary path, changing the server socket path, or upgrading
a locally built server binary whose service unit should be refreshed.
".

Definition serverServiceLifecycleUsage : string := raw "Usage:
  adb-go server service COMMAND [--systemctl PATH]

Starts, stops, or restarts adb-gos.service using systemd --user. COMMAND must be
start, stop, or restart.
".

Definition serverServiceStatusUsage : string := raw "Usage:
  adb-go server service status [--systemctl PATH]

Reports adb-gos.service state from the current user's systemd manager. This is
host service-manager state, not the live server socket protocol status.
".

Definition serverServiceLogsUsage : string := raw "Usage:
  adb-go server service logs [--journalctl PATH] [--lines N] [--follow]

Shows adb-gos.service logs from the current user's systemd journal. By default,
it prints the most recent 100 entries without opening a pager. Pass --lines N to
choose a different number of recent entries, or --follow to keep streaming new
entries after the initial output.
".

Definition serverServiceUninstallUsage : string := raw "Usage:
  adb-go server service uninstall [--unit-dir DIR] [--systemctl PATH] [--keep-unit]

Disables and stops adb-gos.service using systemd --user, removes the systemd
user unit file, and reloads the user systemd manager. Use --keep-unit to leave
the unit file in place after disabling/stopping the service.
".


(** compat.go *)

Definition helpText : string := raw "Android Debug Bridge version 1.0.41 (adb-go compat)

Usage: adb [global options] command [command options]

global options:
 -H HOST    adb server host name [default=localhost]
 -P PORT    adb server port [default=5037]
 -h         show this help message
 --help     show this help message
 -s SERIAL  use device with given serial
 -d         use USB device (error if multiple devices connected)
 -e         use TCP/emulator device (error if multiple devices connected)

host commands:
 help         show this help message
 version      show version num
 start-server ensure adb-go server is running
 kill-server  stop adb-go server
 devices      list connected devices
 get-state    print selected device state
 reverse      manage device-to-host reverse socket connections

This adb-go compatibility mode is a host-side adb CLI skeleton. Unsupported
commands will be added incrementally as adb-compatible behavior is implemented.
".

(** ** The commands the help names *)

(** The lines of a text, without their ends. *)
Fixpoint lines_of (s : string) (line : string) : list string :=
  match s with
  | "" => [line]
  | String "010" s => line :: lines_of s ""
  | String a s => lines_of s (line +++ String a "")
  end.

(** The lines between a heading and the next blank line. *)
Fixpoint until_blank (l : list string) : list string :=
  match l with "" :: _ | [] => [] | line :: l => line :: until_blank l end.
Fixpoint under (heading : string) (l : list string) : list string :=
  match l with [] => [] | line :: l => if (line =? heading)%string then until_blank l else under heading l end.

(** The first word of an indented line. *)
Fixpoint word (s : string) : string :=
  match s with "" => "" | String a s => if Ascii.eqb a " " then "" else String a (word s) end.
Definition help_commands : list string := (λ line, word (str_drop 2 line)) <$> under "Commands:" (lines_of usage "").
