(* ===== verification/Cli.v ===== *)
(** * The command line's ground: what commands print, do and return

    A command is a computation over a console: the world outside (of any type,
    changed by the operations of the class [Host]) and what was printed.  Here
    too are Go's [flag] package, as far as the commands use it, output.go's
    output policy and tables, and router.go.  Two judgements on commands are
    set up: [alike], by which runs that differ in the verbosity only are
    compared, and [safe], by which a command that ends as a usage error has
    done nothing. *)

From S2P Require Import Prelude Errors GoStrings Strconv Text ServerProtocol Forwards Reverses Server.

#[local] Open Scope string_scope.
#[local] Open Scope Z_scope.
#[local] Open Scope list_scope.

(** ** utf8.RuneCountInString *)

Fixpoint rune_count_loop (fuel : nat) (s : string) : nat :=
  match fuel, s with
  | S fuel, String _ _ => S (rune_count_loop fuel (str_drop (rune_len s) s))
  | _, _ => 0
  end.
Definition rune_count (s : string) : nat := rune_count_loop (String.length s) s.

(** ** Printing

    A format is written as in the source, escapes included; the
    help texts are those of Usage.v. *)

Inductive sink := Stdout | Stderr.

#[global] Instance sink_eq_dec : EqDecision sink.
Proof. solve_decision. Defined.

(** What [writeJSON] is handed; a result without the expected key decodes to
    the zero value, here [None]. *)
Inductive document :=
  | DForward (f : option Forward)
  | DForwards (l : list Forward)
  | DReverse (v : option Reverses.Reverse)
  | DReverses (l : list Reverses.Reverse)
  | DRemoved (n : nat)
  | DDevices (l : list Device)
  | DTargets (rows : list (string * string * string)) (usbUnsupported : bool)
  | DResult (result : option payload)
  | DStrings (l : list (string * string))
  | DDiagnostics (l : list (string * diagnostic))
with diagnostic :=
  | Text (s : string)
  | Flag (b : bool)
  | ErrorText (err : error)
  | ServerError (e : Error)
  | OfForwards (d : ForwardDiagnostics)
  | OfReverses (d : ReverseDiagnostics)
  | Hints (l : list string)
  | ResultValue (result : option payload) (key : string).

Inductive print :=
  | Fprintf (to : sink) (format : string) (args : list arg)
  | FprintfV (to : sink) (format : string) (args : list arg) (err : error)   (* the last verb prints [err] *)
  | Fprint (to : sink) (text : string)
  | Bytes (bs : list byte)                                                   (* to stdout *)
  | JSON (v : document).                                                     (* to stdout *)

Definition to_sink (p : print) : sink :=
  match p with Fprintf to _ _ | FprintfV to _ _ _ | Fprint to _ => to | Bytes _ | JSON _ => Stdout end.

Record console (W : Type) := mkConsole { world : W; printed : list print }.
Arguments mkConsole {W} world printed.
Arguments world {W} c.
Arguments printed {W} c.

Definition Cmd (W A : Type) : Type := console W → console W * A.

#[global] Instance Cmd_ret W : MRet (Cmd W) := λ A a c, (c, a).
#[global] Instance Cmd_bind W : MBind (Cmd W) := λ A B f m c, let '(c, a) := m c in f a c.

Section commands.
Context {W : Type}.

Definition emit (p : print) : Cmd W () := λ c, (mkConsole (world c) (printed c ++ [p]), ()).
Definition fprintf (to : sink) (format : string) (args : list arg) : Cmd W () := emit (Fprintf to format args).
Definition fprintfV (to : sink) (format : string) (args : list arg) (err : error) : Cmd W () :=
  emit (FprintfV to format args err).
Definition fprint (to : sink) (text : string) : Cmd W () := emit (Fprint to text).

(** An operation of the world. *)
Definition act {A} (f : W → W * A) : Cmd W A := λ c, let '(w, a) := f (world c) in (mkConsole w (printed c), a).

(** ** output.go *)

Record cliOptions := mkCliOptions { opt_JSON : bool; opt_Quiet : bool; opt_Verbose : bool }.

Record outputPolicy := mkOutputPolicy { quiet : bool; verbose : bool }.
Definition newOutputPolicy (opts : cliOptions) : outputPolicy := mkOutputPolicy (opt_Quiet opts) (opt_Verbose opts).

Definition Infof (p : outputPolicy) (format : string) (args : list arg) : Cmd W () :=
  if quiet p then mret () else fprintf Stdout format args.
Definition Verbosef (p : outputPolicy) (format : string) (args : list arg) : Cmd W () :=
  if negb (verbose p) then mret () else
  fprintf Stderr "adb-go: " [] ;; fprintf Stderr format args.

(** [stdout_err] is the error of writing to standard output, which most
    commands do not look at. *)
Section output.
Context (stdout_err : option error).

Definition writeJSON (v : document) : Cmd W (option error) := emit (JSON v) ;; mret stdout_err.

Definition tableCells (row : list string) (width : nat) : list string :=
  (λ i, default "" (row !! i)) <$> seq 0 width.

(** A line of a table; after a failed write no other is written. *)
Fixpoint write_lines (lines : list print) : Cmd W (option error) :=
  match lines with
  | [] => mret None
  | l :: lines => emit l ;; match stdout_err with Some err => mret (Some err) | None => write_lines lines end
  end.

Definition plain_line (cells : list string) : print := Fprintf Stdout "%s\n" [AStr (Join cells "\t")].

Definition writePlainTable (headers : list string) (rows : list (list string)) : Cmd W (option error) :=
  match headers with
  | [] => mret None
  | _ => write_lines (plain_line headers :: ((λ row, plain_line (tableCells row (length headers))) <$> rows))
  end.

Definition tableWidths (headers : list string) (rows : list (list string)) : list nat :=
  foldl (λ widths row, zip_with max (rune_count <$> tableCells row (length headers)) widths)
    (rune_count <$> headers) rows.

(** A row: cells padded to their widths ([%-*s]), two spaces in between, the
    last cell as it is. *)
Definition pad (cell : string) (width : nat) : string :=
  cell +++ string_of_list_ascii (repeat " "%char (width - rune_count cell)).
Fixpoint aligned_cells (cells : list string) (widths : list nat) : list string :=
  match cells, widths with
  | [], _ | _, [] => []
  | [cell], _ => [cell]
  | cell :: cells, w :: widths => pad cell w :: aligned_cells cells widths
  end.
Definition aligned_line (widths : list nat) (cells : list string) : print :=
  Fprintf Stdout "%s\n" [AStr (Join (aligned_cells cells widths) "  ")].

Definition writeAlignedTable (headers : list string) (rows : list (list string)) : Cmd W (option error) :=
  match headers with
  | [] => mret None
  | _ =>
      let widths := tableWidths headers rows in
      write_lines (aligned_line widths headers :: ((λ row, aligned_line widths (tableCells row (length headers))) <$> rows))
  end.
End output.
End commands.

(** ** strconv.ParseUint, ParseInt and ParseBool *)

Inductive num_error := Syntax | Range.

Definition lower (c : Z) : Z := Z.lor c 32.

Definition digit_of (c : Z) : option Z :=
  if (48 <=? c) && (c <=? 57) then Some (c - 48)
  else if (97 <=? lower c) && (lower c <=? 122) then Some (lower c - 97 + 10)
  else None.

(** The digits of a number, with [_] among them where the base is written in
    the number. *)
Fixpoint parse_digits (base0 : bool) (base maxVal : Z) (s : string) (n : Z) (underscores : bool) : num_error + Z * bool :=
  match s with
  | "" => inr (n, underscores)
  | String a s =>
      if (code a =? 95) && base0 then parse_digits base0 base maxVal s n true else
      match digit_of (code a) with
      | None => inl Syntax
      | Some d =>
          if base <=? d then inl Syntax
          else if maxVal <? n * base + d then inl Range
          else parse_digits base0 base maxVal s (n * base + d) underscores
      end
  end.

(** [underscoreOK]: [saw] is the last kind of character. *)
Inductive saw := SawStart | SawDigit | SawUnderscore | SawOther.
Fixpoint underscore_loop (hex : bool) (s : string) (last : saw) : bool :=
  match s with
  | "" => match last with SawUnderscore => false | _ => true end
  | String a s =>
      let c := code a in
      if (48 <=? c) && (c <=? 57) || hex && (97 <=? lower c) && (lower c <=? 102) then underscore_loop hex s SawDigit
      else if c =? 95 then match last with SawDigit => underscore_loop hex s SawUnderscore | _ => false end
      else match last with SawUnderscore => false | _ => underscore_loop hex s SawOther end
  end.
(** The base a number is written with, and the rest of it. *)
Definition base_prefix (s : string) : Z * string :=
  match s with
  | String a rest =>
      if negb (code a =? 48) then (10, s) else
      match rest with
      | String b (String _ _ as digits) =>
          let c := lower (code b) in
          if c =? 98 then (2, digits) else if c =? 111 then (8, digits) else if c =? 120 then (16, digits)
          else (8, rest)
      | _ => (8, rest)
      end
  | "" => (10, s)
  end.
Definition underscoreOK (s : string) : bool :=
  let s := match s with String a rest => if (code a =? 45) || (code a =? 43) then rest else s | "" => s end in
  match s with
  | String a (String b rest) =>
      let c := lower (code b) in
      if (code a =? 48) && ((c =? 98) || (c =? 111) || (c =? 120)) then underscore_loop (c =? 120) rest SawDigit
      else underscore_loop false s SawStart
  | _ => underscore_loop false s SawStart
  end.

(** [base] is 0 or a base. *)
Definition ParseUint (s : string) (base bits : Z) : num_error + Z :=
  if (s =? "")%string then inl Syntax else
  let base0 := base =? 0 in
  let '(b, digits) := if base0 then base_prefix s else (base, s) in
  match parse_digits base0 b (2 ^ bits - 1) digits 0 false with
  | inl e => inl e
  | inr (n, underscores) => if underscores && negb (underscoreOK s) then inl Syntax else inr n
  end.

Definition ParseInt (s : string) (base bits : Z) : num_error + Z :=
  if (s =? "")%string then inl Syntax else
  let '(neg, u) :=
    match s with
    | String a u => if code a =? 43 then (false, u) else if code a =? 45 then (true, u) else (false, s)
    | "" => (false, s)
    end in
  match ParseUint u base bits with
  | inl e => inl e
  | inr n =>
      if negb neg && (2 ^ (bits - 1) <=? n) || neg && (2 ^ (bits - 1) <? n) then inl Range
      else inr (if neg : bool then - n else n)
  end.

Definition ParseBool (s : string) : option bool :=
  if bool_decide (s ∈ ["1"; "t"; "T"; "true"; "TRUE"; "True"]) then Some true
  else if bool_decide (s ∈ ["0"; "f"; "F"; "false"; "FALSE"; "False"]) then Some false
  else None.

Example ParseUint_hex : ParseUint "0x18D1" 0 16 = inr 6353. Proof. reflexivity. Qed.
Example ParseUint_big : ParseUint "18d1f" 16 16 = inl Range. Proof. reflexivity. Qed.
Example ParseUint_us : ParseUint "0x_1_8" 0 16 = inr 24 ∧ ParseUint "1__8" 0 16 = inl Syntax. Proof. split; reflexivity. Qed.

(** ** flag.FlagSet *)

Inductive flag_value := VBool (b : bool) | VString (s : string) | VInt (z : Z).

(** The flags with their defaults, the flags that were set, in any order, and
    the arguments behind them. *)
Record FlagSet := mkFlagSet { formal : list (string * flag_value); actual : gmap string flag_value; fs_Args : list string }.

Definition lookup_flag (l : list (string * flag_value)) (name : string) : option flag_value :=
  snd <$> List.find (λ p, String.eqb name (fst p)) l.
Definition flag_get (fs : FlagSet) (name : string) : option flag_value :=
  match actual fs !! name with Some v => Some v | None => lookup_flag (formal fs) name end.
Definition get_bool (fs : FlagSet) (name : string) : bool :=
  match flag_get fs name with Some (VBool b) => b | _ => false end.
Definition get_string (fs : FlagSet) (name : string) : string :=
  match flag_get fs name with Some (VString s) => s | _ => "" end.
Definition get_int (fs : FlagSet) (name : string) : Z :=
  match flag_get fs name with Some (VInt z) => z | _ => 0 end.
Definition flagWasProvided (fs : FlagSet) (name : string) : bool := bool_decide (is_Some (actual fs !! name)).
Definition NArg (fs : FlagSet) : nat := length (fs_Args fs).

(** Why parsing stops with an error: a message, or a request for help. *)
Inductive flag_error := FlagHelp | FlagFail (format : string) (args : list arg).

Definition reason (e : num_error) : string :=
  match e with Syntax => "parse error" | Range => "value out of range" end.

Definition set_flag (kind : flag_value) (name value : string) : flag_error + flag_value :=
  match kind with
  | VBool _ =>
      match ParseBool value with
      | Some b => inr (VBool b)
      | None => inl (FlagFail "invalid boolean value %q for -%s: %v" [AStr value; AStr name; AStr "parse error"])
      end
  | VString _ => inr (VString value)
  | VInt _ =>
      match ParseInt value 0 64 with
      | inr z => inr (VInt z)
      | inl e => inl (FlagFail "invalid value %q for flag -%s: %v" [AStr value; AStr name; AStr (reason e)])
      end
  end.

Definition is_dash (s : string) : bool := HasPrefix s "-".

(** [parseOne] until it finds no flag. *)
Fixpoint parse_flags (formal : list (string * flag_value)) (args : list string) (actual : gmap string flag_value)
    : flag_error + gmap string flag_value * list string :=
  match args with
  | [] => inr (actual, [])
  | s :: rest =>
      if (String.length s <? 2)%nat || negb (is_dash s) then inr (actual, args) else
      if (s =? "--")%string then inr (actual, rest) else
      let name := if HasPrefix s "--" then str_drop 2 s else str_drop 1 s in
      if (name =? "")%string || HasPrefix name "-" || HasPrefix name "=" then inl (FlagFail "bad flag syntax: %s" [AStr s]) else
      let '(name, value) := match Cut name "=" with Some (n, v) => (n, Some v) | None => (name, None) end in
      match lookup_flag formal name with
      | None =>
          inl (if (name =? "help")%string || (name =? "h")%string then FlagHelp
               else FlagFail "flag provided but not defined: -%s" [AStr name])
      | Some kind =>
          match kind, value, rest with
          | VBool _, None, _ => parse_flags formal rest (<[name := VBool true]> actual)
          | _, Some v, _ =>
              match set_flag kind name v with
              | inl e => inl e
              | inr v => parse_flags formal rest (<[name := v]> actual)
              end
          | _, None, [] => inl (FlagFail "flag needs an argument: -%s" [AStr name])
          | _, None, v :: rest =>
              match set_flag kind name v with
              | inl e => inl e
              | inr v => parse_flags formal rest (<[name := v]> actual)
              end
          end
      end
  end.

(** [fs.Parse] of a set that prints its errors and [usage] to standard error;
    [None] is an error. *)
Definition fs_Parse {W} (usage : string) (formal : list (string * flag_value)) (args : list string) : Cmd W (option FlagSet) :=
  match parse_flags formal args ∅ with
  | inr (actual, args) => mret (Some (mkFlagSet formal actual args))
  | inl FlagHelp => fprint Stderr usage ;; mret None
  | inl (FlagFail format fargs) => fprintf Stderr (format +++ "\n") fargs ;; fprint Stderr usage ;; mret None
  end.

(** A usage error of a command: its message, the usage text, exit code 2. *)
Definition usage_error {W} (usage format : string) (args : list arg) : Cmd W Z :=
  fprintf Stderr format args ;; fprint Stderr usage ;; mret 2.
Definition usage_errorV {W} (usage format : string) (args : list arg) (err : error) : Cmd W Z :=
  fprintfV Stderr format args err ;; fprint Stderr usage ;; mret 2.

(** args.go *)
Definition splitFlagSetCommand (fs : FlagSet) : option (string * list string) :=
  match fs_Args fs with [] => None | command :: args => Some (command, args) end.

(** ** router.go *)

Inductive cliMode := cliModeCustom | cliModeCompat.

Definition selectCLIMode (executablePath envMode : string) : res cliMode :=
  if (envMode =? "custom")%string then Ok cliModeCustom
  else if (envMode =? "compat")%string then Ok cliModeCompat
  else if negb (envMode =? "")%string
  then Err (Errorf "invalid ADB_GO_MODE %q: expected %q or %q" [AStr envMode; AStr "custom"; AStr "compat"])
  else
    let base := filepath_Base executablePath in
    if (base =? "adb")%string || (base =? "adb.exe")%string then Ok cliModeCompat else Ok cliModeCustom.

Definition runCLI {W} (args : list string) (executablePath envMode : string) (customRun compatRun : list string → Cmd W Z)
    : Cmd W Z :=
  match selectCLIMode executablePath envMode with
  | Err err => fprintfV Stderr "%v\n" [] err ;; mret 2
  | Ok cliModeCompat => compatRun args
  | Ok cliModeCustom => customRun args
  end.

(** ** Judgements on commands *)

Section judgements.
Context {W : Type}.
Implicit Types c : console W.

(** What a reader of standard output sees. *)
Definition stdout_of (l : list print) : list print := filter (λ p, to_sink p = Stdout) l.

Definition like c1 c2 : Prop := world c1 = world c2 ∧ stdout_of (printed c1) = stdout_of (printed c2).

(** The two runs do, print to standard output and return the same. *)
Definition alike {A} (m1 m2 : Cmd W A) : Prop :=
  ∀ c1 c2, like c1 c2 → like (fst (m1 c1)) (fst (m2 c2)) ∧ snd (m1 c1) = snd (m2 c2).

Lemma alike_ret {A} (a : A) : alike (mret a) (mret a).
Proof. by intros c1 c2 H. Qed.

Lemma alike_bind {A B} (m1 m2 : Cmd W A) (k1 k2 : A → Cmd W B) :
  alike m1 m2 → (∀ a, alike (k1 a) (k2 a)) → alike (m1 ≫= k1) (m2 ≫= k2).
Proof.
  intros Hm Hk c1 c2 H. destruct (Hm c1 c2 H) as [H' E]. unfold mbind, Cmd_bind.
  destruct (m1 c1) as [c1' a1], (m2 c2) as [c2' a2]. cbn in *. subst a2. by apply Hk.
Qed.

Lemma alike_ret_bind {A B} (a1 a2 : A) (k1 k2 : A → Cmd W B) :
  alike (k1 a1) (k2 a2) → alike (mret a1 ≫= k1) (mret a2 ≫= k2).
Proof. intros Hk c1 c2 H. by apply Hk. Qed.

Lemma stdout_of_app l k : stdout_of (l ++ k) = stdout_of l ++ stdout_of k.
Proof. apply filter_app. Qed.

Lemma alike_emit p : alike (emit p) (emit p).
Proof. intros c1 c2 [H1 H2]. split; [|done]. split; [done|]. cbn [fst emit printed]. by rewrite !stdout_of_app, H2. Qed.

Lemma alike_act {A} (f : W → W * A) : alike (act f) (act f).
Proof. intros c1 c2 [H1 H2]. unfold act. rewrite H1. by destruct (f (world c2)). Qed.

Lemma alike_verbose p1 p2 format args : alike (Verbosef p1 format args) (Verbosef p2 format args).
Proof.
  assert (∀ p c, like (fst (Verbosef p format args c)) c ∧ snd (Verbosef p format args c) = ()) as H.
  { intros p c. unfold Verbosef. destruct (verbose p); [|done]. split; [|done]. split; [done|].
    unfold mbind, Cmd_bind, fprintf, emit. cbn [negb fst printed]. rewrite !stdout_of_app. cbn. by rewrite !app_nil_r. }
  intros c1 c2 [H1 H2]. destruct (H p1 c1) as [[A1 A2] ->], (H p2 c2) as [[B1 B2] ->].
  split; [|done]. split; congruence.
Qed.

Lemma alike_info p1 p2 format args : quiet p1 = quiet p2 → alike (Infof p1 format args) (Infof p2 format args).
Proof. intros E. unfold Infof. rewrite E. destruct (quiet p2); [apply alike_ret|apply alike_emit]. Qed.

(** The command leaves the world alone. *)
Definition still {A} (m : Cmd W A) : Prop := ∀ c, world (fst (m c)) = world c.
(** It ends with 0 or 1. *)
Definition decided (m : Cmd W Z) : Prop := ∀ c, 0 ≤ snd (m c) ≤ 1.
(** It ends with 0, 1 or 2, and with 2 only where it has left the world alone. *)
Definition safe (m : Cmd W Z) : Prop := ∀ c, 0 ≤ snd (m c) ≤ 2 ∧ (snd (m c) = 2 → world (fst (m c)) = world c).

Lemma still_ret {A} (a : A) : still (mret a).
Proof. done. Qed.
Lemma still_emit p : still (emit p).
Proof. done. Qed.
Lemma still_bind {A B} (m : Cmd W A) (k : A → Cmd W B) : still m → (∀ a, still (k a)) → still (m ≫= k).
Proof. intros Hm Hk c. unfold mbind, Cmd_bind. specialize (Hm c). destruct (m c) as [c' a]. cbn in *. by rewrite Hk. Qed.

Lemma decided_ret z : 0 ≤ z ≤ 1 → decided (mret z).
Proof. by intros H c. Qed.
Lemma decided_bind {A} (m : Cmd W A) (k : A → Cmd W Z) : (∀ a, decided (k a)) → decided (m ≫= k).
Proof. intros Hk c. unfold mbind, Cmd_bind. destruct (m c) as [c' a]. apply Hk. Qed.

Lemma safe_decided m : decided m → safe m.
Proof. intros H c. specialize (H c). split; [lia|]. lia. Qed.
Lemma safe_ret z : 0 ≤ z ≤ 2 → safe (mret z).
Proof. by intros H c. Qed.
Lemma safe_bind {A} (m : Cmd W A) (k : A → Cmd W Z) : still m → (∀ a, safe (k a)) → safe (m ≫= k).
Proof.
  intros Hm Hk c. unfold mbind, Cmd_bind. specialize (Hm c). destruct (m c) as [c' a]. cbn in *.
  destruct (Hk a c') as [H1 H2]. split; [done|]. intros E. by rewrite H2.
Qed.
Lemma safe_act {A} (m : Cmd W A) (k : A → Cmd W Z) : (∀ a, decided (k a)) → safe (m ≫= k).
Proof. intros H. by apply safe_decided, decided_bind. Qed.

Lemma usage_error_safe usage format args : safe (usage_error usage format args : Cmd W Z).
Proof. by intros c. Qed.
Lemma usage_errorV_safe usage format args err : safe (usage_errorV usage format args err : Cmd W Z).
Proof. by intros c. Qed.

Lemma fs_Parse_still usage formal args : still (fs_Parse usage formal args : Cmd W _).
Proof. unfold fs_Parse. destruct (parse_flags formal args ∅) as [[]|[]]; by intros c. Qed.
Lemma fs_Parse_alike usage formal args : alike (fs_Parse usage formal args : Cmd W _) (fs_Parse usage formal args).
Proof.
  unfold fs_Parse. destruct (parse_flags formal args ∅) as [[|format fargs]|[]]; [| |apply alike_ret];
    repeat first [apply alike_bind; [|intros []]|apply alike_emit|apply alike_ret].
Qed.
End judgements.
