(* ===== verification/Facade.v ===== *)
(** * adb.go, and what the packages offer beside their core

    The root package names the functions of the client under one import; here
    they are, with the rest of the client's entry points, the well-known property
    names, the stubs of platforms without Unix sockets or USB, and the main
    function of adb-go. *)

From S2P Require Import Prelude Errors GoStrings Strconv GoIO Message Handshake Stream Address Text Auth Usb Cli.

#[local] Open Scope string_scope.
#[local] Open Scope Z_scope.

(** ** client.go and usb.go: entry points *)

Section entry_points.
Context (sha1_Sum : list byte → list byte) `{io_Writer W}.

Definition Connect (dial : string → res (Reader * W)) (ctx : Context_) (addr : string) : option (connected (W := W)) :=
  ConnectTCP sha1_Sum dial ctx addr.

Definition ConnectWithOptions (dial : string → res (Reader * W)) (ctx : Context_) (addr : string)
    (creds : list (option AuthCredential)) : option (connected (W := W)) :=
  ConnectTCPWithOptions sha1_Sum dial ctx addr creds.

(** [usbTransportDialer]; [open] is [usb.OpenBulkTransport]. *)
Definition usbTransportDialer (open : Candidate → res (Reader * W)) (discovered : res (list Candidate)) (opts : USBOptions)
    : transportDialer :=
  mkDialer ("usb", []) (usb_DialTransport open opts discovered).

Definition ConnectUSB (open : Candidate → res (Reader * W)) (discovered : res (list Candidate)) (ctx : Context_)
    (opts : USBOptions) (creds : list (option AuthCredential)) : option (connected (W := W)) :=
  match ctx_entry ctx with
  | Some err => Some (NotConnected None err)
  | None => connectWithTransportOptions sha1_Sum ctx (Some (usbTransportDialer open discovered opts)) creds
  end.
End entry_points.

(** [Client.Close] of a client that may be nil, or without a connection. *)
Definition Client_Close (close_err : option error) (c : option Connection) : option Connection * option error :=
  match c with
  | None => (None, None)
  | Some conn => (Some (Connection_Close conn), close_err)
  end.

(** ** client/property_names.go *)

Definition PropProductBrand : string := "ro.product.brand".
Definition PropProductManufacturer : string := "ro.product.manufacturer".
Definition PropProductModel : string := "ro.product.model".
Definition PropProductName : string := "ro.product.name".
Definition PropProductDevice : string := "ro.product.device".
Definition PropProductBoard : string := "ro.product.board".
Definition PropProductCPUABI : string := "ro.product.cpu.abi".
Definition PropProductCPUABIList : string := "ro.product.cpu.abilist".
Definition PropBuildFingerprint : string := "ro.build.fingerprint".
Definition PropBuildID : string := "ro.build.id".
Definition PropBuildDisplayID : string := "ro.build.display.id".
Definition PropBuildType : string := "ro.build.type".
Definition PropBuildTags : string := "ro.build.tags".
Definition PropBuildVersionRelease : string := "ro.build.version.release".
Definition PropBuildVersionSDK : string := "ro.build.version.sdk".
Definition PropBuildVersionIncremental : string := "ro.build.version.incremental".
Definition PropBuildVersionSecurityPatch : string := "ro.build.version.security_patch".
Definition PropHardware : string := "ro.hardware".
Definition PropBootloader : string := "ro.bootloader".
Definition PropSerialNo : string := "ro.serialno".
Definition PropDebuggable : string := "ro.debuggable".
Definition PropSecure : string := "ro.secure".

(** ** adb.go *)

Section adb.
Context (sha1_Sum : list byte → list byte) `{io_Writer W}.

Definition adb_Connect := Connect sha1_Sum (W := W).
Definition adb_ConnectWithOptions := ConnectWithOptions sha1_Sum (W := W).
Definition adb_ConnectTCP := ConnectTCP sha1_Sum (W := W).
Definition adb_ConnectTCPWithOptions := ConnectTCPWithOptions sha1_Sum (W := W).
Definition adb_ConnectUSB := ConnectUSB sha1_Sum (W := W).
End adb.

Definition adb_LoadPrivateKey := LoadPrivateKey.
Definition adb_ForwardTCP := ForwardTCP.
Definition adb_ReverseDeviceTCP := ReverseDeviceTCP.
Definition adb_ReverseHostTCP := ReverseHostTCP.
Definition adb_ParseReverseDeviceEndpoint := ParseReverseDeviceEndpoint.
Definition adb_ParseReverseHostEndpoint := ParseReverseHostEndpoint.
Definition adb_ListUSBDevices := ListUSBDevices.
Definition adb_ScanTCPTargets := ScanTCPTargets.

(** The constants and errors of the root package. *)
Definition adb_RebootModes : list string := [RebootNormal; RebootBootloader; RebootRecovery].
Definition adb_Properties : list string :=
  [PropProductBrand; PropProductManufacturer; PropProductModel; PropProductName; PropProductDevice;
   PropProductBoard; PropProductCPUABI; PropProductCPUABIList; PropBuildFingerprint; PropBuildID;
   PropBuildDisplayID; PropBuildType; PropBuildTags; PropBuildVersionRelease; PropBuildVersionSDK;
   PropBuildVersionIncremental; PropBuildVersionSecurityPatch; PropHardware; PropBootloader; PropSerialNo;
   PropDebuggable; PropSecure].
Definition adb_Errors : list error :=
  [Sentinel client_ErrAuthRequired; Sentinel client_ErrUnsupported; Sentinel client_ErrDestinationExists].

(** ** Unsupported platforms

    discovery_unsupported.go and bulk_unsupported.go of internal/usb,
    server_windows.go and path_windows.go of internal/server. *)

Definition unsupported_DiscoverADB : res (list Candidate) := Err (Sentinel usb_ErrUnsupported).
Definition unsupported_OpenBulkTransport {T} (c : Candidate) : res T := Err (Sentinel usb_ErrUnsupported).

Definition no_unix_sockets : error := Errorf "adb-gos Unix domain socket is not supported on windows" [].
Definition windows_DefaultSocketPath : res string := Err no_unix_sockets.
Definition windows_NewServer (path : string) : res () := Err no_unix_sockets.
Definition windows_Listen : option error := Some no_unix_sockets.
Definition windows_Serve : option error := Some no_unix_sockets.
Definition windows_Shutdown : option error := None.

(** ** cmd/adb-go/main.go *)

(** [version] is set by the linker; both command lines report it. *)
Definition adb_go_main {W} (version : string) (args : list string) (executablePath envMode : string)
    (customRun compatRun : string → list string → Cmd W Z) : Cmd W Z :=
  runCLI args executablePath envMode (customRun version) (compatRun version).

(** ** Connecting over USB *)

Lemma client_unsupported err : errors_Is err usb_ErrUnsupported = true → unsupported err = Sentinel client_ErrUnsupported.
Proof. unfold unsupported. by intros ->. Qed.

(** A client over USB is one of the device that the options select among those
    that were discovered, opened and behind its handshake; whatever fails before
    leaves no transport open. *)
Theorem connect_usb (sha1_Sum : list byte → list byte) `{WriterOk W} open discovered ctx opts creds :
  ∃ out, ConnectUSB sha1_Sum (W := W) open discovered ctx opts creds = Some out ∧
  match out with
  | Connected r w => ∃ c l r0 w0 m,
      discovered = Ok l ∧ List.filter (λ c, usbCandidateMatches c opts) l = [c] ∧ validateUSBOptions opts = None ∧
      open c = Ok (r0, w0) ∧ HandshakeWithOptions sha1_Sum ctx creds r0 w0 = Some ((r, w), Ok m)
  | NotConnected (Some (r, w)) _ => ∃ c r0 w0 e,
      open c = Ok (r0, w0) ∧ HandshakeWithOptions sha1_Sum ctx creds r0 w0 = Some ((r, w), Err e)
  | NotConnected None _ =>
      is_Some (ctx_entry ctx) ∨ ∃ e, usb_DialTransport open opts discovered = Err e
  end.
Proof.
  unfold ConnectUSB, connectWithTransportOptions. destruct (ctx_entry ctx) as [e|] eqn:Ec; [eexists; split; [done|by left; eexists]|].
  cbn [usbTransportDialer ConnectDescription DialTransport].
  destruct (usb_DialTransport open opts discovered) as [[r0 w0]|e] eqn:Ed; [|eexists; split; [done|by right; eexists]].
  unfold usb_DialTransport, selectUSBCandidate in Ed. destruct (validateUSBOptions opts); [done|].
  destruct discovered as [l|]; [|done]. destruct (List.filter _ l) as [|c [|]] eqn:El; [done| |done].
  destruct (open c) as [[r1 w1]|] eqn:Eo; [|done]. injection Ed as -> ->.
  destruct (HandshakeWithOptions_total sha1_Sum ctx creds r0 w0) as [[[r w] [m|e]] E]; rewrite E.
  - eexists. split; [done|]. by exists c, l, r0, w0, m.
  - destruct (errors_Is e _); (eexists; split; [done|]); by exists c, r0, w0, e.
Qed.

(** On a platform without USB support, discovery and, with options that are
    valid, connecting report [ErrUnsupported] of the client, and open nothing. *)
Theorem unsupported_platforms (sha1_Sum : list byte → list byte) `{WriterOk W} ctx opts creds :
  ctx_entry ctx = None →
  ListUSBDevices None unsupported_DiscoverADB = Err (Sentinel client_ErrUnsupported) ∧
  (validateUSBOptions opts = None → ∃ err,
     ConnectUSB sha1_Sum (W := W) unsupported_OpenBulkTransport unsupported_DiscoverADB ctx opts creds = Some (NotConnected None err) ∧
     errors_Is err client_ErrUnsupported = true).
Proof.
  intros Hc. split; [done|]. intros Hv. unfold ConnectUSB, connectWithTransportOptions. rewrite Hc.
  cbn [usbTransportDialer ConnectDescription DialTransport]. unfold usb_DialTransport, selectUSBCandidate. rewrite Hv.
  by eexists.
Qed.
