(* ===== verification/Custom.v ===== *)
(** * cmd/adb-go/internal/custom: the adb-go command line

    The interface of the commands to the outside, target.go, the errors of
    custom.go, shell.go and sync.go.  What a command does outside (connecting,
    the operations of the client, the server's answer, files) are the
    operations of [Host]; what it only reads (the environment, the key file,
    the clock) are [Settings]. *)

From S2P Require Import Prelude Errors GoStrings Strconv Text Address Usb ServerProtocol Forwards Reverses Server Cli Usage.

#[local] Open Scope string_scope.
#[local] Open Scope Z_scope.
#[local] Open Scope list_scope.

(** ** Data *)

Record connectionTarget (Key : Type) := mkTarget {
  ct_description : string; ct_tcpAddr : string; ct_usb : bool; ct_usbOptions : USBOptions; ct_auth : list Key;
}.
Arguments mkTarget {Key}.
Arguments ct_description {Key} c.
Arguments ct_tcpAddr {Key} c.
Arguments ct_usb {Key} c.
Arguments ct_usbOptions {Key} c.
Arguments ct_auth {Key} c.

(** The parameters of a server request. *)
Inductive params :=
  | NoParams
  | ForwardCreate (p : ForwardCreateParams)
  | ForwardRemove (p : ForwardRemoveParams)
  | ReverseCreate (p : ReverseCreateParams)
  | ReverseRemove (p : ReverseRemoveParams).

(** The interfaces [deviceClient], [forwardSession] and [reverseSession], the
    hooks [connectDevice], [sendServerRequest], [startServerProcess], [listUSBDevices] and
    [scanTCPTargets], the files of [writeScreencapFile], and the files and
    programs of systemd.go. *)
Class Host (W Key : Type) := {
  connectDevice : connectionTarget Key → W → W * option error;
  client_Close : W → W * ();
  client_ShellStream : string → W → W * (list byte * option error);
  client_Logcat : bool → W → W * (list byte * option error);
  client_GetProp : string → W → W * res string;
  client_Properties : W → W * res (gmap string string);
  client_Screencap : W → W * res (list byte);
  client_Reboot : string → W → W * option error;
  client_PushFile : string → string → W → W * option error;
  client_PullFileWithOptions : string → string → bool → W → W * option error;
  client_InstallAPKWithOptions : string → bool → W → W * option error;
  startForward : string → Address.ForwardTarget → W → W * res string;
  forward_Wait : W → W * option error;
  forward_Close : W → W * option error;
  startReverse : ReverseDeviceEndpoint → ReverseHostEndpoint → W → W * option error;
  reverse_Wait : W → W * option error;
  reverse_Close : W → W * option error;
  sendServerRequest : string → Z → string → params → W → W * res Response;
  startServerProcess : string → W → W * option error;
  listUSBDevices : W → W * res (list USBDevice);
  scanTCPTargets : W → W * res (list TCPTarget);
  os_OpenFile : string → bool → W → W * option error;
  file_Write : list byte → W → W * option error;
  file_Close : W → W * option error;
  os_Remove : string → W → W * option error;
  os_MkdirAll : string → W → W * option error;
  os_WriteFile : string → string → W → W * option error;
  exec_CombinedOutput : string → list string → W → W * (string * option error);
  exec_Run : string → list string → W → W * (list byte * option error);
}.

(** cliserver.go *)
Definition cliserver_Send `{Host W Key} (socketPath command : string) (p : params) : Cmd W (res Response) :=
  act (sendServerRequest socketPath ProtocolVersion command p).

(** ** target.go *)

Definition connection_flags : list (string * flag_value) :=
  [("addr", VString ""); ("usb", VBool false); ("serial", VString ""); ("usb-path", VString "");
   ("usb-bus", VInt 0); ("usb-device", VInt 0); ("usb-vid", VString ""); ("usb-pid", VString "");
   ("auth-key", VString "")].

Definition parseUSBID (name value : string) : res Z :=
  let value := TrimSpace value in
  if (value =? "")%string then Ok 0 else
  let base := if negb (HasPrefix value "0x") && negb (HasPrefix value "0X") then 16 else 0 in
  match ParseUint value base 16 with
  | inr id => Ok id
  | inl _ => Err (Errorf "invalid %s %q" [AStr name; AStr value])
  end.

Definition transportName {Key} (t : connectionTarget Key) : string := if ct_usb t then "USB" else "TCP".
Definition authSummary {Key} (t : connectionTarget Key) : string :=
  match ct_auth t with
  | [] => ""
  | auth => " using " +++ Itoa (Z.of_nat (length auth)) +++ " auth credential(s)"
  end.

Definition name_le (p q : string * string) : Prop := String.leb (fst p) (fst q) = true.
#[global] Instance name_le_dec p q : Decision (name_le p q).
Proof. unfold name_le. apply _. Defined.

(** What commands read: environment variables, [adb.LoadPrivateKey], the outcome
    of [server.DefaultSocketPath], the error of writing to standard output, the
    number of probes before the deadline of a starting server, the default name
    of a screenshot, what [isConnectionRefused], [isTimeout]
    and [os.IsNotExist] say of an error, [err.Error()], what [%v] prints of a key of a server's
    result, the version, the platform, and what locates programs and
    directories. *)
Class Settings (Key : Type) := {
  ADB_GO_ADDR : string;
  LoadPrivateKey : string → res Key;
  DefaultSocketPath : res string;
  stdout_err : option error;
  ANDROID_SERIAL : string;
  startup_probes : nat;
  screencap_name : string;
  isConnectionRefused : error → bool;
  isTimeout : error → bool;
  os_IsNotExist : error → bool;
  error_text : error → string;
  result_text : option payload → string → string;
  version_info : string * string * string;      (* Version, runtime.Version(), runtime.GOARCH *)
  GOOS : string;
  XDG_CONFIG_HOME : string;
  os_UserHomeDir : res string;
  os_Executable : res string;
  os_Stat : string → res bool;                  (* a directory? *)
  os_Lstat : string → res (bool * string);      (* a socket?, and the type of the file *)
  exec_LookPath : string → res string;
  filepath_Abs : string → res string;
  strconv_Quote : string → string;
}.

Section custom.
Context {W Key : Type} {host : Host W Key} {env : Settings Key}.

Definition authCredentials (fs : FlagSet) : res (list Key) :=
  let path := TrimSpace (get_string fs "auth-key") in
  if (path =? "")%string then Ok [] else
  match LoadPrivateKey path with
  | Err err => Err (ErrorfW "load --auth-key: %w" [] err)
  | Ok credential => Ok [credential]
  end.

Definition no_usb : USBOptions := mkUSBOptions "" 0 0 0 0 "".

Definition target (fs : FlagSet) : res (connectionTarget Key) :=
  match authCredentials fs with
  | Err err => Err err
  | Ok auth =>
      let addrProvided := flagWasProvided fs "addr" in
      let usbRequested :=
        get_bool fs "usb" || flagWasProvided fs "usb-path" || flagWasProvided fs "serial" ||
        flagWasProvided fs "usb-bus" || flagWasProvided fs "usb-device" || flagWasProvided fs "usb-vid" ||
        flagWasProvided fs "usb-pid" in
      if addrProvided && usbRequested then Err (Errorf "cannot combine TCP --addr with USB selection flags" []) else
      if usbRequested then
        match parseUSBID "--usb-vid" (get_string fs "usb-vid") with
        | Err err => Err err
        | Ok vid =>
            match parseUSBID "--usb-pid" (get_string fs "usb-pid") with
            | Err err => Err err
            | Ok pid =>
                Ok (mkTarget "USB device" "" true
                      (mkUSBOptions (TrimSpace (get_string fs "usb-path")) (get_int fs "usb-bus") (get_int fs "usb-device")
                         vid pid (TrimSpace (get_string fs "serial"))) auth)
            end
        end
      else if addrProvided then
        let addr := TrimSpace (get_string fs "addr") in
        if (addr =? "")%string then Err (Errorf "missing required --addr value" [])
        else Ok (mkTarget addr addr false no_usb auth)
      else
        let addr := TrimSpace ADB_GO_ADDR in
        if negb (addr =? "")%string then Ok (mkTarget addr addr false no_usb auth)
        else Err (Errorf "missing required --addr, ADB_GO_ADDR, or USB selection" [])
  end.

Definition connectTarget (command : string) (t : connectionTarget Key) (out : outputPolicy) : Cmd W (option error) :=
  Verbosef out "%s selected %s target %s%s\n" [AStr command; AStr (transportName t); AStr (ct_description t); AStr (authSummary t)] ;;
  Verbosef out "%s connecting to %s\n" [AStr command; AStr (ct_description t)] ;;
  err ← act (connectDevice t);
  match err with
  | Some err => mret (Some err)
  | None => Verbosef out "%s connected to %s\n" [AStr command; AStr (ct_description t)] ;; mret None
  end.

(** ** custom.go: errors *)

Definition formatCLIError (err : error) : error :=
  if errors_Is err client_ErrAuthRequired
  then ErrorfV "device requires authentication; pass --auth-key PATH for an existing ADB private key: %v" [] err
  else if errors_Is err client_ErrDestinationExists
  then ErrorfV "destination already exists; pass --overwrite to replace it deliberately: %v" [] err
  else if errors_Is err client_ErrUnsupported
  then ErrorfV "operation unsupported in this adb-go build; check whether the requested transport or selector is implemented for this platform: %v" [] err
  else if isConnectionRefused err
  then ErrorfV "connection refused; check that the device/emulator is running ADB TCP at this address, or run `adb-go targets --scan` for local emulators: %v" [] err
  else if isTimeout err
  then ErrorfV "operation timed out; check that the target address is reachable, the device is online, and USB permissions are sufficient: %v" [] err
  else if errors_Is err os_ErrNotExist
  then ErrorfV "local file or directory not found; check the path and parent directory: %v" [] err
  else err.

Definition printConnectError (command description : string) (err : error) : Cmd W () :=
  fprintfV Stderr "adb-go %s: connect to %s: %s\n" [AStr command; AStr description] (formatCLIError err).
Definition printCommandError (command : string) (err : error) : Cmd W () :=
  fprintfV Stderr "adb-go %s: %s\n" [AStr command] (formatCLIError err).

(** A connected command: it ends with the deferred [Close]. *)
Definition with_client (command : string) (t : connectionTarget Key) (out : outputPolicy) (body : Cmd W Z) : Cmd W Z :=
  err ← connectTarget command t out;
  match err with
  | Some err => printConnectError command (ct_description t) err ;; mret 1
  | None => code ← body; act client_Close ;; mret code
  end.
Definition command_error (command : string) (err : error) : Cmd W Z := printCommandError command err ;; mret 1.
Definition command_result (command : string) (err : option error) : Cmd W Z :=
  match err with Some err => command_error command err | None => mret 0 end.

Definition bool_text (b : bool) : string := if b then "true" else "false".

(** ** shell.go *)

Definition runShellWithOptions (args : list string) (opts : cliOptions) : Cmd W Z :=
  let out := newOutputPolicy opts in
  fs ← fs_Parse shellUsage connection_flags args;
  match fs with
  | None => mret 2
  | Some fs =>
      match target fs with
      | Err err => usage_errorV shellUsage "adb-go shell: %v\n\n" [] err
      | Ok t =>
          if (NArg fs =? 0)%nat then usage_error shellUsage "adb-go shell: missing shell command\n\n" [] else
          let cmd := Join (fs_Args fs) " " in
          Verbosef out "shell opening service shell:%s\n" [AStr cmd] ;;
          with_client "shell" t out (
            r ← act (client_ShellStream cmd);
            let '(output, err) := r in
            emit (Bytes output) ;; command_result "shell" err)
      end
  end.

Definition runLogcatWithOptions (args : list string) (opts : cliOptions) : Cmd W Z :=
  let out := newOutputPolicy opts in
  fs ← fs_Parse logcatUsage (connection_flags ++ [("dump", VBool false)]) args;
  match fs with
  | None => mret 2
  | Some fs =>
      match target fs with
      | Err err => usage_errorV logcatUsage "adb-go logcat: %v\n\n" [] err
      | Ok t =>
          if negb (NArg fs =? 0)%nat then usage_error logcatUsage "adb-go logcat: unexpected arguments\n\n" [] else
          let dump := get_bool fs "dump" in
          Verbosef out "logcat starting stream (dump=%t)\n" [AStr (bool_text dump)] ;;
          with_client "logcat" t out (
            r ← act (client_Logcat dump);
            let '(output, err) := r in
            emit (Bytes output) ;; command_result "logcat" err)
      end
  end.

(** The properties in the order of their names, as [sort.Strings] puts them. *)
Definition sorted_props (props : gmap string string) : list (string * string) := merge_sort name_le (map_to_list props).

Definition encode_result (command : string) (v : document) : Cmd W Z :=
  err ← writeJSON stdout_err v;
  match err with
  | Some err => fprintfV Stderr ("adb-go " +++ command +++ ": encode JSON: %v\n") [] err ;; mret 1
  | None => mret 0
  end.

Definition getprop_one (name : string) (jsonOutput : bool) : Cmd W Z :=
  value ← act (client_GetProp name);
  match value with
  | Err err => command_error "getprop" err
  | Ok value =>
      let print_value :=
        if jsonOutput then encode_result "getprop" (DStrings [("name", name); ("value", value)])
        else fprintf Stdout "%s\n" [AStr value] ;; mret 0 in
      if (value =? "")%string then
        props ← act client_Properties;
        match props with
        | Err err => command_error "getprop" err
        | Ok props =>
            match props !! name with
            | None => fprintf Stderr "adb-go getprop: property not found: %s\n" [AStr name] ;; mret 1
            | Some _ => print_value
            end
        end
      else print_value
  end.

Fixpoint print_props (props : list (string * string)) : Cmd W () :=
  match props with
  | [] => mret ()
  | (name, value) :: props => fprintf Stdout "[%s]: [%s]\n" [AStr name; AStr value] ;; print_props props
  end.

Definition getprop_all (jsonOutput : bool) : Cmd W Z :=
  props ← act client_Properties;
  match props with
  | Err err => command_error "getprop" err
  | Ok props =>
      if jsonOutput then encode_result "getprop" (DStrings (sorted_props props))
      else print_props (sorted_props props) ;; mret 0
  end.

Definition runGetPropWithOptions (args : list string) (opts : cliOptions) : Cmd W Z :=
  let out := newOutputPolicy opts in
  fs ← fs_Parse getPropUsage (connection_flags ++ [("json", VBool (opt_JSON opts))]) args;
  match fs with
  | None => mret 2
  | Some fs =>
      match target fs with
      | Err err => usage_errorV getPropUsage "adb-go getprop: %v\n\n" [] err
      | Ok t =>
          let jsonOutput := get_bool fs "json" in
          match fs_Args fs with
          | [] =>
              Verbosef out "getprop reading all properties\n" [] ;;
              with_client "getprop" t out (getprop_all jsonOutput)
          | [name] =>
              Verbosef out "getprop reading property %s\n" [AStr name] ;;
              with_client "getprop" t out (getprop_one name jsonOutput)
          | _ => usage_error getPropUsage "adb-go getprop: accepts at most one PROPERTY argument\n\n" []
          end
      end
  end.

Definition writeScreencapFile (localPath : string) (png : list byte) (overwrite : bool) : Cmd W (option error) :=
  err ← act (os_OpenFile localPath overwrite);
  match err with
  | Some err =>
      mret (Some (if errors_Is err os_ErrExist
                  then ErrorfW "destination %q: %w" [AStr localPath] (Sentinel client_ErrDestinationExists)
                  else ErrorfW "destination %q: %w" [AStr localPath] err))
  | None =>
      let undo (err : error) : Cmd W (option error) :=
        if negb overwrite then act (os_Remove localPath) ;; mret (Some err) else mret (Some err) in
      err ← act (file_Write png);
      match err with
      | Some err => act file_Close ;; undo (ErrorfW "write destination %q: %w" [AStr localPath] err)
      | None =>
          err ← act file_Close;
          match err with
          | Some err => undo (ErrorfW "close destination %q: %w" [AStr localPath] err)
          | None => mret None
          end
      end
  end.

Definition runScreencapWithOptions (args : list string) (opts : cliOptions) : Cmd W Z :=
  let out := newOutputPolicy opts in
  fs ← fs_Parse screencapUsage (connection_flags ++ [("overwrite", VBool false)]) args;
  match fs with
  | None => mret 2
  | Some fs =>
      match target fs with
      | Err err => usage_errorV screencapUsage "adb-go screencap: %v\n\n" [] err
      | Ok t =>
          if (1 <? NArg fs)%nat then usage_error screencapUsage "adb-go screencap: accepts at most one LOCAL_PNG argument\n\n" [] else
          let localPath := match fs_Args fs with [path] => path | _ => screencap_name end in
          let overwrite := get_bool fs "overwrite" in
          Verbosef out "screencap capturing PNG to %s (overwrite=%t)\n" [AStr localPath; AStr (bool_text overwrite)] ;;
          with_client "screencap" t out (
            png ← act client_Screencap;
            match png with
            | Err err => command_error "screencap" err
            | Ok png =>
                err ← writeScreencapFile localPath png overwrite;
                match err with
                | Some err => command_error "screencap" err
                | None => fprintf Stdout "%s\n" [AStr localPath] ;; mret 0
                end
            end)
      end
  end.

Definition parseRebootMode (value : string) : res string :=
  if (value =? "")%string || (value =? "normal")%string then Ok RebootNormal
  else if (value =? RebootBootloader)%string then Ok RebootBootloader
  else if (value =? RebootRecovery)%string then Ok RebootRecovery
  else Err (Errorf "unsupported reboot mode %q; supported modes are normal, bootloader, recovery" [AStr value]).

Definition runRebootWithOptions (args : list string) (opts : cliOptions) : Cmd W Z :=
  let out := newOutputPolicy opts in
  fs ← fs_Parse rebootUsage connection_flags args;
  match fs with
  | None => mret 2
  | Some fs =>
      match target fs with
      | Err err => usage_errorV rebootUsage "adb-go reboot: %v\n\n" [] err
      | Ok t =>
          if (1 <? NArg fs)%nat then usage_error rebootUsage "adb-go reboot: accepts at most one MODE argument\n\n" [] else
          match (match fs_Args fs with [value] => parseRebootMode value | _ => Ok RebootNormal end) with
          | Err err => usage_errorV rebootUsage "adb-go reboot: %v\n\n" [] err
          | Ok mode =>
              Verbosef out "reboot requesting mode %s\n" [AStr mode] ;;
              with_client "reboot" t out (err ← act (client_Reboot mode); command_result "reboot" err)
          end
      end
  end.

(** ** sync.go *)

Definition runPushWithOptions (args : list string) (opts : cliOptions) : Cmd W Z :=
  let out := newOutputPolicy opts in
  fs ← fs_Parse pushUsage connection_flags args;
  match fs with
  | None => mret 2
  | Some fs =>
      match target fs with
      | Err err => usage_errorV pushUsage "adb-go push: %v\n\n" [] err
      | Ok t =>
          match fs_Args fs with
          | [localPath; remotePath] =>
              Verbosef out "push transferring %s to %s\n" [AStr localPath; AStr remotePath] ;;
              with_client "push" t out (err ← act (client_PushFile localPath remotePath); command_result "push" err)
          | _ => usage_error pushUsage "adb-go push: requires exactly LOCAL_PATH and REMOTE_PATH\n\n" []
          end
      end
  end.

Definition runPullWithOptions (args : list string) (opts : cliOptions) : Cmd W Z :=
  let out := newOutputPolicy opts in
  fs ← fs_Parse pullUsage (connection_flags ++ [("overwrite", VBool false)]) args;
  match fs with
  | None => mret 2
  | Some fs =>
      match target fs with
      | Err err => usage_errorV pullUsage "adb-go pull: %v\n\n" [] err
      | Ok t =>
          match fs_Args fs with
          | [remotePath; localPath] =>
              let overwrite := get_bool fs "overwrite" in
              Verbosef out "pull transferring %s to %s (overwrite=%t)\n"
                [AStr remotePath; AStr localPath; AStr (bool_text overwrite)] ;;
              with_client "pull" t out (
                err ← act (client_PullFileWithOptions remotePath localPath overwrite); command_result "pull" err)
          | _ => usage_error pullUsage "adb-go pull: requires exactly REMOTE_PATH and LOCAL_PATH\n\n" []
          end
      end
  end.

Definition runInstallAPKWithOptions (args : list string) (opts : cliOptions) : Cmd W Z :=
  let out := newOutputPolicy opts in
  fs ← fs_Parse installAPKUsage (connection_flags ++ [("replace", VBool false)]) args;
  match fs with
  | None => mret 2
  | Some fs =>
      match target fs with
      | Err err => usage_errorV installAPKUsage "adb-go install-apk: %v\n\n" [] err
      | Ok t =>
          match fs_Args fs with
          | [localPath] =>
              let replace := get_bool fs "replace" in
              Verbosef out "install-apk installing %s (replace=%t)\n" [AStr localPath; AStr (bool_text replace)] ;;
              with_client "install-apk" t out (
                err ← act (client_InstallAPKWithOptions localPath replace); command_result "install-apk" err)
          | _ => usage_error installAPKUsage "adb-go install-apk: requires exactly LOCAL_APK\n\n" []
          end
      end
  end.
(** The commands as the tests call them, without options. *)
Definition runShell (args : list string) : Cmd W Z := runShellWithOptions args (mkCliOptions false false false).
Definition runLogcat (args : list string) : Cmd W Z := runLogcatWithOptions args (mkCliOptions false false false).
Definition runGetPropWithJSON (args : list string) (jsonOutput : bool) : Cmd W Z :=
  runGetPropWithOptions args (mkCliOptions jsonOutput false false).
Definition runGetProp (args : list string) : Cmd W Z := runGetPropWithJSON args false.
Definition runScreencap (args : list string) : Cmd W Z := runScreencapWithOptions args (mkCliOptions false false false).
Definition runReboot (args : list string) : Cmd W Z := runRebootWithOptions args (mkCliOptions false false false).
Definition runPush (args : list string) : Cmd W Z := runPushWithOptions args (mkCliOptions false false false).
Definition runPull (args : list string) : Cmd W Z := runPullWithOptions args (mkCliOptions false false false).
Definition runInstallAPK (args : list string) : Cmd W Z := runInstallAPKWithOptions args (mkCliOptions false false false).
End custom.

(** ** Judgements on the shared parts *)

Section judgements.
Context {W Key : Type} {host : Host W Key} {env : Settings Key}.

Lemma decided_after {A} (m : Cmd W Z) (f : W → W * A) : decided m → decided (code ← m; act f ;; mret code).
Proof.
  intros H c. specialize (H c). unfold mbind, Cmd_bind, act. destruct (m c) as [c' code]. cbn in *.
  by destruct (f (world c')).
Qed.

Lemma printConnectError_still command description err : still (W := W) (printConnectError command description err).
Proof. apply still_emit. Qed.

Lemma command_error_decided command err : decided (W := W) (command_error command err).
Proof. apply decided_bind. intros []. by apply decided_ret. Qed.
Lemma command_result_decided command err : decided (W := W) (command_result command err).
Proof. destruct err; [apply command_error_decided|by apply decided_ret]. Qed.
Lemma command_error_alike command err : alike (W := W) (command_error command err) (command_error command err).
Proof. apply alike_bind; [apply alike_emit|intros []; apply alike_ret]. Qed.
Lemma command_result_alike command err : alike (W := W) (command_result command err) (command_result command err).
Proof. destruct err; [apply command_error_alike|apply alike_ret]. Qed.

Lemma encode_result_decided command v : decided (W := W) (encode_result command v).
Proof. apply decided_bind. intros [err|]; [apply decided_bind; intros []|]; by apply decided_ret. Qed.
Lemma encode_result_alike command v : alike (W := W) (encode_result command v) (encode_result command v).
Proof.
  apply alike_bind; [apply alike_bind; [apply alike_emit|intros []; apply alike_ret]|].
  intros [err|]; [apply alike_bind; [apply alike_emit|intros []]|]; apply alike_ret.
Qed.

Lemma with_client_decided command t out (body : Cmd W Z) : decided body → decided (with_client command t out body).
Proof.
  intros H. apply decided_bind. intros [err|]; [|by apply decided_after]. apply decided_bind. intros []. by apply decided_ret.
Qed.

Lemma connectTarget_alike command t out1 out2 : alike (connectTarget command t out1) (connectTarget command t out2).
Proof.
  apply alike_bind; [apply alike_verbose|intros []]. apply alike_bind; [apply alike_verbose|intros []].
  apply alike_bind; [apply alike_act|]. intros [err|]; [apply alike_ret|].
  apply alike_bind; [apply alike_verbose|intros []; apply alike_ret].
Qed.

Lemma with_client_alike command t out1 out2 (body1 body2 : Cmd W Z) :
  alike body1 body2 → alike (with_client command t out1 body1) (with_client command t out2 body2).
Proof.
  intros H. apply alike_bind; [apply connectTarget_alike|]. intros [err|].
  - apply alike_bind; [apply alike_emit|intros []; apply alike_ret].
  - apply alike_bind; [done|]. intros code. apply alike_bind; [apply alike_act|intros []; apply alike_ret].
Qed.

Lemma print_props_alike props : alike (W := W) (print_props props) (print_props props).
Proof.
  induction props as [|[name value] props IH]; [apply alike_ret|]. by apply alike_bind; [apply alike_emit|intros []].
Qed.

Lemma write_lines_alike (err : option error) lines : alike (W := W) (write_lines err lines) (write_lines err lines).
Proof.
  induction lines as [|l lines IH]; [apply alike_ret|]. apply alike_bind; [apply alike_emit|intros []].
  destruct err; [apply alike_ret|done].
Qed.
End judgements.

Create HintDb commands.
#[export] Hint Resolve still_emit still_ret usage_error_safe usage_errorV_safe fs_Parse_still command_error_decided
  command_result_decided encode_result_decided with_client_decided : commands.
#[export] Hint Resolve alike_ret alike_emit alike_act alike_verbose fs_Parse_alike command_error_alike command_result_alike
  encode_result_alike with_client_alike print_props_alike write_lines_alike : commands.

(** Walk through a command, by its binds and its case distinctions. *)
Ltac alike_step :=
  match goal with
  | |- ∀ _, _ => intro
  | |- alike (usage_error _ _ _) _ => unfold usage_error
  | |- alike (usage_errorV _ _ _ _) _ => unfold usage_errorV
  | |- alike (fprintf _ _ _) _ => apply alike_emit
  | |- alike (fprintfV _ _ _ _) _ => apply alike_emit
  | |- alike (fprint _ _) _ => apply alike_emit
  | |- alike (Infof _ _ _) (Infof _ _ _) => apply alike_info; done
  | |- alike (_ ≫= _) (_ ≫= _) => apply alike_bind
  | |- alike _ _ => solve [eauto 2 with commands]
  | |- alike (with_client _ _ _ _) _ => apply with_client_alike
  | |- alike (match ?x with _ => _ end) _ => destruct x
  end.
Ltac alike := repeat alike_step.

Ltac still_step :=
  match goal with
  | |- ∀ _, _ => intro
  | |- still (fprintf _ _ _) => apply still_emit
  | |- still (fprintfV _ _ _ _) => apply still_emit
  | |- still (fprint _ _) => apply still_emit
  | |- still (Verbosef _ _ _) => unfold Verbosef
  | |- still (Infof _ _ _) => unfold Infof
  | |- still _ => solve [eauto 2 with commands]
  | |- still (_ ≫= _) => apply still_bind
  | |- still (match ?x with _ => _ end) => destruct x
  end.
Ltac still := solve [repeat still_step].

Ltac safe_step :=
  match goal with
  | |- ∀ _, _ => intro
  | |- safe (mret _) => apply safe_ret; lia
  | |- decided (mret _) => apply decided_ret; lia
  | |- _ => solve [eauto 2 with commands]
  | |- safe (_ ≫= _) => first [apply safe_bind; [still|]|apply safe_act]
  | |- decided (_ ≫= (λ code, act _ ≫= _)) => apply decided_after
  | |- decided (_ ≫= _) => apply decided_bind
  | |- safe (with_client _ _ _ _) => apply safe_decided, with_client_decided
  | |- decided (with_client _ _ _ _) => apply with_client_decided
  | |- safe (match ?x with _ => _ end) => destruct x
  | |- decided (match ?x with _ => _ end) => destruct x
  end.
Ltac safe := repeat safe_step.
