(* ===== verification/Wire.v ===== *)
(** * The control protocol on the wire

    The JSON forms of the structs of internal/server (their tags are the names
    here), [Send] and [handleConn] on the texts they exchange, and
    cliserver.go's encoding of parameters and decoding of results.  A [Codec]
    packs a struct's encoding with its decoder; its laws say that a value comes
    back through a text, and through the [any] of a response as well.  The
    texts of errors are a parameter: what [fmt] makes of a format. *)

From S2P Require Import Prelude Errors GoStrings Strconv Address ServerProtocol Json Codec Forwards Reverses Server Cli Custom.

#[local] Open Scope string_scope.
#[local] Open Scope Z_scope.
#[local] Open Scope list_scope.

(** ** Codecs *)

(** [seen a] is the value as it comes back: invalid UTF-8 is replaced, and an
    error is its text.  [fits]: the numbers are within what every number of a
    response is exact for. *)
Class Codec (A : Type) := { enc : A → json; zero : A; dec : decoder A; seen : A → A; fits : A → Prop }.
Class CodecOk (A : Type) {C : Codec A} := {
  dec_respectful :: Respectful (dec (A:=A));
  levels : nat;
  enc_height a : (height (enc a) ≤ levels)%nat;
  enc_clean a : fits a → clean (norm (enc a)) = true;
  dec_enc a : fits a → dec zero (norm (enc a)) = Some (seen a);
}.
Arguments levels A {C H} : rename.

(** A variable of zero value decoded from a text. *)
Definition Unmarshal `{Codec A} (text : string) : res A :=
  match decode_whole text with
  | Some j => match dec zero j with Some a => Ok a | None => Err (External 1) end
  | None => Err (External 0)
  end.

Lemma clean_norm_norm j : clean (norm j) = true → numbers_ok j = true.
Proof.
  induction j as [|b|s|s|l IH|l IH] using json_ind; cbn; try done.
  - by intros [? _]%andb_true_iff.
  - induction IH as [|j l Hj _ IHl]; [done|]. cbn. intros [? ?]%andb_true_iff. by rewrite Hj, IHl.
  - intros [_ H]%andb_true_iff. revert H. induction IH as [|[k j] l Hj _ IHl]; [done|]. cbn.
    intros [[? ?]%andb_true_iff ?]%andb_true_iff. by rewrite Hj, IHl.
Qed.

Lemma height_norm j : height (norm j) = height j.
Proof.
  induction j as [|b|s|s|l IH|l IH] using json_ind; cbn; try done.
  - do 2 f_equal. induction IH as [|j l Hj _ IHl]; [done|]. cbn. by rewrite Hj, IHl.
  - do 2 f_equal. induction IH as [|[k j] l Hj _ IHl]; [done|]. cbn. by rewrite Hj, IHl.
Qed.

Lemma Unmarshal_enc `{CodecOk A} (a : A) : fits a → (levels A ≤ maxNestingDepth)%nat →
  Unmarshal (Marshal (enc a)) = Ok (seen a).
Proof.
  intros Ha Hl. unfold Unmarshal. pose proof (enc_height a).
  rewrite Unmarshal_Marshal; [by rewrite dec_enc|by apply clean_norm_norm, enc_clean|lia].
Qed.

(** [DecodeResult] and [DecodeValue]: an any is marshaled and decoded. *)
Definition DecodeValue `{Codec A} (any : json) : res A := Unmarshal (Marshal any).

Lemma DecodeValue_any `{CodecOk A} (a : A) : fits a → (levels A ≤ maxNestingDepth)%nat →
  ∃ any, to_any (norm (enc a)) = Some any ∧ DecodeValue any = Ok (seen a).
Proof.
  intros Ha Hl. pose proof (enc_height a).
  destruct (through_any (norm (enc a))) as (any & E & Hs & Hd); [by apply enc_clean|rewrite height_norm; lia|].
  exists any. split; [done|]. unfold DecodeValue, Unmarshal. rewrite Hd.
  rewrite <-(respectful (Respectful:=dec_respectful) zero _ _ Hs). by rewrite dec_enc.
Qed.

(** *** Scalars, slices and pointers *)

Lemma similar_scalar j j' : similar j j' → match j with JArray _ | JObject _ => True | _ => j' = j end.
Proof. by destruct 1 as [[]|? ? ?|? ? ? ? ? ?]. Qed.

Ltac scalar_respectful :=
  intros old j j' H; pose proof (similar_scalar j j' H) as E; destruct H as [|? ? ?|? ? ? ? ? ?]; done.

#[export] Instance string_codec : Codec string :=
  {| enc := JString; zero := ""; dec := dec_string; seen := coerce; fits _ := True |}.
#[export] Instance string_codec_ok : CodecOk string.
Proof.
  unshelve eapply (Build_CodecOk _ _ _ 0%nat); [scalar_respectful|done| |done].
  intros s _. apply ValidString_coerce.
Defined.

#[export] Instance bool_codec : Codec bool := {| enc := JBool; zero := false; dec := dec_bool; seen b := b; fits _ := True |}.
#[export] Instance bool_codec_ok : CodecOk bool.
Proof. unshelve eapply (Build_CodecOk _ _ _ 0%nat); [scalar_respectful|done..]. Defined.

(** A count is an [int] that is never negative. *)
#[export] Instance nat_codec : Codec nat := {|
  enc n := JNumber (Itoa (Z.of_nat n)); zero := 0%nat; dec old j := Z.to_nat <$> dec_int (Z.of_nat old) j; seen n := n;
  fits n := Z.of_nat n < 10 ^ 15;
|}.

Lemma clean_number n : 0 ≤ n < 10 ^ 15 → clean (JNumber (Itoa n)) = true.
Proof. intros Hn. cbn. rewrite is_number_Itoa. by apply bool_decide_eq_true, float64_text_Itoa. Qed.
Lemma dec_int_Itoa old n : 0 ≤ n < 10 ^ 15 → dec_int old (JNumber (Itoa n)) = Some n.
Proof. intros Hn. cbn. by rewrite Atoi_Itoa by lia. Qed.

#[export] Instance nat_codec_ok : CodecOk nat.
Proof.
  unshelve eapply (Build_CodecOk _ _ _ 0%nat); [scalar_respectful|done|..]; intros n Hn; cbn in Hn.
  - apply clean_number. lia.
  - cbn [enc dec nat_codec norm]. rewrite dec_int_Itoa by lia. cbn. by rewrite Nat2Z.id.
Defined.

#[export] Instance list_codec `{Codec A} : Codec (list A) := {|
  enc l := JArray (enc <$> l); zero := []; dec := dec_slice dec zero; seen l := seen <$> l; fits l := Forall fits l;
|}.
#[export] Instance list_codec_ok `{CodecOk A} : CodecOk (list A).
Proof.
  unshelve eapply (Build_CodecOk _ _ _ (S (levels A))); cbn.
  - intros l. apply le_n_S. induction l as [|a l IH]; cbn; [lia|]. pose proof (enc_height a). lia.
  - intros l. induction 1 as [|a l Ha _ IH]; [done|]. cbn. by rewrite enc_clean, IH.
  - intros l. induction 1 as [|a l Ha _ IH]; [done|]. cbn in *. by rewrite dec_enc, IH.
Defined.

(** *** Structs *)

Definition member `{Codec A} (name : string) (a : A) : string * json := (name, enc a).
(** [omitempty], for the fields that are strings or [true]. *)
Definition omit_string (name s : string) : list (string * json) := if (s =? "")%string then [] else [member name s].
Definition omit_nil `{Codec A} (name : string) (o : option A) : list (string * json) :=
  match o with None => [] | Some a => [member name a] end.
Definition omit_false (name : string) (b : bool) : list (string * json) := if b then [member name b] else [].

Lemma coerce_ascii s : is_ascii s = true → coerce s = s.
Proof. intros. by apply coerce_valid, ValidString_ascii. Qed.

(** Keys that are ASCII and fold to different fields: the tags of a struct. *)
Definition tags_ok (keys : list string) : bool := forallb is_ascii keys && bool_decide (NoDup (canon_key <$> keys)).
Definition keys_of (ms : list (string * json)) : list string := fst <$> ms.

Lemma norm_object ms : tags_ok (keys_of ms) = true → norm (JObject ms) = JObject ((λ kv, (kv.1, norm kv.2)) <$> ms).
Proof.
  intros [H _]%andb_true_iff. cbn. f_equal. induction ms as [|[k v] ms IH]; [done|]. cbn in *.
  apply andb_true_iff in H as [Hk H]. by rewrite coerce_ascii, IH.
Qed.

Lemma clean_object ms : tags_ok (keys_of ms) = true → Forall (λ kv, clean (norm kv.2) = true) ms → clean (norm (JObject ms)) = true.
Proof.
  intros Ht Hv. rewrite norm_object by done. apply andb_true_iff in Ht as [Ha Hu%bool_decide_eq_true]. cbn.
  apply andb_true_iff; split.
  - apply bool_decide_eq_true. unfold unique. enough ((λ kv : string * json, canon_key kv.1) <$>
      ((λ kv, (kv.1, norm kv.2)) <$> ms) = canon_key <$> keys_of ms) as -> by done.
    clear. induction ms as [|kv ms IH]; [done|]. cbn in *. by rewrite IH.
  - clear Hu. induction Hv as [|[k v] ms Hv _ IH]; [done|]. cbn in *. apply andb_true_iff in Ha as [Hk Ha].
    by rewrite ValidString_ascii, Hv, IH.
Qed.

(** The members a field finds. *)
Lemma field_none {A} name (d : decoder A) z : field name d z [] = Some z.
Proof. done. Qed.

Lemma field_skip {A} name k (d : decoder A) z v ms : EqualFold k name = false →
  field name d z ((k, v) :: ms) = field name d z ms.
Proof. intros E. unfold field, matches. cbn [List.filter fst]. by rewrite E. Qed.
Lemma field_hit {A} name k (d : decoder A) z v ms : EqualFold k name = true →
  forallb (λ k, negb (EqualFold k name)) (keys_of ms) = true → field name d z ((k, v) :: ms) = d z v.
Proof.
  intros E H. unfold field, matches. cbn [List.filter fst]. rewrite E. cbn [foldl snd mbind option_bind].
  assert (List.filter (λ kv, EqualFold kv.1 name) ms = []) as ->; [|done].
  clear -H. induction ms as [|kv ms IH]; [done|]. cbn [keys_of fmap list_fmap forallb List.filter] in *.
  apply andb_true_iff in H as [Hk%negb_true_iff H]. rewrite Hk. by apply IH.
Qed.

(** A struct's laws, by its encoder and decoder: its members are clean, and each
    field is decoded from its member. *)
Ltac members_clean := repeat (apply List.Forall_cons; [cbn [snd]; apply enc_clean; first [assumption | exact I | tauto]|]);
  apply List.Forall_nil.
Ltac omit_cases :=
  unfold omit_string, omit_false, omit_nil;
  repeat match goal with
  | |- context [if (?s =? "")%string then _ else _] =>
      let t := eval cbn in s in change s with t;
      let E := fresh "E" in destruct (String.eqb_spec t "") as [E|E]; [rewrite ?E|]
  | |- context [if ?b then _ else _] => let t := eval cbn in b in change b with t; destruct t
  | |- context [match ?o with None => _ | Some _ => _ end] => let t := eval cbn in o in change o with t;
      lazymatch t with Some _ => cbn iota | None => cbn iota | _ => destruct t end
  end; unfold member; cbn [app].
Ltac struct_clean encode :=
  match goal with |- clean (norm (enc ?e)) = true => change (enc e) with (encode e) end; unfold encode; omit_cases;
  (apply clean_object; [vm_compute; reflexivity|members_clean]).

Ltac struct_respectful decode :=
  intros old j j' H; destruct (members_similar j j' H) as [[E1 E2]|(ms & ms' & E1 & E2 & Hs)];
  change (decode old j = decode old j'); unfold decode; rewrite E1, E2; [reflexivity|]; cbn [mbind option_bind];
  repeat match goal with |- field ?n ?d ?z ms ≫= _ = _ =>
    rewrite (field_similar n d z ms ms' eq_refl Hs); destruct (field n d z ms'); [|reflexivity]; cbn [mbind option_bind] end;
  reflexivity.

Ltac read_fields := repeat match goal with
  | |- context [field ?n ?d ?z []] => rewrite (field_none n d z)
  | |- context [field ?n ?d ?z ((?k, ?v) :: ?ms)] =>
      first [rewrite (field_skip n k d z v ms) by (vm_compute; reflexivity)
            |rewrite (field_hit n k d z v ms) by (vm_compute; reflexivity)]
  end.
Ltac struct_dec encode decode :=
  match goal with |- dec ?z (norm (enc ?e)) = _ => change (decode z (norm (encode e)) = Some (seen e)) end;
  unfold encode; omit_cases; (rewrite norm_object by (vm_compute; reflexivity)); unfold decode;
  cbn [members mbind option_bind fmap list_fmap fst snd app]; read_fields;
  repeat (match goal with |- @dec ?A ?C ?z (norm (enc ?a)) ≫= _ = _ =>
      change (@dec A C z (norm (enc a))) with (@dec A C zero (norm (enc a))); rewrite (dec_enc a) by first [assumption | exact I | tauto]
    | |- Some _ ≫= _ = _ => idtac end; cbn [mbind option_bind]);
  try reflexivity.

(** forward.go *)
Definition enc_Local (e : ForwardLocalEndpoint) : json :=
  JObject [member "network" (fl_Network e); member "address" (fl_Address e)].
Definition dec_Local : decoder ForwardLocalEndpoint := λ old j,
  ms ← members j;
  network ← field "network" dec (fl_Network old) ms;
  address ← field "address" dec (fl_Address old) ms;
  Some (mkLocal network address).
#[export] Instance Local_codec : Codec ForwardLocalEndpoint := {|
  enc := enc_Local; zero := mkLocal "" ""; dec := dec_Local;
  seen e := mkLocal (seen (fl_Network e)) (seen (fl_Address e)); fits e := True;
|}.
#[export] Instance Local_codec_ok : CodecOk ForwardLocalEndpoint.
Proof.
  unshelve eapply (Build_CodecOk _ _ _ 1%nat).
  - struct_respectful dec_Local.
  - done.
  - intros e _. struct_clean enc_Local.
  - intros e _. struct_dec enc_Local dec_Local.
Defined.

(** [ForwardRemoteEndpoint], [ReverseRemoteEndpoint] and [ReverseLocalEndpoint]. *)
Record ServiceEndpoint := mkService { Service : string }.
Definition enc_Service (e : ServiceEndpoint) : json := JObject [member "service" (Service e)].
Definition dec_Service : decoder ServiceEndpoint := λ old j,
  ms ← members j; service ← field "service" dec (Service old) ms; Some (mkService service).
#[export] Instance Service_codec : Codec ServiceEndpoint := {|
  enc := enc_Service; zero := mkService ""; dec := dec_Service; seen e := mkService (seen (Service e)); fits e := True;
|}.
#[export] Instance Service_codec_ok : CodecOk ServiceEndpoint.
Proof.
  unshelve eapply (Build_CodecOk _ _ _ 1%nat); [struct_respectful dec_Service|done|..]; intros e _.
  - struct_clean enc_Service.
  - struct_dec enc_Service dec_Service.
Defined.

Definition enc_Target (t : ServerProtocol.ForwardTarget) : json :=
  JObject [member "transport" (tg_Transport t); member "address" (tg_Address t)].
Definition dec_Target : decoder ServerProtocol.ForwardTarget := λ old j,
  ms ← members j;
  transport ← field "transport" dec (tg_Transport old) ms;
  address ← field "address" dec (tg_Address old) ms;
  Some (ServerProtocol.mkTarget transport address).
#[export] Instance Target_codec : Codec ServerProtocol.ForwardTarget := {|
  enc := enc_Target; zero := ServerProtocol.mkTarget "" ""; dec := dec_Target;
  seen t := ServerProtocol.mkTarget (seen (tg_Transport t)) (seen (tg_Address t)); fits t := True;
|}.
#[export] Instance Target_codec_ok : CodecOk ServerProtocol.ForwardTarget.
Proof.
  unshelve eapply (Build_CodecOk _ _ _ 1%nat); [struct_respectful dec_Target|done|..]; intros t _.
  - struct_clean enc_Target.
  - struct_dec enc_Target dec_Target.
Defined.

Definition enc_ForwardCreate (p : ForwardCreateParams) : json :=
  JObject ([member "local" (fc_Local p); member "remote" (mkService (fc_Remote p)); member "target" (fc_Target p)]
           ++ omit_false "norebind" (fc_Norebind p)).
Definition dec_ForwardCreate : decoder ForwardCreateParams := λ old j,
  ms ← members j;
  local ← field "local" dec (fc_Local old) ms;
  remote ← field "remote" dec (mkService (fc_Remote old)) ms;
  target ← field "target" dec (fc_Target old) ms;
  norebind ← field "norebind" dec (fc_Norebind old) ms;
  Some (mkForwardCreate local (Service remote) target norebind).
#[export] Instance ForwardCreate_codec : Codec ForwardCreateParams := {|
  enc := enc_ForwardCreate; zero := mkForwardCreate zero "" zero false; dec := dec_ForwardCreate;
  seen p := mkForwardCreate (seen (fc_Local p)) (seen (fc_Remote p)) (seen (fc_Target p)) (fc_Norebind p); fits p := True;
|}.
#[export] Instance ForwardCreate_codec_ok : CodecOk ForwardCreateParams.
Proof.
  unshelve eapply (Build_CodecOk _ _ _ 2%nat); [struct_respectful dec_ForwardCreate| |..]; intros p; [|intros _..].
  - by destruct p as [? ? ? []].
  - struct_clean enc_ForwardCreate.
  - destruct p. struct_dec enc_ForwardCreate dec_ForwardCreate.
Defined.

Definition enc_ForwardRemove (p : ForwardRemoveParams) : json :=
  JObject (omit_string "id" (fr_ID p) ++ omit_nil "local" (fr_Local p)).
Definition dec_ForwardRemove : decoder ForwardRemoveParams := λ old j,
  ms ← members j;
  id ← field "id" dec (fr_ID old) ms;
  local ← field "local" (dec_pointer dec zero) (fr_Local old) ms;
  Some (mkForwardRemove id local).
#[export] Instance ForwardRemove_codec : Codec ForwardRemoveParams := {|
  enc := enc_ForwardRemove; zero := mkForwardRemove "" None; dec := dec_ForwardRemove;
  seen p := mkForwardRemove (seen (fr_ID p)) (seen <$> fr_Local p); fits p := True;
|}.
#[export] Instance ForwardRemove_codec_ok : CodecOk ForwardRemoveParams.
Proof.
  unshelve eapply (Build_CodecOk _ _ _ 2%nat); [struct_respectful dec_ForwardRemove| |..]; intros p; [|intros _..].
  - destruct p as [id [l|]]; cbn; unfold omit_string; destruct (id =? "")%string; cbn; lia.
  - struct_clean enc_ForwardRemove.
  - destruct p as [id local]. struct_dec enc_ForwardRemove dec_ForwardRemove.
Defined.

(** reverse.go *)
Definition enc_ReverseCreate (p : ReverseCreateParams) : json :=
  JObject ([member "remote" (mkService (rc_Remote p)); member "local" (mkService (rc_Local p)); member "target" (rc_Target p)]
           ++ omit_false "norebind" (rc_Norebind p)).
Definition dec_ReverseCreate : decoder ReverseCreateParams := λ old j,
  ms ← members j;
  remote ← field "remote" dec (mkService (rc_Remote old)) ms;
  local ← field "local" dec (mkService (rc_Local old)) ms;
  target ← field "target" dec (rc_Target old) ms;
  norebind ← field "norebind" dec (rc_Norebind old) ms;
  Some (mkReverseCreate (Service remote) (Service local) target norebind).
#[export] Instance ReverseCreate_codec : Codec ReverseCreateParams := {|
  enc := enc_ReverseCreate; zero := mkReverseCreate "" "" zero false; dec := dec_ReverseCreate;
  seen p := mkReverseCreate (seen (rc_Remote p)) (seen (rc_Local p)) (seen (rc_Target p)) (rc_Norebind p); fits p := True;
|}.
#[export] Instance ReverseCreate_codec_ok : CodecOk ReverseCreateParams.
Proof.
  unshelve eapply (Build_CodecOk _ _ _ 2%nat); [struct_respectful dec_ReverseCreate| |..]; intros p; [|intros _..].
  - by destruct p as [? ? ? []].
  - struct_clean enc_ReverseCreate.
  - destruct p. struct_dec enc_ReverseCreate dec_ReverseCreate.
Defined.

Definition enc_ReverseRemove (p : ReverseRemoveParams) : json :=
  JObject (omit_string "id" (rr_ID p) ++ omit_nil "remote" (mkService <$> rr_Remote p)).
Definition dec_ReverseRemove : decoder ReverseRemoveParams := λ old j,
  ms ← members j;
  id ← field "id" dec (rr_ID old) ms;
  remote ← field "remote" (dec_pointer dec zero) (mkService <$> rr_Remote old) ms;
  Some (mkReverseRemove id (Service <$> remote)).
#[export] Instance ReverseRemove_codec : Codec ReverseRemoveParams := {|
  enc := enc_ReverseRemove; zero := mkReverseRemove "" None; dec := dec_ReverseRemove;
  seen p := mkReverseRemove (seen (rr_ID p)) (seen <$> rr_Remote p); fits p := True;
|}.
#[export] Instance ReverseRemove_codec_ok : CodecOk ReverseRemoveParams.
Proof.
  unshelve eapply (Build_CodecOk _ _ _ 2%nat); [struct_respectful dec_ReverseRemove| |..]; intros p; [|intros _..].
  - destruct p as [id [l|]]; cbn; unfold omit_string; destruct (id =? "")%string; cbn; lia.
  - destruct p as [id [l|]]; struct_clean enc_ReverseRemove.
  - destruct p as [id [l|]]; struct_dec enc_ReverseRemove dec_ReverseRemove.
Defined.

(** device.go *)
Definition enc_DeviceRegister (p : DeviceRegisterParams) : json :=
  JObject (omit_string "serial" (dp_Serial p) ++ [member "transport" (dp_Transport p)]
           ++ omit_string "address" (dp_Address p) ++ omit_string "state" (dp_State p)).
Definition dec_DeviceRegister : decoder DeviceRegisterParams := λ old j,
  ms ← members j;
  serial ← field "serial" dec (dp_Serial old) ms;
  transport ← field "transport" dec (dp_Transport old) ms;
  address ← field "address" dec (dp_Address old) ms;
  state ← field "state" dec (dp_State old) ms;
  Some (mkDeviceRegister serial transport address state).
#[export] Instance DeviceRegister_codec : Codec DeviceRegisterParams := {|
  enc := enc_DeviceRegister; zero := mkDeviceRegister "" "" "" ""; dec := dec_DeviceRegister;
  seen p := mkDeviceRegister (seen (dp_Serial p)) (seen (dp_Transport p)) (seen (dp_Address p)) (seen (dp_State p));
  fits p := True;
|}.
#[export] Instance DeviceRegister_codec_ok : CodecOk DeviceRegisterParams.
Proof.
  unshelve eapply (Build_CodecOk _ _ _ 1%nat); [struct_respectful dec_DeviceRegister| |..]; intros p; [|intros _..].
  - destruct p as [s t a st]; cbn; unfold omit_string. by destruct (s =? "")%string, (a =? "")%string, (st =? "")%string.
  - destruct p. struct_clean enc_DeviceRegister.
  - destruct p. struct_dec enc_DeviceRegister dec_DeviceRegister.
Defined.

Definition enc_Device (d : Device) : json :=
  JObject ([member "serial" (Serial d); member "state" (dv_State d); member "transport" (dv_Transport d)]
           ++ omit_string "address" (dv_Address d)).
Definition dec_Device : decoder Device := λ old j,
  ms ← members j;
  serial ← field "serial" dec (Serial old) ms;
  state ← field "state" dec (dv_State old) ms;
  transport ← field "transport" dec (dv_Transport old) ms;
  address ← field "address" dec (dv_Address old) ms;
  Some (mkDevice serial state transport address).
#[export] Instance Device_codec : Codec Device := {|
  enc := enc_Device; zero := mkDevice "" "" "" ""; dec := dec_Device;
  seen d := mkDevice (seen (Serial d)) (seen (dv_State d)) (seen (dv_Transport d)) (seen (dv_Address d)); fits d := True;
|}.
#[export] Instance Device_codec_ok : CodecOk Device.
Proof.
  unshelve eapply (Build_CodecOk _ _ _ 1%nat); [struct_respectful dec_Device| |..]; intros p; [|intros _..].
  - destruct p as [s st t a]; cbn; unfold omit_string. by destruct (a =? "")%string.
  - destruct p. struct_clean enc_Device.
  - destruct p. struct_dec enc_Device dec_Device.
Defined.

(** The devices of a list, as compat decodes them. *)
Definition decodeServerDevices (v : json) : res (list Device) := DecodeValue v.
Lemma decodeServerDevices_list (l : list Device) :
  ∃ any, to_any (norm (enc l)) = Some any ∧ decodeServerDevices any = Ok (seen l).
Proof. apply DecodeValue_any; [by apply Forall_true|apply Nat.leb_le; by vm_compute]. Qed.

(** The state of an entry goes by its constant; any other text is not a state
    of the model. *)
Definition State_text (s : State) : string :=
  match s with Listening => "listening" | Degraded => "degraded" | Stopped => "stopped" end.
Definition State_of (s : string) : option State :=
  List.find (λ st, (State_text st =? s)%string) [Listening; Degraded; Stopped].
#[export] Instance State_codec : Codec State := {|
  enc s := JString (State_text s); zero := Stopped;
  dec old j := s ← dec_string (State_text old) j; State_of s; seen s := s; fits s := True;
|}.
#[export] Instance State_codec_ok : CodecOk State.
Proof.
  unshelve eapply (Build_CodecOk _ _ _ 0%nat); [scalar_respectful|done|..]; intros []; reflexivity.
Defined.

Definition enc_ForwardDiagnostics (d : ForwardDiagnostics) : json :=
  JObject [member "total" (Total d); member "listening" (dg_Listening d); member "degraded" (dg_Degraded d);
           member "activeConnections" (dg_Active d)].
Definition dec_ForwardDiagnostics : decoder ForwardDiagnostics := λ old j,
  ms ← members j;
  total ← field "total" dec (Total old) ms;
  listening ← field "listening" dec (dg_Listening old) ms;
  degraded ← field "degraded" dec (dg_Degraded old) ms;
  active ← field "activeConnections" dec (dg_Active old) ms;
  Some (mkDiagnostics total listening degraded active).
#[export] Instance ForwardDiagnostics_codec : Codec ForwardDiagnostics := {|
  enc := enc_ForwardDiagnostics; zero := mkDiagnostics 0 0 0 0; dec := dec_ForwardDiagnostics; seen d := d;
  fits d := fits (Total d) ∧ fits (dg_Listening d) ∧ fits (dg_Degraded d) ∧ fits (dg_Active d);
|}.
#[export] Instance ForwardDiagnostics_codec_ok : CodecOk ForwardDiagnostics.
Proof.
  unshelve eapply (Build_CodecOk _ _ _ 1%nat); [struct_respectful dec_ForwardDiagnostics|done|..]; intros d (? & ? & ? & ?).
  - struct_clean enc_ForwardDiagnostics.
  - destruct d. struct_dec enc_ForwardDiagnostics dec_ForwardDiagnostics.
Defined.

Definition enc_ReverseDiagnostics (d : ReverseDiagnostics) : json :=
  JObject [member "total" (rd_Total d); member "listening" (rd_Listening d); member "degraded" (rd_Degraded d);
           member "activeConnections" (rd_Active d)].
Definition dec_ReverseDiagnostics : decoder ReverseDiagnostics := λ old j,
  ms ← members j;
  total ← field "total" dec (rd_Total old) ms;
  listening ← field "listening" dec (rd_Listening old) ms;
  degraded ← field "degraded" dec (rd_Degraded old) ms;
  active ← field "activeConnections" dec (rd_Active old) ms;
  Some (mkReverseDiagnostics total listening degraded active).
#[export] Instance ReverseDiagnostics_codec : Codec ReverseDiagnostics := {|
  enc := enc_ReverseDiagnostics; zero := mkReverseDiagnostics 0 0 0 0; dec := dec_ReverseDiagnostics; seen d := d;
  fits d := fits (rd_Total d) ∧ fits (rd_Listening d) ∧ fits (rd_Degraded d) ∧ fits (rd_Active d);
|}.
#[export] Instance ReverseDiagnostics_codec_ok : CodecOk ReverseDiagnostics.
Proof.
  unshelve eapply (Build_CodecOk _ _ _ 1%nat); [struct_respectful dec_ReverseDiagnostics|done|..]; intros d (? & ? & ? & ?).
  - struct_clean enc_ReverseDiagnostics.
  - destruct d. struct_dec enc_ReverseDiagnostics dec_ReverseDiagnostics.
Defined.

(** ** Errors, entries and results

    [text] is the text of an error, what [fmt] makes of a format. *)
Section wire.
Context (text : error → string).

Definition text_of (e : option error) : string := match e with Some e => text e | None => "" end.
#[local] Arguments text_of : simpl never.
(** A text that was received, as an error of the model. *)
Definition received_error (s : string) : option error := if (s =? "")%string then None else Some (Errorf s []).
Definition seen_error (e : option error) : option error := received_error (coerce (text_of e)).

Definition enc_Forward (f : Forward) : json :=
  JObject (omit_string "id" (fw_ID f)
    ++ [member "state" (fw_State f); member "local" (fw_Local f); member "remote" (mkService (fw_Remote f)); member "target" (fw_Target f)]
    ++ omit_false "norebind" (fw_Norebind f) ++ omit_string "createdAt" (fw_CreatedAt f)
    ++ [member "activeConnections" (fw_ActiveConnections f)] ++ omit_string "lastError" (text_of (fw_LastError f))).
Definition dec_Forward : decoder Forward := λ old j,
  ms ← members j;
  id ← field "id" dec (fw_ID old) ms;
  state ← field "state" dec (fw_State old) ms;
  local ← field "local" dec (fw_Local old) ms;
  remote ← field "remote" dec (mkService (fw_Remote old)) ms;
  target ← field "target" dec (fw_Target old) ms;
  norebind ← field "norebind" dec (fw_Norebind old) ms;
  created ← field "createdAt" dec (fw_CreatedAt old) ms;
  active ← field "activeConnections" dec (fw_ActiveConnections old) ms;
  lastError ← field "lastError" dec (text_of (fw_LastError old)) ms;
  Some (mkForward id state local (Service remote) target norebind created active (received_error lastError)).
#[local] Instance Forward_codec : Codec Forward := {|
  enc := enc_Forward; zero := mkForward "" zero zero "" zero false "" 0 None; dec := dec_Forward;
  seen f := mkForward (seen (fw_ID f)) (fw_State f) (seen (fw_Local f)) (seen (fw_Remote f)) (seen (fw_Target f)) (fw_Norebind f)
              (seen (fw_CreatedAt f)) (fw_ActiveConnections f) (seen_error (fw_LastError f));
  fits f := fits (fw_ActiveConnections f);
|}.
#[local] Instance Forward_codec_ok : CodecOk Forward.
Proof.
  unshelve eapply (Build_CodecOk _ _ _ 2%nat); [struct_respectful dec_Forward| |..]; intros f; [|intros Hf..].
  - destruct f as [id st lo re ta no cr ac le]. cbn -[text_of]. unfold omit_string, omit_false.
    by destruct (id =? "")%string, no, (cr =? "")%string, (text_of le =? "")%string.
  - destruct f. struct_clean enc_Forward.
  - destruct f as [id st lo re ta no cr ac le]. change (fits ac) in Hf.
    struct_dec enc_Forward dec_Forward; cbn -[coerce text_of received_error]; unfold seen_error;
      repeat match goal with H : _ = "" |- _ => rewrite H end; reflexivity.
Defined.

Definition enc_Reverse (v : Reverses.Reverse) : json :=
  JObject (omit_string "id" (rv_ID v)
    ++ [member "state" (rv_State v); member "remote" (mkService (rv_Remote v)); member "local" (mkService (rv_Local v)); member "target" (rv_Target v)]
    ++ omit_false "norebind" (rv_Norebind v) ++ omit_string "createdAt" (rv_CreatedAt v)
    ++ [member "activeConnections" (rv_ActiveConnections v)] ++ omit_string "lastError" (text_of (rv_LastError v))).
Definition dec_Reverse : decoder Reverses.Reverse := λ old j,
  ms ← members j;
  id ← field "id" dec (rv_ID old) ms;
  state ← field "state" dec (rv_State old) ms;
  remote ← field "remote" dec (mkService (rv_Remote old)) ms;
  local ← field "local" dec (mkService (rv_Local old)) ms;
  target ← field "target" dec (rv_Target old) ms;
  norebind ← field "norebind" dec (rv_Norebind old) ms;
  created ← field "createdAt" dec (rv_CreatedAt old) ms;
  active ← field "activeConnections" dec (rv_ActiveConnections old) ms;
  lastError ← field "lastError" dec (text_of (rv_LastError old)) ms;
  Some (mkReverse id state (Service remote) (Service local) target norebind created active (received_error lastError)).
#[local] Instance Reverse_codec : Codec Reverses.Reverse := {|
  enc := enc_Reverse; zero := mkReverse "" zero "" "" zero false "" 0 None; dec := dec_Reverse;
  seen v := mkReverse (seen (rv_ID v)) (rv_State v) (seen (rv_Remote v)) (seen (rv_Local v)) (seen (rv_Target v)) (rv_Norebind v)
              (seen (rv_CreatedAt v)) (rv_ActiveConnections v) (seen_error (rv_LastError v));
  fits v := fits (rv_ActiveConnections v);
|}.
#[local] Instance Reverse_codec_ok : CodecOk Reverses.Reverse.
Proof.
  unshelve eapply (Build_CodecOk _ _ _ 2%nat); [struct_respectful dec_Reverse| |..]; intros f; [|intros Hf..].
  - destruct f as [id st lo re ta no cr ac le]. cbn -[text_of]. unfold omit_string, omit_false.
    by destruct (id =? "")%string, no, (cr =? "")%string, (text_of le =? "")%string.
  - destruct f. struct_clean enc_Reverse.
  - destruct f as [id st lo re ta no cr ac le]. change (fits ac) in Hf.
    struct_dec enc_Reverse dec_Reverse; cbn -[coerce text_of received_error]; unfold seen_error;
      repeat match goal with H : _ = "" |- _ => rewrite H end; reflexivity.
Defined.

(** *** Responses

    [pid] and [uptime] are what the process tells of itself in a status. *)
Context (pid uptime : nat).

Record errorBody := mkBody { eb_Code : string; eb_Message : string }.
Definition enc_Error (e : errorBody) : json := JObject [member "code" (eb_Code e); member "message" (eb_Message e)].
Definition dec_Error : decoder errorBody := λ old j,
  ms ← members j;
  code ← field "code" dec (eb_Code old) ms;
  message ← field "message" dec (eb_Message old) ms;
  Some (mkBody code message).
#[local] Instance Error_codec : Codec errorBody := {|
  enc := enc_Error; zero := mkBody "" ""; dec := dec_Error;
  seen e := mkBody (seen (eb_Code e)) (seen (eb_Message e)); fits e := True;
|}.
#[local] Instance Error_codec_ok : CodecOk errorBody.
Proof.
  unshelve eapply (Build_CodecOk _ _ _ 1%nat); [struct_respectful dec_Error|done|..]; intros e _.
  - struct_clean enc_Error.
  - struct_dec enc_Error dec_Error.
Defined.

(** The map of a result, as handleRequest builds it. *)
Definition payload_members (p : payload) : list (string * json) :=
  match p with
  | PMessage message => [member "message" message]
  | PStatus path f r =>
      [member "state" "running"; member "pid" pid; member "socketPath" path;
       ("protocolVersion", JNumber (Itoa ProtocolVersion)); member "uptimeMillis" uptime;
       member "forwardDiagnostics" f; member "reverseDiagnostics" r]
  | PDevices l => [member "devices" l]
  | PDevice d => [member "device" d]
  | PForward f => [member "forward" f]
  | PForwards l => [member "forwards" l]
  | PReverse v => [member "reverse" v]
  | PReverses l => [member "reverses" l]
  | PRemoved n => [member "removed" n]
  end.
Definition enc_payload (p : payload) : json := JObject (map_of (payload_members p)).

Definition error_body (e : Error) : errorBody := mkBody (Code e) (text (ErrorMessage e)).
Definition enc_Response (r : Response) : json :=
  JObject ([("version", JNumber (Itoa (rs_Version r)))] ++ omit_string "id" (rs_ID r) ++ [member "ok" (rs_OK r)]
           ++ match rs_Result r with Some p => [("result", enc_payload p)] | None => [] end
           ++ omit_nil "error" (error_body <$> rs_Error r)).

(** What [json.NewEncoder(conn).Encode] writes. *)
Definition NL : string := String "010" "".
Definition Encode (j : json) : string := Marshal j +++ NL.

(** The [Response] of the client's side: its result is a map of any values. *)
Definition result_map : Type := option (list (string * json)).
Record Reply := mkReply { rp_Version : Z; rp_ID : string; rp_OK : bool; rp_Result : result_map; rp_Error : option errorBody }.

(** Decoding into a [map[string]any], which may have members already. *)
Definition dec_map : decoder result_map := λ old j,
  match j with
  | JNull => Some None
  | JObject _ => match to_any j with
                 | Some (JObject l) => Some (Some (foldl (λ m kv, insert_key kv.1 kv.2 m) (default [] old) l))
                 | _ => None
                 end
  | _ => None
  end.
Definition dec_Reply : decoder Reply := λ old j,
  ms ← members j;
  version ← field "version" dec_int (rp_Version old) ms;
  id ← field "id" dec (rp_ID old) ms;
  ok ← field "ok" dec (rp_OK old) ms;
  result ← field "result" dec_map (rp_Result old) ms;
  error ← field "error" (dec_pointer dec zero) (rp_Error old) ms;
  Some (mkReply version id ok result error).
Definition decode_reply (stream : string) : option Reply :=
  '(j, _) ← decode_first stream; dec_Reply (mkReply 0 "" false None None) j.

(** [DecodeResult] into a struct of one field. *)
Definition DecodeResult `{Codec A} (tag : string) (result : result_map) : res A :=
  match decode_whole (Marshal (match result with Some l => JObject l | None => JNull end)) with
  | Some j => match (ms ← members j; field tag dec zero ms) with Some a => Ok a | None => Err (External 1) end
  | None => Err (External 0)
  end.
(** A value of the map, [nil] where it has none. *)
Definition result_value (key : string) (result : result_map) : json :=
  match list_find (λ kv, kv.1 = key) (default [] result) with Some (_, kv) => kv.2 | None => JNull end.

(** A result as the command that asked for it decodes it. *)
Definition of_res {A B} (f : A → B) (r : res A) : option B := match r with Ok a => Some (f a) | Err _ => None end.
Definition result_of (command : string) (result : result_map) : option payload :=
  if existsb (String.eqb command) [CommandPing; CommandShutdown] then
    of_res PMessage (DecodeValue (result_value "message" result))
  else if (command =? CommandStatus)%string then
    match DecodeValue (result_value "socketPath" result), DecodeValue (result_value "forwardDiagnostics" result),
          DecodeValue (result_value "reverseDiagnostics" result) with
    | Ok path, Ok f, Ok r => Some (PStatus path f r)
    | _, _, _ => None
    end
  else if (command =? CommandDeviceList)%string then of_res PDevices (DecodeResult "devices" result)
  else if (command =? CommandDeviceRegister)%string then of_res PDevice (DecodeResult "device" result)
  else if (command =? CommandForwardCreate)%string then of_res PForward (DecodeResult "forward" result)
  else if (command =? CommandForwardList)%string then of_res PForwards (DecodeResult "forwards" result)
  else if (command =? CommandReverseCreate)%string then of_res PReverse (DecodeResult "reverse" result)
  else if (command =? CommandReverseList)%string then of_res PReverses (DecodeResult "reverses" result)
  else of_res PRemoved (DecodeResult "removed" result).
Definition response_of (command : string) (r : Reply) : Response :=
  mkResponse (rp_Version r) (rp_ID r) (rp_OK r)
    (match rp_Result r with Some l => result_of command (Some l) | None => None end)
    ((λ e, mkError (eb_Code e) (Errorf (eb_Message e) [])) <$> rp_Error r).

(** *** What comes back *)

Definition seen_payload (p : payload) : payload :=
  match p with
  | PMessage message => PMessage (seen message)
  | PStatus path f r => PStatus (seen path) f r
  | PDevices l => PDevices (seen l)
  | PDevice d => PDevice (seen d)
  | PForward f => PForward (seen f)
  | PForwards l => PForwards (seen l)
  | PReverse v => PReverse (seen v)
  | PReverses l => PReverses (seen l)
  | PRemoved n => PRemoved n
  end.
Definition seen_Response (r : Response) : Response :=
  mkResponse (rs_Version r) (coerce (rs_ID r)) (rs_OK r) (seen_payload <$> rs_Result r)
    ((λ e, mkError (coerce (Code e)) (Errorf (coerce (text (ErrorMessage e))) [])) <$> rs_Error r).

(** The counts of a result are within what the numbers of a response are exact for. *)
Definition payload_fits (p : payload) : Prop :=
  match p with
  | PStatus _ f r => fits pid ∧ fits uptime ∧ fits f ∧ fits r
  | PForward f => fits f
  | PForwards l => fits l
  | PReverse v => fits v
  | PReverses l => fits l
  | PRemoved n => fits n
  | _ => True
  end.

(** The result a command is answered with. *)
Definition answers (command : string) (p : payload) : bool :=
  existsb (String.eqb command)
    match p with
    | PMessage _ => [CommandPing; CommandShutdown]
    | PStatus _ _ _ => [CommandStatus]
    | PDevices _ => [CommandDeviceList]
    | PDevice _ => [CommandDeviceRegister]
    | PForward _ => [CommandForwardCreate]
    | PForwards _ => [CommandForwardList]
    | PReverse _ => [CommandReverseCreate]
    | PReverses _ => [CommandReverseList]
    | PRemoved _ => [CommandForwardRemove; CommandForwardRemoveAll; CommandReverseRemove; CommandReverseRemoveAll]
    end.

Lemma height_object n ms : Forall (λ kv, (height kv.2 ≤ n)%nat) ms → (height (JObject ms) ≤ S n)%nat.
Proof. intros H. cbn. apply le_n_S. induction H as [|kv ms Hk _ IH]; cbn; lia. Qed.

(** One value of a result, as an any. *)
Lemma value_any `{CodecOk A} (a : A) : fits a → (levels A < maxNestingDepth)%nat → ∃ any,
  to_any (norm (enc a)) = Some any ∧ clean any = true ∧ (height any ≤ levels A)%nat ∧
  dec zero any = Some (seen a) ∧ DecodeValue any = Ok (seen a).
Proof.
  intros Ha Hl. pose proof (enc_height a) as Hh. pose proof (enc_clean a Ha) as Hc.
  destruct (to_any_clean _ Hc) as (any & E & Hs & Hc' & Eh). rewrite height_norm in Eh.
  assert (dec zero any = Some (seen a)) as Hd.
  { rewrite <-(respectful (Respectful:=dec_respectful) zero _ _ Hs). by apply dec_enc. }
  exists any. split_and!; [done|done|lia|done|]. unfold DecodeValue, Unmarshal.
  destruct (clean_norm any Hc') as [Hn En]. rewrite Unmarshal_Marshal, En, Hd; [done|done|lia].
Qed.

Lemma decode_result_one `{CodecOk A} tag any (a : A) : tags_ok [tag] = true → EqualFold tag tag = true →
  clean any = true → (height any < maxNestingDepth)%nat → dec zero any = Some (seen a) →
  DecodeResult tag (Some [(tag, any)]) = Ok (seen a).
Proof.
  intros Ht He Hc Hh Hd. unfold DecodeResult. destruct (clean_norm any Hc) as [Hn En].
  pose proof (height_object (height any) [(tag, any)] ltac:(by repeat constructor)).
  rewrite Unmarshal_Marshal; [|by cbn; rewrite Hn|lia].
  rewrite norm_object by done. cbn [fmap list_fmap fst snd members mbind option_bind]. rewrite En, field_hit by done. by rewrite Hd.
Qed.

Lemma to_any_one tag j any : is_ascii tag = true → to_any (norm j) = Some any →
  to_any (norm (JObject [(tag, j)])) = Some (JObject [(tag, any)]).
Proof. intros Ht E. cbn. by rewrite E, coerce_ascii. Qed.

(** A result of one member. *)
Lemma result_one `{CodecOk A} tag (a : A) : tags_ok [tag] = true → EqualFold tag tag = true → fits a → (levels A + 1 < maxNestingDepth)%nat →
  ∃ any, to_any (norm (JObject [member tag a])) = Some (JObject [(tag, any)]) ∧
    DecodeResult tag (Some [(tag, any)]) = Ok (seen a) ∧ DecodeValue any = Ok (seen a).
Proof.
  intros Ht He Ha Hl. destruct (value_any a Ha) as (any & E & Hc & Hh & Hd & Hv); [lia|]. exists any. split_and!; [|by apply decode_result_one; [..|lia|]|done].
  apply to_any_one; [|done]. apply andb_true_iff in Ht as [Ht _]. cbn in Ht. by rewrite andb_true_r in Ht.
Qed.

Ltac one tag a :=
  destruct (result_one tag a) as (any & E & D & Dv); [reflexivity|reflexivity|first [done|by apply Forall_true]|apply Nat.ltb_lt; vm_compute; reflexivity|];
  exists [(tag, any)]; split_and!; [exact E|reflexivity|].

(** The members of a status, as any values. *)
Lemma status_any path f r : payload_fits (PStatus path f r) → ∃ af ar,
  to_any (norm (enc_payload (PStatus path f r))) = Some (JObject
    [("forwardDiagnostics", af); ("pid", JNumber (Itoa (Z.of_nat pid))); ("protocolVersion", JNumber "1"); ("reverseDiagnostics", ar);
     ("socketPath", JString (coerce path)); ("state", JString "running"); ("uptimeMillis", JNumber (Itoa (Z.of_nat uptime)))]) ∧
  DecodeValue af = Ok f ∧ DecodeValue ar = Ok r.
Proof.
  intros (Hpid & Hup & Hf & Hr).
  assert (∀ n, (n <? maxNestingDepth)%nat = true → (n < maxNestingDepth)%nat) as Hn by (intros; by apply Nat.ltb_lt).
  destruct (value_any f) as (af & Ef & _ & _ & _ & Df); [done|by apply Hn|].
  destruct (value_any r) as (ar & Er & _ & _ & _ & Dr); [done|by apply Hn|].
  exists af, ar. split_and!; [|done..]. unfold enc_payload, payload_members. rewrite norm_object by (vm_compute; reflexivity).
  change (map_of _) with [member "forwardDiagnostics" f; member "pid" pid; ("protocolVersion", JNumber "1");
    member "reverseDiagnostics" r; member "socketPath" path; member "state" "running"; member "uptimeMillis" uptime].
  rewrite to_any_object. cbn [fmap list_fmap fst snd any_members member]. rewrite Ef, Er.
  assert (∀ n : nat, fits n → to_any (norm (enc n)) = Some (JNumber (Itoa (Z.of_nat n)))) as Hnum.
  { intros n H. cbn [enc nat_codec norm to_any]. cbn in H. by rewrite float64_text_Itoa by lia. }
  rewrite !Hnum by done. reflexivity.
Qed.

Lemma result_seen command p : answers command p = true → payload_fits p →
  ∃ l, to_any (norm (enc_payload p)) = Some (JObject l) ∧ map_of l = l ∧ result_of command (Some l) = Some (seen_payload p).
Proof.
  intros Hc Hp. unfold answers in Hc.
  assert (∀ n, (n <? maxNestingDepth)%nat = true → (n < maxNestingDepth)%nat) as Hn by (intros; by apply Nat.ltb_lt).
  destruct p as [m|path f r|l|d|f|l|v|l|n]; cbn [existsb] in Hc;
    repeat (apply orb_true_iff in Hc as [Hc|Hc]; [apply String.eqb_eq in Hc as ->|]); try discriminate Hc; cbn in Hp.
  - one "message" m. change (result_of CommandPing _) with (of_res PMessage (DecodeValue any)). by rewrite Dv.
  - one "message" m. change (result_of CommandShutdown _) with (of_res PMessage (DecodeValue any)). by rewrite Dv.
  - destruct (status_any path f r Hp) as (af & ar & E & Df & Dr). destruct (value_any path) as (a3 & E3 & _ & _ & _ & D3); [done|by apply Hn|].
    injection E3 as <-. eexists. split_and!; [exact E|reflexivity|].
    change (result_of CommandStatus _) with
      (match DecodeValue (JString (coerce path)), DecodeValue af, DecodeValue ar with
       | Ok path, Ok f, Ok r => Some (PStatus path f r) | _, _, _ => None end). by rewrite D3, Df, Dr.
  - one "devices" l. change (result_of CommandDeviceList ?r) with (of_res PDevices (DecodeResult "devices" r)). by rewrite D.
  - one "device" d. change (result_of CommandDeviceRegister ?r) with (of_res PDevice (DecodeResult "device" r)). by rewrite D.
  - one "forward" f. change (result_of CommandForwardCreate ?r) with (of_res PForward (DecodeResult "forward" r)). by rewrite D.
  - one "forwards" l. change (result_of CommandForwardList ?r) with (of_res PForwards (DecodeResult "forwards" r)). by rewrite D.
  - one "reverse" v. change (result_of CommandReverseCreate ?r) with (of_res PReverse (DecodeResult "reverse" r)). by rewrite D.
  - one "reverses" l. change (result_of CommandReverseList ?r) with (of_res PReverses (DecodeResult "reverses" r)). by rewrite D.
  - one "removed" n. change (result_of CommandForwardRemove ?r) with (of_res PRemoved (DecodeResult "removed" r)). by rewrite D.
  - one "removed" n. change (result_of CommandForwardRemoveAll ?r) with (of_res PRemoved (DecodeResult "removed" r)). by rewrite D.
  - one "removed" n. change (result_of CommandReverseRemove ?r) with (of_res PRemoved (DecodeResult "removed" r)). by rewrite D.
  - one "removed" n. change (result_of CommandReverseRemoveAll ?r) with (of_res PRemoved (DecodeResult "removed" r)). by rewrite D.
Qed.

Ltac single H tag a :=
  change (enc_payload _) with (JObject [member tag a]); apply (H _ _ _ tag a);
  [first [done|by apply Forall_true]|apply Nat.leb_le; vm_compute; reflexivity|reflexivity].

Lemma payload_clean p : payload_fits p → clean (norm (enc_payload p)) = true ∧ (height (enc_payload p) ≤ 5)%nat.
Proof.
  intros Hp. assert (∀ (A : Type) (C : Codec A) (H : CodecOk A) tag (a : A), fits a → (levels A ≤ 4)%nat → tags_ok [tag] = true →
    clean (norm (JObject [member tag a])) = true ∧ (height (JObject [member tag a]) ≤ 5)%nat) as Hone.
  { intros A C H tag a Ha Hl Ht. pose proof (enc_height a). split; [|cbn; lia].
    apply clean_object; [done|]. repeat constructor. by apply enc_clean. }
  destruct p as [m|path f r|l|d|f|l|v|l|n]; cbn in Hp;
    [single Hone "message" m| |single Hone "devices" l|single Hone "device" d|single Hone "forward" f|single Hone "forwards" l
    |single Hone "reverse" v|single Hone "reverses" l|single Hone "removed" n].
  destruct Hp as (Hpid & Hup & Hf & Hr). unfold enc_payload, payload_members.
  change (map_of _) with [member "forwardDiagnostics" f; member "pid" pid; ("protocolVersion", JNumber "1");
    member "reverseDiagnostics" r; member "socketPath" path; member "state" "running"; member "uptimeMillis" uptime].
  pose proof (enc_height f) as Hhf. pose proof (enc_height r) as Hhr. split.
  - apply clean_object; [vm_compute; reflexivity|].
    apply List.Forall_cons; [by apply enc_clean|]. apply List.Forall_cons; [by apply enc_clean|].
    apply List.Forall_cons; [by apply (clean_number 1)|]. apply List.Forall_cons; [by apply enc_clean|].
    repeat (apply List.Forall_cons; [by apply enc_clean|]). apply List.Forall_nil.
  - apply height_object. repeat apply List.Forall_cons; try apply List.Forall_nil; cbn [snd member]; cbn in Hhf, Hhr |- *; lia.
Qed.

Definition Response_fits (command : string) (r : Response) : Prop :=
  0 ≤ rs_Version r < 10 ^ 15 ∧ match rs_Result r with Some p => answers command p = true ∧ payload_fits p | None => True end.

Lemma Response_clean command r : Response_fits command r →
  clean (norm (enc_Response r)) = true ∧ (height (enc_Response r) ≤ 6)%nat.
Proof.
  intros [Hv Hr]. destruct r as [v id ok res err]. cbn [rs_Version rs_Result] in *. unfold enc_Response. cbn [rs_Version rs_ID rs_OK rs_Result rs_Error].
  assert (Forall (λ kv, clean (norm kv.2) = true ∧ (height kv.2 ≤ 5)%nat)
    ([("version", JNumber (Itoa v))] ++ omit_string "id" id ++ [member "ok" ok]
     ++ match res with Some p => [("result", enc_payload p)] | None => [] end ++ omit_nil "error" (error_body <$> err))) as H.
  { repeat apply Forall_app_2.
    - by apply Forall_singleton; split; [apply clean_number|cbn; lia].
    - unfold omit_string. destruct (id =? "")%string; [apply Forall_nil_2|]. by apply Forall_singleton; split; [apply enc_clean|cbn; lia].
    - by apply Forall_singleton; split; [|cbn; lia].
    - destruct res as [p|]; [|apply Forall_nil_2]. destruct Hr as [_ Hp]. by apply Forall_singleton, payload_clean.
    - destruct err as [e|]; [|apply Forall_nil_2]. by apply Forall_singleton; split; [apply enc_clean|cbn; lia]. }
  split.
  - apply clean_object; [|by eapply List.Forall_impl; [|exact H]; intros ? []].
    unfold omit_string. destruct (id =? "")%string, res, err; vm_compute; reflexivity.
  - apply height_object. by eapply List.Forall_impl; [|exact H]; intros ? [].
Qed.

Lemma ends_number_NL t : ends_number (glyphs (NL +++ t)).
Proof. change NL with (glyph_text (Asc "010")). by rewrite glyphs_cons. Qed.

Lemma decode_Encode j t : clean (norm j) = true → (height j ≤ maxNestingDepth)%nat →
  decode_first (Encode j +++ t) = Some (norm j, glyphs (NL +++ t)).
Proof.
  intros Hc Hh. unfold Encode. rewrite <-append_assoc.
  apply decode_Marshal; [by apply clean_norm_norm|done|apply ends_number_NL].
Qed.

Lemma small_height n k : (n ≤ k)%nat → (k <? maxNestingDepth)%nat = true → (n ≤ maxNestingDepth)%nat.
Proof. intros H Hk%Nat.ltb_lt. lia. Qed.

(** A response that was written is read back, whatever the stream holds behind it. *)
Lemma reply_comes_back command r t : Response_fits command r → ∃ reply,
  decode_reply (Encode (enc_Response r) +++ t) = Some reply ∧ response_of command reply = seen_Response r ∧
  ∀ p, rs_Result r = Some p → dec_map None (norm (enc_payload p)) = Some (rp_Result reply).
Proof.
  intros Hr. destruct (Response_clean command r Hr) as [Hc Hh]. destruct Hr as [Hv Hr].
  assert (∃ reply, dec_Reply (mkReply 0 "" false None None) (norm (enc_Response r)) = Some reply ∧
    response_of command reply = seen_Response r ∧
    ∀ p, rs_Result r = Some p → dec_map None (norm (enc_payload p)) = Some (rp_Result reply)) as (reply & E & Er).
  2:{ exists reply. split; [|done]. unfold decode_reply.
      rewrite decode_Encode; [done|done|by eapply small_height]. }
  clear Hc Hh. destruct r as [v id ok res err]. cbn [rs_Version rs_Result] in *. unfold enc_Response. cbn [rs_Version rs_ID rs_OK rs_Result rs_Error].
  assert (∀ l, res = Some l → ∃ m, dec_map None (norm (enc_payload l)) = Some (Some m) ∧ result_of command (Some m) = Some (seen_payload l)) as Hm.
  { intros p ->. destruct Hr as [Ha Hp]. destruct (result_seen command p Ha Hp) as (m & E & Em & Er). exists m. split; [|done].
    unfold dec_map. rewrite E. cbn [enc_payload norm]. change (foldl _ _ m) with (map_of m). by rewrite Em. }
  assert (∃ rm, match res with Some p => dec_map None (norm (enc_payload p)) | None => Some None end = Some rm ∧
    match rm with Some l => result_of command (Some l) | None => None end = seen_payload <$> res) as (rm & Erm & Eres).
  { destruct res as [p|]; [|by exists None]. destruct (Hm p eq_refl) as (m & E & Er). by exists (Some m). }
  clear Hm. exists (mkReply v (coerce id) ok rm (seen <$> (error_body <$> err))). split; [|split].
  - unfold omit_string. destruct (String.eqb_spec id "") as [->|Hid], res as [p|], err as [e|]; unfold omit_nil; cbn [fmap option_fmap option_map app];
      unfold member; (rewrite norm_object by (vm_compute; reflexivity)); unfold dec_Reply;
      cbn [members mbind option_bind fmap list_fmap fst snd app]; read_fields; cbn [norm]; rewrite dec_int_Itoa by lia;
      cbn [mbind option_bind rp_OK rp_ID rp_Result rp_Error];
      rewrite ?Erm; try (injection Erm as <-); reflexivity.
  - unfold response_of. cbn [rp_Version rp_ID rp_OK rp_Result rp_Error]. rewrite Eres. by destruct err.
  - cbn. by intros p ->.
Qed.
End wire.
