(* ===== verification/Wired.v ===== *)
(** * Requests on the wire

    [Request] as JSON, the raw text its parameters are kept as, cliserver.go's
    [Send] and client.go's [Send] down to the text they write, and [handleConn]
    from the text it reads to the text it answers with.  A request is
    understood in every layout its document can be written in, its reply comes
    back to the client, and every text is answered. *)

From S2P Require Import Prelude Errors GoStrings Strconv Address ServerProtocol Json Codec Forwards Reverses Server Cli Custom Wire.

#[local] Open Scope string_scope.
#[local] Open Scope Z_scope.
#[local] Open Scope list_scope.

(** ** The text of a member

    [json.RawMessage] keeps the text of its value; [raw_loop] is the decoder's
    way through the members of an object, [l] being behind the bracket or a comma. *)

Fixpoint raw_loop (fuel : nat) (l : list glyph) : list (string * list glyph) :=
  match fuel with
  | O => []
  | S fuel =>
      match parse_string (skip_space l) with
      | Some (key, rest) =>
          let v := skip_space (tail (skip_space rest)) in
          match parse_value (S (2 * length v)) maxNestingDepth v with
          | Got _ rest =>
              (key, take (length v - length rest) v) ::
              match skip_space rest with
              | c :: rest => if is_char c "," then raw_loop fuel rest else []
              | [] => []
              end
          | _ => []
          end
      | None => []
      end
  end.
Definition raw_members (text : string) : list (string * list glyph) :=
  match skip_space (glyphs text) with
  | g :: l => if is_char g "{" then raw_loop (S (length l)) l else []
  | [] => []
  end.

(** The last member of the name, which is the one that counts; no text where
    there is none. *)
Definition last_field {A} (name : string) (ms : list (string * A)) : option (string * A) :=
  list.last (List.filter (λ kv, EqualFold kv.1 name) ms).
Definition raw_field (name : string) (ms : list (string * list glyph)) : string :=
  match last_field name ms with Some kv => glyphs_text kv.2 | None => "" end.

Notation spaces s := (Forall (λ g, is_space g = true) s).

(** A member and its text. *)
Definition texts_member (n : nat) (kv : string * json) (kr : string * list glyph) : Prop := kr.1 = kv.1 ∧ writes n kv.2 kr.2.

Lemma take_front {A} (l k : list A) : take (length (l ++ k) - length k) (l ++ k) = l.
Proof. rewrite length_app, Nat.add_sub. by apply take_app_length. Qed.

Lemma raw_value n j l s rest : writes n j l → (n ≤ maxNestingDepth)%nat → spaces s → ends_number rest →
  let v := skip_space (s ++ l ++ rest) in
  parse_value (S (2 * length v)) maxNestingDepth v = Got j rest ∧ take (length v - length rest) v = l.
Proof.
  intros Hw Hn Hs Hr. rewrite skip_spaces by done.
  assert (skip_space (l ++ rest) = l ++ rest) as ->.
  { destruct (writes_front _ _ _ Hw) as (g & l' & -> & Hg & _). by apply skip_space_stop. }
  cbv zeta. split; [|by apply take_front]. destruct parse_writes_all as (H & _ & _).
  apply (H _ _ _ Hw _ _ []); [done|rewrite length_app; lia|done..].
Qed.

Lemma raw_loop_writes n ms k : writes_members n ms k → (n ≤ maxNestingDepth)%nat →
  ∀ fuel rest, (length k < fuel)%nat → ∃ raws, raw_loop fuel (k ++ rest) = raws ∧ Forall2 (texts_member n) ms raws.
Proof.
  induction 1 as [n t j l s1 s2 s3 s4 Hs1 Hs2 Hs3 Hw Hs4|n t j ms l k s1 s2 s3 s4 Hs1 Hs2 Hs3 Hw Hs4 Hm IH];
    intros Hn fuel rest Hf; (destruct fuel as [|fuel]; [lia|]); eexists; (split; [reflexivity|]); cbn [raw_loop];
    repeat (rewrite <-app_assoc; cbn [app]); rewrite read_key by done; rewrite skip_to by done; cbn [tail].
  - edestruct (raw_value n j l s3) as [-> ->]; [done..|by apply ends_number_spaces|].
    rewrite skip_to by done. cbn. apply Forall2_cons; by split.
  - edestruct (raw_value n j l s3) as [-> ->]; [done..|by apply ends_number_spaces|].
    rewrite skip_to by done. cbn -[raw_loop].
    destruct (IH Hn fuel rest) as (raws & -> & HF); [|by apply Forall2_cons].
    repeat (rewrite length_app in Hf; cbn [length] in Hf). lia.
Qed.

(** What is written is a text of its own runes, and a value's text is read as
    its document. *)
Lemma writes_ok_all :
  (∀ n j l, writes n j l → forallb glyph_ok l = true) ∧
  (∀ n js l, writes_elements n js l → forallb glyph_ok l = true) ∧
  (∀ n ms l, writes_members n ms l → forallb glyph_ok l = true).
Proof.
  apply writes_ind_all; intros; cbn [forallb andb];
    repeat match goal with H : Forall _ _ |- _ => apply spaces_ok in H end;
    repeat (rewrite forallb_app; cbn [forallb andb]); rewrite ?print_string_ok;
    try (repeat match goal with H : forallb _ _ = true |- _ => rewrite H end; reflexivity).
  destruct j as [|b|s|s|js|ms]; cbn in *; [by subst|subst; by destruct b| | |done..].
  - destruct w as [[? _]%andb_true_iff ->]. by apply ascii_glyphs_ok.
  - destruct w as (t & _ & ->). apply print_string_ok.
Qed.

Lemma text_document n j l : writes n j l → (n ≤ maxNestingDepth)%nat → glyphs_text l ≠ "" ∧ decode_whole (glyphs_text l) = Some j.
Proof.
  intros Hw Hn. destruct writes_ok_all as (Hok & _). pose proof (Hok _ _ _ Hw) as Hl. split.
  - destruct (writes_front _ _ _ Hw) as (g & l' & -> & Hg & _). destruct g as [a|[]|a]; [done| |done..]. discriminate Hl.
  - unfold decode_whole, decode_first, parse. rewrite glyphs_of_text by done.
    destruct parse_writes_all as (Hp & _ & _). specialize (Hp _ _ _ Hw (S (2 * length l)) maxNestingDepth [] []).
    cbn [app] in Hp. rewrite app_nil_r in Hp. rewrite Hp; [done|done|lia|done..].
Qed.

Lemma Unmarshal_text `{CodecOk A} n (a : A) l : writes n (norm (enc a)) l → (n ≤ maxNestingDepth)%nat → fits a →
  Unmarshal (glyphs_text l) = Ok (seen a).
Proof. intros Hw Hn Ha. unfold Unmarshal. destruct (text_document _ _ _ Hw Hn) as [_ ->]. by rewrite dec_enc. Qed.

(** ** Requests *)

(** [params] as [json.Marshal] is handed them, nothing for nil. *)
Definition enc_params (p : params) : option json :=
  match p with
  | NoParams => None
  | ForwardCreate q => Some (enc q)
  | ForwardRemove q => Some (enc q)
  | ReverseCreate q => Some (enc q)
  | ReverseRemove q => Some (enc q)
  end.
Definition seen_params (p : params) : params :=
  match p with
  | NoParams => NoParams
  | ForwardCreate q => ForwardCreate (seen q)
  | ForwardRemove q => ForwardRemove (seen q)
  | ReverseCreate q => ReverseCreate (seen q)
  | ReverseRemove q => ReverseRemove (seen q)
  end.

(** [Request]; its parameters are written as the document they are the text of. *)
Definition enc_Request (version : Z) (id command : string) (params : option json) : json :=
  JObject ([("version", JNumber (Itoa version))] ++ omit_string "id" id ++ [member "command" command]
           ++ match params with Some j => [("params", j)] | None => [] end).

(** What [cliserver.Send] writes to the server. *)
Definition request_text (command : string) (p : params) : string :=
  Encode (enc_Request ProtocolVersion "" command (enc_params p)).

(** [json.NewDecoder(conn).Decode(&req)] *)
Definition decode_request (stream : string) : option Request :=
  '(j, _) ← decode_first stream;
  ms ← members j;
  version ← field "version" dec_int 0 ms;
  id ← field "id" dec "" ms;
  command ← field "command" dec "" ms;
  Some (mkRequest version id command (raw_field "params" (raw_members stream))).

(** The parameters as the request carries them. *)
Definition carries (oc : Outcomes) (raw : string) (p : params) : Prop :=
  match p with
  | NoParams => raw = ""
  | ForwardCreate q => raw ≠ "" ∧ oc_forward_create oc raw = Ok q
  | ForwardRemove q => raw ≠ "" ∧ oc_forward_remove oc raw = Ok q
  | ReverseCreate q => raw ≠ "" ∧ oc_reverse_create oc raw = Ok q
  | ReverseRemove q => raw ≠ "" ∧ oc_reverse_remove oc raw = Ok q
  end.

(** The environment with the decoders of the parameters. *)
Definition with_json (oc : Outcomes) : Outcomes :=
  mkOutcomes Unmarshal Unmarshal Unmarshal Unmarshal Unmarshal
    (oc_listen oc) (oc_connect oc) (oc_session oc) (oc_cleanup oc) (oc_now oc) (oc_order oc).

Lemma writes_params n p j l oc : enc_params p = Some j → writes n (norm j) l → (n ≤ maxNestingDepth)%nat →
  carries (with_json oc) (glyphs_text l) (seen_params p).
Proof.
  intros E Hw Hn. destruct (text_document _ _ _ Hw Hn) as [Hl _].
  destruct p; cbn in E; try discriminate E; injection E as <-; (split; [exact Hl|]);
    (eapply Unmarshal_text; [exact Hw|exact Hn|exact I]).
Qed.

Lemma enc_params_tame p j : enc_params p = Some j → clean (norm j) = true ∧ (height j ≤ 2)%nat.
Proof.
  destruct p as [|q|q|q|q]; intros E; [discriminate E|..]; injection E as <-;
    (split; [exact (enc_clean q I)|exact (enc_height q)]).
Qed.

(** A document that is an object, in any layout, in front of anything: it is
    read, and the members' texts are found. *)
Lemma decode_object n ms l t : writes n (JObject ms) l → ms ≠ [] → (n ≤ maxNestingDepth)%nat →
  decode_first (glyphs_text l +++ t) = Some (JObject ms, glyphs t) ∧
  ∃ m, (m ≤ maxNestingDepth)%nat ∧ Forall2 (texts_member m) ms (raw_members (glyphs_text l +++ t)).
Proof.
  intros Hw Hms Hn. destruct writes_ok_all as (Hok & _). pose proof (Hok _ _ _ Hw) as Hl.
  unfold decode_first, parse, raw_members. rewrite glyphs_append by done. set (rest := glyphs t).
  inversion Hw as [? ? ? Hs| | |? ? Hs|m ms' k Hm]; subst; [done..|]. cbn [app]. rewrite skip_space_stop by done.
  change (is_char (Asc "{") "{") with true. cbn iota. split.
  - destruct parse_writes_all as (_ & _ & Hp). set (fuel := (2 * length (Asc "{" :: k ++ rest))%nat).
    assert (parse_value (S fuel) maxNestingDepth (Asc "{" :: k ++ rest) = Got (JObject ms) rest) as ->; [|done].
    destruct maxNestingDepth as [|depth]; [lia|]. cbn [parse_value]. rewrite skip_space_stop by done.
    change (is_char (Asc "{") "{") with true. cbn iota.
    apply (parse_bracketed "}"%char parse_members k rest ms (λ ms rest, Got (JObject ms) rest) (JObject []));
      [by eapply members_front|]. apply (Hp m); [done|lia|subst fuel; cbn; rewrite length_app; lia].
  - exists m. split; [lia|]. destruct (raw_loop_writes m ms k Hm ltac:(lia) (S (length (k ++ rest))) rest) as (raws & -> & HF); [|done].
    rewrite length_app. lia.
Qed.

(** A request of the commands is understood in every layout of its document,
    whatever follows it. *)
Lemma request_decoded oc command p n l t :
  writes n (norm (enc_Request ProtocolVersion "" command (enc_params p))) l → (n ≤ maxNestingDepth)%nat →
  ∃ raw, decode_request (glyphs_text l +++ t) = Some (mkRequest ProtocolVersion "" (coerce command) raw) ∧
    carries (with_json oc) raw (seen_params p).
Proof.
  unfold enc_Request. destruct (enc_params p) as [j|] eqn:E; cbn [app omit_string String.eqb]; unfold member;
    intros Hw Hn; rewrite norm_object in Hw by (vm_compute; reflexivity); cbn [fmap list_fmap fst snd] in Hw;
    destruct (decode_object n _ l t Hw ltac:(done) Hn) as (Ed & m & Hm & HF);
    exists (raw_field "params" (raw_members (glyphs_text l +++ t))); unfold decode_request; rewrite Ed;
    cbn [mbind option_bind members]; read_fields; cbn [norm]; rewrite dec_int_Itoa by done; cbn [mbind option_bind];
    (split; [done|]).
  - apply Forall2_cons_inv_l in HF as ([k1 x1] & ? & [E1 _] & HF & ->).
    apply Forall2_cons_inv_l in HF as ([k2 x2] & ? & [E2 _] & HF & ->).
    apply Forall2_cons_inv_l in HF as ([k3 x3] & ? & [E3 Hx] & ->%Forall2_nil_inv_l & ->). cbn in E1, E2, E3, Hx. subst.
    change (carries (with_json oc) (glyphs_text x3) (seen_params p)). by eapply writes_params.
  - apply Forall2_cons_inv_l in HF as ([k1 x1] & ? & [E1 _] & HF & ->).
    apply Forall2_cons_inv_l in HF as ([k2 x2] & ? & [E2 _] & ->%Forall2_nil_inv_l & ->). cbn in E1, E2. subst.
    change (carries (with_json oc) "" (seen_params p)). by destruct p.
Qed.

(** Two texts of one document carry the same parameters. *)
Definition same_raw (raw raw' : string) : Prop := (raw = "" ↔ raw' = "") ∧ decode_whole raw = decode_whole raw'.

Lemma last_field_text name n ms rs : Forall2 (texts_member n) ms rs →
  match last_field name ms, last_field name rs with
  | Some kv, Some kr => texts_member n kv kr | None, None => True | _, _ => False end.
Proof.
  intros HF. unfold last_field. assert (Forall2 (texts_member n) (List.filter (λ kv, EqualFold kv.1 name) ms)
    (List.filter (λ kv, EqualFold kv.1 name) rs)) as H.
  { induction HF as [|kv kr ms rs [E Hw] HF IH]; [done|]. cbn. rewrite E. destruct (EqualFold _ _); [|done]. by constructor. }
  clear HF. induction H as [|kv kr ms' rs' Hk H IH]; [done|]. rewrite !last_cons.
  destruct (list.last ms'), (list.last rs'); done.
Qed.

Lemma raw_field_same name n n' ms rs rs' : (n ≤ maxNestingDepth)%nat → (n' ≤ maxNestingDepth)%nat →
  Forall2 (texts_member n) ms rs → Forall2 (texts_member n') ms rs' → same_raw (raw_field name rs) (raw_field name rs').
Proof.
  intros Hn Hn' H%(last_field_text name) H'%(last_field_text name). unfold raw_field, same_raw.
  destruct (last_field name ms) as [[k j]|], (last_field name rs) as [[k1 l]|], (last_field name rs') as [[k2 l']|]; try done.
  destruct H as [_ [? E]%text_document], H' as [_ [? E']%text_document]; [|done..]. by rewrite E, E'.
Qed.

(** Two layouts of one document are the same request. *)
Definition same_request (r r' : Request) : Prop :=
  rq_Version r = rq_Version r' ∧ rq_ID r = rq_ID r' ∧ rq_Command r = rq_Command r' ∧ same_raw (rq_Params r) (rq_Params r').

Lemma same_raw_empty raw raw' : same_raw raw raw' → (raw =? "")%string = (raw' =? "")%string.
Proof. intros [H _]. destruct (String.eqb_spec raw ""), (String.eqb_spec raw' ""); tauto. Qed.
Lemma same_raw_Unmarshal `{Codec A} raw raw' : same_raw raw raw' → Unmarshal (A:=A) raw = Unmarshal raw'.
Proof. intros [_ E]. unfold Unmarshal. by rewrite E. Qed.

Lemma handleRequest_same oc r r' s : same_request r r' → handleRequest (with_json oc) r s = handleRequest (with_json oc) r' s.
Proof.
  destruct r as [v i c raw], r' as [v' i' c' raw']. intros (E1 & E2 & E3 & H). cbn in E1, E2, E3, H. subst.
  unfold handleRequest, decodeDeviceRegisterParams, decodeForwardCreateParams, decodeForwardRemoveParams, decodeReverseCreateParams,
    decodeReverseRemoveParams.
  cbn [rq_Version rq_ID rq_Command rq_Params with_json oc_device_register oc_forward_create oc_forward_remove oc_reverse_create oc_reverse_remove].
  rewrite !(same_raw_empty raw raw' H). by rewrite !(same_raw_Unmarshal raw raw' H).
Qed.

Lemma decode_layout n n' ms l l' t t' : writes n (JObject ms) l → writes n' (JObject ms) l' → ms ≠ [] →
  (n ≤ maxNestingDepth)%nat → (n' ≤ maxNestingDepth)%nat →
  match decode_request (glyphs_text l +++ t), decode_request (glyphs_text l' +++ t') with
  | Some r, Some r' => same_request r r' | None, None => True | _, _ => False end.
Proof.
  intros Hw Hw' Hms Hn Hn'. destruct (decode_object n ms l t Hw Hms Hn) as (Ed & m & Hm & HF).
  destruct (decode_object n' ms l' t' Hw' Hms Hn') as (Ed' & m' & Hm' & HF').
  unfold decode_request. rewrite Ed, Ed'. cbn [mbind option_bind members].
  destruct (field "version" dec_int 0 ms) as [version|]; [|done]. cbn [mbind option_bind].
  destruct (field "id" dec "" ms) as [id|]; [|done]. cbn [mbind option_bind].
  destruct (field "command" dec "" ms) as [command|]; [|done]. cbn [mbind option_bind].
  refine (conj eq_refl (conj eq_refl (conj eq_refl _))).
  exact (raw_field_same "params" m m' ms _ _ Hm Hm' HF HF').
Qed.

(** ** A connection of the server, from text to text *)

Section serve.
Context (text : error → string) (pid uptime : nat).

(** [handleConn]: what is read, what is written. *)
Definition serve (oc : Outcomes) (stream : string) (s : Server) : option (Server * string * bool) :=
  '(s, resp, shutdown) ← handleConn (with_json oc) (decode_request stream) s;
  Some (s, Encode (enc_Response text pid uptime resp), shutdown).

(** [cliserver.Send]: the text of the request, the server's answer to it, and
    the response that is read, its result as the command decodes it. *)
Definition exchange (oc : Outcomes) (command : string) (p : params) (s : Server) : option (Server * option Response) :=
  '(s, reply, _) ← serve oc (request_text command p) s;
  Some (s, response_of text command <$> decode_reply reply).

(** The counts of a response are below 10^15. *)
Definition result_fits (resp : Response) : Prop :=
  match rs_Result resp with Some p => payload_fits text pid uptime p | None => True end.


(** The result of a request is one of its command. *)
Definition own_answer (command : string) (resp : Response) : Prop :=
  rs_Version resp = ProtocolVersion ∧ ∀ p, rs_Result resp = Some p → answers command p = true.

Lemma handled_answers oc req s s' resp : handleRequest oc req s = Some (s', resp) →
  own_answer (rq_Command req) resp ∧ rs_ID resp = rq_ID req.
Proof.
  unfold handleRequest. set (own := own_answer (rq_Command req) resp ∧ rs_ID resp = rq_ID req).
  assert (∀ e, Some (s, fail req e) = Some (s', resp) → own) as Hfail by (intros e [= <- <-]; done).
  assert (∀ s1 p, answers (rq_Command req) p = true → Some (s1, answer req p) = Some (s', resp) → own) as Hanswer
    by (intros s1 p Hp [= <- <-]; split; [split; [done|by intros ? [= <-]]|done]).
  assert (∀ A (f : A → payload) s1 r, (∀ a, answers (rq_Command req) (f a) = true) → Some (respond req f s1 r) = Some (s', resp) → own)
    as Hrespond by (intros A f s1 [a|e] Hp [= <- <-]; (split; [split; [done|]|done]); intros ? [= <-]; done).
  destruct (rq_Command req =? "")%string; [apply Hfail|]. destruct (negb _); [apply Hfail|].
  repeat match goal with |- context [(rq_Command req =? ?c)%string] =>
    destruct (String.eqb_spec (rq_Command req) c) as [Ec|_]; [rewrite Ec in Hanswer, Hrespond; clear Ec|] end;
  try (apply Hanswer; reflexivity); try apply Hfail;
  try match goal with |- match ?d with Good _ => _ | Bad _ => _ end = _ → _ => destruct d as [params|e]; [|apply Hfail] end;
  first [destruct (deviceRegistry_register _ _) | match goal with |- (?m ≫= _) = _ → _ =>
    destruct m as [[? ?]|]; [cbn [mbind option_bind]|discriminate] end];
  first [apply Hrespond; reflexivity|apply Hanswer; reflexivity].
Qed.

(** A reply that the server wrote is read back. *)
Lemma reply_read command resp t : own_answer command resp → result_fits resp → ∃ r,
  decode_reply (Encode (enc_Response text pid uptime resp) +++ t) = Some r ∧ response_of text command r = seen_Response text resp.
Proof.
  intros [Hv Ha] Hf. destruct (reply_comes_back text pid uptime command resp t) as (r & ? & ? & _); [|by exists r].
  split; [by rewrite Hv|].
  unfold result_fits in Hf. destruct (rs_Result resp) as [p|]; [|done]. split; [by apply Ha|done].
Qed.

Definition malformed : Response := mkResponse ProtocolVersion "" false None (Some (bad_request "malformed JSON request")).

(** What Send writes is a text of the request. *)
Lemma request_writes command p : writes 3 (norm (enc_Request ProtocolVersion "" command (enc_params p)))
  (Json.print (enc_Request ProtocolVersion "" command (enc_params p))).
Proof.
  apply pretty_writes; [by constructor..| |].
  - unfold enc_Request. destruct (enc_params p) as [j|] eqn:E; [|done].
    apply enc_params_tame in E as [Hc%clean_norm_norm _]. cbn -[is_number]. by rewrite Hc.
  - unfold enc_Request. destruct (enc_params p) as [j|] eqn:E; [|cbn; lia].
    apply enc_params_tame in E as [_ Hh]. apply (height_object 2).
    repeat apply List.Forall_cons; try apply List.Forall_nil; cbn; lia.
Qed.

Lemma exchange_handled oc command p s : is_ascii command = true →
  ∃ raw, carries (with_json oc) raw (seen_params p) ∧
    ∀ s' resp, handleRequest (with_json oc) (mkRequest ProtocolVersion "" command raw) s = Some (s', resp) → result_fits resp →
      exchange oc command p s = Some (s', Some (seen_Response text resp)).
Proof.
  intros Hc. assert (3 ≤ maxNestingDepth)%nat as Hn by (by eapply small_height).
  destruct (request_decoded oc command p 3 _ NL (request_writes command p) Hn) as (raw & E & Hraw).
  exists raw. split; [done|]. intros s' resp Eh Hf. rewrite coerce_ascii in E by done.
  change (glyphs_text _ +++ NL) with (request_text command p) in E.
  unfold exchange, serve. rewrite E. unfold handleConn. rewrite Eh. cbn [mbind option_bind].
  destruct (handled_answers _ _ _ _ _ Eh) as [Ho _]. destruct (reply_read command resp "" Ho Hf) as (r & Er & <-).
  rewrite append_nil_r in Er. by rewrite Er.
Qed.

(** C10: a request of the commands to a reachable server, from text to text: the
    parameters that [cliserver.Send] encodes reach the handler, whatever their
    strings hold, as what JSON makes of them; the request is handled; and the
    response, result or error, is read back by the client as the one the handler
    gave, up to invalid UTF-8 and with the text of an error for the error. *)
Theorem requests_over_the_wire (n : nat) (oc : Outcomes) (command : string) (p : params) (s : Server) :
  served n s → Z.of_nat (5 * n) < 2 ^ 60 → is_ascii command = true →
  (∀ raw, carries (with_json oc) raw (seen_params p) →
    free_address (with_json oc) (mkRequest ProtocolVersion "" command raw) s) →
  ∃ raw s' resp, let req := mkRequest ProtocolVersion "" command raw in
    carries (with_json oc) raw (seen_params p) ∧
    handleRequest (with_json oc) req s = Some (s', resp) ∧ handled req s s' resp ∧
    (result_fits resp → exchange oc command p s = Some (s', Some (seen_Response text resp))).
Proof.
  intros Hs Hn Hc Hfree. destruct (exchange_handled oc command p s Hc) as (raw & Hraw & He).
  destruct (served_ok n s Hs Hn) as (Hi & Hf & Hr & Nf & Nr).
  destruct (request_handled (with_json oc) (mkRequest ProtocolVersion "" command raw) s Hf Hr Hi (Hfree raw Hraw))
    as (s' & resp & E & Hh); [lia..|].
  exists raw, s', resp. split_and!; auto.
Qed.

(** C12: a request is the same in every layout of its document, with space
    anywhere between its tokens, and whatever is behind it in the stream: the
    server does the same and writes the same. *)
Theorem layout_is_irrelevant (oc : Outcomes) (n n' : nat) (ms : list (string * json)) (l l' : list glyph) (t t' : string) (s : Server) :
  writes n (JObject ms) l → writes n' (JObject ms) l' → ms ≠ [] → (n ≤ maxNestingDepth)%nat → (n' ≤ maxNestingDepth)%nat →
  serve oc (glyphs_text l +++ t) s = serve oc (glyphs_text l' +++ t') s.
Proof.
  intros Hw Hw' Hms Hn Hn'. pose proof (decode_layout n n' ms l l' t t' Hw Hw' Hms Hn Hn') as H. unfold serve.
  destruct (decode_request (glyphs_text l +++ t)) as [r|], (decode_request (glyphs_text l' +++ t')) as [r'|]; try done.
  unfold handleConn. rewrite (handleRequest_same oc r r' s H). by destruct H as (-> & _ & -> & _).
Qed.

(** C11: whatever a client sends to a reachable server, it is answered once,
    with a text that the client's decoder reads back as the response: the one of
    the request it holds, or [bad_request], with the server unchanged, if it
    holds none. *)
Theorem every_text_is_answered (n : nat) (s : Server) (oc : Outcomes) (stream t : string) :
  served n s → Z.of_nat (5 * n) < 2 ^ 60 → (∀ req, decode_request stream = Some req → free_address (with_json oc) req s) →
  ∃ s' resp shutdown command,
    serve oc stream s = Some (s', Encode (enc_Response text pid uptime resp), shutdown) ∧
    (result_fits resp → ∃ r, decode_reply (Encode (enc_Response text pid uptime resp) +++ t) = Some r ∧
      response_of text command r = seen_Response text resp) ∧
    match decode_request stream with
    | None => s' = s ∧ resp = malformed ∧ shutdown = false
    | Some req => command = rq_Command req ∧ served (S n) s' ∧ good_response (rq_ID req) resp ∧
        handleRequest (with_json oc) req s = Some (s', resp) ∧
        (shutdown = true → command = CommandShutdown ∧ s' = s)
    end.
Proof.
  intros Hs Hn Hfree. unfold serve, handleConn. destruct (decode_request stream) as [req|].
  - specialize (Hfree req eq_refl). destruct (served_ok n s Hs Hn) as (Hi & Hf & Hr & Nf & Nr).
    destruct (request_handled (with_json oc) req s Hf Hr Hi Hfree) as (s' & resp & E & Hh); [lia..|].
    rewrite E. cbn [mbind option_bind]. eexists s', resp, _, (rq_Command req). split; [done|].
    split; [intros ?; apply reply_read; [by eapply handled_answers|done]|].
    split_and!; [done|by eapply served_request|apply Hh|done|].
    intros [[_ Hc%String.eqb_eq]%andb_true_iff Hok]%andb_true_iff. split; [done|].
    unfold handleRequest in E. rewrite Hc in E. revert E. destruct (negb _); cbn; congruence.
  - cbn [mbind option_bind]. exists s, malformed, false, "". split; [done|]. split; [intros ?; by apply reply_read|done].
Qed.

(** ** What is printed of a status

    [%v] of an any value, and of the value of a key. *)
Fixpoint any_text (v : json) : string :=
  match v with
  | JNull => "<nil>"
  | JBool b => if b then "true" else "false"
  | JNumber s => default "" (float64_v s)
  | JString s => s
  | JArray l => "[" +++ Join (any_text <$> l) " " +++ "]"
  | JObject l => "map[" +++ Join ((λ kv, kv.1 +++ ":" +++ any_text kv.2) <$> l) " " +++ "]"
  end.
Definition value_text (key : string) (result : result_map) : string := any_text (result_value key result).

(** C30: what [adb-go server status] prints of the reply it gets: the state, the
    path and the protocol version as the server has them, and the process ID and
    the uptime as the server has them exactly if they are below a million. *)
Theorem status_numbers_below_a_million (req : Request) (path t : string) (f : ForwardDiagnostics) (v : ReverseDiagnostics) :
  payload_fits text pid uptime (PStatus path f v) → ∃ r,
    decode_reply (Encode (enc_Response text pid uptime (answer req (PStatus path f v))) +++ t) = Some r ∧
    value_text "state" (rp_Result r) = "running" ∧ value_text "socketPath" (rp_Result r) = coerce path ∧
    value_text "protocolVersion" (rp_Result r) = Itoa ProtocolVersion ∧
    (value_text "pid" (rp_Result r) = Itoa (Z.of_nat pid) ↔ Z.of_nat pid < 10 ^ 6) ∧
    (value_text "uptimeMillis" (rp_Result r) = Itoa (Z.of_nat uptime) ↔ Z.of_nat uptime < 10 ^ 6).
Proof.
  intros Hp. destruct (reply_comes_back text pid uptime CommandStatus (answer req (PStatus path f v)) t) as (r & E & _ & Hm); [by split|].
  exists r. split; [done|]. specialize (Hm _ eq_refl). destruct (status_any text pid uptime path f v Hp) as (af & ar & Ea & _).
  unfold dec_map in Hm. rewrite Ea in Hm. cbn [enc_payload norm] in Hm. injection Hm as <-.
  assert (∀ n : nat, fits n → (any_text (JNumber (Itoa (Z.of_nat n))) = Itoa (Z.of_nat n) ↔ Z.of_nat n < 10 ^ 6)) as Hn.
  { intros n H. cbn in H. pose proof (float64_v_Itoa (Z.of_nat n) ltac:(lia)) as H'. cbn [any_text].
    destruct (Z.ltb_spec (Z.of_nat n) (10 ^ 6)); [by rewrite H'|]. destruct H' as (s & -> & Hs). cbn. split; [done|lia]. }
  destruct Hp as (H1 & H2 & _). split_and!; [done..|by apply Hn|by apply Hn].
Qed.
End serve.

(** ** Witnesses *)

(** A text with its quotes written as apostrophes. *)
Fixpoint quoted (s : string) : string :=
  match s with "" => "" | String a s => String (if Ascii.eqb a "'" then QUOTE else a) (quoted s) end.

Definition sample_text (e : error) : string := match e with Errorf s _ => s | _ => "error" end.
Definition sample_forward_params : params :=
  ForwardCreate (mkForwardCreate (mkLocal "tcp" "127.0.0.1:9000") "tcp:80" (ServerProtocol.mkTarget "tcp" "10.0.0.2:5555") false).

Lemma sample_wire_free raw : carries (with_json sample_outcomes) raw (seen_params sample_forward_params) →
  free_address (with_json sample_outcomes) (mkRequest ProtocolVersion "" CommandForwardCreate raw) sample_server.
Proof.
  intros _ params r addr _ H _ ln. assert (listening r = ∅) as ->; [|by rewrite lookup_empty].
  unfold create_check in H. destruct (validateForwardCreateParams params); [congruence|].
  cbn in H. rewrite lookup_empty in H. assert (r = newForwardRegistry) as -> by congruence. done.
Qed.

Lemma requests_over_the_wire_witness :
  request_text CommandForwardCreate sample_forward_params =
    quoted "{'version':1,'command':'forward_create','params':{'local':{'network':'tcp','address':'127.0.0.1:9000'},'remote':{'service':'tcp:80'},'target':{'transport':'tcp','address':'10.0.0.2:5555'}}}" +++ NL ∧
  ∃ raw s' resp,
    handleRequest (with_json sample_outcomes) (mkRequest ProtocolVersion "" CommandForwardCreate raw) sample_server = Some (s', resp) ∧
    (result_fits sample_text 1 2 resp →
     exchange sample_text 1 2 sample_outcomes CommandForwardCreate sample_forward_params sample_server =
       Some (s', Some (seen_Response sample_text resp))).
Proof.
  split; [by vm_compute|].
  destruct (requests_over_the_wire sample_text 1 2 0 sample_outcomes CommandForwardCreate sample_forward_params sample_server
    sample_served ltac:(reflexivity) ltac:(reflexivity) sample_wire_free) as (raw & s' & resp & _ & E & _ & H).
  exists raw, s', resp. exact (conj E H).
Defined.

(** A ping, with members in another order, one unknown, and a name in capitals. *)
Definition sample_ping : json := JObject [("Command", JString "ping"); ("x", JArray [JNull]); ("version", JNumber "1")].

Lemma layout_is_irrelevant_witness :
  Marshal sample_ping = quoted "{'Command':'ping','x':[null],'version':1}" ∧
  serve sample_text 1 2 sample_outcomes (MarshalIndent sample_ping +++ "") sample_server =
    serve sample_text 1 2 sample_outcomes (Marshal sample_ping +++ "}garbage") sample_server ∧
  serve sample_text 1 2 sample_outcomes (Marshal sample_ping +++ "}garbage") sample_server =
    Some (sample_server, quoted "{'version':1,'ok':true,'result':{'message':'pong'}}" +++ NL, false).
Proof.
  split; [by vm_compute|]. split; [|by vm_compute].
  assert (∀ line gap, (∀ d, spaces (line d)) → spaces gap → writes 2 sample_ping (pretty line gap 0 sample_ping)) as H
    by (intros line gap Hl Hg; apply (pretty_writes line gap Hl Hg sample_ping); [by vm_compute|apply Nat.leb_le; by vm_compute]).
  apply (layout_is_irrelevant sample_text 1 2 sample_outcomes 2 2
    [("Command", JString "ping"); ("x", JArray [JNull]); ("version", JNumber "1")]);
    [apply H; [apply indent_spaces|by constructor]|apply H; by constructor|done|apply Nat.leb_le; by vm_compute..].
Defined.

Lemma every_text_is_answered_witness :
  serve sample_text 1 2 sample_outcomes (quoted "{'version':'1'}") sample_server =
    Some (sample_server,
      quoted "{'version':1,'ok':false,'error':{'code':'bad_request','message':'malformed JSON request'}}" +++ NL, false) ∧
  ∃ command reply r, serve sample_text 1 2 sample_outcomes (quoted "{'version':'1'}") sample_server = Some (sample_server, reply, false) ∧
    decode_reply (reply +++ "") = Some r ∧ response_of sample_text command r = seen_Response sample_text malformed.
Proof.
  split; [by vm_compute|].
  destruct (every_text_is_answered sample_text 1 2 0 sample_server sample_outcomes (quoted "{'version':'1'}") "" sample_served
    ltac:(reflexivity)) as (s' & resp & shutdown & command & E & Hr & H);
    [intros req Hreq; vm_compute in Hreq; discriminate Hreq|].
  assert (decode_request (quoted "{'version':'1'}") = None) as En by by vm_compute.
  rewrite En in H. destruct H as (-> & -> & ->). destruct Hr as (r & Hr & Hc); [done|].
  exists command. eexists _, r. split; [exact E|]. split; [exact Hr|exact Hc].
Defined.

(** A server that has been up for 20 minutes and 34.567 seconds. *)
Definition sample_uptime : nat := Z.to_nat 1234567.
Lemma sample_uptime_Z : Z.of_nat sample_uptime = 1234567.
Proof. by apply Z2Nat.id. Qed.
#[local] Opaque sample_uptime.

Lemma status_numbers_below_a_million_witness : ∃ r,
  decode_reply (Encode (enc_Response sample_text 4242 sample_uptime (answer ping_request (PStatus "/run/s" (mkDiagnostics 0 0 0 0)
    (mkReverseDiagnostics 0 0 0 0)))) +++ "") = Some r ∧
  value_text "pid" (rp_Result r) = Itoa 4242 ∧ value_text "uptimeMillis" (rp_Result r) ≠ Itoa 1234567.
Proof.
  destruct (status_numbers_below_a_million sample_text 4242 sample_uptime ping_request "/run/s" "" (mkDiagnostics 0 0 0 0)
    (mkReverseDiagnostics 0 0 0 0)) as (r & E & _ & _ & _ & Hp & Hu).
  { split_and!; [done|unfold fits, nat_codec; rewrite sample_uptime_Z; lia|done..]. }
  exists r. split; [exact E|]. split; [apply Hp; lia|]. rewrite sample_uptime_Z in Hu. intros H. apply Hu in H. lia.
Defined.
