(* ===== verification/Output.v ===== *)
(** * output.go: what --json prints

    The documents the commands hand to [writeJSON], as JSON, and the text that
    is printed of them: it reads back as the document. *)

From S2P Require Import Prelude Errors GoStrings Strconv ServerProtocol Json Codec Forwards Reverses Server Cli Custom Wire.

#[local] Open Scope string_scope.
#[local] Open Scope Z_scope.
#[local] Open Scope list_scope.

Section output.
Context (text : error → string) (pid uptime : nat).
#[local] Instance Forward_json : Codec Forward := Forward_codec text.
#[local] Instance Forward_json_ok : CodecOk Forward := Forward_codec_ok text.
#[local] Instance Reverse_json : Codec Reverses.Reverse := Reverse_codec text.
#[local] Instance Reverse_json_ok : CodecOk Reverses.Reverse := Reverse_codec_ok text.

(** A [map[string]string]. *)
Definition string_map (l : list (string * string)) : json := JObject (map_of ((λ kv, member (fst kv) (snd kv)) <$> l)).

(** The [map[string]any] of a response, nil where it has none, and a value of it. *)
Definition any_map (result : option payload) : json :=
  match result with
  | Some p => default JNull (to_any (norm (enc_payload text pid uptime p)))
  | None => JNull
  end.
Definition any_value (result : option payload) (key : string) : json :=
  match any_map result with JObject l => result_value key (Some l) | _ => JNull end.

Definition target_json (row : string * string * string) : json :=
  let '(transport, selector, details) := row in
  JObject [member "transport" transport; member "selector" selector; member "details" details].

Definition diagnostic_json (d : diagnostic) : json :=
  match d with
  | Text s => enc s
  | Flag b => enc b
  | ErrorText err => enc (text err)
  | ServerError e => enc_Error (error_body text e)
  | OfForwards d => enc d
  | OfReverses d => enc d
  | Hints l => enc l
  | ResultValue result key => any_value result key
  end.

(** The structs that results are decoded into; a removal's is the same for
    forwards and reverses. *)
Definition ForwardCreateResult_json (f : Forward) : json := JObject [member "forward" f].
Definition ForwardListResult_json (l : list Forward) : json := JObject [member "forwards" l].
Definition ReverseCreateResult_json (v : Reverses.Reverse) : json := JObject [member "reverse" v].
Definition ReverseListResult_json (l : list Reverses.Reverse) : json := JObject [member "reverses" l].
Definition RemoveResult_json (n : nat) : json := JObject [member "removed" n].
Definition devicesOutput_json (l : list Device) : json := JObject [member "devices" l].
Definition targetsOutput_json (rows : list (string * string * string)) (usbUnsupported : bool) : json :=
  JObject ([("targets", JArray (target_json <$> rows))] ++ omit_false "usbUnsupported" usbUnsupported).

Definition document_json (d : document) : json :=
  match d with
  | DForward f => ForwardCreateResult_json (default zero f)
  | DForwards l => ForwardListResult_json l
  | DReverse v => ReverseCreateResult_json (default zero v)
  | DReverses l => ReverseListResult_json l
  | DRemoved n => RemoveResult_json n
  | DDevices l => devicesOutput_json l
  | DTargets rows usbUnsupported => targetsOutput_json rows usbUnsupported
  | DResult result => any_map result
  | DStrings l => string_map l
  | DDiagnostics l => JObject (map_of ((λ kv, (fst kv, diagnostic_json (snd kv))) <$> l))
  end.

(** [writeJSON] *)
Definition json_text (d : document) : string := MarshalIndent (document_json d) +++ NL.

(** *** What is printed reads back *)

Definition result_small (result : option payload) : Prop :=
  match result with Some p => payload_fits text pid uptime p | None => True end.
Definition diagnostic_small (d : diagnostic) : Prop :=
  match d with OfForwards d => fits d | OfReverses d => fits d | ResultValue result _ => result_small result | _ => True end.
(** The counts are below 10^15. *)
Definition document_small (d : document) : Prop :=
  match d with
  | DForward (Some f) => fits f
  | DForwards l => fits l
  | DReverse (Some v) => fits v
  | DReverses l => fits l
  | DRemoved n => fits n
  | DResult result => result_small result
  | DDiagnostics l => Forall (λ kv, diagnostic_small (snd kv)) l
  | _ => True
  end.

Definition tame (n : nat) (j : json) : Prop := numbers_ok j = true ∧ (height j ≤ n)%nat.

Lemma tame_enc `{CodecOk A} (a : A) n : fits a → (levels A ≤ n)%nat → tame n (enc a).
Proof. intros Ha Hn. pose proof (enc_height a). split; [by apply clean_norm_norm, enc_clean|lia]. Qed.
Lemma tame_object n ms : Forall (λ kv, tame n kv.2) ms → tame (S n) (JObject ms).
Proof.
  intros H. split; [|apply height_object; eapply List.Forall_impl; [|exact H]; by intros kv []].
  cbn. apply forallb_forall. intros kv Hkv. rewrite List.Forall_forall in H. by apply H.
Qed.
Lemma tame_array n js : Forall (tame n) js → tame (S n) (JArray js).
Proof.
  intros H. split; cbn; [apply forallb_forall; intros j Hj; rewrite List.Forall_forall in H; by apply H|].
  apply le_n_S. induction H as [|j js [_ Hj] _ IH]; cbn; lia.
Qed.
Lemma tame_weaken n m j : (n ≤ m)%nat → tame n j → tame m j.
Proof. intros ? []. split; [done|lia]. Qed.

Lemma insert_key_Forall {A} (P : string * A → Prop) k v l : P (k, v) → Forall P l → Forall P (insert_key k v l).
Proof.
  intros Hk. induction 1 as [|[k' v'] l Hk' Hl IH]; cbn; [by repeat constructor|].
  repeat case_match; repeat constructor; auto.
Qed.
Lemma map_of_Forall {A} (P : string * A → Prop) l : Forall P l → Forall P (map_of l).
Proof.
  unfold map_of. assert (∀ m, Forall P m → Forall P l → Forall P (foldl (λ m kv, insert_key kv.1 kv.2 m) m l)) as H; [|by apply H].
  induction l as [|[k v] l IH]; intros m Hm; [done|]. intros [Hk Hl]%Forall_cons. apply IH; [by apply insert_key_Forall|done].
Qed.

Lemma any_map_tame result : result_small result → tame 5 (any_map result).
Proof.
  destruct result as [p|]; intros Hr; [|by split; cbn; [|lia]]. change (payload_fits text pid uptime p) in Hr.
  destruct (payload_clean text pid uptime p Hr) as [Hc Hh]. destruct (to_any_clean _ Hc) as (j & E & _ & Hj & Eh).
  unfold any_map. rewrite E. change (tame 5 j). split; [by apply clean_norm|]. by rewrite Eh, height_norm.
Qed.

Lemma any_value_tame result key : result_small result → tame 5 (any_value result key).
Proof.
  intros Hr. pose proof (any_map_tame result Hr) as [Hn Hh]. unfold any_value.
  assert (tame 5 JNull) as Hnull by (by split; cbn; [|lia]). destruct (any_map result) as [|b|s|s|l|l]; try done.
  unfold result_value. cbn [default]. unfold id. destruct (list_find (λ kv : string * json, kv.1 = key) l) as [[i kv]|] eqn:E; [|done].
  apply list_find_Some in E as (Hi & _). apply list_elem_of_lookup_2 in Hi. cbn in Hn, Hh. split.
  - apply (proj1 (forallb_forall _ _) Hn). by apply list_elem_of_In.
  - assert (height kv.2 ≤ max_list ((λ kv, height kv.2) <$> l))%nat; [|lia].
    apply max_list_elem_of_le. by apply (list_elem_of_fmap_2 (λ kv : string * json, height kv.2)).
Qed.

Lemma diagnostic_tame d : diagnostic_small d → tame 5 (diagnostic_json d).
Proof.
  destruct d as [s|b|e|e|d|d|l|r key]; cbn [diagnostic_json diagnostic_small]; intros H; try (apply tame_enc; [done|cbn; lia]).
  - change (enc_Error _) with (enc (Codec := Error_codec) (error_body text e)).
    apply (tame_enc (H := Error_codec_ok)); [done|cbn; lia].
  - apply tame_enc; [by apply Forall_true|cbn; lia].
  - by apply any_value_tame.
Qed.

Lemma document_tame d : document_small d → tame 6 (document_json d).
Proof.
  assert (∀ (A : Type) (C : Codec A) (H : CodecOk A) tag (a : A), fits a → (levels A ≤ 5)%nat → tame 6 (JObject [member tag a])) as Hone
    by (intros A C H tag a Ha Hl; apply tame_object; constructor; [by apply tame_enc|done]).
  destruct d as [f|l|v|l|n|l|rows u|r|l|l]; cbn [document_json document_small]; intros Hd.
  - apply (Hone _ _ Forward_json_ok); [by destruct f|cbn; lia].
  - apply (Hone _ _ (list_codec_ok (H := Forward_json_ok))); [done|cbn; lia].
  - apply (Hone _ _ Reverse_json_ok); [by destruct v|cbn; lia].
  - apply (Hone _ _ (list_codec_ok (H := Reverse_json_ok))); [done|cbn; lia].
  - apply (Hone _ _ nat_codec_ok); [done|cbn; lia].
  - apply (Hone _ _ (list_codec_ok (H := Device_codec_ok))); [by apply Forall_true|cbn; lia].
  - apply tame_object, Forall_app_2; [apply Forall_singleton|destruct u; cbn; [apply Forall_singleton; by split; cbn; [|lia]|apply Forall_nil_2]].
    apply (tame_weaken 2); [lia|]. apply tame_array, Forall_fmap. induction rows as [|[[? ?] ?] rows IH]; constructor; [|done].
    apply tame_object. repeat constructor; cbn; lia.
  - apply (tame_weaken 5); [lia|]. by apply any_map_tame.
  - apply (tame_weaken 1); [lia|]. apply tame_object, map_of_Forall, Forall_fmap. induction l as [|kv l IH]; constructor; [|done].
    by split; cbn; [|lia].
  - apply tame_object, map_of_Forall, Forall_fmap. induction Hd as [|kv l Hk _ IH]; constructor; [by apply diagnostic_tame|done].
Qed.

(** Whatever a command prints for --json is one JSON document and a line
    end: it reads back as the document, up to invalid UTF-8 in its strings. *)
Theorem json_output_reads_back (d : document) : document_small d →
  decode_whole (json_text d) = Some (norm (document_json d)).
Proof.
  intros [Hn Hh]%document_tame. unfold json_text, decode_whole, MarshalIndent, print_indent.
  rewrite decode_pretty; [done|apply indent_spaces|by constructor|done|by eapply small_height|].
  rewrite <-(append_nil_r NL). apply ends_number_NL.
Qed.
End output.

(** ** Witness *)

Definition sample_targets : document :=
  DTargets [("tcp", "--addr 127.0.0.1:5555", "from ADB_GO_ADDR")] true.
Definition sample_output : string := json_text (λ _, "") 1 2 sample_targets.

Lemma json_output_reads_back_witness :
  decode_whole sample_output = Some (JObject
    [("targets", JArray [JObject [("transport", JString "tcp"); ("selector", JString "--addr 127.0.0.1:5555"); ("details", JString "from ADB_GO_ADDR")]]);
     ("usbUnsupported", JBool true)]).
Proof. apply (json_output_reads_back (λ _, "") 1 2 sample_targets). exact I. Defined.
