(* ===== verification/Commands.v ===== *)
(** * cmd/adb-go/internal/custom: the commands of the server, and Run

    forward.go, reverse.go, devices.go, targets.go, server.go and systemd.go,
    [runVersion] and [Run] of custom.go.  At the end the two properties of all
    commands: the verbosity changes nothing but standard error, and a usage
    error has done nothing. *)

From S2P Require Import Prelude Errors GoStrings Strconv Text Address Usb ServerProtocol Forwards Reverses Server Cli Usage Custom.

#[local] Open Scope string_scope.
#[local] Open Scope Z_scope.
#[local] Open Scope list_scope.

(** ** Formatting numbers *)

Fixpoint hex_loop (fuel : nat) (z : Z) (acc : string) : string :=
  match fuel with
  | O => acc
  | S fuel =>
      let acc := String (digit36 (z mod 16)) acc in
      if z / 16 =? 0 then acc else hex_loop fuel (z / 16) acc
  end.
Definition zeros (width : nat) (s : string) : string :=
  string_of_list_ascii (repeat "0"%char (width - String.length s)) +++ s.
Definition format_03d (z : Z) : string := zeros 3 (Itoa z).
Definition format_04x (z : Z) : string := zeros 4 (hex_loop 16 z "").
Definition format_sharp_02x (z : Z) : string := "0x" +++ zeros 2 (hex_loop 16 z "").

(** ** Results of the server

    [decodeServerResult] of a result without the key is the zero value. *)

Definition decode_forward (r : option payload) : option Forwards.Forward :=
  match r with Some (PForward f) => Some f | _ => None end.
Definition decode_forwards (r : option payload) : list Forwards.Forward :=
  match r with Some (PForwards l) => l | _ => [] end.
Definition decode_reverse (r : option payload) : option Reverses.Reverse :=
  match r with Some (PReverse v) => Some v | _ => None end.
Definition decode_reverses (r : option payload) : list Reverses.Reverse :=
  match r with Some (PReverses l) => l | _ => [] end.
Definition decode_removed (r : option payload) : nat := match r with Some (PRemoved n) => n | _ => 0%nat end.
Definition decode_devices (r : option payload) : list Device := match r with Some (PDevices l) => l | _ => [] end.

Definition state_text (s : State) : string :=
  match s with Listening => "listening" | Degraded => "degraded" | Stopped => "stopped" end.

(** ** forward.go: endpoints *)

Definition parseForwardTCPPort (kind value : string) : res Z :=
  if negb (HasPrefix value "tcp:")
  then Err (Errorf "unsupported %s forward target %q; only tcp:PORT is supported" [AStr kind; AStr value]) else
  let portText := TrimSpace (TrimPrefix value "tcp:") in
  if (portText =? "")%string then Err (Errorf "missing %s tcp port in %q" [AStr kind; AStr value]) else
  match Atoi portText with
  | Err _ => Err (Errorf "invalid %s tcp port in %q" [AStr kind; AStr value])
  | Ok port =>
      if (port <? 0) || (65535 <? port) || (kind =? "remote")%string && (port =? 0)
      then Err (Errorf "%s tcp port %d out of range" [AStr kind; AInt port])
      else Ok port
  end.

Definition parseForwardLocalTCP (value : string) : res string :=
  port ← parseForwardTCPPort "local" value; Ok ("127.0.0.1:" +++ Itoa port).
Definition parseForwardRemoteTCP (value : string) : res Address.ForwardTarget :=
  port ← parseForwardTCPPort "remote" value; ForwardTCP port.

Definition normalizeForwardTargetTCPAddr (addr : string) : res string :=
  let addr := TrimSpace addr in
  if (addr =? "")%string then Err (Errorf "background forward TCP target address is empty" []) else
  match SplitHostPort addr with
  | Ok (host, port) => Ok (JoinHostPort host (if (port =? "")%string then "5555" else port))
  | Err _ =>
      if (1 <? CountByte addr COLON)%nat && negb (HasPrefix addr "[") then Ok (JoinHostPort addr "5555")
      else if (CountByte addr COLON =? 1)%nat then
        match Cut addr ":" with
        | Some (h, p) => if negb (p =? "")%string then Ok addr else Ok (JoinHostPort h "5555")
        | None => Ok addr                     (* not reached: there is a colon *)
        end
      else Ok (JoinHostPort addr "5555")
  end.

Section commands.
Context {W Key : Type} {host : Host W Key} {env : Settings Key}.

Definition forwardServerSocketPath (configured : string) : res string :=
  if negb (configured =? "")%string then Ok configured else DefaultSocketPath.

(** A failed request, or a response that is not OK, of command [command]. *)
Definition print_server_error (command action socketPath too_old : string) (r : res Response) : Cmd W () :=
  match r with
  | Err err =>
      fprintfV Stderr ("adb-go " +++ command +++ ": cannot %s: adb-gos is not running or socket is unavailable at %s: %v\n")
        [AStr action; AStr socketPath] err ;;
      fprintf Stderr "Hint: start the server process with `adb-go server service start` or inspect it with `adb-go server doctor`.\n" []
  | Ok resp =>
      match rs_Error resp with
      | Some e =>
          fprintfV Stderr ("adb-go " +++ command +++ ": cannot %s: server error %s: %s\n") [AStr action; AStr (Code e)] (ErrorMessage e) ;;
          (if negb (too_old =? "")%string && (Code e =? ErrorUnknownCommand)%string then fprintf Stderr too_old [] else mret ())
      | None => fprintf Stderr ("adb-go " +++ command +++ ": cannot %s: server returned an unsuccessful response\n") [AStr action]
      end
  end.
Definition printForwardServerError (action socketPath : string) (r : res Response) : Cmd W () :=
  print_server_error "forward" action socketPath
    "Hint: adb-gos is too old for persistent forwarding; upgrade adb-gos or inspect it with `adb-go server doctor`.\n" r.
Definition printReverseServerError (action socketPath : string) (r : res Response) : Cmd W () :=
  print_server_error "reverse" action socketPath
    "Hint: adb-gos is too old for persistent reverse forwarding; upgrade adb-gos or inspect it with `adb-go server doctor`.\n" r.

(** A request whose answer is handled by [ok]. *)
Definition server_request (print_error : res Response → Cmd W ()) (socketPath command : string) (p : params)
    (ok : option payload → Cmd W Z) : Cmd W Z :=
  r ← cliserver_Send socketPath command p;
  match r with
  | Ok resp => if rs_OK resp then ok (rs_Result resp) else print_error r ;; mret 1
  | Err _ => print_error r ;; mret 1
  end.

(** Rows as JSON, plain or aligned. *)
Definition write_table (command : string) (plainOutput : bool) (headers : list string) (rows : list (list string)) : Cmd W Z :=
  err ← (if plainOutput then writePlainTable stdout_err headers rows else writeAlignedTable stdout_err headers rows);
  match err with
  | Some err => fprintfV Stderr ("adb-go " +++ command +++ ": write table: %v\n") [] err ;; mret 1
  | None => mret 0
  end.

(** ** forward.go: the server's forwards *)

Definition runForwardServerCreate (socketPath localAddr remoteService targetAddr : string) (norebind jsonOutput : bool)
    (out : outputPolicy) : Cmd W Z :=
  Verbosef out "forward sending server create request to %s for %s -> %s via tcp:%s (norebind=%t)\n"
    [AStr socketPath; AStr localAddr; AStr remoteService; AStr targetAddr; AStr (bool_text norebind)] ;;
  server_request (printForwardServerError "create background forward" socketPath) socketPath CommandForwardCreate
    (ForwardCreate (mkForwardCreate (mkLocal "tcp" localAddr) remoteService (ServerProtocol.mkTarget "tcp" targetAddr) norebind))
    (λ result,
      let f := decode_forward result in
      if jsonOutput then encode_result "forward" (DForward f) else
      let field g := AStr (default "" (g <$> f)) in
      Infof out "Forward %s listening on %s -> %s via tcp:%s\n"
        [field fw_ID; field (λ f, fl_Address (fw_Local f)); field fw_Remote; field (λ f, tg_Address (fw_Target f))] ;;
      Infof out "Lifecycle: in-memory server-owned forward; it is removed by --remove/--remove-all or adb-gos shutdown.\n" [] ;;
      mret 0).

Definition forward_row (f : Forwards.Forward) : list string :=
  [fw_ID f; state_text (fw_State f); fl_Address (fw_Local f); fw_Remote f;
   tg_Transport (fw_Target f) +++ ":" +++ tg_Address (fw_Target f); Itoa (Z.of_nat (fw_ActiveConnections f));
   match fw_LastError f with None => "-" | Some e => error_text e end].

Definition runForwardServerList (socketPath : string) (jsonOutput plainOutput : bool) : Cmd W Z :=
  server_request (printForwardServerError "list background forwards" socketPath) socketPath CommandForwardList NoParams
    (λ result,
      let l := decode_forwards result in
      if jsonOutput then encode_result "forward" (DForwards l) else
      match l with
      | [] =>
          fprintf Stdout "No server-owned forwards.\n" [] ;;
          fprintf Stdout "Create one with: adb-go forward --background --addr HOST[:PORT] tcp:LOCAL_PORT tcp:REMOTE_PORT\n" [] ;;
          mret 0
      | _ => write_table "forward" plainOutput ["ID"; "STATE"; "LOCAL"; "REMOTE"; "TARGET"; "ACTIVE"; "LAST_ERROR"] (forward_row <$> l)
      end).

Definition runForwardServerRemove (socketPath : string) (p : ForwardRemoveParams) (jsonOutput : bool) (out : outputPolicy) : Cmd W Z :=
  server_request (printForwardServerError "remove background forward" socketPath) socketPath CommandForwardRemove (ForwardRemove p)
    (λ result,
      let n := decode_removed result in
      if jsonOutput then encode_result "forward" (DRemoved n) else
      Infof out "Removed %d server-owned forward(s).\n" [AInt (Z.of_nat n)] ;; mret 0).

Definition runForwardServerRemoveAll (socketPath : string) (jsonOutput : bool) (out : outputPolicy) : Cmd W Z :=
  server_request (printForwardServerError "remove all background forwards" socketPath) socketPath CommandForwardRemoveAll NoParams
    (λ result,
      let n := decode_removed result in
      if jsonOutput then encode_result "forward" (DRemoved n) else
      Infof out "Removed %d server-owned forward(s).\n" [AInt (Z.of_nat n)] ;; mret 0).

Definition server_flags (jsonOutput : bool) : list (string * flag_value) :=
  connection_flags ++
  [("socket", VString ""); ("background", VBool false); ("norebind", VBool false); ("list", VBool false);
   ("remove", VString ""); ("remove-id", VString ""); ("remove-all", VBool false); ("json", VBool jsonOutput);
   ("plain", VBool false)].

(** The number of server operations asked for. *)
Definition serverOps (fs : FlagSet) : nat :=
  length (List.filter id
    [get_bool fs "background"; get_bool fs "list"; negb (TrimSpace (get_string fs "remove") =? "")%string;
     negb (TrimSpace (get_string fs "remove-id") =? "")%string; get_bool fs "remove-all"]).

(** The foreground session, behind the connection. *)
Definition forward_foreground (localAddr : string) (remote : Address.ForwardTarget) (remoteService : string) (out : outputPolicy) : Cmd W Z :=
  Verbosef out "forward starting foreground listener and ADB service bridge\n" [] ;;
  forward ← act (startForward localAddr remote);
  match forward with
  | Err err => command_error "forward" err
  | Ok addr =>
      Infof out "Forwarding %s -> %s. Press Ctrl+C to stop.\n" [AStr addr; AStr remoteService] ;;
      err ← act forward_Wait;
      code ← command_result "forward" err;
      act forward_Close ;; mret code
  end.

(** Creating a forward, in the foreground or in the server. *)
Definition forward_create (fs : FlagSet) (socketPath : string) (out : outputPolicy) : Cmd W Z :=
  let wrong := usage_errorV forwardUsage "adb-go forward: %v\n\n" [] in
  match target fs with
  | Err err => wrong err
  | Ok t =>
      match fs_Args fs with
      | [local; remoteService] =>
          match parseForwardLocalTCP local with
          | Err err => wrong err
          | Ok localAddr =>
              match parseForwardRemoteTCP remoteService with
              | Err err => wrong err
              | Ok remote =>
                  if get_bool fs "background" then
                    if ct_usb t || negb (length (ct_auth t) =? 0)%nat then
                      fprintf Stderr "adb-go forward: --background currently supports explicit unauthenticated TCP targets only; USB targets and --auth-key persistence are not implemented\n" [] ;;
                      mret 2
                    else
                    match normalizeForwardTargetTCPAddr (ct_tcpAddr t) with
                    | Err err => wrong err
                    | Ok targetAddr =>
                        runForwardServerCreate socketPath localAddr remoteService targetAddr (get_bool fs "norebind")
                          (get_bool fs "json") out
                    end
                  else
                    Verbosef out "forward parsed local listener %s and remote service %s\n" [AStr localAddr; AStr remoteService] ;;
                    with_client "forward" t out (forward_foreground localAddr remote remoteService out)
              end
          end
      | _ => usage_error forwardUsage "adb-go forward: requires exactly LOCAL and REMOTE targets\n\n" []
      end
  end.

(** A server operation takes no arguments. *)
Definition no_args (usage command : string) (fs : FlagSet) (k : Cmd W Z) : Cmd W Z :=
  if negb (NArg fs =? 0)%nat
  then usage_error usage ("adb-go " +++ command +++ ": unexpected arguments %q\n\n") [AStrs (fs_Args fs)] else k.

Definition forward_operation (fs : FlagSet) (socketPath : string) (out : outputPolicy) : Cmd W Z :=
  let jsonOutput := get_bool fs "json" in
  let removeFlag := get_string fs "remove" in
  if get_bool fs "list" then
    no_args forwardUsage "forward --list" fs (runForwardServerList socketPath jsonOutput (get_bool fs "plain"))
  else if negb (TrimSpace removeFlag =? "")%string then
    no_args forwardUsage "forward --remove" fs (
      match parseForwardLocalTCP removeFlag with
      | Err err => usage_errorV forwardUsage "adb-go forward: %v\n\n" [] err
      | Ok localAddr => runForwardServerRemove socketPath (mkForwardRemove "" (Some (mkLocal "tcp" localAddr))) jsonOutput out
      end)
  else if negb (TrimSpace (get_string fs "remove-id") =? "")%string then
    no_args forwardUsage "forward --remove-id" fs
      (runForwardServerRemove socketPath (mkForwardRemove (TrimSpace (get_string fs "remove-id")) None) jsonOutput out)
  else if get_bool fs "remove-all" then
    no_args forwardUsage "forward --remove-all" fs (runForwardServerRemoveAll socketPath jsonOutput out)
  else forward_create fs socketPath out.

(** The checks that forward and reverse share. *)
Definition operation_checks (usage command : string) (fs : FlagSet) (k : Cmd W Z) : Cmd W Z :=
  if get_bool fs "json" && get_bool fs "plain" then
    usage_error usage ("adb-go " +++ command +++ ": choose only one output mode: --json or --plain\n\n") []
  else if (1 <? serverOps fs)%nat then
    usage_error usage ("adb-go " +++ command +++ ": choose only one server operation: --background, --list, --remove, --remove-id, or --remove-all\n\n") []
  else if get_bool fs "norebind" && negb (get_bool fs "background") then
    usage_error usage ("adb-go " +++ command +++ ": --norebind is only meaningful with --background\n\n") []
  else k.

Definition runForwardWithOptions (args : list string) (opts : cliOptions) : Cmd W Z :=
  let out := newOutputPolicy opts in
  fs ← fs_Parse forwardUsage (server_flags (opt_JSON opts)) args;
  match fs with
  | None => mret 2
  | Some fs =>
      operation_checks forwardUsage "forward" fs (
        if (0 <? serverOps fs)%nat then
          match forwardServerSocketPath (TrimSpace (get_string fs "socket")) with
          | Err err => fprintfV Stderr "adb-go forward: %v\n" [] err ;; mret 1
          | Ok socketPath => forward_operation fs socketPath out
          end
        else forward_operation fs "" out)
  end.

(** ** reverse.go *)

Definition runReverseServerCreate (socketPath remoteService localService targetAddr : string) (norebind jsonOutput : bool)
    (out : outputPolicy) : Cmd W Z :=
  Verbosef out "reverse sending server create request to %s for %s -> %s via tcp:%s (norebind=%t)\n"
    [AStr socketPath; AStr remoteService; AStr localService; AStr targetAddr; AStr (bool_text norebind)] ;;
  server_request (printReverseServerError "create background reverse" socketPath) socketPath CommandReverseCreate
    (ReverseCreate (mkReverseCreate remoteService localService (ServerProtocol.mkTarget "tcp" targetAddr) norebind))
    (λ result,
      let v := decode_reverse result in
      if jsonOutput then encode_result "reverse" (DReverse v) else
      let field g := AStr (default "" (g <$> v)) in
      Infof out "Reverse %s listening on device %s -> host %s via tcp:%s\n"
        [field rv_ID; field rv_Remote; field rv_Local; field (λ v, tg_Address (rv_Target v))] ;;
      Infof out "Lifecycle: in-memory server-owned reverse; it is removed by --remove/--remove-all or adb-gos shutdown.\n" [] ;;
      mret 0).

Definition reverse_row (v : Reverses.Reverse) : list string :=
  [rv_ID v; state_text (rv_State v); rv_Remote v; rv_Local v;
   tg_Transport (rv_Target v) +++ ":" +++ tg_Address (rv_Target v); Itoa (Z.of_nat (rv_ActiveConnections v));
   match rv_LastError v with None => "-" | Some e => error_text e end].

Definition runReverseServerList (socketPath : string) (jsonOutput plainOutput : bool) : Cmd W Z :=
  server_request (printReverseServerError "list background reverses" socketPath) socketPath CommandReverseList NoParams
    (λ result,
      let l := decode_reverses result in
      if jsonOutput then encode_result "reverse" (DReverses l) else
      match l with
      | [] =>
          fprintf Stdout "No server-owned reverse forwards.\n" [] ;;
          fprintf Stdout "Create one with: adb-go reverse --background --addr HOST[:PORT] tcp:REMOTE_PORT tcp:LOCAL_PORT\n" [] ;;
          mret 0
      | _ => write_table "reverse" plainOutput ["ID"; "STATE"; "REMOTE"; "LOCAL"; "TARGET"; "ACTIVE"; "LAST_ERROR"] (reverse_row <$> l)
      end).

Definition runReverseServerRemove (socketPath : string) (p : ReverseRemoveParams) (jsonOutput : bool) (out : outputPolicy) : Cmd W Z :=
  server_request (printReverseServerError "remove background reverse" socketPath) socketPath CommandReverseRemove (ReverseRemove p)
    (λ result,
      let n := decode_removed result in
      if jsonOutput then encode_result "reverse" (DRemoved n) else
      Infof out "Removed %d server-owned reverse(s).\n" [AInt (Z.of_nat n)] ;; mret 0).

Definition runReverseServerRemoveAll (socketPath : string) (jsonOutput : bool) (out : outputPolicy) : Cmd W Z :=
  server_request (printReverseServerError "remove all background reverses" socketPath) socketPath CommandReverseRemoveAll NoParams
    (λ result,
      let n := decode_removed result in
      if jsonOutput then encode_result "reverse" (DRemoved n) else
      Infof out "Removed %d server-owned reverse(s).\n" [AInt (Z.of_nat n)] ;; mret 0).

(** The foreground session; a deferred [Close] where [Wait] fails. *)
Definition reverse_foreground (remote : ReverseDeviceEndpoint) (local : ReverseHostEndpoint) (arg0 arg1 : string)
    (out : outputPolicy) : Cmd W Z :=
  Verbosef out "reverse registering device-side listener and host bridge\n" [] ;;
  err ← act (startReverse remote local);
  match err with
  | Some err => command_error "reverse" err
  | None =>
      Infof out "Reverse forwarding %s -> host %s. Press Ctrl+C to stop and remove the device-side listener.\n" [AStr arg0; AStr arg1] ;;
      err ← act reverse_Wait;
      match err with
      | Some err => code ← command_error "reverse" err; act reverse_Close ;; mret code
      | None => err ← act reverse_Close; command_result "reverse" err
      end
  end.

Definition reverse_create (fs : FlagSet) (out : outputPolicy) : Cmd W Z :=
  let wrong := usage_errorV reverseUsage "adb-go reverse: %v\n\n" [] in
  match fs_Args fs with
  | [remoteService; localService] =>
      match target fs with
      | Err err => wrong err
      | Ok t =>
          match ParseReverseDeviceEndpoint remoteService with
          | Err err => wrong err
          | Ok remote =>
              match ParseReverseHostEndpoint localService with
              | Err err => wrong err
              | Ok local =>
                  if get_bool fs "background" then
                    if ct_usb t || negb (length (ct_auth t) =? 0)%nat then
                      fprintf Stderr "adb-go reverse: --background currently supports explicit unauthenticated TCP targets only; USB targets and --auth-key persistence are not implemented\n" [] ;;
                      mret 2
                    else
                    match normalizeForwardTargetTCPAddr (ct_tcpAddr t) with
                    | Err err => wrong err
                    | Ok targetAddr =>
                        match forwardServerSocketPath (TrimSpace (get_string fs "socket")) with
                        | Err err => fprintfV Stderr "adb-go reverse: %v\n" [] err ;; mret 1
                        | Ok socketPath =>
                            runReverseServerCreate socketPath remoteService localService targetAddr (get_bool fs "norebind")
                              (get_bool fs "json") out
                        end
                    end
                  else
                    Verbosef out "reverse parsed device listener %s and host target %s\n" [AStr remoteService; AStr localService] ;;
                    with_client "reverse" t out (reverse_foreground remote local remoteService localService out)
              end
          end
      end
  | _ => usage_error reverseUsage "adb-go reverse: requires exactly REMOTE and LOCAL targets\n\n" []
  end.

Definition reverse_operation (fs : FlagSet) (socketPath : string) (out : outputPolicy) : Cmd W Z :=
  let jsonOutput := get_bool fs "json" in
  let removeFlag := get_string fs "remove" in
  if get_bool fs "list" then
    no_args reverseUsage "reverse --list" fs (runReverseServerList socketPath jsonOutput (get_bool fs "plain"))
  else if negb (TrimSpace removeFlag =? "")%string then
    no_args reverseUsage "reverse --remove" fs (
      match ParseReverseDeviceEndpoint removeFlag with
      | Err err => usage_errorV reverseUsage "adb-go reverse: %v\n\n" [] err
      | Ok _ => runReverseServerRemove socketPath (mkReverseRemove "" (Some (TrimSpace removeFlag))) jsonOutput out
      end)
  else if negb (TrimSpace (get_string fs "remove-id") =? "")%string then
    no_args reverseUsage "reverse --remove-id" fs
      (runReverseServerRemove socketPath (mkReverseRemove (TrimSpace (get_string fs "remove-id")) None) jsonOutput out)
  else if get_bool fs "remove-all" then
    no_args reverseUsage "reverse --remove-all" fs (runReverseServerRemoveAll socketPath jsonOutput out)
  else reverse_create fs out.

Definition runReverseWithOptions (args : list string) (opts : cliOptions) : Cmd W Z :=
  let out := newOutputPolicy opts in
  fs ← fs_Parse reverseUsage (server_flags (opt_JSON opts)) args;
  match fs with
  | None => mret 2
  | Some fs =>
      operation_checks reverseUsage "reverse" fs (
        if (0 <? serverOps fs)%nat then
          match forwardServerSocketPath (TrimSpace (get_string fs "socket")) with
          | Err err => fprintfV Stderr "adb-go reverse: %v\n" [] err ;; mret 1
          | Ok socketPath => reverse_operation fs socketPath out
          end
        else reverse_create fs out)
  end.

(** ** devices.go *)

Definition printDevicesServerError (socketPath : string) (r : res Response) : Cmd W () :=
  match r with
  | Err err =>
      fprintfV Stderr "adb-go devices: cannot list server-known devices: adb-gos is not running or socket is unavailable at %s: %v\n"
        [AStr socketPath] err ;;
      fprintf Stderr "Hint: start the server process with `adb-go server service start` or inspect it with `adb-go server doctor`.\n" []
  | Ok resp =>
      match rs_Error resp with
      | Some e => fprintfV Stderr "adb-go devices: cannot list server-known devices: server error %s: %s\n" [AStr (Code e)] (ErrorMessage e)
      | None => fprintf Stderr "adb-go devices: cannot list server-known devices: server returned an unsuccessful response\n" []
      end
  end.

Definition deviceTableRows (devices : list Device) : list (list string) :=
  (λ d, [Serial d; dv_State d; dv_Transport d; if (dv_Address d =? "")%string then "-" else dv_Address d]) <$> devices.

Definition runDevicesWithJSON (args : list string) (jsonOutput : bool) : Cmd W Z :=
  fs ← fs_Parse devicesUsage [("socket", VString ""); ("json", VBool jsonOutput); ("plain", VBool false)] args;
  match fs with
  | None => mret 2
  | Some fs =>
      no_args devicesUsage "devices" fs (
        if get_bool fs "json" && get_bool fs "plain"
        then usage_error devicesUsage "adb-go devices: choose only one output mode: --json or --plain\n\n" [] else
        match forwardServerSocketPath (TrimSpace (get_string fs "socket")) with   (* devicesServerSocketPath is the same *)
        | Err err => fprintfV Stderr "adb-go devices: %v\n" [] err ;; mret 1
        | Ok socketPath =>
            server_request (printDevicesServerError socketPath) socketPath CommandDeviceList NoParams (λ result,
              let devices := decode_devices result in
              if get_bool fs "json" then encode_result "devices" (DDevices devices) else
              let headers := ["SERIAL"; "STATE"; "TRANSPORT"; "ADDRESS"] in
              let rows := deviceTableRows devices in
              if get_bool fs "plain" then write_table "devices" true headers rows else
              match rows with
              | [] =>
                  fprintf Stdout "No server-known devices.\n" [] ;;
                  fprintf Stdout "The server is reachable, but it has no registered devices. Use `adb-go targets` to see local connection targets.\n" [] ;;
                  mret 0
              | _ => write_table "devices" false headers rows
              end)
        end)
  end.

(** ** targets.go *)

Definition target_row (t : TCPTarget) : string * string * string :=
  ("tcp", "--addr " +++ tt_Addr t, "scanned localhost emulator port" +++ (if tt_AuthRequired t then ", auth required" else "")).
Definition usb_row (d : USBDevice) : string * string * string :=
  ("usb", "--usb-path " +++ ud_DevicePath d,
   "bus=" +++ format_03d (ud_BusNumber d) +++ " device=" +++ format_03d (ud_DeviceNumber d) +++
   " vid:pid=" +++ format_04x (ud_VendorID d) +++ ":" +++ format_04x (ud_ProductID d) +++
   " interface=" +++ Itoa (ud_InterfaceNumber d) +++ " endpoints=in:" +++ format_sharp_02x (ud_BulkInEndpoint d) +++
   ",out:" +++ format_sharp_02x (ud_BulkOutEndpoint d)).

Definition print_targets (rows : list (string * string * string)) (usbUnsupported jsonOutput plainOutput : bool) : Cmd W Z :=
  if jsonOutput then encode_result "targets" (DTargets rows usbUnsupported) else
  match rows with
  | [] =>
      fprintf Stdout "No adb-go connection targets found.\n" [] ;;
      fprintf Stdout "TCP targets are explicit: pass --addr HOST[:PORT], set ADB_GO_ADDR, or use targets --scan for local emulators.\n" [] ;;
      fprintf Stdout (if usbUnsupported then "USB target discovery is Linux-only in this version.\n"
                      else "USB target discovery requires an ADB-capable device visible under /dev/bus/usb and sufficient permissions.\n") [] ;;
      mret 0
  | _ => write_table "targets" plainOutput ["TRANSPORT"; "SELECTOR"; "DETAILS"] ((λ '(t, s, d), [t; s; d]) <$> rows)
  end.

Definition runTargetsWithJSON (args : list string) (jsonOutput : bool) : Cmd W Z :=
  fs ← fs_Parse targetsUsage [("scan", VBool false); ("json", VBool jsonOutput); ("plain", VBool false)] args;
  match fs with
  | None => mret 2
  | Some fs =>
      if negb (NArg fs =? 0)%nat then usage_error targetsUsage "adb-go targets: unexpected arguments\n\n" [] else
      if get_bool fs "json" && get_bool fs "plain"
      then usage_error targetsUsage "adb-go targets: choose only one output mode: --json or --plain\n\n" [] else
      let addr := TrimSpace ADB_GO_ADDR in
      let from_env := if negb (addr =? "")%string then [("tcp", "--addr " +++ addr, "from ADB_GO_ADDR")] else [] in
      scanned ← (if get_bool fs "scan" then act scanTCPTargets else mret (Ok []));
      match scanned with
      | Err err => fprintfV Stderr "adb-go targets: scan TCP targets: %v\n" [] err ;; mret 1
      | Ok scanned =>
          devices ← act listUSBDevices;
          let rows := from_env ++ (target_row <$> scanned) in
          match devices with
          | Ok devices => print_targets (rows ++ (usb_row <$> devices)) false (get_bool fs "json") (get_bool fs "plain")
          | Err err =>
              if errors_Is err client_ErrUnsupported then print_targets rows true (get_bool fs "json") (get_bool fs "plain")
              else if os_IsNotExist err then print_targets rows false (get_bool fs "json") (get_bool fs "plain")
              else fprintfV Stderr "adb-go targets: list USB devices: %v\n" [] err ;; mret 1
          end
      end
  end.

(** ** systemd.go *)

Definition adbGosSystemdUnit (adbGosPath socketPath : string) : list string :=
  ["[Unit]"; "Description=adb-go server"; ""; "[Service]"; "Type=simple";
   "ExecStart=" +++ strconv_Quote adbGosPath +++ " -socket " +++ strconv_Quote socketPath;
   "Restart=on-failure"; "RestartSec=2s"; ""; "[Install]"; "WantedBy=default.target"; ""].

Definition filepath_Dir (path : string) : string :=
  match LastIndexByte path "/"%char with Some i => Clean (str_take (S i) path) | None => "." end.

Definition resolveADBGosPath (configured : string) : res string :=
  if negb (configured =? "")%string then
    match filepath_Abs configured with
    | Err err => Err (ErrorfW "resolve adb-gos path: %w" [] err)
    | Ok abs => Ok abs
    end
  else
  match exec_LookPath "adb-gos" with
  | Ok found => filepath_Abs found
  | Err _ =>
      match os_Executable with
      | Err _ => Err (Errorf "locate adb-gos: adb-gos is not on PATH and current executable path is unavailable" [])
      | Ok exe =>
          let candidate := filepath_Join [filepath_Dir exe; "adb-gos"] in
          match os_Stat candidate with
          | Ok _ => Ok candidate
          | Err _ => Err (Errorf "locate adb-gos: pass --adb-gos PATH or install adb-gos next to adb-go" [])
          end
      end
  end.

Definition systemdUserUnitDir (configured : string) : res string :=
  if negb (configured =? "")%string then filepath_Abs configured else
  if negb (XDG_CONFIG_HOME =? "")%string then Ok (filepath_Join [XDG_CONFIG_HOME; "systemd"; "user"]) else
  match os_UserHomeDir with
  | Err err => Err (ErrorfW "locate systemd user unit directory: %w" [] err)
  | Ok home => Ok (filepath_Join [filepath_Join [home; ".config"]; "systemd"; "user"])
  end.

Definition writeServerServiceUnit (unitDir adbGosPath socketPath : string) : Cmd W (res string) :=
  let unitPath := filepath_Join [unitDir; "adb-gos.service"] in
  err ← act (os_MkdirAll unitDir);
  match err with
  | Some err => mret (Err (ErrorfW "create systemd user unit directory: %w" [] err))
  | None =>
      err ← act (os_WriteFile unitPath (Join (adbGosSystemdUnit adbGosPath socketPath) "
"));
      match err with
      | Some err => mret (Err (ErrorfW "write %s: %w" [AStr unitPath] err))
      | None => mret (Ok unitPath)
      end
  end.

(** [None] for the exit code 0, with the error printed otherwise. *)
Definition runSystemctlUser (systemctl : string) (args : list string) (k : Cmd W Z) : Cmd W Z :=
  let cmdArgs := "--user" :: args in
  r ← act (exec_CombinedOutput systemctl cmdArgs);
  match r with
  | (out, Some err) =>
      fprintfV Stderr "adb-go server service install: %s %s failed: %v" [AStr systemctl; AStr (Join cmdArgs " ")] err ;;
      (if negb (out =? "")%string then fprintf Stderr ": %s" [AStr (TrimSpace out)] else mret ()) ;;
      fprintf Stderr "\n" [] ;; mret 1
  | (_, None) => k
  end.

Definition systemctlUserOutput (systemctl : string) (args : list string) : Cmd W (res string) :=
  let cmdArgs := "--user" :: args in
  r ← act (exec_CombinedOutput systemctl cmdArgs);
  let '(out, err) := r in
  let status := TrimSpace out in
  mret (if negb (status =? "")%string then Ok status else
        match err with
        | Some err => Err (ErrorfW "%s %s failed: %w" [AStr systemctl; AStr (Join cmdArgs " ")] err)
        | None => Ok ""
        end).

(** The beginning of every service command. *)
Definition service_command (command usage what : string) (formal : list (string * flag_value)) (args : list string)
    (k : FlagSet → Cmd W Z) : Cmd W Z :=
  if negb (GOOS =? "linux")%string then
    fprintf Stderr ("adb-go server service " +++ command +++ ": systemd user " +++ what +++ " are supported on Linux only\n") [] ;; mret 1
  else
  fs ← fs_Parse usage formal args;
  match fs with
  | None => mret 2
  | Some fs => no_args usage ("server service " +++ command) fs (k fs)
  end.

(** The unit written by install and reinstall. *)
Definition install_unit (command : string) (fs : FlagSet) (socketPath : string) (k : string → Cmd W Z) : Cmd W Z :=
  let failed err := fprintfV Stderr ("adb-go server service " +++ command +++ ": %v\n") [] err ;; mret 1 in
  match resolveADBGosPath (TrimSpace (get_string fs "adb-gos")) with
  | Err err => failed err
  | Ok adbGosPath =>
      match systemdUserUnitDir (TrimSpace (get_string fs "unit-dir")) with
      | Err err => failed err
      | Ok unitDir =>
          unitPath ← writeServerServiceUnit unitDir adbGosPath socketPath;
          match unitPath with Err err => failed err | Ok unitPath => k unitPath end
      end
  end.

Definition runServerServiceInstall (args : list string) (socketPath : string) : Cmd W Z :=
  service_command "install" serverServiceInstallUsage "services"
    [("adb-gos", VString ""); ("unit-dir", VString ""); ("systemctl", VString "systemctl"); ("no-enable", VBool false)] args
    (λ fs, install_unit "install" fs socketPath (λ unitPath,
      let systemctl := get_string fs "systemctl" in
      if get_bool fs "no-enable" then
        fprintf Stdout "installed %s\n" [AStr unitPath] ;; fprintf Stdout "systemctl enable/start skipped\n" [] ;; mret 0
      else
        runSystemctlUser systemctl ["daemon-reload"] (
        runSystemctlUser systemctl ["enable"; "--now"; "adb-gos.service"] (
        fprintf Stdout "installed %s\n" [AStr unitPath] ;;
        fprintf Stdout "adb-gos.service enabled and started for the current user\n" [] ;; mret 0)))).

Definition runServerServiceReinstall (args : list string) (socketPath : string) : Cmd W Z :=
  service_command "reinstall" serverServiceReinstallUsage "services"
    [("adb-gos", VString ""); ("unit-dir", VString ""); ("systemctl", VString "systemctl")] args
    (λ fs, install_unit "reinstall" fs socketPath (λ unitPath,
      let systemctl := get_string fs "systemctl" in
      runSystemctlUser systemctl ["daemon-reload"] (
      runSystemctlUser systemctl ["enable"; "adb-gos.service"] (
      runSystemctlUser systemctl ["restart"; "adb-gos.service"] (
      fprintf Stdout "reinstalled %s\n" [AStr unitPath] ;;
      fprintf Stdout "adb-gos.service enabled and restarted for the current user\n" [] ;; mret 0))))).

Definition serviceLifecyclePastTense (command : string) : string :=
  if (command =? "start")%string then "started"
  else if (command =? "stop")%string then "stopped"
  else if (command =? "restart")%string then "restarted" else command.

Definition runServerServiceLifecycle (command : string) (args : list string) : Cmd W Z :=
  service_command command serverServiceLifecycleUsage "services" [("systemctl", VString "systemctl")] args
    (λ fs, runSystemctlUser (get_string fs "systemctl") [command; "adb-gos.service"] (
      fprintf Stdout "adb-gos.service %s\n" [AStr (serviceLifecyclePastTense command)] ;; mret 0)).

Definition runServerServiceStatus (args : list string) : Cmd W Z :=
  service_command "status" serverServiceStatusUsage "services" [("systemctl", VString "systemctl")] args (λ fs,
    active ← systemctlUserOutput (get_string fs "systemctl") ["is-active"; "adb-gos.service"];
    match active with
    | Err err => fprintfV Stderr "adb-go server service status: %v\n" [] err ;; mret 1
    | Ok active =>
        enabled ← systemctlUserOutput (get_string fs "systemctl") ["is-enabled"; "adb-gos.service"];
        match enabled with
        | Err err => fprintfV Stderr "adb-go server service status: %v\n" [] err ;; mret 1
        | Ok enabled =>
            fprintf Stdout "active: %s\n" [AStr active] ;; fprintf Stdout "enabled: %s\n" [AStr enabled] ;; mret 0
        end
    end).

Definition runServerServiceLogs (args : list string) : Cmd W Z :=
  service_command "logs" serverServiceLogsUsage "service logs"
    [("journalctl", VString "journalctl"); ("lines", VInt 100); ("follow", VBool false)] args (λ fs,
    if get_int fs "lines" <? 0 then
      fprintf Stderr "adb-go server service logs: --lines must be zero or greater\n" [] ;; mret 2
    else
    let cmdArgs := ["--user"; "-u"; "adb-gos.service"; "-n"; Itoa (get_int fs "lines"); "--no-pager"] ++
                   (if get_bool fs "follow" then ["-f"] else []) in
    r ← act (exec_Run (TrimSpace (get_string fs "journalctl")) cmdArgs);
    let '(output, err) := r in
    emit (Bytes output) ;;
    match err with
    | Some err =>
        fprintfV Stderr "adb-go server service logs: %s %s failed: %v\n" [AStr (get_string fs "journalctl"); AStr (Join cmdArgs " ")] err ;;
        mret 1
    | None => mret 0
    end).

Definition runServerServiceUninstall (args : list string) : Cmd W Z :=
  service_command "uninstall" serverServiceUninstallUsage "services"
    [("unit-dir", VString ""); ("systemctl", VString "systemctl"); ("keep-unit", VBool false)] args (λ fs,
    let systemctl := get_string fs "systemctl" in
    let keep := get_bool fs "keep-unit" in
    runSystemctlUser systemctl ["disable"; "--now"; "adb-gos.service"] (
    match systemdUserUnitDir (TrimSpace (get_string fs "unit-dir")) with
    | Err err => fprintfV Stderr "adb-go server service uninstall: %v\n" [] err ;; mret 1
    | Ok unitDir =>
        let unitPath := filepath_Join [unitDir; "adb-gos.service"] in
        removed ← (if negb keep then act (os_Remove unitPath) else mret None);
        match removed with
        | Some err =>
            if errors_Is err os_ErrNotExist then
              runSystemctlUser systemctl ["daemon-reload"] (
              fprintf Stdout "adb-gos.service disabled and stopped; removed %s\n" [AStr unitPath] ;; mret 0)
            else fprintfV Stderr "adb-go server service uninstall: remove %s: %v\n" [AStr unitPath] err ;; mret 1
        | None =>
            runSystemctlUser systemctl ["daemon-reload"] (
            (if keep then fprintf Stdout "adb-gos.service disabled and stopped; unit file kept\n" []
             else fprintf Stdout "adb-gos.service disabled and stopped; removed %s\n" [AStr unitPath]) ;; mret 0)
        end
    end)).

Definition runServerService (args : list string) (socketPath : string) : Cmd W Z :=
  fs ← fs_Parse serverServiceUsage [] args;
  match fs with
  | None => mret 2
  | Some fs =>
      match splitFlagSetCommand fs with
      | None => usage_error serverServiceUsage "adb-go server service: requires COMMAND\n\n" []
      | Some (command, args) =>
          if (command =? "install")%string then runServerServiceInstall args socketPath
          else if (command =? "reinstall")%string then runServerServiceReinstall args socketPath
          else if bool_decide (command ∈ ["start"; "stop"; "restart"]) then runServerServiceLifecycle command args
          else if (command =? "status")%string then runServerServiceStatus args
          else if (command =? "logs")%string then runServerServiceLogs args
          else if (command =? "uninstall")%string then runServerServiceUninstall args
          else usage_error serverServiceUsage "adb-go server service: unknown service command %q\n\n" [AStr command]
      end
  end.

(** ** server.go *)

Definition serverForwardDiagnostics (result : option payload) : option ForwardDiagnostics :=
  match result with Some (PStatus _ f _) => Some f | _ => None end.
Definition serverReverseDiagnostics (result : option payload) : option ReverseDiagnostics :=
  match result with Some (PStatus _ _ v) => Some v | _ => None end.

Definition print_value (name key : string) (result : option payload) : Cmd W () :=
  fprintf Stdout (name +++ ": %v\n") [AStr (result_text result key)].
Definition print_number (name : string) (n : nat) : Cmd W () := fprintf Stdout (name +++ ": %d\n") [AInt (Z.of_nat n)].

Definition print_forward_diagnostics (d : ForwardDiagnostics) : Cmd W () :=
  print_number "forwardTotal" (Total d) ;; print_number "forwardListening" (dg_Listening d) ;;
  print_number "forwardDegraded" (dg_Degraded d) ;; print_number "forwardActiveConnections" (dg_Active d).
Definition print_reverse_diagnostics (d : ReverseDiagnostics) : Cmd W () :=
  print_number "reverseTotal" (rd_Total d) ;; print_number "reverseListening" (rd_Listening d) ;;
  print_number "reverseDegraded" (rd_Degraded d) ;; print_number "reverseActiveConnections" (rd_Active d).

Definition printServerStatus (result : option payload) : Cmd W () :=
  print_value "state" "state" result ;; print_value "pid" "pid" result ;;
  print_value "socketPath" "socketPath" result ;; print_value "protocolVersion" "protocolVersion" result ;;
  print_value "uptimeMillis" "uptimeMillis" result ;;
  match serverForwardDiagnostics result with Some d => print_forward_diagnostics d | None => mret () end ;;
  match serverReverseDiagnostics result with Some d => print_reverse_diagnostics d | None => mret () end.

(** *** doctor

    A part of the report: what it adds to the diagnostics and to the hints; it
    prints where the output is no JSON. *)
Definition report : Type := list (string * diagnostic) * list string.
Definition unless_json (jsonOutput : bool) (m : Cmd W ()) : Cmd W () := if jsonOutput then mret () else m.

Definition doctor_socket (socketPath : string) (jsonOutput : bool) : Cmd W report :=
  unless_json jsonOutput (fprintf Stdout "socketPath: %s\n" [AStr socketPath]) ;;
  let path := ("socketPath", Text socketPath) in
  match os_Lstat socketPath with
  | Ok (is_socket, type) =>
      unless_json jsonOutput (fprintf Stdout "socketExists: true\n" []) ;;
      let type := if is_socket then "unix" else type in
      unless_json jsonOutput (fprintf Stdout "socketType: %s\n" [AStr type]) ;;
      mret ([path; ("socketExists", Flag true); ("socketType", Text type)],
            if is_socket then []
            else ["The socket path exists but is not a Unix socket; inspect it before starting adb-gos with this path."])
  | Err err =>
      if errors_Is err os_ErrNotExist then
        unless_json jsonOutput (fprintf Stdout "socketExists: false\n" []) ;;
        mret ([path; ("socketExists", Flag false)],
              ["No server socket exists at this path; start adb-gos with a matching -socket path, or run adb-go server service install then adb-go server service start on supported platforms."])
      else
        unless_json jsonOutput (fprintfV Stdout "socketExists: unknown (%v)\n" [] err) ;;
        mret ([path; ("socketExists", Text "unknown"); ("socketError", ErrorText err)],
              ["adb-go could not inspect the socket path; check parent directory permissions."])
  end.

Definition doctor_forwards (result : option payload) (jsonOutput : bool) : Cmd W report :=
  match serverForwardDiagnostics result with
  | None => mret ([], [])
  | Some d =>
      unless_json jsonOutput (print_forward_diagnostics d) ;;
      mret ([("forwardDiagnostics", OfForwards d)],
            if (0 <? dg_Degraded d)%nat
            then ["One or more server-owned forwards are degraded; run adb-go forward --list to see the mapping IDs, targets, and last setup errors."]
            else [])
  end.
Definition doctor_reverses (result : option payload) (jsonOutput : bool) : Cmd W report :=
  match serverReverseDiagnostics result with
  | None => mret ([], [])
  | Some d =>
      unless_json jsonOutput (print_reverse_diagnostics d) ;;
      mret ([("reverseDiagnostics", OfReverses d)],
            if (0 <? rd_Degraded d)%nat
            then ["One or more server-owned reverses are degraded; run adb-go reverse --list to see the mapping IDs, targets, and last setup errors."]
            else [])
  end.

Definition doctor_server (socketPath : string) (jsonOutput : bool) : Cmd W report :=
  r ← cliserver_Send socketPath CommandStatus NoParams;
  match r with
  | Err err =>
      unless_json jsonOutput (fprintfV Stdout "serverProtocol: not responding (%v)\n" [] err) ;;
      mret ([("serverProtocol", Text "not_responding"); ("serverProtocolError", ErrorText err)],
            ["No compatible adb-gos server answered the control protocol; verify the server process and socket path match."])
  | Ok resp =>
      if negb (rs_OK resp) then
        unless_json jsonOutput (fprintf Stdout "serverProtocol: error\n" []) ;;
        let hint := "The server socket answered but returned an error; check that adb-go and adb-gos are compatible builds." in
        match rs_Error resp with
        | Some e =>
            unless_json jsonOutput (fprintfV Stdout "serverError: %s: %s\n" [AStr (Code e)] (ErrorMessage e)) ;;
            mret ([("serverProtocol", Text "error"); ("serverError", ServerError e)], [hint])
        | None => mret ([("serverProtocol", Text "error")], [hint])
        end
      else
        let result := rs_Result resp in
        unless_json jsonOutput (fprintf Stdout "serverProtocol: responding\n" [] ;;
          print_value "serverState" "state" result ;; print_value "serverProtocolVersion" "protocolVersion" result) ;;
        f ← doctor_forwards result jsonOutput;
        v ← doctor_reverses result jsonOutput;
        mret ([("serverProtocol", Text "responding"); ("serverState", ResultValue result "state");
               ("serverProtocolVersion", ResultValue result "protocolVersion")] ++ fst f ++ fst v, snd f ++ snd v)
  end.

Definition systemctlAvailable (systemctl : string) : bool :=
  if contains systemctl "/"%char then match os_Stat systemctl with Ok is_dir => negb is_dir | Err _ => false end
  else is_ok (exec_LookPath systemctl).

(** The active and enabled states, or a hint. *)
Definition serverDoctorSystemdStatus (systemctl : string) : Cmd W (string + string * string) :=
  let systemctl := if (systemctl =? "")%string then "systemctl" else systemctl in
  if negb (systemctlAvailable systemctl)
  then mret (inl "systemctl is not available on PATH; install systemd tools or pass --systemctl PATH to inspect adb-gos.service.") else
  active ← systemctlUserOutput systemctl ["is-active"; "adb-gos.service"];
  enabled ← systemctlUserOutput systemctl ["is-enabled"; "adb-gos.service"];
  mret (match active, enabled with
        | Err err, _ => inl ("systemctl could not read adb-gos.service active state: " +++ error_text err)
        | _, Err err => inl ("systemctl could not read adb-gos.service enabled state: " +++ error_text err)
        | Ok active, Ok enabled => inr (active, enabled)
        end).

Definition doctor_systemd (systemctl : string) (jsonOutput : bool) : Cmd W report :=
  if negb (GOOS =? "linux")%string then
    unless_json jsonOutput (fprintf Stdout "systemdUserService: unsupported on this platform\n" []) ;;
    mret ([("systemdUserService", Text "unsupported")], [])
  else
  status ← serverDoctorSystemdStatus (TrimSpace systemctl);
  match status with
  | inl hint =>
      unless_json jsonOutput (fprintf Stdout "systemdUserService: unavailable\n" []) ;;
      mret ([("systemdUserService", Text "unavailable")], if negb (hint =? "")%string then [hint] else [])
  | inr (active, enabled) =>
      unless_json jsonOutput (fprintf Stdout "systemdActive: %s\n" [AStr active] ;; fprintf Stdout "systemdEnabled: %s\n" [AStr enabled]) ;;
      mret ([("systemdActive", Text active); ("systemdEnabled", Text enabled)],
            (if negb (active =? "active")%string
             then ["adb-gos.service is not active; run adb-go server service start to start the installed user service."] else []) ++
            (if negb (enabled =? "enabled")%string
             then ["adb-gos.service is not enabled; run adb-go server service install or systemctl --user enable adb-gos.service to start it automatically."] else []))
  end.

Fixpoint print_hints (hints : list string) : Cmd W () :=
  match hints with [] => mret () | hint :: hints => fprintf Stdout "  - %s\n" [AStr hint] ;; print_hints hints end.

Definition runServerDoctorWithJSON (args : list string) (socketPath : string) (jsonOutput : bool) : Cmd W Z :=
  fs ← fs_Parse serverDoctorUsage [("systemctl", VString "systemctl"); ("json", VBool jsonOutput)] args;
  match fs with
  | None => mret 2
  | Some fs =>
      no_args serverDoctorUsage "server doctor" fs (
        let jsonOutput := get_bool fs "json" in
        socket ← doctor_socket socketPath jsonOutput;
        server ← doctor_server socketPath jsonOutput;
        systemd ← doctor_systemd (get_string fs "systemctl") jsonOutput;
        let hints := snd socket ++ snd server ++ snd systemd in
        if jsonOutput then
          encode_result "server doctor" (DDiagnostics (fst socket ++ fst server ++ fst systemd ++ [("hints", Hints hints)]))
        else
          match hints with
          | [] => fprintf Stdout "hints: none\n" [] ;; mret 0
          | _ => fprintf Stdout "hints:\n" [] ;; print_hints hints ;; mret 0
          end)
  end.

(** What ping, status and stop print. *)
Definition server_answer (command : string) (jsonOutput : bool) (result : option payload) : Cmd W Z :=
  if (command =? CommandPing)%string then
    if jsonOutput then encode_result "server ping" (DStrings [("result", "pong")]) else fprintf Stdout "pong\n" [] ;; mret 0
  else if (command =? CommandStatus)%string then
    if jsonOutput then encode_result "server status" (DResult result) else printServerStatus result ;; mret 0
  else
    if jsonOutput then encode_result "server stop" (DStrings [("state", "shutting_down")])
    else fprintf Stdout "adb-gos shutting down\n" [] ;; mret 0.

Definition server_control (command socketPath : string) (args : list string) (jsonOutput : bool) : Cmd W Z :=
  if negb (bool_decide (command ∈ [CommandPing; CommandStatus; "stop"]))
  then usage_error serverUsage "adb-go server: unknown server command %q\n\n" [AStr command]
  else if negb (length args =? 0)%nat
  then usage_error serverUsage ("adb-go server " +++ command +++ ": unexpected arguments %q\n\n") [AStrs args]
  else
  let protocolCommand := if (command =? "stop")%string then CommandShutdown else command in
  r ← cliserver_Send socketPath protocolCommand NoParams;
  match r with
  | Err err =>
      fprintfV Stderr ("adb-go server " +++ command +++ ": server is not running or socket is unavailable at %s: %v\n") [AStr socketPath] err ;;
      mret 1
  | Ok resp =>
      if rs_OK resp then server_answer command jsonOutput (rs_Result resp)
      else
        match rs_Error resp with
        | Some e => fprintfV Stderr ("adb-go server " +++ command +++ ": server error %s: %s\n") [AStr (Code e)] (ErrorMessage e)
        | None => fprintf Stderr ("adb-go server " +++ command +++ ": server returned an unsuccessful response\n") []
        end ;;
        mret 1
  end.

Definition runServerWithJSON (args : list string) (jsonOutput : bool) : Cmd W Z :=
  fs ← fs_Parse serverUsage [("socket", VString ""); ("json", VBool jsonOutput)] args;
  match fs with
  | None => mret 2
  | Some fs =>
      match splitFlagSetCommand fs with
      | None => usage_error serverUsage "adb-go server: requires COMMAND\n\n" []
      | Some (command, args) =>
          match forwardServerSocketPath (TrimSpace (get_string fs "socket")) with
          | Err err => fprintfV Stderr "adb-go server: %v\n" [] err ;; mret 1
          | Ok socketPath =>
              if (command =? "service")%string then runServerService args socketPath
              else if (command =? "doctor")%string then runServerDoctorWithJSON args socketPath (get_bool fs "json")
              else server_control command socketPath args (get_bool fs "json")
          end
      end
  end.

(** ** custom.go: version and Run *)

Definition formatVersion : Cmd W () :=
  let '(version, go, arch) := version_info in
  fprintf Stdout "adb-go: %s\ngo: %s\nos: %s\narch: %s\n" [AStr version; AStr go; AStr GOOS; AStr arch].

Definition runVersion (args : list string) : Cmd W Z :=
  fs ← fs_Parse versionUsage [] args;
  match fs with
  | None => mret 2
  | Some fs =>
      if negb (NArg fs =? 0)%nat then usage_error versionUsage "adb-go version: unexpected arguments\n\n" []
      else formatVersion ;; mret 0
  end.

Definition commandRunners (command : string) : option (list string → cliOptions → Cmd W Z) :=
  snd <$> List.find (λ p, String.eqb command (fst p))
    [("version", λ args _, runVersion args);
     ("targets", λ args opts, runTargetsWithJSON args (opt_JSON opts));
     ("devices", λ args opts, runDevicesWithJSON args (opt_JSON opts));
     ("shell", runShellWithOptions);
     ("logcat", runLogcatWithOptions);
     ("getprop", runGetPropWithOptions);
     ("screencap", runScreencapWithOptions);
     ("reboot", runRebootWithOptions);
     ("forward", runForwardWithOptions);
     ("reverse", runReverseWithOptions);
     ("server", λ args opts, runServerWithJSON args (opt_JSON opts));
     ("push", runPushWithOptions);
     ("pull", runPullWithOptions);
     ("install-apk", runInstallAPKWithOptions)].

Definition global_flags : list (string * flag_value) :=
  [("json", VBool false); ("quiet", VBool false); ("verbose", VBool false); ("help", VBool false); ("h", VBool false)].

Definition Run (args : list string) : Cmd W Z :=
  fs ← fs_Parse usage global_flags args;
  match fs with
  | None => mret 2
  | Some fs =>
      if get_bool fs "help" || get_bool fs "h" then fprint Stdout usage ;; mret 0
      else if get_bool fs "quiet" && get_bool fs "verbose" then
        usage_error usage "adb-go: choose only one output mode: --quiet or --verbose\n\n" []
      else
      match splitFlagSetCommand fs with
      | None => fprint Stdout usage ;; mret 0
      | Some (command, args) =>
          if (command =? "help")%string || (command =? "-h")%string || (command =? "--help")%string
          then fprint Stdout usage ;; mret 0
          else
          match commandRunners command with
          | None => usage_error usage "adb-go: unknown command %q\n\n" [AStr command]
          | Some runner =>
              runner args (mkCliOptions (get_bool fs "json") (get_bool fs "quiet") (get_bool fs "verbose"))
          end
      end
  end.

(** The commands as the tests call them, without options. *)
Definition runForwardWithJSON (args : list string) (jsonOutput : bool) : Cmd W Z :=
  runForwardWithOptions args (mkCliOptions jsonOutput false false).
Definition runForward (args : list string) : Cmd W Z := runForwardWithJSON args false.
Definition runReverseWithJSON (args : list string) (jsonOutput : bool) : Cmd W Z :=
  runReverseWithOptions args (mkCliOptions jsonOutput false false).
Definition runTargets (args : list string) : Cmd W Z := runTargetsWithJSON args false.
Definition runServer (args : list string) : Cmd W Z := runServerWithJSON args false.
Definition runServerDoctor (args : list string) (socketPath : string) : Cmd W Z := runServerDoctorWithJSON args socketPath false.
End commands.

(** ** The commands are insensitive to the verbosity, and safe *)

Section properties.
Context {W Key : Type} {host : Host W Key} {env : Settings Key}.

Lemma print_server_error_alike command action path old r :
  alike (W := W) (print_server_error command action path old r) (print_server_error command action path old r).
Proof. unfold print_server_error. alike. Qed.
Lemma write_table_alike command plain headers rows :
  alike (W := W) (write_table command plain headers rows) (write_table command plain headers rows).
Proof. unfold write_table, writePlainTable, writeAlignedTable. alike. Qed.
Lemma write_table_decided command plain headers rows : decided (W := W) (write_table command plain headers rows).
Proof. unfold write_table. safe. Qed.

Lemma server_request_alike (e : res Response → Cmd W ()) path command p (ok1 ok2 : option payload → Cmd W Z) :
  (∀ r, alike (e r) (e r)) → (∀ r, alike (ok1 r) (ok2 r)) →
  alike (server_request e path command p ok1) (server_request e path command p ok2).
Proof. intros He Hok. unfold server_request, cliserver_Send. alike; auto. Qed.
Lemma server_request_decided (e : res Response → Cmd W ()) path command p (ok : option payload → Cmd W Z) :
  (∀ r, decided (ok r)) → decided (server_request e path command p ok).
Proof. intros Hok. unfold server_request. safe; auto. Qed.

#[local] Hint Resolve print_server_error_alike write_table_alike write_table_decided server_request_alike : commands.
#[local] Hint Extern 4 (alike (printForwardServerError _ _ _) _) => apply print_server_error_alike : commands.
#[local] Hint Extern 4 (alike (printReverseServerError _ _ _) _) => apply print_server_error_alike : commands.

Ltac request := first [apply server_request_alike; [intros; solve [eauto 3 with commands]|intros]|apply server_request_decided; intros].

Lemma getprop_one_decided name j : decided (W := W) (getprop_one name j).
Proof. unfold getprop_one. safe. Qed.
Lemma getprop_one_alike name j : alike (W := W) (getprop_one name j) (getprop_one name j).
Proof. unfold getprop_one. alike. Qed.
Lemma getprop_all_decided j : decided (W := W) (getprop_all j).
Proof. unfold getprop_all. safe. Qed.
Lemma getprop_all_alike j : alike (W := W) (getprop_all j) (getprop_all j).
Proof. unfold getprop_all. alike. Qed.
Lemma writeScreencapFile_alike path png overwrite :
  alike (W := W) (writeScreencapFile path png overwrite) (writeScreencapFile path png overwrite).
Proof. unfold writeScreencapFile. alike. Qed.
#[local] Hint Resolve getprop_one_decided getprop_one_alike getprop_all_decided getprop_all_alike writeScreencapFile_alike : commands.

Definition insensitive (runner : list string → cliOptions → Cmd W Z) : Prop :=
  ∀ args j q v1 v2, alike (runner args (mkCliOptions j q v1)) (runner args (mkCliOptions j q v2)).
Definition runner_safe (runner : list string → cliOptions → Cmd W Z) : Prop := ∀ args opts, safe (runner args opts).

Lemma runShell_ok : insensitive runShellWithOptions ∧ runner_safe runShellWithOptions.
Proof. unfold runShellWithOptions. split; [intros args j q v1 v2; alike|intros args opts; safe]. Qed.
Lemma runLogcat_ok : insensitive runLogcatWithOptions ∧ runner_safe runLogcatWithOptions.
Proof. unfold runLogcatWithOptions. split; [intros args j q v1 v2; alike|intros args opts; safe]. Qed.
Lemma runGetProp_ok : insensitive runGetPropWithOptions ∧ runner_safe runGetPropWithOptions.
Proof. unfold runGetPropWithOptions. split; [intros args j q v1 v2; alike|intros args opts; safe]. Qed.
Lemma runScreencap_ok : insensitive runScreencapWithOptions ∧ runner_safe runScreencapWithOptions.
Proof. unfold runScreencapWithOptions. split; [intros args j q v1 v2; alike|intros args opts; safe]. Qed.
Lemma runReboot_ok : insensitive runRebootWithOptions ∧ runner_safe runRebootWithOptions.
Proof. unfold runRebootWithOptions. split; [intros args j q v1 v2; alike|intros args opts; safe]. Qed.
Lemma runPush_ok : insensitive runPushWithOptions ∧ runner_safe runPushWithOptions.
Proof. unfold runPushWithOptions. split; [intros args j q v1 v2; alike|intros args opts; safe]. Qed.
Lemma runPull_ok : insensitive runPullWithOptions ∧ runner_safe runPullWithOptions.
Proof. unfold runPullWithOptions. split; [intros args j q v1 v2; alike|intros args opts; safe]. Qed.
Lemma runInstallAPK_ok : insensitive runInstallAPKWithOptions ∧ runner_safe runInstallAPKWithOptions.
Proof. unfold runInstallAPKWithOptions. split; [intros args j q v1 v2; alike|intros args opts; safe]. Qed.

(** *** forward and reverse *)

Ltac no_args_step :=
  match goal with
  | |- safe (no_args _ _ _ _) => unfold no_args
  | |- alike (no_args _ _ _ _) _ => unfold no_args
  | |- alike (server_request _ _ _ _ _) _ => request
  | |- decided (server_request _ _ _ _ _) => request
  | |- safe (server_request _ _ _ _ _) => apply safe_decided; request
  end.

Lemma forward_create_alike fs path q v1 v2 :
  alike (W := W) (forward_create fs path (mkOutputPolicy q v1)) (forward_create fs path (mkOutputPolicy q v2)).
Proof.
  unfold forward_create, runForwardServerCreate, forward_foreground. repeat first [alike_step|no_args_step].
Qed.
Lemma forward_create_safe fs path out : safe (W := W) (forward_create fs path out).
Proof. unfold forward_create, runForwardServerCreate, forward_foreground. repeat first [safe_step|no_args_step]. Qed.

Lemma reverse_create_alike fs q v1 v2 :
  alike (W := W) (reverse_create fs (mkOutputPolicy q v1)) (reverse_create fs (mkOutputPolicy q v2)).
Proof.
  unfold reverse_create, runReverseServerCreate, reverse_foreground. repeat first [alike_step|no_args_step].
Qed.
Lemma reverse_create_safe fs out : safe (W := W) (reverse_create fs out).
Proof. unfold reverse_create, runReverseServerCreate, reverse_foreground. repeat first [safe_step|no_args_step]. Qed.
#[local] Hint Resolve forward_create_alike forward_create_safe reverse_create_alike reverse_create_safe : commands.

Lemma forward_operation_alike fs path q v1 v2 :
  alike (W := W) (forward_operation fs path (mkOutputPolicy q v1)) (forward_operation fs path (mkOutputPolicy q v2)).
Proof.
  unfold forward_operation, runForwardServerList, runForwardServerRemove, runForwardServerRemoveAll.
  repeat first [alike_step|no_args_step].
Qed.
Lemma forward_operation_safe fs path out : safe (W := W) (forward_operation fs path out).
Proof.
  unfold forward_operation, runForwardServerList, runForwardServerRemove, runForwardServerRemoveAll.
  repeat first [safe_step|no_args_step].
Qed.
Lemma reverse_operation_alike fs path q v1 v2 :
  alike (W := W) (reverse_operation fs path (mkOutputPolicy q v1)) (reverse_operation fs path (mkOutputPolicy q v2)).
Proof.
  unfold reverse_operation, runReverseServerList, runReverseServerRemove, runReverseServerRemoveAll.
  repeat first [alike_step|no_args_step].
Qed.
Lemma reverse_operation_safe fs path out : safe (W := W) (reverse_operation fs path out).
Proof.
  unfold reverse_operation, runReverseServerList, runReverseServerRemove, runReverseServerRemoveAll.
  repeat first [safe_step|no_args_step].
Qed.
#[local] Hint Resolve forward_operation_alike forward_operation_safe reverse_operation_alike reverse_operation_safe : commands.

Lemma runForward_ok : insensitive runForwardWithOptions ∧ runner_safe runForwardWithOptions.
Proof.
  unfold runForwardWithOptions, operation_checks. split; [intros args j q v1 v2; alike|intros args opts; safe].
Qed.
Lemma runReverse_ok : insensitive runReverseWithOptions ∧ runner_safe runReverseWithOptions.
Proof.
  unfold runReverseWithOptions, operation_checks. split; [intros args j q v1 v2; alike|intros args opts; safe].
Qed.

(** *** devices, targets and version *)

Lemma printDevicesServerError_alike path r :
  alike (W := W) (printDevicesServerError path r) (printDevicesServerError path r).
Proof. unfold printDevicesServerError. alike. Qed.
#[local] Hint Resolve printDevicesServerError_alike : commands.

Lemma runDevices_ok args j : alike (W := W) (runDevicesWithJSON args j) (runDevicesWithJSON args j) ∧ safe (runDevicesWithJSON args j).
Proof.
  unfold runDevicesWithJSON. split; [|repeat first [safe_step|no_args_step]].
  repeat first [alike_step|no_args_step].
Qed.
Lemma runTargets_ok args j : alike (W := W) (runTargetsWithJSON args j) (runTargetsWithJSON args j) ∧ safe (runTargetsWithJSON args j).
Proof.
  unfold runTargetsWithJSON, print_targets. split; [alike|safe].
Qed.
Lemma runVersion_ok args : alike (W := W) (runVersion args) (runVersion args) ∧ safe (W := W) (runVersion args).
Proof. unfold runVersion, formatVersion. split; [alike|safe]. Qed.

(** *** server *)

Lemma runSystemctlUser_alike systemctl args (k : Cmd W Z) : alike k k → alike (runSystemctlUser systemctl args k) (runSystemctlUser systemctl args k).
Proof. intros H. unfold runSystemctlUser. alike. Qed.
Lemma runSystemctlUser_decided systemctl args (k : Cmd W Z) : decided k → decided (runSystemctlUser systemctl args k).
Proof. intros H. unfold runSystemctlUser. safe. Qed.
Lemma systemctlUserOutput_alike systemctl args :
  alike (W := W) (systemctlUserOutput systemctl args) (systemctlUserOutput systemctl args).
Proof. unfold systemctlUserOutput. alike. Qed.
Lemma install_unit_alike command fs path (k : string → Cmd W Z) :
  (∀ u, alike (k u) (k u)) → alike (install_unit command fs path k) (install_unit command fs path k).
Proof. intros H. unfold install_unit, writeServerServiceUnit. alike; auto. Qed.
Lemma install_unit_decided command fs path (k : string → Cmd W Z) :
  (∀ u, decided (k u)) → decided (install_unit command fs path k).
Proof. intros H. unfold install_unit. safe; auto. Qed.
Lemma service_command_alike command usage what formal args (k : FlagSet → Cmd W Z) :
  (∀ fs, alike (k fs) (k fs)) → alike (service_command command usage what formal args k) (service_command command usage what formal args k).
Proof. intros H. unfold service_command, no_args. alike; auto. Qed.
Lemma service_command_safe command usage what formal args (k : FlagSet → Cmd W Z) :
  (∀ fs, safe (k fs)) → safe (service_command command usage what formal args k).
Proof. intros H. unfold service_command, no_args. safe; auto. Qed.
#[local] Hint Resolve systemctlUserOutput_alike : commands.

Ltac service_step :=
  match goal with
  | |- alike (service_command _ _ _ _ _ _) _ => apply service_command_alike
  | |- safe (service_command _ _ _ _ _ _) => apply service_command_safe
  | |- alike (runSystemctlUser _ _ _) _ => apply runSystemctlUser_alike
  | |- decided (runSystemctlUser _ _ _) => apply runSystemctlUser_decided
  | |- safe (runSystemctlUser _ _ _) => apply safe_decided, runSystemctlUser_decided
  | |- alike (install_unit _ _ _ _) _ => apply install_unit_alike
  | |- decided (install_unit _ _ _ _) => apply install_unit_decided
  | |- safe (install_unit _ _ _ _) => apply safe_decided, install_unit_decided
  end.

Lemma runServerService_ok args path :
  alike (W := W) (runServerService args path) (runServerService args path) ∧ safe (W := W) (runServerService args path).
Proof.
  unfold runServerService, runServerServiceInstall, runServerServiceReinstall, runServerServiceLifecycle,
    runServerServiceStatus, runServerServiceLogs, runServerServiceUninstall.
  split; [repeat first [alike_step|service_step]|repeat first [safe_step|service_step]].
Qed.

Lemma print_hints_alike hints : alike (W := W) (print_hints hints) (print_hints hints).
Proof. induction hints; cbn [print_hints]; alike. Qed.
Lemma print_forward_diagnostics_alike d : alike (W := W) (print_forward_diagnostics d) (print_forward_diagnostics d).
Proof. unfold print_forward_diagnostics, print_number. alike. Qed.
Lemma print_reverse_diagnostics_alike d : alike (W := W) (print_reverse_diagnostics d) (print_reverse_diagnostics d).
Proof. unfold print_reverse_diagnostics, print_number. alike. Qed.
Lemma unless_json_alike j (m : Cmd W ()) : alike m m → alike (unless_json j m) (unless_json j m).
Proof. intros H. unfold unless_json. alike. Qed.
#[local] Hint Resolve print_hints_alike print_forward_diagnostics_alike print_reverse_diagnostics_alike : commands.

Ltac doctor_step :=
  match goal with
  | |- alike (unless_json _ _) _ => apply unless_json_alike
  | |- alike (print_value _ _ _) _ => unfold print_value
  | |- alike (cliserver_Send _ _ _) _ => apply alike_act
  end.

Lemma doctor_alike path systemctl j :
  alike (W := W) (doctor_socket path j) (doctor_socket path j) ∧ alike (W := W) (doctor_server path j) (doctor_server path j) ∧
  alike (W := W) (doctor_systemd systemctl j) (doctor_systemd systemctl j).
Proof.
  unfold doctor_socket, doctor_server, doctor_forwards, doctor_reverses, doctor_systemd, serverDoctorSystemdStatus.
  split_and!; repeat first [alike_step|doctor_step].
Qed.

Lemma runServerDoctor_ok args path j :
  alike (W := W) (runServerDoctorWithJSON args path j) (runServerDoctorWithJSON args path j) ∧
  safe (W := W) (runServerDoctorWithJSON args path j).
Proof.
  unfold runServerDoctorWithJSON, no_args. split.
  - repeat first [alike_step|apply (proj1 (doctor_alike _ "" _))|apply (proj1 (proj2 (doctor_alike _ "" _)))
                 |apply (proj2 (proj2 (doctor_alike "" _ _)))].
  - safe; apply safe_decided; safe.
Qed.

Lemma server_control_ok command path args j :
  alike (W := W) (server_control command path args j) (server_control command path args j) ∧
  safe (W := W) (server_control command path args j).
Proof.
  unfold server_control, server_answer, printServerStatus. split; [repeat first [alike_step|doctor_step]|safe].
Qed.

Lemma runServer_ok args j :
  alike (W := W) (runServerWithJSON args j) (runServerWithJSON args j) ∧ safe (W := W) (runServerWithJSON args j).
Proof.
  unfold runServerWithJSON. split.
  - repeat first [alike_step|apply runServerService_ok|apply runServerDoctor_ok|apply server_control_ok].
  - repeat first [apply runServerService_ok|apply runServerDoctor_ok|apply server_control_ok|safe_step].
Qed.

(** *** All commands *)

Lemma runners_ok command runner : commandRunners command = Some runner → insensitive runner ∧ runner_safe runner.
Proof.
  unfold commandRunners. cbn [List.find fst snd].
  repeat match goal with |- context [(command =? ?s)%string] => destruct (command =? s)%string end; cbn;
    intros H; try done; injection H as <-;
    try apply runShell_ok; try apply runLogcat_ok; try apply runGetProp_ok; try apply runScreencap_ok;
    try apply runReboot_ok; try apply runForward_ok; try apply runReverse_ok; try apply runPush_ok;
    try apply runPull_ok; try apply runInstallAPK_ok;
    (split; [intros args j q v1 v2|intros args opts]);
    first [apply runVersion_ok|apply runTargets_ok|apply runDevices_ok|apply runServer_ok].
Qed.

(** What was set before a parse is kept, unless it is set again. *)
Lemma parse_flags_union formal n args : (length args ≤ n)%nat → ∀ m b : gmap string flag_value,
  parse_flags formal args (m ∪ b) =
  match parse_flags formal args m with inl e => inl e | inr (m', rest) => inr (m' ∪ b, rest) end.
Proof.
  revert args. induction n as [|n IH]; intros [|s rest] Hn m b; try done; [cbn in Hn; lia|]. cbn [length] in Hn.
  cbn [parse_flags]. destruct (_ || _); [done|]. destruct (s =? "--")%string; [done|]. destruct (_ || _ || _); [done|].
  assert (∀ name v args, (length args ≤ n)%nat → parse_flags formal args (<[name := v]> (m ∪ b)) =
    match parse_flags formal args (<[name := v]> m) with inl e => inl e | inr (m', rest) => inr (m' ∪ b, rest) end) as H.
  { intros name v args Ha. rewrite insert_union_l. by apply IH. }
  destruct (match Cut _ _ with Some _ => _ | None => _ end) as [name value].
  destruct (lookup_flag formal name) as [kind|]; [|done].
  destruct kind, value as [v|]; try (destruct rest as [|v rest]; [done|]); cbn [length] in *;
    first [apply H; lia|destruct (set_flag _ _ _); [done|apply H; lia]].
Qed.

Lemma parse_flags_verbose args :
  parse_flags global_flags ("--verbose" :: args) ∅ =
  match parse_flags global_flags args ∅ with inl e => inl e | inr (m, rest) => inr (m ∪ {["verbose" := VBool true]}, rest) end.
Proof.
  change (parse_flags global_flags ("--verbose" :: args) ∅) with (parse_flags global_flags args (<["verbose" := VBool true]> ∅)).
  rewrite <-(parse_flags_union global_flags (length args) args) by lia. by rewrite (left_id_L ∅ (∪)), insert_empty.
Qed.

Lemma get_bool_union formal (m m' : gmap string flag_value) args name :
  m' !! name = None → get_bool (mkFlagSet formal (m ∪ m') args) name = get_bool (mkFlagSet formal m args) name.
Proof. intros H. unfold get_bool, flag_get. cbn. by rewrite lookup_union_l. Qed.

(** [--verbose] only adds to standard error: for every command line that does
    not ask to be quiet, with it in front or without, the program does the same
    outside, prints the same to standard output and ends with the same code. *)
Theorem verbosity_changes_nothing (args rest : list string) (actual : gmap string flag_value) :
  parse_flags global_flags args ∅ = inr (actual, rest) → get_bool (mkFlagSet global_flags actual rest) "quiet" = false →
  alike (W := W) (Run ("--verbose" :: args)) (Run args).
Proof.
  intros HP HQ. unfold Run, fs_Parse. rewrite parse_flags_verbose, HP. apply alike_ret_bind.
  set (fs := mkFlagSet global_flags actual rest) in *.
  set (fs' := mkFlagSet global_flags (actual ∪ {["verbose" := VBool true]}) rest).
  assert (∀ name, name ≠ "verbose" → get_bool fs' name = get_bool fs name) as E
    by (intros name Hne; apply get_bool_union, lookup_singleton_None; congruence).
  rewrite (E "json"), (E "help"), (E "h"), (E "quiet"), HQ by done. cbn [andb].
  change (splitFlagSetCommand fs') with (splitFlagSetCommand fs).
  destruct (splitFlagSetCommand fs) as [[command cargs]|]; [|alike].
  destruct (commandRunners command) as [runner|] eqn:ER; [|alike].
  pose proof (proj1 (runners_ok _ _ ER)) as Hrunner. alike.
Qed.

(** C31: no command does anything outside when it ends as a usage error, with code
    2; and every command ends with 0, 1 or 2. *)
Theorem usage_errors_do_nothing (args : list string) (c : console W) :
  let '(c', code) := Run args c in 0 ≤ code ≤ 2 ∧ (code = 2 → world c' = world c).
Proof.
  assert (safe (W := W) (Run args)) as H.
  { unfold Run. apply safe_bind; [still|]. intros [fs|]; [|safe]. do 2 (case_match; [safe|]).
    destruct (splitFlagSetCommand fs) as [[command cargs]|]; [|safe]. case_match; [safe|].
    destruct (commandRunners command) as [runner|] eqn:ER; [|safe]. apply (proj2 (runners_ok _ _ ER)). }
  specialize (H c). by destruct (Run args c).
Qed.

Lemma listed_commands : help_commands =
  ["help"; "version"; "targets"; "devices"; "shell"; "logcat"; "getprop"; "screencap"; "reboot"; "forward"; "reverse"; "server";
   "push"; "pull"; "install-apk"].
Proof. vm_compute. reflexivity. Qed.

(** The commands the help text lists are the ones there are: a first
    argument that is no flag is run as a command of the list, with the rest as
    its arguments; [help] prints the text; and anything else does nothing and is
    answered with a message, the text and 2. *)
Theorem help_lists_the_commands (command : string) (args : list string) (c : console W) : is_dash command = false →
  (command = "help" → Run (command :: args) c = (mkConsole (world c) (printed c ++ [Fprint Stdout usage]), 0)) ∧
  (command ∈ help_commands → command ≠ "help" → ∃ runner,
     commandRunners command = Some runner ∧ Run (command :: args) c = runner args (mkCliOptions false false false) c) ∧
  (command ∉ help_commands → Run (command :: args) c =
     (mkConsole (world c) (printed c ++ [Fprintf Stderr "adb-go: unknown command %q\n\n" [AStr command]; Fprint Stderr usage]), 2)).
Proof.
  intros Hd.
  assert (Run (command :: args) c =
    (if (command =? "help")%string || (command =? "-h")%string || (command =? "--help")%string then fprint Stdout usage ;; mret 0
     else match commandRunners command with
          | None => usage_error usage "adb-go: unknown command %q\n\n" [AStr command]
          | Some runner => runner args (mkCliOptions false false false)
          end) c) as ->.
  { unfold Run, fs_Parse. cbn [parse_flags]. by rewrite Hd, orb_true_r. }
  assert ((command =? "-h")%string || (command =? "--help")%string = false) as Hh.
  { apply orb_false_iff. split; apply String.eqb_neq; intros ->; discriminate Hd. }
  rewrite <-orb_assoc, Hh, orb_false_r, listed_commands. split_and!.
  - by intros ->.
  - intros Hc Hne. rewrite (proj2 (String.eqb_neq _ _) Hne). set_unfold.
    repeat (destruct Hc as [->|Hc]; [try done; eexists; split; reflexivity|]). done.
  - intros Hc. assert (command ≠ "help") as Hne by (intros ->; set_solver). rewrite (proj2 (String.eqb_neq _ _) Hne).
    assert (commandRunners command = None) as ->.
    { unfold commandRunners. cbn [List.find fst].
      repeat match goal with |- context [(command =? ?s)%string] => destruct (String.eqb_spec command s) as [->|_]; [set_solver|] end. done. }
    unfold usage_error, mbind, Cmd_bind, fprintf, fprint, emit. cbn [world printed]. by rewrite <-app_assoc.
Qed.
End properties.

(** ** Witnesses *)

(** A host on which everything succeeds, with a log of what was done. *)
Definition logged {A} (what : string) (a : A) (w : list string) : list string * A := (w ++ [what], a).
Definition sample_host : Host (list string) () := {|
  connectDevice t := logged ("connect " +++ ct_description t) None;
  client_Close := logged "close" ();
  client_ShellStream cmd := logged ("shell:" +++ cmd) ([], None);
  client_Logcat _ := logged "logcat" ([], None);
  client_GetProp _ := logged "getprop" (Ok "");
  client_Properties := logged "properties" (Ok ∅);
  client_Screencap := logged "screencap" (Ok []);
  client_Reboot _ := logged "reboot" None;
  client_PushFile _ _ := logged "push" None;
  client_PullFileWithOptions _ _ _ := logged "pull" None;
  client_InstallAPKWithOptions _ _ := logged "install" None;
  startForward _ _ := logged "forward" (Ok "127.0.0.1:1");
  forward_Wait := logged "wait" None;
  forward_Close := logged "close" None;
  startReverse _ _ := logged "reverse" None;
  reverse_Wait := logged "wait" None;
  reverse_Close := logged "close" None;
  sendServerRequest _ _ command _ := logged command (Err (External 0));
  startServerProcess _ := logged "start" None;
  listUSBDevices := logged "usb" (Ok []);
  scanTCPTargets := logged "scan" (Ok []);
  os_OpenFile _ _ := logged "open" None;
  file_Write _ := logged "write" None;
  file_Close := logged "close" None;
  os_Remove _ := logged "remove" None;
  os_MkdirAll _ := logged "mkdir" None;
  os_WriteFile _ _ := logged "write" None;
  exec_CombinedOutput _ _ := logged "exec" ("", None);
  exec_Run _ _ := logged "exec" ([], None);
|}.
Definition sample_settings : Settings () := {|
  ADB_GO_ADDR := ""; LoadPrivateKey _ := Ok (); DefaultSocketPath := Ok "/run/adb-gos.sock"; stdout_err := None;
  ANDROID_SERIAL := ""; startup_probes := 100; screencap_name := "screen.png"; isConnectionRefused _ := false;
  isTimeout _ := false; os_IsNotExist _ := false; error_text _ := ""; result_text _ _ := ""; version_info := ("dev", "go", "amd64");
  GOOS := "linux"; XDG_CONFIG_HOME := ""; os_UserHomeDir := Ok "/root"; os_Executable := Ok "/bin/adb-go";
  os_Stat _ := Ok false; os_Lstat _ := Ok (true, ""); exec_LookPath _ := Ok "/bin/adb-gos"; filepath_Abs p := Ok p;
  strconv_Quote s := s;
|}.

Definition sample_args : list string := ["shell"; "--addr"; "127.0.0.1"; "ls"; "-l"].

Lemma verbosity_changes_nothing_witness :
  let run args := @Run _ _ sample_host sample_settings args (mkConsole [] []) in
  world (fst (run sample_args)) = ["connect 127.0.0.1"; "shell:ls -l"; "close"] ∧
  like (fst (run ("--verbose" :: sample_args))) (fst (run sample_args)).
Proof.
  split; [by vm_compute|].
  apply (@verbosity_changes_nothing _ _ sample_host sample_settings sample_args sample_args ∅); [by vm_compute..|done].
Defined.

(** In the background the server gets the remote service as it was typed, and is
    stricter about blanks than the command line. *)
Example background_remote_refused :
  parseForwardRemoteTCP "tcp: 8000" = Ok (Address.mkForwardTarget "tcp:8000") ∧
  is_Some (validateForwardRemote "tcp: 8000").
Proof. split; [by vm_compute|by eexists; vm_compute]. Qed.

Lemma help_lists_the_commands_witness :
  @Run _ _ sample_host sample_settings ["frobnicate"; "x"] (mkConsole [] []) =
    (mkConsole [] [Fprintf Stderr "adb-go: unknown command %q\n\n" [AStr "frobnicate"]; Fprint Stderr usage], 2).
Proof.
  apply (@help_lists_the_commands _ _ sample_host sample_settings "frobnicate" ["x"] (mkConsole [] [])); [reflexivity|].
  rewrite listed_commands. intros H. set_unfold. repeat (destruct H as [H|H]; [discriminate H|]). done.
Defined.
