(* ===== verification/Compat.v ===== *)
(** * cmd/adb-go/internal/compat: the adb-compatible command line

    compat.go, server.go, target.go and reverse.go.  The commands run over
    Custom's [Host] and [Settings].  [RunsServer] states
    that a host's requests are answered by the server of Server.v; against it,
    "adb reverse --remove-all" is proved to remove the reverses of its target
    and no others. *)

From S2P Require Import Prelude Errors GoStrings Strconv Text Address Usb ServerProtocol Forwards Reverses Server Json Codec Cli Usage Custom Wire Wired Commands.

#[local] Open Scope string_scope.
#[local] Open Scope Z_scope.
#[local] Open Scope list_scope.

(** ** Data *)

Inductive targetSelectorKind := targetSelectorNone | targetSelectorSerial | targetSelectorUSB | targetSelectorEmulator.

Record compatTargetSelector := mkSelector { sel_kind : targetSelectorKind; sel_serial : string }.

Definition second_selector : error := Errorf "more than one device/emulator selector specified" [].

Definition setSerial (serial : string) (s : compatTargetSelector) : res compatTargetSelector :=
  match sel_kind s with targetSelectorNone => Ok (mkSelector targetSelectorSerial serial) | _ => Err second_selector end.
Definition setUSB (s : compatTargetSelector) : res compatTargetSelector :=
  match sel_kind s with targetSelectorNone => Ok (mkSelector targetSelectorUSB (sel_serial s)) | _ => Err second_selector end.
Definition setEmulator (s : compatTargetSelector) : res compatTargetSelector :=
  match sel_kind s with targetSelectorNone => Ok (mkSelector targetSelectorEmulator (sel_serial s)) | _ => Err second_selector end.

Record globalOptions := mkOptions { go_host : string; go_port : string; go_selector : compatTargetSelector }.

Definition set_host (host : string) (opts : globalOptions) : globalOptions := mkOptions host (go_port opts) (go_selector opts).
Definition set_port (port : string) (opts : globalOptions) : globalOptions := mkOptions (go_host opts) port (go_selector opts).
Definition set_selector (s : compatTargetSelector) (opts : globalOptions) : globalOptions :=
  mkOptions (go_host opts) (go_port opts) s.
Definition default_options : globalOptions := mkOptions "localhost" "5037" (mkSelector targetSelectorNone "").

Record compatTarget := mkCompatTarget {
  co_Serial : string; co_State : string; co_Transport : string; co_TCPAddress : string; co_USBOptions : USBOptions;
}.

Section compat.
Context {W Key : Type} {host : Host W Key} {env : Settings Key}.

(** ** compat.go: options *)

Definition applyAndroidSerialDefault (opts : globalOptions) : globalOptions :=
  match sel_kind (go_selector opts) with
  | targetSelectorNone =>
      if negb (ANDROID_SERIAL =? "")%string then set_selector (mkSelector targetSelectorSerial ANDROID_SERIAL) opts else opts
  | _ => opts
  end.

(** [strings.HasPrefix(arg, option) && len(arg) > len(option)]. *)
Definition joined_option (arg option : string) : bool :=
  HasPrefix arg option && (String.length option <? String.length arg)%nat.

Fixpoint parse_options (opts : globalOptions) (args : list string) : res (globalOptions * string * list string) :=
  let requires option : res (globalOptions * string * list string) := Err (Errorf ("option " +++ option +++ " requires an argument") []) in
  match args with
  | [] => Ok (applyAndroidSerialDefault opts, "", [])
  | arg :: rest =>
      if (arg =? "-H")%string then
        match rest with
        | v :: rest => if (v =? "")%string then requires "-H" else parse_options (set_host v opts) rest
        | [] => requires "-H"
        end
      else if joined_option arg "-H" then parse_options (set_host (TrimPrefix arg "-H") opts) rest
      else if (arg =? "-P")%string then
        match rest with
        | v :: rest => if (v =? "")%string then requires "-P" else parse_options (set_port v opts) rest
        | [] => requires "-P"
        end
      else if joined_option arg "-P" then parse_options (set_port (TrimPrefix arg "-P") opts) rest
      else if (arg =? "--help")%string || (arg =? "-h")%string then Ok (applyAndroidSerialDefault opts, arg, rest)
      else if (arg =? "-s")%string then
        match rest with
        | v :: rest =>
            if (v =? "")%string then requires "-s" else
            match setSerial v (go_selector opts) with
            | Err err => Err err
            | Ok s => parse_options (set_selector s opts) rest
            end
        | [] => requires "-s"
        end
      else if joined_option arg "-s" then
        match setSerial (TrimPrefix arg "-s") (go_selector opts) with
        | Err err => Err err
        | Ok s => parse_options (set_selector s opts) rest
        end
      else if (arg =? "-d")%string then
        match setUSB (go_selector opts) with
        | Err err => Err err
        | Ok s => parse_options (set_selector s opts) rest
        end
      else if (arg =? "-e")%string then
        match setEmulator (go_selector opts) with
        | Err err => Err err
        | Ok s => parse_options (set_selector s opts) rest
        end
      else if HasPrefix arg "-" then Err (Errorf "unknown option %s" [AStr arg])
      else Ok (applyAndroidSerialDefault opts, arg, rest)
  end.
Definition parseGlobalOptions (args : list string) : res (globalOptions * string * list string) :=
  parse_options default_options args.

(** ** server.go *)

(** The text of the error of a response. *)
Definition serverErrorMessage (resp : Response) : error :=
  match rs_Error resp with
  | None => Errorf "unsuccessful response" []
  | Some e =>
      if (error_text (ErrorMessage e) =? "")%string then Errorf "%s" [AStr (Code e)]
      else ErrorfV "%s: %v" [AStr (Code e)] (ErrorMessage e)
  end.

(** A ping that is answered well. *)
Definition server_answers (socketPath : string) : Cmd W bool :=
  r ← cliserver_Send socketPath CommandPing NoParams;
  mret (match r with Ok resp => rs_OK resp | Err _ => false end).

Fixpoint await_server (probes : nat) (socketPath : string) : Cmd W (bool * option error) :=
  match probes with
  | O => mret (true, Some (Errorf "server did not become ready at %s" [AStr socketPath]))
  | S probes =>
      ready ← server_answers socketPath;
      if ready : bool then mret (true, None) else await_server probes socketPath
  end.

(** Whether a server was started, and the error. *)
Definition ensureServer : Cmd W (bool * option error) :=
  match DefaultSocketPath with
  | Err err => mret (false, Some err)
  | Ok socketPath =>
      answers ← server_answers socketPath;
      if answers : bool then mret (false, None) else
      err ← act (startServerProcess socketPath);
      match err with
      | Some err => mret (false, Some err)
      | None => await_server startup_probes socketPath
      end
  end.

(** No arguments are taken behind the command. *)
Definition no_arguments (command : string) (args : list string) (k : Cmd W Z) : Cmd W Z :=
  match args with
  | [] => k
  | _ => fprintf Stderr ("adb: " +++ command +++ ": unexpected arguments %q\n") [AStrs args] ;; mret 1
  end.
Definition adb_error (format : string) (err : error) : Cmd W Z := fprintfV Stderr ("adb: " +++ format +++ "\n") [] err ;; mret 1.

Definition runStartServer (args : list string) : Cmd W Z :=
  no_arguments "start-server" args (
    r ← ensureServer;
    match r with
    | (_, Some err) => adb_error "failed to start server: %v" err
    | (started, None) =>
        (if started : bool then fprintf Stdout "* server started successfully\n" [] else mret ()) ;; mret 0
    end).

Definition runKillServer (args : list string) : Cmd W Z :=
  no_arguments "kill-server" args (
    match DefaultSocketPath with
    | Err err => adb_error "kill-server: %v" err
    | Ok socketPath =>
        r ← cliserver_Send socketPath CommandShutdown NoParams;
        match r with
        | Err _ => mret 0
        | Ok resp =>
            if negb (rs_OK resp) then adb_error "kill-server: server error: %s" (serverErrorMessage resp) else mret 0
        end
    end).

Fixpoint print_each {A} (line : A → Cmd W ()) (l : list A) : Cmd W () :=
  match l with [] => mret () | a :: l => line a ;; print_each line l end.

Definition usb_serial (d : USBDevice) : string := "usb:" +++ format_03d (ud_BusNumber d) +++ ":" +++ format_03d (ud_DeviceNumber d).

(** The USB devices; an unsupported build has none. *)
Definition usb_devices : Cmd W (res (list USBDevice)) :=
  r ← act listUSBDevices;
  mret (match r with
        | Ok l => Ok l
        | Err err => if errors_Is err client_ErrUnsupported then Ok [] else Err err
        end).

Definition runDevices (args : list string) : Cmd W Z :=
  no_arguments "devices" args (
    r ← ensureServer;
    match snd r with
    | Some err => adb_error "devices: failed to start server: %v" err
    | None =>
        match DefaultSocketPath with
        | Err err => adb_error "devices: %v" err
        | Ok socketPath =>
            r ← cliserver_Send socketPath CommandDeviceList NoParams;
            match r with
            | Err err => adb_error "devices: query server: %v" err
            | Ok resp =>
                if negb (rs_OK resp) then adb_error "devices: server error: %s" (serverErrorMessage resp) else
                usb ← usb_devices;
                match usb with
                | Err err => adb_error "devices: list USB devices: %v" err
                | Ok usb =>
                    fprintf Stdout "List of devices attached\n" [] ;;
                    print_each (λ d, fprintf Stdout "%s\t%s\n" [AStr (Serial d); AStr (dv_State d)]) (decode_devices (rs_Result resp)) ;;
                    print_each (λ d, fprintf Stdout "%s\tdevice\n" [AStr (usb_serial d)]) usb ;;
                    fprintf Stdout "\n" [] ;; mret 0
                end
            end
        end
    end).

(** ** target.go *)

Definition compatTargetFromServerDevice (d : Device) : compatTarget :=
  mkCompatTarget (Serial d) (dv_State d) (dv_Transport d) (dv_Address d) no_usb.
Definition compatTargetFromUSBDevice (d : USBDevice) : compatTarget :=
  mkCompatTarget (usb_serial d) DeviceStateDevice "usb" ""
    (mkUSBOptions (ud_DevicePath d) (ud_BusNumber d) (ud_DeviceNumber d) (ud_VendorID d) (ud_ProductID d) "").

Definition listCompatTargets : Cmd W (res (list compatTarget)) :=
  r ← ensureServer;
  match snd r with
  | Some err => mret (Err (ErrorfW "failed to start server: %w" [] err))
  | None =>
      match DefaultSocketPath with
      | Err err => mret (Err err)
      | Ok socketPath =>
          r ← cliserver_Send socketPath CommandDeviceList NoParams;
          match r with
          | Err err => mret (Err (ErrorfW "query server: %w" [] err))
          | Ok resp =>
              if negb (rs_OK resp) then mret (Err (ErrorfV "server error: %s" [] (serverErrorMessage resp))) else
              usb ← usb_devices;
              mret (match usb with
                    | Err err => Err (ErrorfW "list USB devices: %w" [] err)
                    | Ok usb => Ok ((compatTargetFromServerDevice <$> decode_devices (rs_Result resp)) ++
                                    (compatTargetFromUSBDevice <$> usb))
                    end)
          end
      end
  end.

Definition selectOnlyTarget (targets : list compatTarget) (keep : compatTarget → bool) (label : string) : res compatTarget :=
  match List.filter keep targets with
  | [] => Err (Errorf "no %s found" [AStr label])
  | [t] => Ok t
  | _ => Err (Errorf "more than one %s" [AStr label])
  end.

Definition select_target (s : compatTargetSelector) (targets : list compatTarget) : res compatTarget :=
  match sel_kind s with
  | targetSelectorSerial =>
      match List.find (λ t, String.eqb (co_Serial t) (sel_serial s)) targets with
      | Some t => Ok t
      | None => Err (Errorf "device %q not found" [AStr (sel_serial s)])
      end
  | targetSelectorUSB => selectOnlyTarget targets (λ t, String.eqb (co_Transport t) "usb") "USB"
  | targetSelectorEmulator => selectOnlyTarget targets (λ t, String.eqb (co_Transport t) "tcp") "TCP/emulator"
  | targetSelectorNone => selectOnlyTarget targets (λ _, true) "device/emulator"
  end.

Definition resolveCompatTarget (opts : globalOptions) : Cmd W (res compatTarget) :=
  targets ← listCompatTargets;
  mret (targets ← targets; select_target (go_selector opts) targets).

Definition runGetState (args : list string) (opts : globalOptions) : Cmd W Z :=
  no_arguments "get-state" args (
    t ← resolveCompatTarget opts;
    match t with
    | Err err => adb_error "get-state: %v" err
    | Ok t => fprintf Stdout "%s\n" [AStr (co_State t)] ;; mret 0
    end).

(** ** reverse.go *)

Definition resolveReverseTarget (opts : globalOptions) : Cmd W (option compatTarget) :=
  t ← resolveCompatTarget opts;
  match t with
  | Err err => fprintfV Stderr "adb: reverse: %v\n" [] err ;; mret None
  | Ok t =>
      if negb (co_State t =? DeviceStateDevice)%string then
        fprintf Stderr "adb: reverse: device %s not available: %s\n" [AStr (co_Serial t); AStr (co_State t)] ;; mret None
      else if negb (co_Transport t =? "tcp")%string || (TrimSpace (co_TCPAddress t) =? "")%string then
        fprintf Stderr "adb: reverse: USB reverse forwarding is not supported by adb-go compat yet\n" [] ;; mret None
      else mret (Some t)
  end.

Definition reverseServerRequest (command : string) (p : params) : Cmd W (res Response) :=
  r ← ensureServer;
  match snd r with
  | Some err => mret (Err err)
  | None =>
      match DefaultSocketPath with
      | Err err => mret (Err err)
      | Ok socketPath => cliserver_Send socketPath command p
      end
  end.

Definition printCompatReverseServerError (r : res Response) : Cmd W () :=
  match r with
  | Err err => fprintfV Stderr "adb: reverse: %v\n" [] err
  | Ok resp =>
      match rs_Error resp with
      | Some _ => fprintfV Stderr "adb: reverse: %s\n" [] (serverErrorMessage resp)
      | None => fprintf Stderr "adb: reverse: server returned an unsuccessful response\n" []
      end
  end.

(** A request; [None] where it failed, which was printed. *)
Definition reverse_request (command : string) (p : params) : Cmd W (option (option payload)) :=
  r ← reverseServerRequest command p;
  match r with
  | Ok resp => if rs_OK resp then mret (Some (rs_Result resp)) else printCompatReverseServerError r ;; mret None
  | Err _ => printCompatReverseServerError r ;; mret None
  end.

Definition reverseCompatSerial (t : ServerProtocol.ForwardTarget) : string :=
  if (tg_Transport t =? "tcp")%string then tg_Address t else tg_Transport t +++ ":" +++ tg_Address t.

Definition runReverseCreate (opts : globalOptions) (remoteService localService : string) (norebind : bool) : Cmd W Z :=
  match ParseReverseDeviceEndpoint remoteService with
  | Err err => adb_error "reverse: %v" err
  | Ok _ =>
      match ParseReverseHostEndpoint localService with
      | Err err => adb_error "reverse: %v" err
      | Ok _ =>
          t ← resolveReverseTarget opts;
          match t with
          | None => mret 1
          | Some t =>
              r ← reverse_request CommandReverseCreate (ReverseCreate (mkReverseCreate (TrimSpace remoteService)
                    (TrimSpace localService) (ServerProtocol.mkTarget "tcp" (co_TCPAddress t)) norebind));
              mret (match r with None => 1 | Some _ => 0 end)
          end
      end
  end.

Definition reverse_line (v : Reverses.Reverse) : Cmd W () :=
  fprintf Stdout "%s %s %s\n" [AStr (reverseCompatSerial (rv_Target v)); AStr (rv_Remote v); AStr (rv_Local v)].

Definition runReverseList (opts : globalOptions) : Cmd W Z :=
  r ← reverse_request CommandReverseList NoParams;
  match r with
  | None => mret 1
  | Some result =>
      let list filterAddress :=
        print_each reverse_line (List.filter (λ v, (filterAddress =? "")%string || (tg_Address (rv_Target v) =? filterAddress)%string)
          (decode_reverses result)) ;; mret 0 in
      match sel_kind (go_selector opts) with
      | targetSelectorNone => list ""
      | _ =>
          t ← resolveReverseTarget opts;
          match t with None => mret 1 | Some t => list (co_TCPAddress t) end
      end
  end.

Definition findReverseID (targetAddress remoteService : string) : Cmd W (option string) :=
  r ← reverse_request CommandReverseList NoParams;
  match r with
  | None => mret None
  | Some result =>
      match List.find (λ v, (tg_Address (rv_Target v) =? targetAddress)%string && (rv_Remote v =? remoteService)%string)
              (decode_reverses result) with
      | Some v => mret (Some (rv_ID v))
      | None => fprintf Stderr "adb: reverse: listener not found\n" [] ;; mret None
      end
  end.

Definition runReverseRemove (opts : globalOptions) (remoteService : string) : Cmd W Z :=
  match ParseReverseDeviceEndpoint remoteService with
  | Err err => adb_error "reverse: %v" err
  | Ok _ =>
      t ← resolveReverseTarget opts;
      match t with
      | None => mret 1
      | Some t =>
          id ← findReverseID (co_TCPAddress t) (TrimSpace remoteService);
          match id with
          | None => mret 1
          | Some id =>
              r ← reverse_request CommandReverseRemove (ReverseRemove (mkReverseRemove id None));
              mret (match r with None => 1 | Some _ => 0 end)
          end
      end
  end.

Fixpoint remove_reverses (address : string) (l : list Reverses.Reverse) : Cmd W Z :=
  match l with
  | [] => mret 0
  | v :: l =>
      if negb (tg_Address (rv_Target v) =? address)%string then remove_reverses address l else
      r ← reverse_request CommandReverseRemove (ReverseRemove (mkReverseRemove (rv_ID v) None));
      match r with None => mret 1 | Some _ => remove_reverses address l end
  end.

Definition runReverseRemoveAll (opts : globalOptions) : Cmd W Z :=
  t ← resolveReverseTarget opts;
  match t with
  | None => mret 1
  | Some t =>
      r ← reverse_request CommandReverseList NoParams;
      match r with
      | None => mret 1
      | Some result => remove_reverses (co_TCPAddress t) (decode_reverses result)
      end
  end.

Definition adb_message (format : string) (args : list arg) : Cmd W Z := fprintf Stderr ("adb: " +++ format +++ "\n") args ;; mret 1.

Definition runReverse (args : list string) (opts : globalOptions) : Cmd W Z :=
  let '(norebind, args) :=
    match args with arg :: rest => if (arg =? "--no-rebind")%string then (true, rest) else (false, args) | [] => (false, []) end in
  let creating_only k := if norebind : bool then adb_message "reverse: --no-rebind is only valid when creating a reverse" [] else k in
  match args with
  | [] => adb_message "reverse requires an argument" []
  | arg :: rest =>
      if (arg =? "--list")%string then
        creating_only (match rest with
                       | [] => runReverseList opts
                       | _ => adb_message "reverse --list: unexpected arguments %q" [AStrs rest]
                       end)
      else if (arg =? "--remove")%string then
        creating_only (match rest with
                       | [remote] => runReverseRemove opts remote
                       | _ => adb_message "reverse --remove requires REMOTE" []
                       end)
      else if (arg =? "--remove-all")%string then
        creating_only (match rest with
                       | [] => runReverseRemoveAll opts
                       | _ => adb_message "reverse --remove-all: unexpected arguments %q" [AStrs rest]
                       end)
      else
        match rest with
        | [local] => runReverseCreate opts arg local norebind
        | _ => adb_message "reverse requires REMOTE and LOCAL" []
        end
  end.

(** ** compat.go: Run *)

Definition compat_version (opts : globalOptions) : Cmd W () :=
  let '(version, _, goarch) := version_info in
  fprintf Stdout "Android Debug Bridge version 1.0.41 (adb-go compat)\nVersion %s\nInstalled as adb-go compat mode\nRunning on %s %s\nServer target %s:%s\n"
    [AStr version; AStr GOOS; AStr goarch; AStr (go_host opts); AStr (go_port opts)].

Definition compat_runVersion (args : list string) (opts : globalOptions) : Cmd W Z :=
  no_arguments "version" args (compat_version opts ;; mret 0).

Definition compat_Run (args : list string) : Cmd W Z :=
  match parseGlobalOptions args with
  | Err err => adb_error "%v" err
  | Ok (opts, command, args) =>
      if bool_decide (command ∈ [""; "help"; "--help"; "-h"]) then
        match args with
        | [] => fprint Stdout helpText ;; mret 0
        | _ => adb_message "%s: unexpected arguments %q" [AStr command; AStrs args]
        end
      else if (command =? "version")%string then compat_runVersion args opts
      else if (command =? "start-server")%string then runStartServer args
      else if (command =? "kill-server")%string then runKillServer args
      else if (command =? "devices")%string then runDevices args
      else if (command =? "get-state")%string then runGetState args opts
      else if (command =? "reverse")%string then runReverse args opts
      else adb_message "unknown command %s" [AStr command]
  end.
End compat.

(** ** Options are read as they are written *)

Section options.
Context {Key : Type} {env : Settings Key}.

(** An option with its value, in one argument or in two. *)
Definition render_option (joined : bool) (option value : string) : list string :=
  if joined then [option +++ value] else [option; value].
Definition render_selector (joined : bool) (s : compatTargetSelector) : list string :=
  match sel_kind s with
  | targetSelectorNone => []
  | targetSelectorSerial => render_option joined "-s" (sel_serial s)
  | targetSelectorUSB => ["-d"]
  | targetSelectorEmulator => ["-e"]
  end.
Definition render_options (joined : bool) (opts : globalOptions) : list string :=
  render_selector joined (go_selector opts) ++ render_option joined "-H" (go_host opts) ++
  render_option joined "-P" (go_port opts).

(** What the options can be given: a host, a port and a serial are not empty. *)
Definition selector_ok (s : compatTargetSelector) : Prop :=
  match sel_kind s with targetSelectorSerial => sel_serial s ≠ "" | _ => sel_serial s = "" end.
Definition options_ok (opts : globalOptions) : Prop :=
  go_host opts ≠ "" ∧ go_port opts ≠ "" ∧ selector_ok (go_selector opts).

Lemma joined_option_append option value : value ≠ "" →
  (option +++ value =? option)%string = false ∧ joined_option (option +++ value) option = true.
Proof.
  intros Hv. assert (String.length option < String.length (option +++ value))%nat as Hl
    by (rewrite length_append; destruct value; [done|cbn; lia]).
  split; [apply String.eqb_neq; intros E; rewrite E in Hl; lia|].
  unfold joined_option. rewrite HasPrefix_append. by apply Nat.ltb_lt.
Qed.

(** An argument without a dash is no option. *)
Lemma no_option command option : HasPrefix option "-" = true → HasPrefix command "-" = false →
  (command =? option)%string = false ∧ joined_option command option = false.
Proof.
  intros Ho Hc. split; [apply String.eqb_neq; congruence|]. unfold joined_option.
  destruct (HasPrefix command option) eqn:E; [|done]. apply HasPrefix_spec in E as [t ->].
  apply HasPrefix_spec in Ho as [u ->]. rewrite <-append_assoc in Hc. by rewrite HasPrefix_append in Hc.
Qed.

Lemma parse_host joined v opts rest : v ≠ "" →
  parse_options opts (render_option joined "-H" v ++ rest) = parse_options (set_host v opts) rest.
Proof.
  intros Hv. destruct joined; cbn [render_option app parse_options].
  - destruct (joined_option_append "-H" v Hv) as [-> ->]. by rewrite TrimPrefix_append.
  - apply String.eqb_neq in Hv. by rewrite String.eqb_refl, Hv.
Qed.
Lemma parse_port joined v opts rest : v ≠ "" →
  parse_options opts (render_option joined "-P" v ++ rest) = parse_options (set_port v opts) rest.
Proof.
  intros Hv. destruct joined; cbn [render_option app parse_options].
  - destruct (joined_option_append "-P" v Hv) as [-> ->]. by rewrite TrimPrefix_append.
  - apply String.eqb_neq in Hv. by rewrite Hv.
Qed.
Lemma parse_serial joined v opts rest : v ≠ "" →
  parse_options opts (render_option joined "-s" v ++ rest) =
  match setSerial v (go_selector opts) with Err err => Err err | Ok s => parse_options (set_selector s opts) rest end.
Proof.
  intros Hv. destruct joined; cbn [render_option app parse_options].
  - destruct (joined_option_append "-s" v Hv) as [-> ->]. by rewrite TrimPrefix_append.
  - apply String.eqb_neq in Hv. by rewrite Hv.
Qed.

Lemma parse_selector joined s opts rest : selector_ok s → sel_kind (go_selector opts) = targetSelectorNone →
  sel_serial (go_selector opts) = "" →
  parse_options opts (render_selector joined s ++ rest) = parse_options (set_selector s opts) rest.
Proof.
  unfold selector_ok, render_selector. intros Hs Hk He. destruct s as [k serial], opts as [h p [k0 serial0]].
  cbn in Hs, Hk, He. subst k0 serial0. destruct k; cbn [sel_kind sel_serial] in *; try subst serial; try done.
  rewrite parse_serial by done. done.
Qed.

Lemma parse_second_selector joined s opts rest : selector_ok s → sel_kind s ≠ targetSelectorNone →
  sel_kind (go_selector opts) ≠ targetSelectorNone →
  parse_options opts (render_selector joined s ++ rest) = Err second_selector.
Proof.
  unfold selector_ok, render_selector. intros Hs Hn Hk. destruct s as [k serial], opts as [h p [k0 serial0]].
  cbn in Hs, Hk, Hn. destruct k; cbn [sel_kind sel_serial] in *; try done; [rewrite parse_serial by done| |];
    by destruct k0.
Qed.

Lemma parse_command opts command args : HasPrefix command "-" = false →
  parse_options opts (command :: args) = Ok (applyAndroidSerialDefault opts, command, args).
Proof.
  intros Hc. cbn [parse_options].
  rewrite (proj1 (no_option command "-H" eq_refl Hc)), (proj2 (no_option command "-H" eq_refl Hc)),
    (proj1 (no_option command "-P" eq_refl Hc)), (proj2 (no_option command "-P" eq_refl Hc)),
    (proj1 (no_option command "--help" eq_refl Hc)), (proj1 (no_option command "-h" eq_refl Hc)),
    (proj1 (no_option command "-s" eq_refl Hc)), (proj2 (no_option command "-s" eq_refl Hc)),
    (proj1 (no_option command "-d" eq_refl Hc)), (proj1 (no_option command "-e" eq_refl Hc)), Hc. done.
Qed.

(** The global options of the adb-compatible command line are read as they are
    written: host, port and selector, each joined with its value or not, come
    back with the command and its arguments untouched, ANDROID_SERIAL selecting
    a device where no option does; and two selectors are refused, whatever
    they are. *)
Theorem options_roundtrip (joined : bool) (opts : globalOptions) (s : compatTargetSelector) (command : string) (args : list string) :
  options_ok opts → HasPrefix command "-" = false → selector_ok s →
  parseGlobalOptions (render_options joined opts ++ command :: args) = Ok (applyAndroidSerialDefault opts, command, args) ∧
  (sel_kind s ≠ targetSelectorNone → sel_kind (go_selector opts) ≠ targetSelectorNone →
   parseGlobalOptions (render_options joined opts ++ render_selector joined s ++ args) = Err second_selector).
Proof.
  intros (Hh & Hp & Ho) Hc Hs. unfold parseGlobalOptions, render_options. rewrite <-!app_assoc.
  rewrite !(parse_selector joined (go_selector opts)), !parse_host, !parse_port by done.
  destruct opts as [h p sel]. split; [by rewrite parse_command|]. intros Hn Hk. by apply parse_second_selector.
Qed.
End options.

(** ** Requests to the running server *)

(** A host whose requests to [path] are handled by a server that only they
    change: what [Send] returns is the response of the handler as the
    connection brings it back. *)
Class RunsServer (W Key : Type) {host : Host W Key} (path : string) := {
  running : W → Server;
  error_texts : error → string;
  server_pid : nat;
  server_uptime : nat;
  send_handled command p w : is_ascii command = true → ∃ oc raw, carries oc raw (seen_params p) ∧
    ∀ s' resp, handleRequest oc (mkRequest ProtocolVersion "" command raw) (running w) = Some (s', resp) →
      result_fits error_texts server_pid server_uptime resp →
      running (fst (sendServerRequest path ProtocolVersion command p w)) = s' ∧
      snd (sendServerRequest path ProtocolVersion command p w) = Ok (seen_Response error_texts resp);
  usb_apart w : running (fst (listUSBDevices w)) = running w;
}.

Section server.
Context {W Key : Type} {host : Host W Key} {env : Settings Key} {path : string} {R : RunsServer W Key path}.
Hypothesis Hpath : Custom.DefaultSocketPath = Ok path.

(** The command prints nothing, returns [a] and leaves the server as [s]. *)
Definition yields {A} (m : Cmd W A) (c : console W) (a : A) (s : Server) : Prop :=
  snd (m c) = a ∧ printed (fst (m c)) = printed c ∧ running (world (fst (m c))) = s.

Lemma yields_ret {A} (a : A) c s : running (world c) = s → yields (mret a) c a s.
Proof. by intros <-. Qed.
Lemma yields_bind {A B} (m : Cmd W A) (k : A → Cmd W B) c a s b s' :
  yields m c a s → (∀ c', printed c' = printed c → running (world c') = s → yields (k a) c' b s') → yields (m ≫= k) c b s'.
Proof.
  intros (Ha & Hp & Hs) Hk. unfold yields, mbind, Cmd_bind. destruct (m c) as [c' a'] eqn:E. cbn in *. subst a'.
  destruct (Hk c' Hp Hs) as (? & ? & ?). split_and!; congruence.
Qed.

(** What is sent and what comes back, as the connection leaves it. *)
Definition fits_reply (resp : Response) : Prop := result_fits error_texts server_pid server_uptime resp.
Definition reply_of (resp : Response) : Response := seen_Response error_texts resp.

Lemma send_yields command p c s : running (world c) = s → is_ascii command = true →
  ∃ oc raw, carries oc raw (seen_params p) ∧ ∀ s' resp,
    handleRequest oc (mkRequest ProtocolVersion "" command raw) s = Some (s', resp) → fits_reply resp →
    yields (cliserver_Send path command p) c (Ok (reply_of resp)) s'.
Proof.
  intros <- Ha. destruct (send_handled command p (world c) Ha) as (oc & raw & Hc & H). exists oc, raw. split; [done|].
  intros s' resp E Hf. destruct (H s' resp E Hf) as [H1 H2]. unfold yields, cliserver_Send, act.
  destruct (sendServerRequest _ _ _ _ _) as [w r]. done.
Qed.

Lemma ensure_yields c s : running (world c) = s → yields ensureServer c (false, None) s.
Proof.
  intros Hs. unfold ensureServer. rewrite Hpath. apply (yields_bind _ _ _ true s).
  - unfold server_answers. destruct (send_yields CommandPing NoParams c s Hs eq_refl) as (oc & raw & _ & H).
    eapply yields_bind; [by apply (H s)|]. intros c' _ Hs'. by apply yields_ret.
  - intros c' _ Hs'. by apply yields_ret.
Qed.

Lemma request_yields command p c s : running (world c) = s → is_ascii command = true →
  ∃ oc raw, carries oc raw (seen_params p) ∧ ∀ s' resp,
    handleRequest oc (mkRequest ProtocolVersion "" command raw) s = Some (s', resp) → rs_OK resp = true → fits_reply resp →
    yields (reverse_request command p) c (Some (rs_Result (reply_of resp))) s'.
Proof.
  intros Hs Ha. unfold reverse_request, reverseServerRequest. rewrite Hpath.
  pose proof (ensure_yields c s Hs) as (E1 & E2 & E3). cbn in *.
  destruct (send_yields command p (fst (ensureServer c)) s E3 Ha) as (oc & raw & Hc & H). exists oc, raw.
  split; [done|]. intros s' resp Hh Hok Hf. destruct (H s' resp Hh Hf) as (S1 & S2 & S3).
  unfold yields, mbind, Cmd_bind. destruct (ensureServer c) as [c1 a1]. cbn in *. subst a1. cbn.
  destruct (cliserver_Send path command p c1) as [c2 a2]. cbn in *. subst a2. cbn. rewrite Hok. cbn. split_and!; congruence.
Qed.

(** *** Resolving the target leaves the server alone *)

(** A reverse as it comes back, and counts that JSON keeps. *)
Definition seen_reverse (v : Reverses.Reverse) : Reverses.Reverse := seen (Codec := Reverse_codec error_texts) v.
Definition few_active (v : Reverses.Reverse) : Prop := Z.of_nat (rv_ActiveConnections v) < 10 ^ 15.

Lemma reverse_list_yields c s : running (world c) = s → Forall few_active (reverses_of (rreg (reverses s))) →
  yields (reverse_request CommandReverseList NoParams) c
    (Some (Some (PReverses (seen_reverse <$> reverses_of (rreg (reverses s)))))) s.
Proof.
  intros Hs Hf. destruct (request_yields CommandReverseList NoParams c s Hs eq_refl) as (oc & raw & _ & H).
  by apply (H s _ eq_refl).
Qed.

(** The command prints nothing and leaves the server alone. *)
Definition apart {A} (m : Cmd W A) (c : console W) : Prop :=
  printed (fst (m c)) = printed c ∧ running (world (fst (m c))) = running (world c).

Lemma yields_apart {A} (m : Cmd W A) c a s : running (world c) = s → yields m c a s → apart m c.
Proof. by intros <- (_ & ? & ?). Qed.
Lemma apart_bind {A B} (m : Cmd W A) (k : A → Cmd W B) c :
  apart m c → (∀ c', printed c' = printed c → running (world c') = running (world c) → apart (k (snd (m c))) c') →
  apart (m ≫= k) c.
Proof.
  intros (Hp & Hs) Hk. unfold apart, mbind, Cmd_bind. destruct (m c) as [c' a]. cbn in *.
  destruct (Hk c' Hp Hs) as [? ?]. split; congruence.
Qed.
Lemma apart_ret {A} (a : A) c : apart (mret a) c.
Proof. done. Qed.

Lemma usb_devices_apart c : apart usb_devices c.
Proof.
  apply apart_bind; [|intros; apply apart_ret]. unfold apart, act. pose proof (usb_apart (world c)) as H.
  by destruct (listUSBDevices (world c)) as [w r].
Qed.

Lemma resolveCompatTarget_apart opts c : apart (resolveCompatTarget opts) c.
Proof.
  apply apart_bind; [|intros; apply apart_ret]. unfold listCompatTargets.
  pose proof (ensure_yields c _ eq_refl) as E. apply apart_bind; [by eapply yields_apart|]. intros c1 _ Hs.
  destruct E as (-> & _). cbn [snd]. rewrite Hpath.
  destruct (send_yields CommandDeviceList NoParams c1 _ Hs eq_refl) as (oc & raw & _ & H).
  specialize (H _ _ eq_refl I).
  apply apart_bind; [by eapply yields_apart|]. intros c2 _ _. destruct H as (-> & _). cbn [rs_OK answer negb reply_of seen_Response].
  apply apart_bind; [apply usb_devices_apart|intros; apply apart_ret].
Qed.

Lemma resolveReverseTarget_yields opts c t : snd (resolveReverseTarget opts c) = Some t →
  yields (resolveReverseTarget opts) c (Some t) (running (world c)).
Proof.
  destruct (resolveCompatTarget_apart opts c) as [Hp Hs]. unfold yields, resolveReverseTarget, mbind, Cmd_bind.
  destruct (resolveCompatTarget opts c) as [c1 [t'|err]]; cbn in Hp, Hs |- *; [|done].
  destruct (negb (co_State _ =? _)%string); [done|]. by destruct (_ || _).
Qed.

(** *** Removing reverses *)

(** A request to remove a reverse by its ID. *)
Lemma reverse_remove_request oc raw s id e :
  rworld_ok (reverses s) → rr_byID (rreg (reverses s)) !! id = Some e →
  carries oc raw (ReverseRemove (mkReverseRemove id None)) →
  ∃ r', reverse_removeLocked (oc_cleanup oc) (Some e) (rreg (reverses s)) = Some r' ∧
    handleRequest oc (mkRequest ProtocolVersion "" CommandReverseRemove raw) s =
    Some (set_reverses (set_rreg r' (reverses s)) s, answer (mkRequest ProtocolVersion "" CommandReverseRemove raw) (PRemoved 1)).
Proof.
  intros Hr Hid [Hraw Hdec]. destruct (reverse_removed_ok (oc_cleanup oc) _ _ _ Hr Hid) as (r' & E & _). exists r'. split; [done|].
  destruct (rok_ids _ Hr _ _ Hid) as (n & Hn & En). assert (TrimSpace id ≠ "") as Htrim.
  { rewrite En. unfold reverse_id. destruct (Itoa_last n ltac:(lia)) as (t & a & Et & Ha).
    rewrite (TrimSpace_trimmed ("rev_" +++ Itoa n)); [done|].
    eapply (trimmed_printable "r" ("ev_" +++ Itoa n) a ("rev_" +++ t)); [|done|done]. rewrite Et. by rewrite <-append_assoc. }
  assert (id ≠ "") as Hne by (by rewrite En).
  assert (decodeReverseRemoveParams (oc_reverse_remove oc) raw = Good (mkReverseRemove id None)) as ED.
  { unfold decodeReverseRemoveParams. rewrite (proj2 (String.eqb_neq _ _) Hraw), Hdec. cbn [rr_ID rr_Remote].
    by rewrite (proj2 (String.eqb_neq _ _) Htrim). }
  unfold handleRequest. cbn [rq_Command rq_Version rq_Params]. run_goal. cbn [Z.eqb Pos.eqb negb ProtocolVersion]. run_goal.
  rewrite ED. unfold reverse_remove. cbn [rr_ID rr_Remote]. rewrite (proj2 (String.eqb_neq _ _) Hne), Hid.
  cbn [mbind option_bind]. by rewrite E.
Qed.
(** Nothing is dropped with its session open. *)
Definition closes_dropped (r r' : reverseRegistry) : Prop :=
  rr_closed_sessions r ⊆ rr_closed_sessions r' ∧
  ∀ id e, rr_byID r !! id = Some e → rr_byID r' !! id = Some e ∨ e ∈ rr_closed_sessions r'.

#[local] Instance closes_dropped_preorder : PreOrder closes_dropped.
Proof.
  split; [split; [done|by left]|]. intros r1 r2 r3 [S1 D1] [S2 D2]. split; [by etrans|].
  intros id e H. destruct (D1 id e H) as [H2|H2]; [by apply D2|right; set_solver].
Qed.

(** The ID of a reverse is ASCII. *)
Lemma reverse_id_seen s id e : rworld_ok (reverses s) → rr_byID (rreg (reverses s)) !! id = Some e → coerce id = id.
Proof.
  intros Hr Hid. destruct (rok_ids _ Hr _ _ Hid) as (n & _ & ->). apply coerce_ascii. cbn. apply is_ascii_Itoa.
Qed.

(** One of the reverses is removed. *)
Lemma remove_one c s v : running (world c) = s → rworld_ok (reverses s) → v ∈ reverses_of (rreg (reverses s)) →
  ∃ s', yields (reverse_request CommandReverseRemove (ReverseRemove (mkReverseRemove (rv_ID (seen_reverse v)) None))) c
          (Some (Some (PRemoved 1))) s' ∧
    rworld_ok (reverses s') ∧ reverses_of (rreg (reverses s)) ≡ₚ v :: reverses_of (rreg (reverses s')) ∧
    closes_dropped (rreg (reverses s)) (rreg (reverses s')).
Proof.
  intros Hs Hr Hv. apply elem_of_reverses in Hv as (id & e & en & Hid & He & <-).
  destruct (rok_byID _ (rok_reg _ Hr) _ _ Hid) as (en' & He' & HI & _). assert (en' = en) as -> by congruence.
  change (rv_ID (seen_reverse (re_reverse en))) with (coerce (rv_ID (re_reverse en))). rewrite HI, (reverse_id_seen s id e Hr Hid).
  destruct (request_yields CommandReverseRemove (ReverseRemove (mkReverseRemove id None)) c s Hs eq_refl) as (oc & raw & Hc & H).
  cbn [seen_params seen ReverseRemove_codec rr_ID rr_Remote fmap option_fmap option_map] in Hc.
  change (seen id) with (coerce id) in Hc. rewrite (reverse_id_seen s id e Hr Hid) in Hc.
  destruct (reverse_remove_request oc raw s id e Hr Hid Hc) as (r' & Hr' & E).
  destruct (reverse_removed_ok (oc_cleanup oc) _ _ _ Hr Hid) as (r1 & E1 & Hw & _ & HB & _ & _ & HX & _).
  assert (r1 = r') as -> by congruence. destruct (reverses_of_removed _ _ _ _ _ _ Hr Hid He Hr') as [HP Hsub].
  eexists. split; [apply (H _ _ E eq_refl); cbn; lia|]. split_and!; [done|done|]. split; [done|]. cbn. intros id2 e2 H2. rewrite HB.
  destruct (decide (id2 = id)) as [->|Hne]; [right; congruence|left; by rewrite lookup_delete_ne].
Qed.

(** The address of a reverse's target as it comes back. *)
Definition seen_address (v : Reverses.Reverse) : string := coerce (tg_Address (rv_Target v)).

Lemma remove_reverses_yields address l : ∀ c s rest, running (world c) = s → rworld_ok (reverses s) →
  reverses_of (rreg (reverses s)) ≡ₚ l ++ rest →
  ∃ s', yields (remove_reverses address (seen_reverse <$> l)) c 0 s' ∧
    reverses_of (rreg (reverses s')) ≡ₚ filter (λ v, seen_address v ≠ address) l ++ rest ∧
    closes_dropped (rreg (reverses s)) (rreg (reverses s')).
Proof.
  induction l as [|v l IH]; intros c s rest Hs Hr HP; [exists s; by split_and!; [apply yields_ret|..]|].
  cbn [fmap list_fmap remove_reverses]. change (tg_Address (rv_Target (seen_reverse v))) with (seen_address v).
  destruct (seen_address v =? address)%string eqn:EA; cbn [negb].
  - apply String.eqb_eq in EA. destruct (remove_one c s v Hs Hr) as (s1 & Hy & Hr1 & HP1 & Hd1).
    { rewrite HP. apply list_elem_of_here. }
    destruct (IH (fst (reverse_request CommandReverseRemove (ReverseRemove (mkReverseRemove (rv_ID (seen_reverse v)) None)) c)) s1 rest)
      as (s2 & Hy2 & HP2 & Hd2); [apply Hy|done| |].
    { apply (Permutation_cons_inv (a := v)). by rewrite <-HP1, HP. }
    exists s2. rewrite filter_cons_False by tauto. split_and!; [|done|by etrans].
    destruct Hy as (Y1 & Y2 & _), Hy2 as (Z1 & Z2 & Z3). unfold yields, mbind, Cmd_bind.
    destruct (reverse_request _ _ c) as [c1 a]. cbn in Y1, Y2, Z1, Z2, Z3 |- *. subst a. split_and!; congruence.
  - apply String.eqb_neq in EA. rewrite filter_cons_True by done.
    destruct (IH c s (v :: rest) Hs Hr) as (s2 & Hy2 & HP2 & Hd2); [rewrite HP; apply Permutation_middle|].
    exists s2. split_and!; [done| |done]. rewrite HP2. symmetry. apply Permutation_middle.
Qed.

(** C29: "adb reverse --remove-all" against the server, through the JSON of the
    connection: when the target is resolved, to a device with a TCP address, the
    command ends with 0 and prints nothing; the server is left with exactly the
    reverses of other addresses; and of the reverses that are gone no session is
    left open. *)
Theorem remove_all_removes (n : nat) (opts : globalOptions) (c : console W) (t : compatTarget) :
  served n (running (world c)) → Z.of_nat (5 * n) < 2 ^ 60 → snd (resolveReverseTarget opts c) = Some t →
  let before := rreg (reverses (running (world c))) in
  Forall few_active (reverses_of before) →
  let '(c', code) := runReverseRemoveAll opts c in
  let after := rreg (reverses (running (world c'))) in
  code = 0 ∧ printed c' = printed c ∧
  reverses_of after ≡ₚ filter (λ v, seen_address v ≠ co_TCPAddress t) (reverses_of before) ∧
  ∀ id e, rr_byID before !! id = Some e → rr_byID after !! id = Some e ∨ e ∈ rr_closed_sessions after.
Proof.
  intros Hs Hn Ht before Hf. destruct (served_ok n _ Hs Hn) as (_ & _ & Hr & _).
  destruct (resolveReverseTarget_yields opts c t Ht) as (T1 & T2 & T3).
  destruct (reverse_list_yields _ _ T3 Hf) as (L1 & L2 & L3).
  destruct (remove_reverses_yields (co_TCPAddress t) (reverses_of before)
    (fst (reverse_request CommandReverseList NoParams (fst (resolveReverseTarget opts c)))) _ [] L3 Hr)
    as (s' & (R1 & R2 & R3) & HP & _ & Hd); [by rewrite app_nil_r|].
  unfold runReverseRemoveAll, mbind, Cmd_bind. destruct (resolveReverseTarget opts c) as [c1 a1]. cbn in T1, T2, T3, L1, L2, L3, R1, R2, R3 |- *.
  subst a1. destruct (reverse_request CommandReverseList NoParams c1) as [c2 a2]. cbn in L1, L2, L3, R1, R2, R3 |- *. subst a2.
  cbn [decode_reverses]. fold before. destruct (remove_reverses _ _ c2) as [c3 code]. cbn in R1, R2, R3 |- *. rewrite R3.
  rewrite app_nil_r in HP. split_and!; [done|congruence|done|done].
Qed.
End server.

(** ** A host that is its server *)

Definition no_params {A} : string → res A := λ _, Err (External 0).
(** An environment in which every call succeeds; the decoders are [with_json]'s. *)
Definition all_well : Outcomes :=
  mkOutcomes no_params no_params no_params no_params no_params
    (inl "127.0.0.1:9000") None None (λ _, None) "now" (λ d, (map_to_list (bySerial d)).*2).

Definition unused {A} (a : A) (s : Server) : Server * A := (s, a).
#[local] Instance server_host : Host Server () := {|
  connectDevice _ := unused None; client_Close := unused (); client_ShellStream _ := unused ([], None);
  client_Logcat _ := unused ([], None); client_GetProp _ := unused (Ok ""); client_Properties := unused (Ok ∅);
  client_Screencap := unused (Ok []); client_Reboot _ := unused None; client_PushFile _ _ := unused None;
  client_PullFileWithOptions _ _ _ := unused None; client_InstallAPKWithOptions _ _ := unused None;
  startForward _ _ := unused (Ok ""); forward_Wait := unused None; forward_Close := unused None;
  startReverse _ _ := unused None; reverse_Wait := unused None; reverse_Close := unused None;
  sendServerRequest _ _ command p s :=
    match exchange sample_text 1 2 all_well command p s with
    | Some (s', Some resp) => (s', Ok resp)
    | Some (s', None) => (s', Err (External 0))
    | None => (s, Err (External 0))
    end;
  startServerProcess _ := unused None; listUSBDevices := unused (Err client_ErrUnsupported); scanTCPTargets := unused (Ok []);
  os_OpenFile _ _ := unused None; file_Write _ := unused None; file_Close := unused None; os_Remove _ := unused None;
  os_MkdirAll _ := unused None; os_WriteFile _ _ := unused None; exec_CombinedOutput _ _ := unused ("", None);
  exec_Run _ _ := unused ([], None);
|}.

#[local] Instance server_runs : RunsServer Server () "/run/adb-gos.sock".
Proof.
  refine {| running := λ s, s; error_texts := sample_text; server_pid := 1; server_uptime := 2 |}; [|done].
  intros command p s Ha. exists (with_json all_well). destruct (exchange_handled sample_text 1 2 all_well command p s Ha) as (raw & Hc & H).
  exists raw. split; [done|]. intros s' resp E Hf. cbn [sendServerRequest server_host]. by rewrite (H s' resp E Hf).
Defined.

(** A server with a device and with a reverse of it and one of another. *)
Definition device_address : string := "127.0.0.1:5555".
Definition sample_reverse (remote address : string) : ReverseCreateParams :=
  mkReverseCreate remote "tcp:8081" (ServerProtocol.mkTarget "tcp" address) false.
Definition after_requests (l : list (Outcomes * Request)) (s : Server) : Server :=
  foldl (λ s p, match handleRequest (fst p) (snd p) s with Some (s', _) => s' | None => s end) s l.
Definition sample_requests : list (Outcomes * Request) :=
  (λ p, (with_json all_well, mkRequest 1 "" (fst p) (snd p))) <$>
  [(CommandDeviceRegister, Marshal (enc (mkDeviceRegister "" "tcp" device_address "")));
   (CommandReverseCreate, Marshal (enc (sample_reverse "tcp:1" device_address)));
   (CommandReverseCreate, Marshal (enc (sample_reverse "tcp:2" "127.0.0.1:5557")))].
Definition busy_server : Server := after_requests sample_requests sample_server.

Lemma after_requests_served l n s :
  Forall (λ p, ∀ q, decodeForwardCreateParams (oc_forward_create (fst p)) (rq_Params (snd p)) ≠ Good q) l → served n s →
  ∃ m, (m ≤ n + length l)%nat ∧ served m (after_requests l s).
Proof.
  revert n s. induction l as [|[oc req] l IH]; intros n s Hl Hs; [exists n; split; [lia|done]|].
  apply Forall_cons in Hl as [Hoc Hl]. cbn [after_requests foldl fst snd] in *.
  destruct (handleRequest oc req s) as [[s' resp]|] eqn:E.
  - destruct (IH (S n) s' Hl) as (m & Hm & H); [|exists m; split; [cbn; lia|done]].
    eapply served_request; [done| |done]. intros q r addr H. by apply Hoc in H.
  - destruct (IH n s Hl Hs) as (m & Hm & H). exists m. split; [cbn; lia|done].
Qed.

Lemma few_active_all l : forallb (λ v, Z.of_nat (rv_ActiveConnections v) <? 10 ^ 15) l = true → Forall few_active l.
Proof. intros H. apply List.Forall_forall. intros v Hv. apply Z.ltb_lt. by apply (proj1 (forallb_forall _ _) H). Qed.

Lemma options_roundtrip_witness :
  @parseGlobalOptions () sample_settings ["-d"; "-H"; "localhost"; "-P"; "5038"; "devices"] =
    Ok (mkOptions "localhost" "5038" (mkSelector targetSelectorUSB ""), "devices", []) ∧
  @parseGlobalOptions () sample_settings ["-d"; "-Hlocalhost"; "-P5038"; "-sX"] = Err second_selector.
Proof.
  pose (opts := mkOptions "localhost" "5038" (mkSelector targetSelectorUSB "")).
  pose (s := mkSelector targetSelectorSerial "X").
  split.
  - by apply (@options_roundtrip () sample_settings false opts s "devices" []).
  - by apply (@options_roundtrip () sample_settings true opts s "devices" []).
Defined.

Lemma remove_all_removes_witness :
  let '(c', code) := @runReverseRemoveAll _ _ server_host sample_settings default_options (mkConsole busy_server []) in
  code = 0 ∧ rv_Remote <$> reverses_of (rreg (reverses busy_server)) = ["tcp:1"; "tcp:2"] ∧
  rv_Remote <$> reverses_of (rreg (reverses (world c'))) = ["tcp:2"].
Proof.
  destruct (after_requests_served sample_requests 0 sample_server) as (m & Hm & Hs);
    [repeat apply List.Forall_cons; try apply List.Forall_nil; intros q; vm_compute; discriminate|apply sample_served|]. cbn in Hm.
  pose proof (@remove_all_removes _ _ server_host sample_settings "/run/adb-gos.sock" server_runs eq_refl m default_options
    (mkConsole busy_server []) (mkCompatTarget device_address "device" "tcp" device_address no_usb)) as H.
  destruct (runReverseRemoveAll default_options _) as [c' code] eqn:E.
  destruct H as (H & _); [exact Hs|lia|by vm_compute|apply few_active_all; by vm_compute|].
  split; [exact H|]. vm_compute in E. injection E as <- <-. by vm_compute.
Defined.
