(* ===== verification/AdbGos.v ===== *)
(** * cmd/adb-gos: the server process

    [run] of main.go over the server of Server.v: the arguments, the socket,
    and the exit code.  The world is what is at the socket path with the server
    of this process; what happens until [Accept] fails is a parameter. *)

From S2P Require Import Prelude Errors GoStrings Strconv Address ServerProtocol Forwards Reverses Server Cli.

#[local] Open Scope string_scope.
#[local] Open Scope Z_scope.
#[local] Open Scope list_scope.

Record machine := mkMachine { socket_node : node; daemon : option Server }.

(** The outcomes of the calls of [NewServer], [Listen] and [Serve]. *)
Record Startup := mkStartup {
  su_env : Environ; su_mkdir : option error; su_lstat : option error; su_ping : res Z; su_remove : option error;
  su_listen : option error;
  su_serving : node → Server → node * Server * error;    (* the requests and the shutdown, and the error of Accept *)
}.

Definition usage : string := "adb-gos is the foreground adb-go server process.

Usage:
  adb-gos [--socket PATH]

The server listens on a Unix domain socket and implements only the minimal
control protocol for ping, status, and shutdown. It does not persist devices,
transports, forwards, sessions, or authentication state yet.

Socket path selection uses --socket when provided, otherwise ADB_GO_SERVER_SOCKET,
then XDG_RUNTIME_DIR, then a per-user temporary directory.
".

Section run.
Context (o : Startup).

Definition gos_Listen (srv : Server) (m : machine) : machine * (Server * option error) :=
  let '(srv', n, err) := Listen srv (socket_node m) (su_mkdir o) (su_lstat o) (su_ping o) (su_remove o) (su_listen o) in
  (mkMachine n (Some srv'), (srv', err)).
Definition gos_Serve (srv : Server) (m : machine) : machine * option error :=
  let '(n, srv', accept_err) := su_serving o (socket_node m) srv in
  (mkMachine n (Some srv'), Serve srv' accept_err).

Definition run (args : list string) : Cmd machine Z :=
  fs ← fs_Parse usage [("socket", VString "")] args;
  match fs with
  | None => mret 2
  | Some fs =>
      if negb (NArg fs =? 0)%nat then usage_error usage "adb-gos: unexpected arguments\n\n" [] else
      match NewServer (su_env o) (get_string fs "socket") with
      | Err err => fprintfV Stderr "adb-gos: %v\n" [] err ;; mret 1
      | Ok srv =>
          r ← act (gos_Listen srv);
          match r with
          | (_, Some err) =>
              (if errors_Is err server_ErrAlreadyRunning then fprintfV Stderr "adb-gos: %v\n" [] err
               else fprintfV Stderr "adb-gos: start server: %v\n" [] err) ;; mret 1
          | (srv, None) =>
              fprintf Stdout "adb-gos listening on %s\n" [AStr (socketPath srv)] ;;
              err ← act (gos_Serve srv);
              match err with
              | Some err => fprintfV Stderr "adb-gos: %v\n" [] err ;; mret 1
              | None => mret 0
              end
          end
      end
  end.
End run.

Definition not_shut_down (o : Startup) (n : node) (s : Server) : Prop :=
  let '(_, s', accept_err) := su_serving o n s in sv_done s' = false ∧ errors_Is accept_err net_ErrClosed = false.

(** What [Listen] comes to, as far as the exit code depends on it. *)
Lemma Listen_outcome o srv n :
  let '(srv', n', err) := Listen srv n (su_mkdir o) (su_lstat o) (su_ping o) (su_remove o) (su_listen o) in
  (n = Other ∨ n = Socket ∧ is_ok (su_ping o) = true → err ≠ None ∧ n' = n) ∧
  (err = None → (n = Absent ∨ n = Socket ∧ is_ok (su_ping o) = false) ∧ n' = Socket ∧ listening_on srv' = true).
Proof.
  unfold Listen, prepareSocketPath. destruct (su_mkdir o), (su_lstat o), n, (su_ping o), (su_remove o), (su_listen o); cbn;
    intuition congruence.
Qed.

(** How adb-gos ends.  With a listener alive at the path, whatever it answers
    a ping, or with something there that is no socket, it ends with 1, or 2 for
    wrong arguments, leaves the path as it was and prints nothing to standard
    output; with 2 it has touched nothing; it ends with 0 only when it has
    listened, in place of nothing or of a dead socket, has printed the path once
    and was shut down. *)
Theorem adb_gos_ends (o : Startup) (args : list string) (m : machine) :
  let '(c', code) := run o args (mkConsole m []) in
  0 ≤ code ≤ 2 ∧
  (code = 2 → world c' = m) ∧
  (socket_node m = Other ∨ socket_node m = Socket ∧ is_ok (su_ping o) = true →
   code ≠ 0 ∧ socket_node (world c') = socket_node m ∧ stdout_of (printed c') = []) ∧
  (code = 0 → ∃ s, (socket_node m = Absent ∨ socket_node m = Socket ∧ is_ok (su_ping o) = false) ∧
     listening_on s = true ∧ stdout_of (printed c') = [Fprintf Stdout "adb-gos listening on %s\n" [AStr (socketPath s)]] ∧
     world c' = fst (gos_Serve o s (mkMachine Socket (Some s))) ∧ ¬ not_shut_down o Socket s).
Proof.
  unfold run, fs_Parse. destruct (parse_flags _ args ∅) as [[|format fargs]|[actual rest]].
  1,2: cbn; split_and!; [lia..|done| |done]; by intros _.
  cbn [mbind Cmd_bind mret Cmd_ret]. unfold mbind, Cmd_bind, mret, Cmd_ret.
  destruct (negb _); [cbn; split_and!; [lia..|done| |done]; by intros _|].
  destruct (NewServer _ _) as [srv|err]; [|cbn; split_and!; [lia..|done| |done]; by intros _].
  destruct m as [n d]. unfold act, gos_Listen. cbn [socket_node world].
  pose proof (Listen_outcome o srv n) as HL.
  destruct (Listen srv n _ _ _ _ _) as [[srv' n'] [err|]]; destruct HL as [HL1 HL2].
  - destruct (errors_Is _ _); cbn; (split_and!; [lia..|done| |done]); intros H; by apply HL1 in H as [_ ->].
  - destruct (HL2 eq_refl) as (Hn & -> & Hl). cbn. destruct (gos_Serve o srv' _) as [m' err] eqn:ES.
    assert (err = None → ¬ not_shut_down o Socket srv') as Hshut.
    { unfold gos_Serve in ES. cbn in ES. unfold not_shut_down. destruct (su_serving o Socket srv') as [[n2 s2] e2].
      injection ES as _ <-. unfold Serve. intros HS [Hd He]. rewrite Hd, He in HS. by destruct (negb _). }
    destruct err as [err|]; cbn; (split_and!; [lia..|done| |]); try done; try (intros H; by apply HL1 in H as [? _]).
    intros _. exists srv'. rewrite ES. split_and!; [done..|by apply Hshut].
Qed.
